(* ===== verification/_CoqProject ===== *)
-Q . S2P
Prelude.v
GlobalAlloc.v
BumpAllocator.v
LinkedListAllocator.v
FixedSizeBlock.v
X86.v
Memory.v
Paging.v
PageTables.v
Vga.v
Terminal.v
Format.v
Logging.v
IoApic.v
LocalApic.v
Pit.v
Symbols.v
Interrupts.v
Locks.v
Gdt.v
PciTypes.v
Pci.v
Report.v
Task.v
Keyboard.v
KeyboardTask.v
KeyboardPath.v
TypedText.v
Acpi.v
System.v
Build.v
Launcher.v
Boot.v
BootRun.v
KernelHeap.v
BootLog.v
