(* ===== verification/Prelude.v ===== *)
(** * Nocciolo, a kernel for x86-64: a verification development

    Nocciolo is a small operating-system kernel in Rust.  It boots through the crate
    bootloader_api, draws text on a framebuffer, sets up a heap, reads the ACPI tables,
    programs the APICs and the interval timer, lists the PCI devices, and runs
    asynchronous tasks.  A host program starts it under an emulator.  This library
    translates that code into Rocq functions and proves what each part does, and what
    the parts do together: the boot as a whole, and the running kernel.

    ** Conventions (this file)

    A Rust function that can panic is a function into [outcome]: [Ret] a result,
    [Panic] with a message, or [Undef] for undefined behaviour, with bind and its
    notation.  Machine integers are [Z]; [add_u], [sub_u] and [mul_u] panic on overflow
    at their width as the dev profile does, [wrap] is a cast.  [result E T] is Rust's
    Result.  State is passed explicitly, as one record per component.  Loops that are
    not structural take a fuel argument; the theorems say how much is enough.
    The file also holds the tactics ([inv_outcome], [inv_arith], [run_bind], [run_u],
    [unfold_u], [zdm], [norm_pow], [solve_defined]), the hint database and the lemmas on
    lists, ranges and bits the other files share.

    Third-party crates and devices are type classes: a class of operations, a class of
    laws that states their documented behaviour, and a concrete instance used by the
    witnesses.  They are the x86_64 crate (X86.v), the fallback heap
    (FixedSizeBlock.v), the font (Vga.v), the I/O APIC chip (IoApic.v), volatile memory
    (LocalApic.v, with what was last written at an address), the timer chip (Pit.v), the PCI host bridge (Pci.v), lock-free
    queues and futures (Task.v), the waker cell (Keyboard.v), the AML interpreter
    (System.v), the descriptor table (Gdt.v), the old interrupt controllers (Boot.v),
    the image builder (Build.v) and the host's operating system (Launcher.v).

    ** Files and the code they model (under src/kernel/src/)

    - GlobalAlloc.v: Layout and the GlobalAlloc trait, the abstract heap and the
      refinement every allocator is to prove; [Dummy] of allocator.rs.
    - BumpAllocator.v, LinkedListAllocator.v, FixedSizeBlock.v: allocator.rs and
      allocator/.  The free lists are nodes in a memory, so a dangling node is
      undefined behaviour and its absence is proved.
    - X86.v: addresses, ports and page tables of the crate x86_64.
    - Memory.v: memory.rs, the frame allocator and the page-table walk.
    - Paging.v: memory.rs, allocator/page.rs, device/acpi/handler.rs and the heap
      initialisation of allocator.rs and main.rs, over the three global objects.
      PageTables.v: the walk of Memory.v over the tables that Paging.v builds; its
      module [Tables] is a concrete mapper with four levels of tables.
    - Vga.v, Logging.v: vga_text_buffer.rs, meta/console.rs, logging.rs, serial.rs.
      Format.v: the integers and strings of crate core's formatting.  Terminal.v: the
      console's specification, a terminal of glyphs without bytes, and the refinement.
    - IoApic.v, LocalApic.v: interrupts/apic/.
    - Pit.v: device/pit.rs.  Interrupts.v: interrupts.rs, every handler with what it
      reports, against an interface for the keyboard task ([ScancodeSink]) that
      KeyboardPath.v implements.  Gdt.v: gdt.rs and [init_idt], with what they leave in the processor.
    - Locks.v: the spin locks of the kernel (all files with a [Mutex]): the lock
      operations of the functions that run with interrupts enabled and of the handlers,
      on a machine with one processor, on which interrupts come where they are enabled
      and exceptions anywhere.
    - PciTypes.v, Pci.v: device/pci/ and device/net/intel_8254x.rs.  Report.v: the
      records device/pci/mod.rs logs.
    - Task.v, Keyboard.v: task/.  KeyboardTask.v puts them together: the executor's
      loop with the one task of the kernel, and the keyboard interrupt, which may come in
      the middle of a backspace, the one use of the console with interrupts enabled; a
      warning of [add_scancode] there has two references to the console and is [Undef].
      KeyboardPath.v
      adds the interrupts of Interrupts.v, from the keyboard controller's port on;
      TypedText.v follows the keys to the pixels, with Terminal.v.
    - Acpi.v: device/acpi/mod.rs, device/acpi/rsdp.rs, device/mod.rs.
    - System.v: meta/system.rs.  Symbols.v: meta/symbols.rs.
    - Boot.v: main.rs, that is [kernel_main], [init] and the panic handler, over one
      record with the state of every component; [verdict] is how a part of it ends.
      BootRun.v: the run of a boot on a machine as the kernel expects it.
      KernelHeap.v: requests to the heap of the booted kernel, and the physical memory
      behind its blocks.  BootLog.v: the screen after the boot, after the countdown of
      [kernel_main], and while a user types.
    - Build.v, Launcher.v: src/os/build.rs, the older src/build.rs and
      src/os/src/main.rs, which run on the host: the disk images, the environment
      variables, the command the launcher starts.

    ** What is proved

    - Heaps: each allocator refines the abstract heap over every legal sequence of
      calls, so blocks are inside the heap, aligned and disjoint, and no legal call
      panics, except the linked list for layouts close to [isize::MAX]; the linked list
      fails only if no region fits, and reuses freed blocks; memory lost to alignment is accounted for.
      After the boot every byte of a live block translates to a physical address that
      no other live block has ([allocations_own_memory]), and a request that cannot be
      served is reported and ends in a panic ([failed_allocation_panics]).
    - Memory: frames are handed out once and only from usable regions; the page-table
      walk computes the hardware's translation; mapping a physical region reaches every
      byte of it and disturbs nothing, unmapping restores the address space, and the
      heap ends up mapped; the kernel's own walk follows what it mapped
      ([mapped_region_translates], [heap_translates]).  The laws of the mapper promise
      success only while the frame allocator has a frame for each missing table and the
      tables are where the mapper can write, so every theorem carries the frames that
      are left.  Memory access for AML and loading the ACPI tables are proved on top of
      these.
    - Console: a character draws its glyph and nothing else, no string panics on a
      well-formed framebuffer, escape sequences and log colours select colours.  Over
      all: the pixels are the picture of an abstract terminal, whatever the format and
      the stride of the framebuffer ([console_refines_terminal]), and a line of text can
      be read off the screen, cell by cell ([line_legible]).
    - Interrupts and devices: redirection entries round-trip, what initialisation
      programs into the I/O APIC, the local APIC and the timer, which vector reaches
      which handler, exceptions that change nothing but what is reported
      ([exceptions_only_report]), the tick counter under its lock, PCI configuration access and
      enumeration, the shutdown on every path.
    - Concurrency: the executor never halts with a ready task and is back at its queue
      within three steps, no scancode is lost,
      the tick counter is consistent; each by an invariant of a step relation in which
      interrupts fall between any two steps.  The locks: a discipline that rules out
      deadlocks and two owners, which all but two functions follow
      ([kernel_locks_safe], [uptime_deadlocks], [backspace_two_writers]).
    - Whole boot: on a machine with a framebuffer, enough memory, working ACPI tables
      and documented controllers, [init] finishes without a panic and the page tables,
      the heap and the controllers are as the kernel needs them ([boot_succeeds]); the
      devices are logged as they are found, and the screen shows the whole log
      ([boot_log_on_screen]); [kernel_main] never leaves its first sleep
      ([kernel_main_stays_asleep]), since neither the controllers nor the local APIC, as
      they are programmed, can raise the timer's vector, though with a timer that ticks it would count down
      and request the shutdown ([kernel_main_counts_down]); panics end ([panics_end]), also without a
      framebuffer.
    - Running kernel: a halted processor has printed every accepted key, and when no
      interrupt comes the kernel does halt, in a bounded number of steps, or panics where
      printing the pending keys does; every byte
      read from the keyboard controller, through the descriptor table, is then on the
      console as a key or as a warning ([bytes_read_are_shown]), and every pixel of the
      screen is the terminal's picture of that session ([typed_text_on_screen]), below
      the log of the boot ([typing_after_boot]).  These hold of the runs without undefined
      behaviour, which needs a backspace in progress and a full queue of scancodes.
    - Types: the enumeration keeps every integer in the range of its Rust type
      ([init_typed]).
    - Host: the launcher starts the selected command, at most once, whatever fails.
    - Defects: where the code does not do what it means to, the theorem states what it
      does; these say so in their comment (for example [kernel_main_stays_asleep],
      [wake_ups_overflow], [bus_mastering_not_enabled], [double_fault_stack_unused]).

    ** Bounds and fuel

    The walks over free lists and the enumeration of PCI slots are structural or have
    fixed bounds from the code (256 buses, 32 devices).  [do_map_region] is given one
    step more than the pages of the region.  [find_region] is given one step more
    than the nodes in memory; the invariant shows that a list cannot be longer.
    [run_ready_tasks] needs more fuel than the ready entries and the wake-ups still to
    come, [sleep] more than the milliseconds asked for, [frames] more than the frames
    on the stack; running out is a distinct result, never a success.  [kernel_run] is
    given six steps for each queued scancode, five for each ready entry and eleven more, [panics]
    two runs of the handler.  The digits of an integer are at most 20, those of
    [u64::MAX].  A mapped page takes at most three frames for
    new tables.  The page allocator's window is bounded by a [limit], below which pages
    are free, and not by all of memory: the kernel's own image and the physical memory are
    mapped above.  A boot is given 16 MiB of it ([boot_window]), from 0x1000000000, and
    the pages of the heap; the tables of the witnesses have the image at 0x8000000000.
    In a boot the crates acpi and aml may use 4 MiB of the window for
    mappings each and the tables of the firmware as much, the memory map has at least 64 MiB of usable frames, and the messages
    of the log are at most 400 characters long; the frames and the window are enough for
    the heap, the tables and the devices, and the cursor stays far below its bound.

    ** Not modelled

    The UART, the decoding of scancodes, the parsing of ELF files and of AML and the
    building of disk images, which belong to crates; what crates log themselves
    through the kernel's logger; [BOOTLOADER_CONFIG], which only the bootloader reads, and [crash_test], which
    writes to address zero; the conversions between error types that only wrap a
    value; traces inside ACPI, APIC and shutdown code, which go to the serial line
    only, and two error records of meta/system.rs that print a structure of a crate
    just before a panic; the test runner and the declarations without behaviour (imports,
    newtypes with their constructors, statics that only wrap a lock); timing, caches and
    more than one processor.  Spin locks are modelled in Locks.v, the tick counter's also in
    Interrupts.v with its value and ACPI_DATA's in System.v; in the other files they are
    free, as they are on one processor when the discipline of Locks.v holds. *)

From stdpp Require Export base tactics numbers list gmap strings relations.
#[global] Open Scope Z_scope.

(** ** Results of code that may panic

    Every Rust function that can reach [panic!], a failed [assert!], an
    [unwrap] of [None], an out-of-bounds index or (the dev profile) an
    arithmetic overflow returns an [outcome].  [Undef] is undefined behaviour:
    an [unsafe] operation applied outside its contract. *)

Inductive outcome (A : Type) : Type :=
| Ret (a : A)
| Panic (msg : string)
| Undef (msg : string).
Arguments Ret {A} _.
Arguments Panic {A} _.
Arguments Undef {A} _.

#[global] Instance outcome_ret : MRet outcome := @Ret.
#[global] Instance outcome_bind : MBind outcome := λ A B f m,
  match m with
  | Ret a => f a
  | Panic msg => Panic msg
  | Undef msg => Undef msg
  end.
#[global] Instance outcome_fmap : FMap outcome := λ A B f m,
  match m with
  | Ret a => Ret (f a)
  | Panic msg => Panic msg
  | Undef msg => Undef msg
  end.

#[global] Instance outcome_eq_dec {A} `{EqDecision A} : EqDecision (outcome A).
Proof. solve_decision. Defined.

(** [Option::expect] and [Option::unwrap]. *)
Definition expect {A} (msg : string) (o : option A) : outcome A :=
  match o with Some a => Ret a | None => Panic msg end.
Definition unwrap {A} (o : option A) : outcome A :=
  expect "called Option::unwrap() on a None value" o.

(** [assert!] and, in the dev profile, [debug_assert!]. *)
Definition assert_that (b : bool) (msg : string) : outcome unit :=
  if b then Ret () else Panic msg.

(** [Result<T, E>] is [E + T] with [Ok] on the right. *)
Abbreviation result E T := (sum E T).
Abbreviation Ok := inr.
Abbreviation Err := inl.
Definition ok_or {E T} (e : E) (o : option T) : result E T :=
  match o with Some t => Ok t | None => Err e end.

Definition is_ret {A} (m : outcome A) : bool :=
  match m with Ret _ => true | _ => false end.

Lemma bind_Ret {A B} (f : A → outcome B) (m : outcome A) b :
  m ≫= f = Ret b ↔ ∃ a, m = Ret a ∧ f a = Ret b.
Proof. destruct m; naive_solver. Qed.

Lemma bind_bind {A B C} (m : outcome A) (f : A → outcome B) (g : B → outcome C) :
  (m ≫= f) ≫= g = m ≫= λ a, f a ≫= g.
Proof. by destruct m. Qed.

Lemma bind_ext_Ret {A B} (m : outcome A) (f g : A → outcome B) :
  (∀ a, m = Ret a → f a = g a) → m ≫= f = m ≫= g.
Proof. destruct m; simpl; auto. Qed.

Lemma fmap_Ret {A B} (f : A → B) (m : outcome A) b :
  f <$> m = Ret b ↔ ∃ a, m = Ret a ∧ b = f a.
Proof. destruct m; naive_solver. Qed.

Lemma assert_that_Ret b msg u : assert_that b msg = Ret u ↔ b = true ∧ u = ().
Proof. destruct b, u; unfold assert_that; naive_solver. Qed.

Lemma expect_Ret {A} msg (o : option A) a : expect msg o = Ret a ↔ o = Some a.
Proof. destruct o; unfold expect; naive_solver. Qed.

Lemma unwrap_Ret {A} (o : option A) a : unwrap o = Ret a ↔ o = Some a.
Proof. apply expect_Ret. Qed.

(** Peel the successful run of an [outcome] computation in the hypotheses. *)
Ltac inv_outcome :=
  repeat match goal with
  | H : _ ≫= _ = Ret _ |- _ =>
      let a := fresh "v" in let Ha := fresh "Hrun" in
      apply bind_Ret in H as (a & Ha & H)
  | H : _ <$> _ = Ret _ |- _ =>
      let a := fresh "v" in apply fmap_Ret in H as (a & H & ?)
  | H : assert_that _ _ = Ret _ |- _ => apply assert_that_Ret in H as [H ?]
  | H : expect _ _ = Ret _ |- _ => apply expect_Ret in H
  | H : unwrap _ = Ret _ |- _ => apply unwrap_Ret in H
  | H : Ret _ = Ret _ |- _ => injection H as H
  | H : mret _ = Ret _ |- _ => injection H as H
  | H : Panic _ = Ret _ |- _ => discriminate H
  | H : Undef _ = Ret _ |- _ => discriminate H
  | x : unit |- _ => destruct x
  | _ => progress simplify_eq/=
  end.

(** ** Machine integers

    An unsigned [w]-bit integer is a [Z] in [[0, 2^w)].  [add_u], [sub_u] and
    [mul_u] are Rust's [+], [-] and [*] with overflow checks; [checked_add] is
    the method of the same name; [wrap] is an [as] cast to [w] bits. *)

Definition in_u (w x : Z) : Prop := 0 ≤ x < 2 ^ w.
Definition in_ub (w x : Z) : bool := (0 <=? x) && (x <? 2 ^ w).
#[global] Instance in_u_dec w x : Decision (in_u w x).
Proof. unfold in_u. apply _. Defined.

Definition wrap (w x : Z) : Z := x `mod` 2 ^ w.

Definition checked (w x : Z) : option Z := if in_ub w x then Some x else None.
Definition checked_add (w a b : Z) : option Z := checked w (a + b).
Definition add_u (w a b : Z) : outcome Z :=
  expect "attempt to add with overflow" (checked w (a + b)).
Definition sub_u (w a b : Z) : outcome Z :=
  expect "attempt to subtract with overflow" (checked w (a - b)).
Definition mul_u (w a b : Z) : outcome Z :=
  expect "attempt to multiply with overflow" (checked w (a * b)).

(** [usize] and [u64] on x86-64. *)
Abbreviation usize := 64.
Definition usize_max : Z := 2 ^ 64 - 1.

Lemma in_ub_spec w x : in_ub w x = true ↔ in_u w x.
Proof. unfold in_ub, in_u. rewrite andb_true_iff, Z.leb_le, Z.ltb_lt. done. Qed.

Lemma checked_Some w x y : checked w x = Some y ↔ y = x ∧ in_u w x.
Proof.
  unfold checked. destruct (in_ub w x) eqn:E.
  - apply in_ub_spec in E. naive_solver.
  - split; [done|]. intros [_ H%in_ub_spec]. congruence.
Qed.

Lemma checked_in w x : in_u w x → checked w x = Some x.
Proof. intros. by apply checked_Some. Qed.

Lemma checked_None w x : checked w x = None ↔ ¬ in_u w x.
Proof.
  unfold checked. destruct (in_ub w x) eqn:E; rewrite <-in_ub_spec; rewrite E; naive_solver.
Qed.

Lemma checked_add_Some w a b c : checked_add w a b = Some c ↔ c = a + b ∧ in_u w (a + b).
Proof. apply checked_Some. Qed.
Lemma add_u_Ret w a b c : add_u w a b = Ret c ↔ c = a + b ∧ in_u w (a + b).
Proof. unfold add_u. rewrite expect_Ret. apply checked_Some. Qed.
Lemma sub_u_Ret w a b c : sub_u w a b = Ret c ↔ c = a - b ∧ in_u w (a - b).
Proof. unfold sub_u. rewrite expect_Ret. apply checked_Some. Qed.
Lemma mul_u_Ret w a b c : mul_u w a b = Ret c ↔ c = a * b ∧ in_u w (a * b).
Proof. unfold mul_u. rewrite expect_Ret. apply checked_Some. Qed.

Lemma add_u_in w a b : in_u w (a + b) → add_u w a b = Ret (a + b).
Proof. intros. by apply add_u_Ret. Qed.
Lemma sub_u_in w a b : in_u w (a - b) → sub_u w a b = Ret (a - b).
Proof. intros. by apply sub_u_Ret. Qed.
Lemma mul_u_in w a b : in_u w (a * b) → mul_u w a b = Ret (a * b).
Proof. intros. by apply mul_u_Ret. Qed.

Lemma wrap_in w x : 0 ≤ w → in_u w (wrap w x).
Proof. intros. unfold wrap, in_u. apply Z.mod_pos_bound. by apply Z.pow_pos_nonneg. Qed.
Lemma wrap_small w x : in_u w x → wrap w x = x.
Proof. unfold wrap, in_u. apply Z.mod_small. Qed.

Ltac inv_arith :=
  repeat match goal with
  | H : add_u _ _ _ = Ret _ |- _ => apply add_u_Ret in H as [? H]
  | H : sub_u _ _ _ = Ret _ |- _ => apply sub_u_Ret in H as [? H]
  | H : mul_u _ _ _ = Ret _ |- _ => apply mul_u_Ret in H as [? H]
  | H : checked_add _ _ _ = Some _ |- _ => apply checked_add_Some in H as [? H]
  end.

(** [in_u w] at a literal width, as two inequalities [lia] can use. *)
Ltac unfold_u :=
  unfold in_u, usize_max in *;
  change (2 ^ 1) with 2 in *; change (2 ^ 8) with 256 in *;
  change (2 ^ 16) with 65536 in *; change (2 ^ 32) with 4294967296 in *;
  change (2 ^ 63) with 9223372036854775808 in *;
  change (2 ^ 64) with 18446744073709551616 in *.

(** Arithmetic that does not overflow, decided by [lia]. *)
Create HintDb nocciolo.
#[export] Hint Rewrite add_u_in sub_u_in mul_u_in using (unfold_u; lia) : nocciolo.
Ltac run_u := autorewrite with nocciolo.

(** Run the head of a bind whose first part is a [Ret]. *)
Ltac run_bind := cbn [mbind outcome_bind].
Tactic Notation "run_bind" "in" hyp(H) := cbn [mbind outcome_bind] in H.

(** *** Code without undefined behaviour *)

Definition defined {A} (m : outcome A) : Prop := match m with Undef _ => False | _ => True end.

Lemma defined_bind {A B} (m : outcome A) (f : A → outcome B) :
  defined m → (∀ a, defined (f a)) → defined (m ≫= f).
Proof. destruct m; simpl; auto. Qed.
Lemma defined_add w a b : defined (add_u w a b).
Proof. unfold add_u. by destruct (checked w _). Qed.
Lemma defined_sub w a b : defined (sub_u w a b).
Proof. unfold sub_u. by destruct (checked w _). Qed.
Lemma defined_mul w a b : defined (mul_u w a b).
Proof. unfold mul_u. by destruct (checked w _). Qed.
Lemma defined_expect {A} msg (o : option A) : defined (expect msg o).
Proof. by destruct o. Qed.
Lemma defined_unwrap {A} (o : option A) : defined (unwrap o).
Proof. by destruct o. Qed.
Lemma defined_assert b msg : defined (assert_that b msg).
Proof. by destruct b. Qed.
#[export] Hint Resolve defined_add defined_sub defined_mul defined_expect defined_unwrap defined_assert : nocciolo.
Ltac solve_defined :=
  repeat match goal with
  | |- defined (_ ≫= _) => apply defined_bind; [|intros ?]
  | |- defined (match ?x with _ => _ end) => destruct x
  | |- defined _ => solve [auto with nocciolo | exact I]
  end.

(** Evaluate literal powers of two. *)
Ltac norm_pow :=
  repeat match goal with
  | |- context [2 ^ Zpos ?n] => let v := eval vm_compute in (2 ^ Zpos n) in change (2 ^ Zpos n) with v
  | H : context [2 ^ Zpos ?n] |- _ =>
      let v := eval vm_compute in (2 ^ Zpos n) in change (2 ^ Zpos n) with v in H
  end.

(** [lia] with division and remainder by literals. *)
Ltac zdm := Z.to_euclidean_division_equations; lia.

(** ** Bit fields

    Registers are packed with shifts and bitwise or and unpacked with shifts
    and masks.  These lemmas turn both into arithmetic, where [lia] decides
    the round trips. *)

Lemma land_ones_mod a n : 0 ≤ n → Z.land a (2 ^ n - 1) = a `mod` 2 ^ n.
Proof. intros. rewrite <-Z.land_ones by done. by rewrite Z.ones_equiv, Z.sub_1_r. Qed.

(** A word whose low [n] bits are clear, or-ed with one that only has those. *)
Lemma lor_disjoint_add a b n :
  0 ≤ n → 0 ≤ a < 2 ^ n → b `mod` 2 ^ n = 0 → Z.lor b a = b + a.
Proof.
  intros Hn Ha Hb. symmetry. apply Z.add_nocarry_lor, Z.bits_inj'. intros i Hi.
  rewrite Z.land_spec, Z.bits_0.
  destruct (decide (i < n)).
  - by rewrite <-(Z.mod_pow2_bits_low b n i), Hb, Z.bits_0 by lia.
  - rewrite <-(Z.mod_small a (2 ^ n)), Z.mod_pow2_bits_high by lia.
    apply andb_false_r.
Qed.

Lemma lor_shiftl_add a b n :
  0 ≤ n → 0 ≤ a < 2 ^ n → Z.lor a (Z.shiftl b n) = a + b * 2 ^ n.
Proof.
  intros Hn Ha. rewrite Z.lor_comm, (lor_disjoint_add a (Z.shiftl b n) n), Z.shiftl_mul_pow2;
    [lia|done..|].
  by rewrite Z.shiftl_mul_pow2, Z.mod_mul by lia.
Qed.

(** A mask with bits only below [n], written as a literal in the source. *)
Lemma land_mask_mod a n m : 0 ≤ n → m = 2 ^ n - 1 → Z.land a m = a `mod` 2 ^ n.
Proof. intros ? ->. by apply land_ones_mod. Qed.

Lemma shiftr_div a n : 0 ≤ n → Z.shiftr a n = a `div` 2 ^ n.
Proof. apply Z.shiftr_div_pow2. Qed.

Lemma land_1_bit (x : Z) : 0 ≤ x ≤ 1 → Z.land x 1 = x.
Proof. intros. assert (x = 0 ∨ x = 1) as [-> | ->] by lia; done. Qed.

(** Bitwise or stays within the width of its operands. *)
Lemma in_u_bits w x : 0 ≤ w → in_u w x ↔ 0 ≤ x ∧ ∀ i, w ≤ i → Z.testbit x i = false.
Proof.
  intros Hw. split.
  - intros [H0 Hx]. split; [done|]. intros i Hi. rewrite <-(Z.mod_small x (2 ^ w)) by done.
    by apply Z.mod_pow2_bits_high.
  - intros [H0 Hb]. split; [done|]. destruct (decide (x < 2 ^ w)) as [|Hge]; [done|].
    assert (0 < x) as Hpos by (pose proof (Z.pow_pos_nonneg 2 w); lia).
    exfalso. specialize (Hb (Z.log2 x)). rewrite Z.bit_log2 in Hb by done.
    discriminate Hb. apply Z.log2_le_pow2; lia.
Qed.
Lemma in_u_lor w a b : 0 ≤ w → in_u w a → in_u w b → in_u w (Z.lor a b).
Proof.
  intros Hw [H1 H2]%in_u_bits [H3 H4]%in_u_bits; [|done..]. apply in_u_bits; [done|].
  split; [by apply Z.lor_nonneg|]. intros i Hi. by rewrite Z.lor_spec, H2, H4.
Qed.
Lemma in_u_land w a b : 0 ≤ w → 0 ≤ a → in_u w b → in_u w (Z.land a b).
Proof.
  intros Hw Ha [H3 H4]%in_u_bits; [|done..]. apply in_u_bits; [done|].
  split; [apply Z.land_nonneg; by left|]. intros i Hi. by rewrite Z.land_spec, H4, andb_false_r.
Qed.
Lemma in_u_weaken w w' x : 0 ≤ w ≤ w' → in_u w x → in_u w' x.
Proof. unfold in_u. intros Hw Hx. pose proof (Z.pow_le_mono_r 2 w w'). lia. Qed.

(** ** Lists *)

(** [Iterator::position]: the index of the first element satisfying [p]. *)
Fixpoint position {A} (p : A → bool) (l : list A) : option nat :=
  match l with
  | [] => None
  | x :: l => if p x then Some 0%nat else S <$> position p l
  end.

Lemma position_Some {A} (p : A → bool) l i :
  position p l = Some i ↔
  (∃ x, l !! i = Some x ∧ p x = true) ∧ ∀ j y, (j < i)%nat → l !! j = Some y → p y = false.
Proof.
  revert i. induction l as [|x l IH]; intros i; simpl; [naive_solver|].
  destruct (p x) eqn:Hp.
  - split.
    + intros [= <-]. split; [naive_solver|lia].
    + intros [(y & Hy & Hpy) Hmin]. destruct i as [|i]; [done|].
      specialize (Hmin 0%nat x ltac:(lia) eq_refl). congruence.
  - rewrite fmap_Some. split.
    + intros (k & Hk & ->). apply IH in Hk as [Hex Hmin]. split; [done|].
      intros [|j] y Hj Hy; simplify_eq/=; [done|]. apply (Hmin j); [lia|done].
    + intros [(y & Hy & Hpy) Hmin]. destruct i as [|i]; simplify_eq/=; [congruence|].
      exists i. split; [|done]. apply IH. split; [eauto|].
      intros j z Hj Hz. apply (Hmin (S j)); [lia|done].
Qed.

Lemma position_None {A} (p : A → bool) l :
  position p l = None ↔ ∀ x, x ∈ l → p x = false.
Proof.
  induction l as [|x l IH]; simpl; [set_solver|].
  destruct (p x) eqn:Hp.
  - split; [done|]. intros H. rewrite H in Hp by left. done.
  - rewrite fmap_None, IH. set_solver.
Qed.

(** Pairwise properties: every two distinct positions are related. *)
Definition pairwise {A} (R : A → A → Prop) (l : list A) : Prop :=
  ∀ i j x y, i ≠ j → l !! i = Some x → l !! j = Some y → R x y.

Lemma pairwise_nil {A} (R : A → A → Prop) : pairwise R [].
Proof. intros i j x y _ H. by rewrite lookup_nil in H. Qed.

Lemma pairwise_cons {A} (R : A → A → Prop) `{!Symmetric R} x l :
  pairwise R (x :: l) ↔ (∀ y, y ∈ l → R x y) ∧ pairwise R l.
Proof.
  split.
  - intros H. split.
    + intros y [j Hj]%list_elem_of_lookup. apply (H 0%nat (S j)); done.
    + intros i j a b Hij Ha Hb. apply (H (S i) (S j)); [congruence|done..].
  - intros [Hx Hl] [|i] [|j] a b Hij Ha Hb; simplify_eq/=; [| |apply (Hl i j); [congruence|done..]].
    + eapply Hx, list_elem_of_lookup_2, Hb.
    + symmetry. eapply Hx, list_elem_of_lookup_2, Ha.
Qed.

Lemma pairwise_Permutation {A} (R : A → A → Prop) `{!Symmetric R} l1 l2 :
  l1 ≡ₚ l2 → pairwise R l1 → pairwise R l2.
Proof.
  induction 1 as [|x l1 l2 Hp IH|x y l|l1 l2 l3 _ IH1 _ IH2]; [done| | |by auto].
  - rewrite !pairwise_cons by done. intros [Hx Hl]. split; [|by auto].
    intros y Hy. apply Hx. by rewrite Hp.
  - rewrite !pairwise_cons by done. intros (H1 & H2 & H3). repeat split; [|set_solver|done].
    intros z [->|Hz]%elem_of_cons; [symmetry; apply H1; left|by apply H2].
Qed.

Lemma pairwise_app {A} (R : A → A → Prop) `{!Symmetric R} l1 l2 :
  pairwise R (l1 ++ l2) ↔
  pairwise R l1 ∧ pairwise R l2 ∧ ∀ x y, x ∈ l1 → y ∈ l2 → R x y.
Proof.
  induction l1 as [|x l1 IH]; simpl; [pose proof (pairwise_nil R); set_solver|].
  rewrite !pairwise_cons, IH by done. set_solver.
Qed.

(** ** Half-open address ranges *)

Record range := Range { r_start : Z; r_size : Z }.
Definition r_end (r : range) : Z := r_start r + r_size r.
Definition in_range (r : range) (a : Z) : Prop := r_start r ≤ a < r_end r.
Definition disjoint_range (r1 r2 : range) : Prop := ∀ a, ¬ (in_range r1 a ∧ in_range r2 a).
Definition subrange (r1 r2 : range) : Prop := ∀ a, in_range r1 a → in_range r2 a.

#[global] Instance disjoint_range_sym : Symmetric disjoint_range.
Proof. intros r1 r2 H a [H1 H2]. by apply (H a). Qed.

Lemma disjoint_range_alt r1 r2 :
  r_end r1 ≤ r_start r2 ∨ r_end r2 ≤ r_start r1 → disjoint_range r1 r2.
Proof. unfold disjoint_range, in_range. lia. Qed.

Lemma disjoint_range_sub r1 r2 r : subrange r1 r2 → disjoint_range r2 r → disjoint_range r1 r.
Proof. intros Hs Hd a [H1 H2]. apply (Hd a). auto. Qed.

Lemma subrange_bounds r1 r2 :
  r_start r2 ≤ r_start r1 → r_end r1 ≤ r_end r2 → subrange r1 r2.
Proof. unfold subrange, in_range. lia. Qed.

(** Splitting one of a set of disjoint ranges into disjoint parts of it. *)
Lemma disjoint_split r rest parts :
  pairwise disjoint_range (r :: rest) → pairwise disjoint_range parts →
  (∀ p, p ∈ parts → subrange p r) → pairwise disjoint_range (parts ++ rest).
Proof.
  rewrite pairwise_cons by apply _. intros [Hr Hrest] Hparts Hsub.
  rewrite pairwise_app by apply _. split; [done|]. split; [done|].
  intros p q Hp Hq. eapply disjoint_range_sub; eauto.
Qed.

(** ** Invariants of step relations *)

Lemma rtc_invariant {A} (R : relation A) (P : A → Prop) x y :
  P x → (∀ x y, P x → R x y → P y) → rtc R x y → P y.
Proof. intros Hx Hstep. induction 1; eauto. Qed.

#[export] Hint Resolve pairwise_nil disjoint_range_alt subrange_bounds : nocciolo.
