(* ===== verification/GlobalAlloc.v ===== *)
(** * The heap contract shared by the kernel's allocators

    [core::alloc::Layout], the [GlobalAlloc] trait of the Rust standard library
    as a class, and an abstract specification of a heap: a set of live blocks
    that are pairwise disjoint, aligned and inside the heap.  [HeapSpec] is what
    an allocator proves of itself; [impl_refines] turns it into a simulation of
    the abstract heap by every legal sequence of calls.  The allocators of
    kernel/src/allocator/ are instances, in the files that follow. *)

From S2P Require Import Prelude.

(** ** [core::alloc::Layout] *)

Record Layout := mk_layout { l_size : Z; l_align : Z }.
#[global] Instance Layout_eq_dec : EqDecision Layout.
Proof. solve_decision. Defined.

Definition isize_max : Z := 2 ^ 63 - 1.
Definition is_power_of_two (a : Z) : bool := (0 <? a) && (a =? 2 ^ Z.log2 a).

(** [Layout::from_size_align]: the alignment is a power of two and the size,
    rounded up to it, does not exceed [isize::MAX]. *)
Definition from_size_align (size align : Z) : option Layout :=
  if is_power_of_two align && (size <=? isize_max - (align - 1))
  then Some (mk_layout size align) else None.

(** [Layout::align_to] and [Layout::pad_to_align]. *)
Definition align_to (l : Layout) (align : Z) : option Layout :=
  from_size_align (l_size l) (Z.max (l_align l) align).
Definition pad_to_align (l : Layout) : Layout :=
  mk_layout ((l_size l + l_align l - 1) `div` l_align l * l_align l) (l_align l).

Definition layout_ok (l : Layout) : Prop :=
  0 ≤ l_size l ∧ from_size_align (l_size l) (l_align l) = Some l.
#[global] Instance layout_ok_dec l : Decision (layout_ok l).
Proof. unfold layout_ok. apply _. Defined.

(** What a caller of [GlobalAlloc::alloc] must pass: a layout of non-zero size. *)
Definition request_ok (l : Layout) : Prop := layout_ok l ∧ 0 < l_size l.
#[global] Instance request_ok_dec l : Decision (request_ok l).
Proof. unfold request_ok. apply _. Defined.

Lemma is_power_of_two_spec a :
  is_power_of_two a = true ↔ ∃ k, 0 ≤ k ∧ a = 2 ^ k.
Proof.
  unfold is_power_of_two. rewrite andb_true_iff, Z.ltb_lt, Z.eqb_eq. split.
  - intros [? ?]. exists (Z.log2 a). split; [apply Z.log2_nonneg|done].
  - intros (k & Hk & ->). rewrite Z.log2_pow2 by done. split; [|done].
    by apply Z.pow_pos_nonneg.
Qed.

Lemma from_size_align_Some size align l :
  from_size_align size align = Some l ↔
  l = mk_layout size align ∧ is_power_of_two align = true ∧ size + align ≤ 2 ^ 63.
Proof.
  unfold from_size_align, isize_max.
  destruct (is_power_of_two align); simpl; [|naive_solver].
  destruct (size <=? _) eqn:E; rewrite ?Z.leb_le, ?Z.leb_gt in E;
    split; intros; destruct_and?; simplify_eq; repeat split; lia.
Qed.

(** The larger of two powers of two is a multiple of the other. *)
Lemma pow2_divide a b :
  is_power_of_two a = true → is_power_of_two b = true → a ≤ b → (a | b).
Proof.
  intros (j & Hj & ->)%is_power_of_two_spec (k & Hk & ->)%is_power_of_two_spec Hle.
  apply Z.pow_le_mono_r_iff in Hle; [|lia..].
  exists (2 ^ (k - j)). rewrite <-Z.pow_add_r by lia. f_equal. lia.
Qed.

Lemma is_power_of_two_pos a : is_power_of_two a = true → 0 < a.
Proof. intros (k & Hk & ->)%is_power_of_two_spec. by apply Z.pow_pos_nonneg. Qed.

Lemma is_power_of_two_max a b :
  is_power_of_two a = true → is_power_of_two b = true → is_power_of_two (Z.max a b) = true.
Proof. destruct (Z.max_spec a b) as [[_ ->]|[_ ->]]; done. Qed.

Lemma layout_ok_elim l :
  layout_ok l →
  0 ≤ l_size l ∧ 0 < l_align l ∧ is_power_of_two (l_align l) = true ∧
  l_size l + l_align l ≤ 2 ^ 63.
Proof.
  intros [? (_ & Hp & ?)%from_size_align_Some]. pose proof (is_power_of_two_pos _ Hp). done.
Qed.

Lemma pad_to_align_bounds l :
  layout_ok l → l_size l ≤ l_size (pad_to_align l) < l_size l + l_align l.
Proof.
  intros (? & ? & _ & _)%layout_ok_elim. simpl.
  pose proof (Z.div_mod (l_size l + l_align l - 1) (l_align l)).
  pose proof (Z.mod_pos_bound (l_size l + l_align l - 1) (l_align l)). lia.
Qed.

Lemma pad_to_align_divide l : (l_align l | l_size (pad_to_align l)).
Proof. apply Z.divide_factor_r. Qed.

(** ** [GlobalAlloc]

    A raw pointer is its address and the null pointer is [0].  [ga_alloc] and
    [ga_dealloc] take the state behind the allocator's lock and return it. *)

Class GlobalAlloc (A : Type) := {
  ga_alloc : A → Layout → outcome (Z * A);
  ga_dealloc : A → Z → Layout → outcome A;
}.
#[global] Hint Mode GlobalAlloc ! : typeclass_instances.

(** A block the client owns: the pointer and the layout it asked for. *)
Record block := Block { b_ptr : Z; b_layout : Layout }.
Definition b_range (b : block) : range := Range (b_ptr b) (l_size (b_layout b)).

(** Disjoint blocks that are not empty have distinct addresses. *)
Lemma disjoint_NoDup_ptr (bs : list block) :
  Forall (λ b, 0 < l_size (b_layout b)) bs → pairwise disjoint_range (b_range <$> bs) →
  NoDup (b_ptr <$> bs).
Proof.
  induction bs as [|b bs IH]; simpl; [constructor|].
  intros [Hb Hbs]%Forall_cons. rewrite pairwise_cons by apply _. intros [Hd Hds].
  apply NoDup_cons. split; [|auto]. intros (b' & Heq & Hb')%list_elem_of_fmap.
  rewrite Forall_forall in Hbs. specialize (Hbs b' Hb').
  apply (Hd (b_range b') (list_elem_of_fmap_2 b_range _ _ Hb') (b_ptr b)).
  unfold in_range, b_range, r_end. simpl. lia.
Qed.

(** A block lies in the heap at an address its alignment divides. *)
Definition block_ok (heap : range) (b : block) : Prop :=
  subrange (b_range b) heap ∧ (l_align (b_layout b) | b_ptr b) ∧ b_ptr b ≠ 0.

(** ** The abstract heap

    Its state is the list of live blocks.  An allocation may fail at any time;
    when it succeeds, the new block is in the heap, aligned and disjoint from
    every live block. *)

Inductive call := CAlloc (l : Layout) | CDealloc (p : Z) (l : Layout).

Inductive spec_step (heap : range) : list block → call → Z → list block → Prop :=
| spec_alloc live l p :
    block_ok heap (Block p l) →
    (∀ b, b ∈ live → disjoint_range (Range p (l_size l)) (b_range b)) →
    spec_step heap live (CAlloc l) p (Block p l :: live)
| spec_oom live l : spec_step heap live (CAlloc l) 0 live
| spec_dealloc live b live' :
    live ≡ₚ b :: live' →
    spec_step heap live (CDealloc (b_ptr b) (b_layout b)) 0 live'.

Inductive spec_exec (heap : range) : list block → list (call * Z) → list block → Prop :=
| spec_exec_nil live : spec_exec heap live [] live
| spec_exec_cons live c r live1 tr live2 :
    spec_step heap live c r live1 → spec_exec heap live1 tr live2 →
    spec_exec heap live ((c, r) :: tr) live2.

(** ** Executions of an allocator

    A legal call either asks for a layout in [req] or gives back a live block with
    the layout it was allocated with, which is what [GlobalAlloc] requires of its
    callers.  [req] is [request_ok] for an allocator that accepts every layout the
    trait lets a caller pass. *)

Definition legal (req : Layout → Prop) (live : list block) (c : call) : Prop :=
  match c with
  | CAlloc l => req l
  | CDealloc p l => Block p l ∈ live
  end.

Definition live_after (live : list block) (c : call) (r : Z) (live' : list block) : Prop :=
  match c with
  | CAlloc l => live' = if r =? 0 then live else Block r l :: live
  | CDealloc p l => live ≡ₚ Block p l :: live'
  end.

Section Exec.
Context {A : Type} `{!GlobalAlloc A} (req : Layout → Prop).

Definition perform (a : A) (c : call) : outcome (Z * A) :=
  match c with
  | CAlloc l => ga_alloc a l
  | CDealloc p l => a' ← ga_dealloc a p l; mret (0, a')
  end.

Inductive impl_exec : A → list block → list (call * Z) → A → list block → Prop :=
| impl_exec_nil a live : impl_exec a live [] a live
| impl_exec_cons a live c r a1 live1 tr a2 live2 :
    legal req live c → perform a c = Ret (r, a1) → live_after live c r live1 →
    impl_exec a1 live1 tr a2 live2 →
    impl_exec a live ((c, r) :: tr) a2 live2.

(** What an allocator proves of itself: an invariant relating its state to the
    live blocks, kept by [alloc] and [dealloc], neither of which panics. *)
Class HeapSpec (heap : range) (inv : A → list block → Prop) : Prop := {
  hs_block a live b : inv a live → b ∈ live → block_ok heap b;
  hs_disjoint a live : inv a live → pairwise disjoint_range (b_range <$> live);
  hs_alloc a live l :
    inv a live → req l →
    ∃ p a', ga_alloc a l = Ret (p, a') ∧ inv a' (if p =? 0 then live else Block p l :: live);
  hs_dealloc a live b live' :
    inv a live → live ≡ₚ b :: live' →
    ∃ a', ga_dealloc a (b_ptr b) (b_layout b) = Ret a' ∧ inv a' live';
}.

Context (heap : range) (inv : A → list block → Prop) `{!HeapSpec heap inv}.

(** Every legal call returns, and keeps the invariant. *)
Lemma perform_total a live c :
  inv a live → legal req live c →
  ∃ r a' live', perform a c = Ret (r, a') ∧ live_after live c r live' ∧ inv a' live'.
Proof.
  intros Hinv Hc. destruct c as [l|p l]; simpl in *.
  - destruct (hs_alloc a live l Hinv Hc) as (r & a' & Hr & ?). eauto 6.
  - apply elem_of_Permutation in Hc as [live' Hp].
    destruct (hs_dealloc a live (Block p l) live' Hinv Hp) as (a' & Ha & ?); simpl in Ha.
    exists 0, a', live'. by rewrite Ha.
Qed.

Lemma perform_sound a live c r a' live' :
  inv a live → legal req live c → perform a c = Ret (r, a') → live_after live c r live' →
  inv a' live' ∧ spec_step heap live c r live'.
Proof.
  intros Hinv Hc Hrun Haft. destruct c as [l|p l]; simpl in *.
  - destruct (hs_alloc a live l Hinv Hc) as (r0 & a0 & Hr & Hinv').
    rewrite Hr in Hrun. simplify_eq.
    split; [done|]. destruct (Z.eqb_spec r 0) as [->|Hne]; [constructor|].
    pose proof (hs_disjoint _ _ Hinv') as Hd. rewrite fmap_cons, pairwise_cons in Hd by apply _.
    constructor; [by eapply hs_block; [|left]|].
    intros b Hb. apply (proj1 Hd). by apply list_elem_of_fmap_2.
  - destruct (hs_dealloc a live (Block p l) live' Hinv Haft) as (a0 & Ha & ?); simpl in Ha.
    rewrite Ha in Hrun. inv_outcome. split; [done|]. by apply (spec_dealloc heap live (Block p l)).
Qed.

(** Every legal execution of the allocator is an execution of the abstract
    heap, and leads to a state from which every legal call returns. *)
Lemma impl_refines a live tr a' live' :
  inv a live → impl_exec a live tr a' live' →
  inv a' live' ∧ spec_exec heap live tr live' ∧
  ∀ c, legal req live' c → ∃ r a'', perform a' c = Ret (r, a'').
Proof.
  intros Hinv Hex.
  induction Hex as [a live|a live c r a1 live1 tr a2 live2 Hc Hrun Haft _ IH].
  - split; [done|]. split; [constructor|].
    intros c Hc. destruct (perform_total a live c Hinv Hc) as (r & a' & _ & ? & _). eauto.
  - destruct (perform_sound _ _ _ _ _ _ Hinv Hc Hrun Haft) as [Hinv1 Hstep].
    destruct (IH Hinv1) as (? & ? & ?). split; [done|]. split; [|done]. by econstructor.
Qed.
End Exec.

Arguments hs_block {_ _ _ _ _ _} _ _ _ _ _.
Arguments hs_disjoint {_ _ _ _ _ _} _ _ _.
Arguments hs_alloc {_ _ _ _ _ _} _ _ _ _ _.
Arguments hs_dealloc {_ _ _ _ _ _} _ _ _ _ _ _.

(** ** [Dummy] (kernel/src/allocator.rs)

    The allocator that has no memory.  It is a heap: every allocation fails, so that no
    caller has a block to give back and the panic is never reached. *)

Inductive Dummy := mk_dummy.

#[global] Instance dummy_global_alloc : GlobalAlloc Dummy := {|
  ga_alloc d _ := Ret (0, d);
  ga_dealloc _ _ _ := Panic "dealloc should be never called";
|}.

Lemma dummy_heap_spec req heap : HeapSpec (A := Dummy) req heap (λ _ live, live = []).
Proof.
  split.
  - intros a live b ->. by intros ?%elem_of_nil.
  - intros a live ->. apply pairwise_nil.
  - intros a live l -> _. exists 0, a. done.
  - intros a live b live' -> Hp. by apply Permutation_nil_cons in Hp.
Qed.

(** No sequence of calls a client may make of [Dummy] panics, and every pointer it returns
    is null. *)
Theorem dummy_never_panics req tr (d : Dummy) live :
  impl_exec req mk_dummy [] tr d live →
  live = [] ∧ ∀ c, legal req live c → perform d c = Ret (0, d).
Proof.
  intros Hex. pose proof (dummy_heap_spec req (Range 0 0)) as Hspec.
  destruct (impl_refines req (Range 0 0) (λ _ live, live = []) mk_dummy [] tr d live eq_refl Hex) as (-> & _ & _).
  split; [done|]. intros [l|p l] Hc; [done|]. by apply elem_of_nil in Hc.
Qed.
