(* ===== verification/BumpAllocator.v ===== *)
(** * The bump allocator (kernel/src/allocator/bump.rs) and [align_up]

    [align_up] is the helper of kernel/src/allocator.rs that the bump and the
    linked-list allocator share.  The bump allocator's invariant says that the
    live blocks sit below [next] and that [allocations] counts them; it makes the
    allocator an instance of [HeapSpec]. *)

From S2P Require Import Prelude GlobalAlloc.

(** ** [align_up] *)

Definition align_up (addr align : Z) : outcome Z :=
  if align =? 0 then Panic "attempt to calculate the remainder with a divisor of zero" else
  let remainder := addr `mod` align in
  if remainder =? 0 then Ret addr
  else down ← sub_u usize addr remainder; add_u usize down align.

(** The least multiple of [align] that is not below [addr]. *)
Definition align_up_spec (addr align : Z) : Z := (addr + align - 1) `div` align * align.

Lemma align_up_spec_bounds addr align :
  0 < align → addr ≤ align_up_spec addr align < addr + align.
Proof.
  intros. unfold align_up_spec.
  pose proof (Z.div_mod (addr + align - 1) align).
  pose proof (Z.mod_pos_bound (addr + align - 1) align). lia.
Qed.

Lemma align_up_spec_divide addr align : (align | align_up_spec addr align).
Proof. apply Z.divide_factor_r. Qed.

Lemma align_up_spec_eq addr align r :
  0 < align → (align | r) → addr ≤ r < addr + align → r = align_up_spec addr align.
Proof.
  intros Hpos [q ->] Hr. unfold align_up_spec. f_equal.
  pose proof (Z.div_mod (addr + align - 1) align).
  pose proof (Z.mod_pos_bound (addr + align - 1) align). nia.
Qed.

Lemma align_up_remainder addr align :
  0 < align →
  align_up_spec addr align =
    if addr `mod` align =? 0 then addr else addr - addr `mod` align + align.
Proof.
  intros Hpos. symmetry. pose proof (Z.mod_pos_bound addr align Hpos).
  pose proof (Z.div_mod addr align).
  destruct (Z.eqb_spec (addr `mod` align) 0); apply align_up_spec_eq; try lia.
  - exists (addr `div` align). lia.
  - exists (addr `div` align + 1). lia.
Qed.

Lemma align_up_run addr align :
  0 < align → in_u usize addr → in_u usize (align_up_spec addr align) →
  align_up addr align = Ret (align_up_spec addr align).
Proof.
  intros Hpos Haddr Hup. unfold align_up. rewrite (align_up_remainder addr align) in * by done.
  destruct (Z.eqb_spec align 0); [lia|].
  destruct (Z.eqb_spec (addr `mod` align) 0); [done|].
  pose proof (Z.mod_pos_bound addr align Hpos).
  pose proof (Z.mod_le addr align).
  rewrite sub_u_in by (unfold in_u in *; lia). simpl. by rewrite add_u_in.
Qed.

Lemma align_up_Ret addr align r :
  0 < align → in_u usize addr → align_up addr align = Ret r → r = align_up_spec addr align.
Proof.
  intros Hpos Haddr. unfold align_up. rewrite (align_up_remainder addr align) by done.
  destruct (Z.eqb_spec align 0); [lia|].
  destruct (Z.eqb_spec (addr `mod` align) 0); [congruence|].
  intros Hrun. inv_outcome. inv_arith. lia.
Qed.

(** ** The allocator *)

Module Bump.

Record BumpAllocator := mk_bump {
  heap_start : Z;
  heap_end : Z;
  next : Z;
  allocations : Z;
}.

Definition new : BumpAllocator := mk_bump 0 0 0 0.

Definition init (self : BumpAllocator) (start size : Z) : outcome BumpAllocator :=
  heap_end ← add_u usize start size;
  mret (mk_bump start heap_end start (allocations self)).

Definition alloc (bump : BumpAllocator) (layout : Layout) : outcome (Z * BumpAllocator) :=
  alloc_start ← align_up (next bump) (l_align layout);
  match checked_add usize alloc_start (l_size layout) with
  | None => mret (0, bump)
  | Some alloc_end =>
      if alloc_end >? heap_end bump then mret (0, bump)
      else
        allocs ← add_u usize (allocations bump) 1;
        mret (alloc_start, mk_bump (heap_start bump) (heap_end bump) alloc_end allocs)
  end.

Definition dealloc (bump : BumpAllocator) (_ptr : Z) (_layout : Layout) : outcome BumpAllocator :=
  allocs ← sub_u usize (allocations bump) 1;
  mret (mk_bump (heap_start bump) (heap_end bump)
          (if allocs =? 0 then heap_start bump else next bump) allocs).

#[global] Instance bump_global_alloc : GlobalAlloc BumpAllocator := {|
  ga_alloc := alloc;
  ga_dealloc := dealloc;
|}.

(** The state against the blocks its clients own. *)
Record inv (heap : range) (bump : BumpAllocator) (live : list block) : Prop := {
  inv_start : heap_start bump = r_start heap;
  inv_end : heap_end bump = r_end heap;
  inv_next : heap_start bump ≤ next bump ≤ heap_end bump;
  inv_count : allocations bump = Z.of_nat (length live);
  inv_room : allocations bump ≤ next bump - heap_start bump;
  inv_live : ∀ b, b ∈ live →
    heap_start bump ≤ b_ptr b ∧ r_end (b_range b) ≤ next bump ∧ (l_align (b_layout b) | b_ptr b);
  inv_disjoint : pairwise disjoint_range (b_range <$> live);
}.

(** A heap the kernel can use: non-null, below the signed half of the address
    space, so that rounding an address up never wraps. *)
Definition heap_ok (heap : range) : Prop := 0 < r_start heap ∧ r_end heap ≤ 2 ^ 63.

Section Proofs.
Context (heap : range) (Hheap : heap_ok heap).

Lemma alloc_start_bounds bump live l :
  inv heap bump live → request_ok l →
  next bump ≤ align_up_spec (next bump) (l_align l) < 2 ^ 64 - 2 ^ 62 ∧
  align_up (next bump) (l_align l) = Ret (align_up_spec (next bump) (l_align l)).
Proof using Hheap.
  intros Hinv [(? & ? & Hp & ?)%layout_ok_elim ?]. destruct Hheap.
  destruct Hinv as [Hs He Hn _ _ _ _].
  assert (l_align l ≤ 2 ^ 62).
  { apply is_power_of_two_spec in Hp as (k & Hk & Hlk). rewrite Hlk in *.
    apply Z.pow_le_mono_r; [lia|]. enough (k < 63) by lia.
    apply (Z.pow_lt_mono_r_iff 2); lia. }
  pose proof (align_up_spec_bounds (next bump) (l_align l) ltac:(done)).
  split; [lia|]. apply align_up_run; unfold in_u; lia.
Qed.

Lemma bump_inv_alloc bump live l :
  inv heap bump live → request_ok l →
  ∃ p bump', alloc bump l = Ret (p, bump') ∧
    inv heap bump' (if p =? 0 then live else Block p l :: live).
Proof using Hheap.
  intros Hinv Hl. destruct (alloc_start_bounds _ _ _ Hinv Hl) as [Hb Hrun].
  pose proof (align_up_spec_divide (next bump) (l_align l)) as Hdiv.
  set (p := align_up_spec (next bump) (l_align l)) in *.
  destruct Hl as [Hok Hpos]. apply layout_ok_elim in Hok as (_ & _ & _ & ?).
  destruct Hheap, Hinv as [Hs He Hn Hc Hr Hlive Hd].
  unfold alloc. rewrite Hrun. simpl.
  destruct (checked_add usize p (l_size l)) as [e|] eqn:Hadd; [|by exists 0, bump].
  inv_arith. subst e.
  destruct (Z.gtb_spec (p + l_size l) (heap_end bump)); [by exists 0, bump|].
  rewrite add_u_in by (unfold in_u; lia). simpl. eexists _, _. split; [done|].
  destruct (Z.eqb_spec p 0); [lia|].
  split; simpl; try done; try lia.
  - intros b [->|Hbl]%elem_of_cons; unfold b_range, r_end; simpl.
    + split; [lia|]; split; [lia|done].
    + destruct (Hlive b Hbl) as (? & ? & ?). unfold b_range, r_end in *. simpl in *. split; [lia|]; split; [lia|done].
  - rewrite pairwise_cons by apply _. split; [|done].
    intros r (b & -> & Hbl)%list_elem_of_fmap. destruct (Hlive b Hbl) as (? & ? & ?).
    apply disjoint_range_alt. unfold b_range, r_end in *. simpl in *. lia.
Qed.

Lemma bump_inv_dealloc bump live b live' :
  inv heap bump live → live ≡ₚ b :: live' →
  ∃ bump', dealloc bump (b_ptr b) (b_layout b) = Ret bump' ∧ inv heap bump' live'.
Proof using Hheap.
  intros [Hs He Hn Hc Hr Hlive Hd] Hperm. destruct Hheap.
  assert (length live = S (length live')) as Hlen by by rewrite Hperm.
  unfold dealloc. rewrite sub_u_in by (unfold in_u; lia). simpl. eexists. split; [done|].
  destruct (Z.eqb_spec (allocations bump - 1) 0) as [Hz|Hz]; split; simpl; try done; try lia.
  - assert (live' = []) as -> by (apply length_zero_iff_nil; lia). set_solver.
  - assert (live' = []) as -> by (apply length_zero_iff_nil; lia). apply pairwise_nil.
  - intros b' Hb'. apply Hlive. rewrite Hperm. by right.
  - apply (pairwise_Permutation _ _ _ (fmap_Permutation b_range _ _ Hperm)) in Hd.
    rewrite fmap_cons, pairwise_cons in Hd by apply _. tauto.
Qed.

#[global] Instance bump_heap_spec : HeapSpec request_ok heap (inv heap).
Proof using Hheap.
  split.
  - intros a live b [Hs He Hn _ _ Hlive _] Hb. destruct (Hlive b Hb) as (? & ? & ?).
    destruct Hheap. split; [apply subrange_bounds; simpl; lia|]. split; [done|lia].
  - intros a live H. apply H.
  - apply bump_inv_alloc.
  - apply bump_inv_dealloc.
Qed.

Lemma bump_init_inv :
  0 ≤ r_size heap →
  ∃ bump, init new (r_start heap) (r_size heap) = Ret bump ∧ inv heap bump [].
Proof using Hheap.
  intros. destruct Hheap. unfold init, r_end in *.
  rewrite add_u_in by (unfold in_u; lia). simpl. eexists. split; [done|].
  split; simpl; try done; try lia; first [apply pairwise_nil|set_solver].
Qed.
End Proofs.

(** The kernel's heap ([HEAP_START], [HEAP_SIZE]) with one block in it. *)
Definition kernel_heap : range := Range 0x444444440000 (1024 * 1024).
Lemma kernel_heap_ok : heap_ok kernel_heap.
Proof. by vm_compute. Qed.

Definition sample_block : block := Block 0x444444440000 (mk_layout 24 8).
Definition sample_bump : BumpAllocator :=
  mk_bump 0x444444440000 0x444444540000 0x444444440018 1.
Lemma bump_sample_inv : inv kernel_heap sample_bump [sample_block].
Proof.
  split; [done..| | |].
  - done.
  - intros b ->%list_elem_of_singleton. split; [by vm_compute|]. split; [by vm_compute|].
    exists (0x444444440000 `div` 8). by vm_compute.
  - rewrite fmap_cons, pairwise_cons by apply _. split; [set_solver|apply pairwise_nil].
Qed.

(** C18: After [BumpAllocator::init] on a heap that does not begin at address 0 and ends in
    the lower half of the address space, every legal sequence of calls behaves like
    the abstract heap: blocks handed out are inside the heap, aligned to the
    requested layout and disjoint from every other live block, and no further
    legal [alloc] or [dealloc] panics. *)
Theorem bump_refines_heap (heap : range) (bump bump' : BumpAllocator) tr live
    (Hheap : heap_ok heap) (Hsize : 0 ≤ r_size heap)
    (Hinit : init new (r_start heap) (r_size heap) = Ret bump)
    (Hex : impl_exec request_ok bump [] tr bump' live) :
  spec_exec heap [] tr live ∧
  ∀ c, legal request_ok live c → ∃ r bump'', perform bump' c = Ret (r, bump'').
Proof.
  destruct (bump_init_inv heap Hheap Hsize) as (b & Hb & Hinv). rewrite Hb in Hinit. simplify_eq.
  pose proof (bump_heap_spec heap Hheap).
  apply (impl_refines request_ok heap (inv heap) bump [] tr bump' live Hinv Hex).
Qed.

Lemma bump_refines_heap_witness :
  spec_exec kernel_heap [] [(CAlloc (mk_layout 24 8), 0x444444440000)] [sample_block].
Proof.
  refine (proj1 (bump_refines_heap kernel_heap (mk_bump 0x444444440000 0x444444540000
    0x444444440000 0) sample_bump _ _ kernel_heap_ok _ _ _)).
  - by vm_compute.
  - by vm_compute.
  - apply (impl_exec_cons _ _ _ _ _ sample_bump [sample_block]);
      [by vm_compute|by vm_compute|by vm_compute|constructor].
Defined.

(** When the last live block is returned, the allocator starts again at the
    bottom of its heap; before that, [dealloc] never moves [next]. *)
Theorem bump_dealloc_resets (heap : range) (bump bump' : BumpAllocator) b live
    (Hinv : inv heap bump (b :: live))
    (Hrun : dealloc bump (b_ptr b) (b_layout b) = Ret bump') :
  next bump' = if decide (live = []) then r_start heap else next bump.
Proof.
  unfold dealloc in Hrun. inv_outcome. inv_arith. destruct Hinv as [Hs _ _ Hc _ _ _].
  simpl in Hc. destruct (Z.eqb_spec v 0), (decide (live = [])) as [->|Hl]; simpl in *; try done; try lia.
  destruct live; [done|]. simpl in *. lia.
Qed.

Lemma bump_dealloc_resets_witness :
  next (mk_bump 0x444444440000 0x444444540000 0x444444440000 0) = r_start kernel_heap.
Proof.
  refine (bump_dealloc_resets kernel_heap sample_bump _ sample_block [] bump_sample_inv _).
  by vm_compute.
Defined.

End Bump.
