(* ===== verification/LinkedListAllocator.v ===== *)
(** * The linked-list allocator (kernel/src/allocator/linked_list.rs)

    Free memory is a singly linked list of regions whose nodes are written into
    the free memory itself: [mem] is the store of nodes, by address.  [lseg] says
    that a pointer heads a list of regions; [find_region] is proved to be first
    fit over that list, and the allocator an instance of [HeapSpec]. *)

From S2P Require Import Prelude GlobalAlloc BumpAllocator.

Module LinkedList.

(** ** Data and operations *)

Record ListNode := mk_node { size : Z; next : option Z }.

(** [mem::size_of] and [mem::align_of] of [ListNode] on x86-64. *)
Definition size_of_ListNode : Z := 16.
Definition align_of_ListNode : Z := 8.

Definition node_new (size : Z) : ListNode := mk_node size None.

(** A node's address is the address it was written to. *)
Definition end_addr (start : Z) (node : ListNode) : outcome Z := add_u usize start (size node).

Record LinkedListAllocator := mk_ll { head : ListNode; mem : gmap Z ListNode }.

Definition new : LinkedListAllocator := mk_ll (node_new 0) ∅.

Definition add_free_region (self : LinkedListAllocator) (addr sz : Z) :
    outcome LinkedListAllocator :=
  up ← align_up addr align_of_ListNode;
  _ ← assert_that (up =? addr) "assertion `left == right` failed";
  _ ← assert_that (sz >=? size_of_ListNode) "assertion failed: size >= size_of::<ListNode>()";
  let node := mk_node sz (next (head self)) in
  mret (mk_ll (mk_node (size (head self)) (Some addr)) (<[addr := node]> (mem self))).

Definition init (self : LinkedListAllocator) (heap_start heap_size : Z) :
    outcome LinkedListAllocator :=
  add_free_region self heap_start heap_size.

Definition alloc_from_region (start : Z) (region : ListNode) (sz align : Z) :
    outcome (result unit Z) :=
  alloc_start ← align_up start align;
  match checked_add usize alloc_start sz with
  | None => mret (Err ())
  | Some alloc_end =>
      region_end ← end_addr start region;
      if alloc_end >? region_end then mret (Err ())
      else
        excess_size ← sub_u usize region_end alloc_end;
        if (excess_size >? 0) && (excess_size <? size_of_ListNode) then mret (Err ())
        else mret (Ok alloc_start)
  end.

(** The [current] reference of the search: the head or a node in memory. *)
Inductive cursor := AtHead | AtNode (a : Z).

Definition cursor_next (self : LinkedListAllocator) (c : cursor) : option Z :=
  match c with
  | AtHead => next (head self)
  | AtNode a => mem self !! a ≫= next
  end.

Definition set_cursor_next (self : LinkedListAllocator) (c : cursor) (p : option Z) :
    LinkedListAllocator :=
  match c with
  | AtHead => mk_ll (mk_node (size (head self)) p) (mem self)
  | AtNode a => mk_ll (head self) (alter (λ n, mk_node (size n) p) a (mem self))
  end.

Fixpoint find_region_from (fuel : nat) (self : LinkedListAllocator) (current : cursor)
    (sz align : Z) : outcome (option (Z * Z) * LinkedListAllocator) :=
  match fuel with
  | O => Undef "list traversal does not end"
  | S fuel =>
      match cursor_next self current with
      | None => mret (None, self)
      | Some region =>
          match mem self !! region with
          | None => Undef "dangling list node"
          | Some node =>
              r ← alloc_from_region region node sz align;
              match r with
              | Ok alloc_start =>
                  let nxt := next node in
                  let self := mk_ll (head self) (<[region := mk_node (size node) None]> (mem self)) in
                  mret (Some (region, alloc_start), set_cursor_next self current nxt)
              | Err _ => find_region_from fuel self (AtNode region) sz align
              end
          end
      end
  end.

(** The loop visits each node at most once, so one more than the number of
    nodes in memory is enough fuel. *)
Definition find_region (self : LinkedListAllocator) (sz align : Z) :
    outcome (option (Z * Z) * LinkedListAllocator) :=
  find_region_from (S (stdpp.base.size (mem self))) self AtHead sz align.

Definition size_align (layout : Layout) : outcome (Z * Z) :=
  l ← expect "adjusting alignment failed" (align_to layout align_of_ListNode);
  let l := pad_to_align l in
  mret (Z.max (l_size l) size_of_ListNode, l_align l).

(** The branch of [alloc] that has a region: what is left of it after the
    allocation becomes a free region of its own. *)
Definition carve (self : LinkedListAllocator) (region alloc_start sz : Z) :
    outcome (Z * LinkedListAllocator) :=
  alloc_end ← expect "overflow" (checked_add usize alloc_start sz);
  match mem self !! region with
  | None => Undef "dangling list node"
  | Some node =>
      region_end ← end_addr region node;
      excess_size ← sub_u usize region_end alloc_end;
      a ← (if excess_size >? 0 then add_free_region self alloc_end excess_size else mret self);
      mret (alloc_start, a)
  end.

Definition alloc (self : LinkedListAllocator) (layout : Layout) :
    outcome (Z * LinkedListAllocator) :=
  '(sz, align) ← size_align layout;
  '(found, a) ← find_region self sz align;
  match found with
  | Some (region, alloc_start) => carve a region alloc_start sz
  | None => mret (0, a)
  end.

Definition dealloc (self : LinkedListAllocator) (ptr : Z) (layout : Layout) :
    outcome LinkedListAllocator :=
  '(sz, _) ← size_align layout;
  add_free_region self ptr sz.

#[global] Instance linked_list_global_alloc : GlobalAlloc LinkedListAllocator := {|
  ga_alloc := alloc;
  ga_dealloc := dealloc;
|}.

(** ** The free list as a list of regions *)

Fixpoint lseg (m : gmap Z ListNode) (p : option Z) (l : list range) : Prop :=
  match l with
  | [] => p = None
  | r :: l => p = Some (r_start r) ∧
      ∃ nx, m !! r_start r = Some (mk_node (r_size r) nx) ∧ lseg m nx l
  end.

Lemma lseg_frame m m' p l :
  (∀ r, r ∈ l → m' !! r_start r = m !! r_start r) → lseg m p l → lseg m' p l.
Proof.
  revert p. induction l as [|r l IH]; intros p Hm; simpl; [done|].
  intros (-> & nx & Hnx & Hl). split; [done|]. exists nx. split.
  - rewrite Hm by left. done.
  - apply IH; [|done]. intros r' Hr'. apply Hm. by right.
Qed.

Lemma lseg_in_dom m p l r : lseg m p l → r ∈ l → r_start r ∈ dom m.
Proof.
  revert p. induction l as [|r' l IH]; intros p; simpl; [set_solver|].
  intros (-> & nx & Hnx & Hl) [->|Hr]%elem_of_cons; [by apply elem_of_dom|eauto].
Qed.

Lemma lseg_length m p l : lseg m p l → NoDup (r_start <$> l) → (length l ≤ stdpp.base.size m)%nat.
Proof.
  intros Hl Hnd. rewrite <-size_dom, <-(length_fmap r_start).
  rewrite <-(size_list_to_set (C:=gset Z)) by done.
  apply subseteq_size. intros a Ha. apply elem_of_list_to_set in Ha.
  apply list_elem_of_fmap in Ha as (r & -> & Hr). by eapply lseg_in_dom.
Qed.

(** The number of bytes on a list of regions. *)
Definition total (l : list range) : Z := foldr (λ r n, r_size r + n) 0 l.

Lemma total_app l1 l2 : total (l1 ++ l2) = total l1 + total l2.
Proof. induction l1; simpl; lia. Qed.

(** Where a request of size [sz] fits in a region: the reference for
    [alloc_from_region]. *)
Definition fit (r : range) (sz align : Z) : option Z :=
  let s := align_up_spec (r_start r) align in
  let excess := r_end r - (s + sz) in
  if (0 <=? excess) && negb ((0 <? excess) && (excess <? size_of_ListNode)) then Some s else None.

(** The first region of the list that fits: the reference for [find_region]. *)
Fixpoint first_fit (l : list range) (sz align : Z) : option (list range * range * list range * Z) :=
  match l with
  | [] => None
  | r :: l =>
      match fit r sz align with
      | Some s => Some ([], r, l, s)
      | None => '(l1, r', l2, s) ← first_fit l sz align; Some (r :: l1, r', l2, s)
      end
  end.

Definition region_ok (heap r : range) : Prop :=
  (align_of_ListNode | r_start r) ∧ size_of_ListNode ≤ r_size r ∧
  r_start heap ≤ r_start r ∧ r_end r ≤ r_end heap.

(** A request after [size_align]. *)
Definition adjusted (sz align : Z) : Prop :=
  is_power_of_two align = true ∧ align_of_ListNode ≤ align ≤ 2 ^ 62 ∧
  size_of_ListNode ≤ sz ≤ 2 ^ 63 ∧ (align_of_ListNode | sz).

Section Search.
Context (heap : range) (Hheap : Bump.heap_ok heap).
Context (sz align : Z) (Hadj : adjusted sz align).

Lemma alloc_from_region_fit r nx :
  region_ok heap r →
  alloc_from_region (r_start r) (mk_node (r_size r) nx) sz align =
    Ret (ok_or () (fit r sz align)).
Proof using Hheap Hadj.
  intros (_ & ? & ? & ?). destruct Hheap, Hadj as (_ & ? & ? & _).
  unfold align_of_ListNode, size_of_ListNode, r_end in *.
  pose proof (align_up_spec_bounds (r_start r) align ltac:(lia)).
  unfold alloc_from_region, fit, end_addr, r_end; simpl.
  rewrite align_up_run by (unfold in_u; lia). simpl.
  set (s := align_up_spec (r_start r) align) in *.
  destruct (checked_add usize s sz) as [e|] eqn:He.
  - inv_arith. subst e. rewrite add_u_in by (unfold in_u; lia). simpl.
    destruct (Z.gtb_spec (s + sz) (r_start r + r_size r)).
    + by rewrite (proj2 (Z.leb_gt 0 _)) by lia.
    + rewrite sub_u_in by (unfold in_u; lia). simpl.
      rewrite (proj2 (Z.leb_le 0 _)) by lia. simpl. rewrite Z.gtb_ltb.
      by destruct ((0 <? _) && _).
  - apply checked_None in He. unfold in_u in He.
    by rewrite (proj2 (Z.leb_gt 0 _)) by lia.
Qed.

(** The cursor does not point into the part of the list still to be searched. *)
Definition cursor_fresh (m : gmap Z ListNode) (c : cursor) (post : list range) : Prop :=
  match c with
  | AtHead => True
  | AtNode a => is_Some (m !! a) ∧ a ∉ (r_start <$> post)
  end.

(** What a successful search from [c] leaves behind: [r] is unlinked, and only
    the node before it and [r] itself have changed. *)
Record found (st st' : LinkedListAllocator) (c : cursor) (l1 : list range) (r : range)
    (l2 : list range) : Prop := {
  found_list : lseg (mem st') (cursor_next st' c) (l1 ++ l2);
  found_node : mem st' !! r_start r = Some (mk_node (r_size r) None);
  found_head : c ≠ AtHead → head st' = head st;
  found_frame k : k ∉ (r_start <$> l1 ++ [r]) → c ≠ AtNode k → mem st' !! k = mem st !! k;
  found_at a n : c = AtNode a → mem st !! a = Some n →
    mem st' !! a = Some (mk_node (size n) (cursor_next st' c));
}.

Lemma found_here st c r post nx :
  cursor_fresh (mem st) c (r :: post) → NoDup (r_start <$> r :: post) → lseg (mem st) nx post →
  found st (set_cursor_next (mk_ll (head st) (<[r_start r := mk_node (r_size r) None]> (mem st))) c nx)
    c [] r post.
Proof.
  intros Hc Hnd Hpost. rewrite fmap_cons, NoDup_cons in Hnd. destruct Hnd as [Hr Hnd].
  destruct c as [|a]; simpl in *.
  - split; simpl; try done.
    + apply (lseg_frame (mem st)); [|done]. intros r' Hr'. apply lookup_insert_ne.
      intros Heq. apply Hr. rewrite Heq. by apply list_elem_of_fmap_2.
    + by rewrite lookup_insert_eq.
    + intros k Hk _. apply lookup_insert_ne. set_solver.
  - destruct Hc as [[n Hn] Ha]. assert (r_start r ≠ a) by set_solver.
    split; simpl; try done.
    + rewrite lookup_alter_eq, lookup_insert_ne, Hn by done. simpl.
      apply (lseg_frame (mem st)); [|done]. intros r' Hr'.
      apply (list_elem_of_fmap_2 r_start) in Hr'.
      rewrite lookup_alter_ne, lookup_insert_ne; [done|intros Heq; rewrite Heq in *; set_solver..].
    + rewrite lookup_alter_ne by done. by rewrite lookup_insert_eq.
    + intros k Hk Hka. rewrite lookup_alter_ne, lookup_insert_ne; first [congruence|set_solver].
    + intros a' n' [= <-] Hn'. rewrite !lookup_alter_eq, !lookup_insert_ne, Hn' by done. done.
Qed.

Lemma found_later st st' c r l1 r' l2 nx :
  cursor_fresh (mem st) c (r :: l1 ++ [r']) → cursor_next st c = Some (r_start r) →
  mem st !! r_start r = Some (mk_node (r_size r) nx) →
  found st st' (AtNode (r_start r)) l1 r' l2 → found st st' c (r :: l1) r' l2.
Proof.
  intros Hc Hnext Hr [Hl Hn Hh Hf Ha].
  assert (cursor_next st' c = Some (r_start r)) as Hnext'.
  { destruct c as [|a]; simpl in *; [by rewrite Hh|].
    destruct Hc as [_ Hc]. rewrite Hf; [done|set_solver|]. intros [= Heq]. rewrite Heq in *. set_solver. }
  split.
  - simpl. split; [done|]. eexists. split; [by apply (Ha _ _ eq_refl Hr)|done].
  - done.
  - intros _. by apply Hh.
  - intros k Hk Hck. apply Hf; [set_solver|]. intros [= Heq]. rewrite Heq in *. set_solver.
  - intros a n -> Hn'. simpl in *. destruct Hc as [_ Hc].
    assert (mem st' !! a = Some n) as Hsame.
    { rewrite Hf; [done|set_solver|]. intros [= Heq]. rewrite Heq in *. set_solver. }
    rewrite Hsame. simpl. by destruct n.
Qed.

Lemma first_fit_Some l l1 r l2 s :
  first_fit l sz align = Some (l1, r, l2, s) → l = l1 ++ r :: l2 ∧ fit r sz align = Some s.
Proof.
  revert l1. induction l as [|r' l IH]; intros l1; simpl; [done|].
  destruct (fit r' sz align) eqn:Hf; [naive_solver|].
  destruct (first_fit l sz align) as [[[[l1' r0] l2'] s']|]; [|done].
  intros [= <- <- <- <-]. by destruct (IH _ eq_refl) as [-> ?].
Qed.

(** [find_region] is first fit over the free list, and ends. *)
Lemma find_region_from_first_fit post fuel st c :
  (length post < fuel)%nat → lseg (mem st) (cursor_next st c) post →
  NoDup (r_start <$> post) → cursor_fresh (mem st) c post → Forall (region_ok heap) post →
  match first_fit post sz align with
  | None => find_region_from fuel st c sz align = Ret (None, st)
  | Some (l1, r, l2, s) => ∃ st',
      find_region_from fuel st c sz align = Ret (Some (r_start r, s), st') ∧ found st st' c l1 r l2
  end.
Proof using Hheap Hadj.
  revert fuel c. induction post as [|r post IH]; intros [|fuel] c Hfuel Hl Hnd Hc Hok;
    simpl in *; try lia.
  { by rewrite Hl. }
  destruct Hl as (Hnext & nx & Hr & Hl). rewrite Hnext, Hr. simpl.
  apply Forall_cons in Hok as [Hrok Hok].
  rewrite alloc_from_region_fit by done. simpl.
  destruct (fit r sz align) as [s|] eqn:Hfit; simpl.
  { eexists. split; [done|]. by apply found_here. }
  apply NoDup_cons in Hnd as [Hrn Hnd].
  ospecialize (IH fuel (AtNode (r_start r)) _ _ _ _ _);
    [lia|simpl; by rewrite Hr|done|by split; [eexists|]|done|].
  destruct (first_fit post sz align) as [[[[l1 r'] l2] s]|] eqn:Hff; simpl; [|done].
  destruct IH as (st' & Hrun & Hfound). exists st'. split; [done|].
  apply (found_later _ _ _ _ _ _ _ nx); try done.
  apply first_fit_Some in Hff as [-> _].
  destruct c as [|a]; simpl in *; [done|]. destruct Hc as [? Hc]. split; [done|].
  set_solver.
Qed.
End Search.

(** ** The invariant *)

(** Requests [size_align] accepts: [Layout::align_to] must not fail. *)
Definition req (l : Layout) : Prop := request_ok l ∧ l_size l + align_of_ListNode ≤ 2 ^ 63.
#[global] Instance req_dec l : Decision (req l).
Proof. unfold req. apply _. Defined.

(** The memory a request really takes. *)
Definition eff_align (l : Layout) : Z := Z.max (l_align l) align_of_ListNode.
Definition eff_size (l : Layout) : Z :=
  Z.max (l_size (pad_to_align (mk_layout (l_size l) (eff_align l)))) size_of_ListNode.
Definition eff_range (b : block) : range := Range (b_ptr b) (eff_size (b_layout b)).

Lemma size_align_run l :
  req l →
  size_align l = Ret (eff_size l, eff_align l) ∧ adjusted (eff_size l) (eff_align l) ∧
  l_size l ≤ eff_size l.
Proof.
  intros [[(? & ? & Hp & ?)%layout_ok_elim ?] ?].
  assert (is_power_of_two (eff_align l) = true) as Hp'.
  { by apply is_power_of_two_max. }
  assert (from_size_align (l_size l) (eff_align l) = Some (mk_layout (l_size l) (eff_align l))) as Hf.
  { apply from_size_align_Some. repeat split; [done|]. unfold eff_align. lia. }
  assert (layout_ok (mk_layout (l_size l) (eff_align l))) as Hok by by split.
  pose proof (pad_to_align_bounds _ Hok) as Hpad. simpl in Hpad.
  split; [|split; [|unfold eff_size; simpl; lia]].
  { unfold size_align, align_to. fold (eff_align l). by rewrite Hf. }
  unfold adjusted, eff_size. simpl in *. split; [done|].
  assert (eff_align l ≤ 2 ^ 62).
  { apply layout_ok_elim in Hok as (_ & _ & _ & ?). simpl in *.
    apply is_power_of_two_spec in Hp' as (k & Hk & Hlk). rewrite Hlk in *.
    apply Z.pow_le_mono_r; [lia|]. enough (k < 63) by lia.
    apply (Z.pow_lt_mono_r_iff 2); lia. }
  split; [unfold eff_align in *; lia|].
  apply from_size_align_Some in Hf as (_ & _ & ?).
  split; [unfold size_of_ListNode; lia|].
  assert (align_of_ListNode | eff_align l).
  { apply pow2_divide; [done..|unfold eff_align; lia]. }
  destruct (Z.max_spec ((l_size l + eff_align l - 1) `div` eff_align l * eff_align l)
    size_of_ListNode) as [[_ ->]|[_ ->]]; [by exists 2|].
  by apply Z.divide_mul_r.
Qed.

Definition live_ok (heap : range) (b : block) : Prop :=
  req (b_layout b) ∧ (eff_align (b_layout b) | b_ptr b) ∧
  r_start heap ≤ b_ptr b ∧ r_end (eff_range b) ≤ r_end heap.

Definition inv (heap : range) (st : LinkedListAllocator) (live : list block) : Prop :=
  ∃ regions, lseg (mem st) (next (head st)) regions ∧ Forall (region_ok heap) regions ∧
    pairwise disjoint_range (regions ++ (eff_range <$> live)) ∧ Forall (live_ok heap) live.

Lemma disjoint_start_ne heap r1 r2 :
  region_ok heap r1 → 0 < r_size r2 → disjoint_range r1 r2 → r_start r1 ≠ r_start r2.
Proof.
  intros (_ & ? & _ & _) ? Hd Heq. apply (Hd (r_start r1)).
  unfold in_range, r_end, size_of_ListNode in *. lia.
Qed.

Lemma regions_NoDup heap regions L :
  Forall (region_ok heap) regions → pairwise disjoint_range (regions ++ L) →
  NoDup (r_start <$> regions).
Proof.
  induction regions as [|r l IH]; simpl; [constructor|].
  intros [Hr Hl]%Forall_cons Hd. rewrite pairwise_cons in Hd by apply _.
  destruct Hd as [Hrd Hd]. apply NoDup_cons. split; [|by apply IH].
  intros (r' & Heq & Hr')%list_elem_of_fmap.
  apply (disjoint_start_ne heap r r'); [done| |apply Hrd; set_solver|done].
  rewrite Forall_forall in Hl. destruct (Hl r' Hr') as (_ & ? & _ & _).
  unfold size_of_ListNode in *. lia.
Qed.

Lemma fit_Some r sz align s :
  0 < align → fit r sz align = Some s →
  r_start r ≤ s ∧ (align | s) ∧
  (s + sz = r_end r ∨ s + sz + size_of_ListNode ≤ r_end r).
Proof.
  intros Hpos. unfold fit. pose proof (align_up_spec_bounds (r_start r) align Hpos).
  pose proof (align_up_spec_divide (r_start r) align).
  destruct (0 <=? _) eqn:E1; simpl; [|done]. apply Z.leb_le in E1.
  destruct ((0 <? _) && _) eqn:E2; simpl; [done|]. intros [= <-].
  rewrite andb_false_iff, Z.ltb_ge, Z.ltb_ge in E2. split; [lia|]. split; [done|lia].
Qed.

Section Invariant.
Context (heap : range) (Hheap : Bump.heap_ok heap).

Lemma add_free_region_run st r regions :
  region_ok heap r → lseg (mem st) (next (head st)) regions →
  r_start r ∉ (r_start <$> regions) →
  ∃ st', add_free_region st (r_start r) (r_size r) = Ret st' ∧
    lseg (mem st') (next (head st')) (r :: regions).
Proof using Hheap.
  intros (Hdiv & ? & ? & ?) Hl Hfresh. destruct Hheap.
  unfold add_free_region, align_of_ListNode, size_of_ListNode, r_end in *.
  assert (r_start r = align_up_spec (r_start r) 8) as Hup by (apply align_up_spec_eq; [done..|lia]).
  rewrite align_up_run by (rewrite <-?Hup; unfold in_u; lia). simpl. rewrite <-Hup, Z.eqb_refl.
  simpl. rewrite (proj2 (Z.geb_le _ _)) by lia. simpl. eexists. split; [done|].
  simpl. split; [done|]. eexists. split; [by rewrite lookup_insert_eq|].
  apply (lseg_frame (mem st)); [|done]. intros r' Hr'. apply lookup_insert_ne.
  intros Heq. apply Hfresh. rewrite Heq. by apply list_elem_of_fmap_2.
Qed.

Lemma start_fresh r regions :
  0 < r_size r → Forall (region_ok heap) regions →
  (∀ r', r' ∈ regions → disjoint_range r r') → r_start r ∉ (r_start <$> regions).
Proof.
  intros Hpos Hok Hd (r' & Heq & Hr')%list_elem_of_fmap. rewrite Forall_forall in Hok.
  apply (disjoint_start_ne heap r' r); auto. symmetry. auto.
Qed.

(** What [alloc] does once [find_region] has picked the region [r]. *)
Lemma carve_region st1 r l sz align s :
  adjusted sz align → region_ok heap r → fit r sz align = Some s →
  lseg (mem st1) (next (head st1)) l → mem st1 !! r_start r = Some (mk_node (r_size r) None) →
  Forall (region_ok heap) l → (∀ r', r' ∈ l → disjoint_range r r') →
  ∃ st' extra,
    carve st1 (r_start r) s sz = Ret (s, st') ∧
    lseg (mem st') (next (head st')) (extra ++ l) ∧ Forall (region_ok heap) extra ∧
    pairwise disjoint_range (Range s sz :: extra) ∧
    (∀ r', r' ∈ Range s sz :: extra → subrange r' r) ∧
    total extra = r_end r - (s + sz).
Proof using Hheap.
  intros (Hp & Ha & Hsz & Hdsz) Hr Hfit Hl Hnode Hok Hd.
  pose proof Hr as (Hdiv & ? & ? & ?). destruct Hheap.
  unfold align_of_ListNode, size_of_ListNode in *.
  apply fit_Some in Hfit as (? & Hs & Hex); [|lia]. unfold size_of_ListNode in *.
  assert (8 | s) as H8s.
  { etransitivity; [apply (pow2_divide 8 align)|]; [done..|lia|done]. }
  unfold carve, r_end in *. unfold checked_add. rewrite checked_in by (unfold in_u; lia). simpl.
  rewrite Hnode. simpl. unfold end_addr. simpl. rewrite add_u_in by (unfold in_u; lia). simpl.
  rewrite sub_u_in by (unfold in_u; lia). simpl.
  destruct (Z.gtb_spec (r_start r + r_size r - (s + sz)) 0) as [Hgt|Hle].
  - set (x := Range (s + sz) (r_start r + r_size r - (s + sz))).
    assert (subrange x r) by (apply subrange_bounds; unfold x, r_end; simpl; lia).
    destruct (add_free_region_run st1 x l) as (st' & Hrun & Hl').
    + unfold x, region_ok, r_end, size_of_ListNode; simpl. split; [by apply Z.divide_add_r|lia].
    + done.
    + apply start_fresh; [simpl; lia|done|]. intros r' Hr'.
      eapply disjoint_range_sub; [done|auto].
    + exists st', [x]. simpl in Hrun. rewrite Hrun. simpl.
      split; [done|]. split; [done|]. split; [|split; [|split; [|simpl; lia]]].
      * apply Forall_singleton. unfold x, region_ok, r_end, size_of_ListNode; simpl.
        split; [by apply Z.divide_add_r|lia].
      * rewrite pairwise_cons by apply _. split.
        -- intros y ->%list_elem_of_singleton. apply disjoint_range_alt. unfold x, r_end; simpl. lia.
        -- rewrite pairwise_cons by apply _. split; [set_solver|apply pairwise_nil].
      * intros r' [->| ->%list_elem_of_singleton]%elem_of_cons; [|done].
        apply subrange_bounds; unfold r_end; simpl; lia.
  - exists st1, []. simpl. split; [done|]. split; [done|]. split; [constructor|].
    split; [|split; [|lia]].
    + rewrite pairwise_cons by apply _. split; [set_solver|apply pairwise_nil].
    + intros r' ->%list_elem_of_singleton. apply subrange_bounds; unfold r_end; simpl; lia.
Qed.

Lemma list_inv_alloc st live l :
  inv heap st live → req l →
  ∃ p st', alloc st l = Ret (p, st') ∧
    inv heap st' (if p =? 0 then live else Block p l :: live).
Proof using Hheap.
  intros (regions & Hl & Hok & Hd & Hlive) Hreq.
  destruct (size_align_run l Hreq) as (Hsa & Hadj & Hle).
  pose proof (regions_NoDup _ _ _ Hok Hd) as Hnd.
  pose proof (find_region_from_first_fit heap Hheap _ _ Hadj regions
    (S (stdpp.base.size (mem st))) st AtHead) as Hfind.
  ospecialize (Hfind _ Hl Hnd _ Hok); [by apply Nat.lt_succ_r, (lseg_length _ _ _ Hl)|done|].
  unfold alloc. rewrite Hsa. simpl. unfold find_region.
  destruct (first_fit regions _ _) as [[[[l1 r] l2] s]|] eqn:Hff; simpl in *.
  2: { rewrite Hfind. exists 0, st. split; [done|]. simpl. by exists regions. }
  destruct Hfind as (st1 & Hrun & [Hl' Hnode _ _ _]). rewrite Hrun. simpl.
  apply first_fit_Some in Hff as [-> Hfit].
  assert (r :: (l1 ++ l2) ++ (eff_range <$> live) ≡ₚ (l1 ++ r :: l2) ++ (eff_range <$> live)) as Hperm
    by (rewrite <-!app_assoc; simpl; by rewrite Permutation_middle).
  symmetry in Hperm. apply (pairwise_Permutation _ _ _ Hperm) in Hd.
  assert (region_ok heap r ∧ Forall (region_ok heap) (l1 ++ l2)) as [Hrok Hlok].
  { rewrite Forall_app, Forall_cons in Hok. rewrite Forall_app. tauto. }
  destruct (carve_region st1 r (l1 ++ l2) _ _ s Hadj Hrok Hfit Hl' Hnode Hlok)
    as (st' & extra & Hcarve & Hl'' & Hxok & Hxd & Hxsub & _).
  { rewrite pairwise_cons in Hd by apply _. intros r' Hr'. apply Hd. set_solver. }
  rewrite Hcarve. exists s, st'. split; [done|].
  apply fit_Some in Hfit as (? & Hdiv & ?); [|destruct Hadj; unfold align_of_ListNode in *; lia].
  pose proof Hrok as (_ & ? & ? & ?). destruct Hheap.
  destruct (Z.eqb_spec s 0); [lia|].
  exists (extra ++ l1 ++ l2). split; [done|]. split; [by apply Forall_app|]. split.
  - pose proof (disjoint_split _ _ _ Hd Hxd Hxsub) as Hnew. simpl in Hnew.
    refine (pairwise_Permutation _ _ _ _ Hnew).
    rewrite fmap_cons, <-Permutation_middle, <-!app_assoc. done.
  - apply Forall_cons. split; [|done].
    unfold live_ok, eff_range, r_end, size_of_ListNode in *. simpl. repeat split; try lia; apply Hreq || done.
Qed.

(** [dealloc] of a live block puts it at the front of the free list. *)
Lemma dealloc_pushes st regions live b live' :
  lseg (mem st) (next (head st)) regions → Forall (region_ok heap) regions →
  pairwise disjoint_range (regions ++ (eff_range <$> live)) → live ≡ₚ b :: live' →
  live_ok heap b →
  ∃ st', dealloc st (b_ptr b) (b_layout b) = Ret st' ∧
    lseg (mem st') (next (head st')) (eff_range b :: regions) ∧ region_ok heap (eff_range b) ∧
    pairwise disjoint_range ((eff_range b :: regions) ++ (eff_range <$> live')).
Proof using Hheap.
  intros Hl Hok Hd Hperm (Hreq & Hdiv & ? & ?).
  destruct (size_align_run _ Hreq) as (Hsa & (Hp & ? & ? & _) & _).
  unfold dealloc. rewrite Hsa. simpl.
  assert (regions ++ (eff_range <$> live) ≡ₚ eff_range b :: regions ++ (eff_range <$> live')) as Hperm'.
  { rewrite Hperm, fmap_cons. by rewrite <-Permutation_middle. }
  apply (pairwise_Permutation _ _ _ Hperm') in Hd.
  assert (region_ok heap (eff_range b)) as Hbok.
  { split; [|split; simpl; [lia|done]]. simpl.
    etransitivity; [|exact Hdiv]. apply pow2_divide; [done..|lia]. }
  destruct (add_free_region_run st (eff_range b) regions Hbok Hl) as (st' & Hrun & Hl').
  { rewrite pairwise_cons in Hd by apply _.
    apply start_fresh; [simpl; unfold size_of_ListNode in *; lia|done|set_solver]. }
  by exists st'.
Qed.

Lemma list_inv_dealloc st live b live' :
  inv heap st live → live ≡ₚ b :: live' →
  ∃ st', dealloc st (b_ptr b) (b_layout b) = Ret st' ∧ inv heap st' live'.
Proof using Hheap.
  intros (regions & Hl & Hok & Hd & Hlive) Hperm.
  rewrite Hperm, Forall_cons in Hlive. destruct Hlive as [Hb Hlive].
  destruct (dealloc_pushes st regions live b live' Hl Hok Hd Hperm Hb) as (st' & Hrun & Hl' & Hbok & Hd').
  exists st'. split; [done|]. exists (eff_range b :: regions).
  split; [done|]. split; [by apply Forall_cons|]. by split.
Qed.

#[global] Instance linked_list_heap_spec : HeapSpec req heap (inv heap).
Proof using Hheap.
  split.
  - intros st live b (regions & _ & _ & _ & Hlive) Hb. rewrite Forall_forall in Hlive.
    destruct (Hlive b Hb) as (Hreq & Hdiv & ? & Hend). destruct Hheap.
    destruct (size_align_run _ Hreq) as (_ & _ & ?). unfold eff_range, r_end in *. simpl in *.
    split; [apply subrange_bounds; unfold r_end; simpl; lia|]. split; [|lia].
    etransitivity; [|exact Hdiv].
    destruct Hreq as [[(_ & _ & Hp & _)%layout_ok_elim _] _].
    apply pow2_divide; [done|by apply is_power_of_two_max|unfold eff_align; lia].
  - intros st live (regions & _ & _ & Hd & Hlive) i j r1 r2 Hij H1 H2.
    rewrite pairwise_app in Hd by apply _. destruct Hd as (_ & Hd & _).
    rewrite list_lookup_fmap_Some in H1, H2.
    destruct H1 as (b1 & -> & Hb1), H2 as (b2 & -> & Hb2).
    rewrite Forall_lookup in Hlive.
    destruct (size_align_run _ (proj1 (Hlive _ _ Hb1))) as (_ & _ & ?).
    destruct (size_align_run _ (proj1 (Hlive _ _ Hb2))) as (_ & _ & ?).
    apply (disjoint_range_sub _ (eff_range b1)); [apply subrange_bounds; unfold r_end; simpl; lia|].
    symmetry. apply (disjoint_range_sub _ (eff_range b2));
      [apply subrange_bounds; unfold r_end; simpl; lia|].
    symmetry. apply (Hd i j); [done|rewrite list_lookup_fmap, ?Hb1, ?Hb2; done..].
  - apply list_inv_alloc.
  - apply list_inv_dealloc.
Qed.

Lemma list_init_inv :
  (align_of_ListNode | r_start heap) → size_of_ListNode ≤ r_size heap →
  ∃ st, init new (r_start heap) (r_size heap) = Ret st ∧ inv heap st [].
Proof using Hheap.
  intros Hdiv Hsz.
  destruct (add_free_region_run new heap []) as (st & Hrun & Hl);
    [by repeat split|done|set_solver|].
  exists st. split; [done|]. exists [heap]. split; [done|].
  split; [by apply Forall_singleton|]. split; [|constructor].
  simpl. rewrite pairwise_cons by apply _. split; [set_solver|apply pairwise_nil].
Qed.
End Invariant.

(** *** Failure and reuse *)

(** [alloc] in terms of the free list: first fit, then [carve]. *)
Lemma alloc_first_fit heap st regions l l1 r l2 s :
  Bump.heap_ok heap → req l → lseg (mem st) (next (head st)) regions →
  Forall (region_ok heap) regions → pairwise disjoint_range regions →
  first_fit regions (eff_size l) (eff_align l) = Some (l1, r, l2, s) →
  ∃ st1, alloc st l = carve st1 (r_start r) s (eff_size l) ∧
    lseg (mem st1) (next (head st1)) (l1 ++ l2) ∧
    mem st1 !! r_start r = Some (mk_node (r_size r) None).
Proof.
  intros Hheap Hreq Hl Hok Hd Hff. destruct (size_align_run l Hreq) as (Hsa & Hadj & _).
  assert (NoDup (r_start <$> regions)) as Hnd.
  { apply (regions_NoDup heap _ []); [done|]. by rewrite app_nil_r. }
  pose proof (find_region_from_first_fit heap Hheap _ _ Hadj regions
    (S (stdpp.base.size (mem st))) st AtHead) as Hfind.
  ospecialize (Hfind _ Hl Hnd _ Hok); [by apply Nat.lt_succ_r, (lseg_length _ _ _ Hl)|done|].
  rewrite Hff in Hfind. destruct Hfind as (st1 & Hrun & [Hl' Hnode _ _ _]).
  exists st1. split; [|done]. unfold alloc. rewrite Hsa. simpl. unfold find_region.
  by rewrite Hrun.
Qed.

Lemma first_fit_None l sz align :
  first_fit l sz align = None ↔ ∀ r, r ∈ l → fit r sz align = None.
Proof.
  induction l as [|r l IH]; simpl; [set_solver|]. destruct (fit r sz align) eqn:Hf.
  - split; [done|]. intros Hall. rewrite Hall in Hf; [done|by left].
  - destruct (first_fit l sz align) as [[[[l1 r'] l2] s]|]; simpl.
    + split; [done|]. intros Hall. discriminate (proj2 IH). intros r0 Hr0. apply Hall. by right.
    + split; [|done]. intros _ r0 [->|Hr0]%elem_of_cons; [done|]. by apply IH.
Qed.

(** [alloc] fails only when no free region can hold the request. *)
Lemma alloc_null heap st regions l :
  Bump.heap_ok heap → req l → lseg (mem st) (next (head st)) regions →
  Forall (region_ok heap) regions → pairwise disjoint_range regions →
  (∃ st', alloc st l = Ret (0, st')) ↔ ∀ r, r ∈ regions → fit r (eff_size l) (eff_align l) = None.
Proof.
  intros Hheap Hreq Hl Hok Hd. rewrite <-first_fit_None.
  destruct (size_align_run l Hreq) as (Hsa & Hadj & _).
  destruct (first_fit regions (eff_size l) (eff_align l)) as [[[[l1 r] l2] s]|] eqn:Hff.
  - split; [|done].
    destruct (alloc_first_fit heap st regions l _ _ _ _ Hheap Hreq Hl Hok Hd Hff) as (st1 & -> & _ & _).
    intros (st' & Hrun). unfold carve in Hrun. inv_outcome. case_match; [|done]. inv_outcome.
    apply first_fit_Some in Hff as [-> Hfit]. rewrite Forall_app, Forall_cons in Hok.
    destruct Hok as (_ & (_ & _ & ? & _) & _), Hheap, Hadj as (_ & ? & _).
    apply fit_Some in Hfit as (? & _); unfold align_of_ListNode in *; lia.
  - split; [done|]. intros _. assert (NoDup (r_start <$> regions)) as Hnd.
    { apply (regions_NoDup heap _ []); [done|]. by rewrite app_nil_r. }
    pose proof (find_region_from_first_fit heap Hheap _ _ Hadj regions
      (S (stdpp.base.size (mem st))) st AtHead) as Hfind.
    ospecialize (Hfind _ Hl Hnd _ Hok); [by apply Nat.lt_succ_r, (lseg_length _ _ _ Hl)|done|].
    rewrite Hff in Hfind. exists st. unfold alloc. rewrite Hsa. simpl. unfold find_region. by rewrite Hfind.
Qed.

Lemma inv_Permutation heap st live live' : live ≡ₚ live' → inv heap st live → inv heap st live'.
Proof.
  intros Hperm (regions & Hl & Hok & Hd & Hlive). exists regions. split_and!; [done..| |by rewrite <-Hperm].
  refine (pairwise_Permutation _ _ _ _ Hd). by rewrite Hperm.
Qed.

(** Memory that was freed is reusable: [dealloc] of a live block followed by
    [alloc] of the same layout returns the same address. *)
Lemma dealloc_alloc heap (st st' : LinkedListAllocator) b live :
  Bump.heap_ok heap → inv heap st (b :: live) → dealloc st (b_ptr b) (b_layout b) = Ret st' →
  ∃ st'', alloc st' (b_layout b) = Ret (b_ptr b, st'') ∧ inv heap st'' (b :: live).
Proof.
  intros Hheap Hinv Hfree. pose proof Hinv as (regions & Hl & Hok & Hd & Hlive). apply Forall_cons in Hlive as [Hb Hlive].
  destruct (dealloc_pushes heap Hheap st regions _ b live Hl Hok Hd ltac:(done) Hb)
    as (st1 & Hrun & Hl' & Hbok & Hd'). rewrite Hrun in Hfree. simplify_eq.
  pose proof Hb as (Hreq & Hdiv & ? & _).
  destruct (size_align_run _ Hreq) as (_ & (_ & ? & _) & _).
  destruct (list_inv_alloc heap Hheap st' live (b_layout b)) as (p & st'' & Hal & Hinv''); [|done|].
  { exists (eff_range b :: regions). split; [done|]. split; [by apply Forall_cons|done]. }
  enough (p = b_ptr b) as ->.
  { exists st''. split; [done|]. destruct Hheap.
    destruct (Z.eqb_spec (b_ptr b) 0); [lia|]. by destruct b. }
  assert (first_fit (eff_range b :: regions) (eff_size (b_layout b)) (eff_align (b_layout b)) =
    Some ([], eff_range b, regions, b_ptr b)) as Hff.
  { simpl. unfold fit. simpl. unfold align_of_ListNode in *.
    rewrite <-(align_up_spec_eq (b_ptr b) _ (b_ptr b)) by (done || lia).
    unfold r_end. simpl. by rewrite Z.sub_diag. }
  rewrite pairwise_app in Hd' by apply _.
  destruct (alloc_first_fit heap st' _ _ _ _ _ _ Hheap Hreq Hl'
    (Forall_cons_2 _ _ _ Hbok Hok) (proj1 Hd') Hff) as (st2 & Heq & _ & _).
  rewrite Heq in Hal. unfold carve in Hal. inv_outcome.
  by destruct (mem st2 !! b_ptr b); inv_outcome.
Qed.

(** [alloc] panics, instead of returning null, for every layout the
    [GlobalAlloc] contract allows whose size does not leave room to raise the
    alignment to that of a list node. *)
Lemma huge_request_panics (st : LinkedListAllocator) l :
  2 ^ 63 - align_of_ListNode < l_size l → alloc st l = Panic "adjusting alignment failed".
Proof.
  intros Hbig. unfold alloc, size_align, align_to.
  destruct (from_size_align _ _) as [l'|] eqn:Hf; [|reflexivity].
  apply from_size_align_Some in Hf as (_ & _ & ?). unfold align_of_ListNode in *. lia.
Qed.

(** A call that returned asked for no such layout. *)
Lemma exec_req (st st' : LinkedListAllocator) live tr live' :
  impl_exec request_ok st live tr st' live' → impl_exec req st live tr st' live'.
Proof.
  induction 1 as [|st live c r st1 live1 tr st2 live2 Hlegal Hrun Hlive _ IH]; [constructor|].
  econstructor; try done. destruct c as [l|p l]; [|done]. split; [done|].
  destruct (decide (l_size l + align_of_ListNode ≤ 2 ^ 63)) as [?|Hbig]; [done|].
  simpl in Hrun. by rewrite huge_request_panics in Hrun by lia.
Qed.

(** ** Properties *)

(** C3: After [LinkedListAllocator::init] on an 8-aligned heap of at least 16 bytes that does
    not begin at address 0 and ends in the lower half of the address space, every sequence of calls that
    [GlobalAlloc] allows behaves like the abstract heap: blocks are inside the heap, aligned
    and pairwise disjoint, whatever is freed in between.  The next call returns, except that
    [alloc] panics in [size_align] for exactly the layouts whose size leaves no room below
    [isize::MAX] to raise the alignment to that of a list node.  [alloc] returns null only
    when none of the regions of the free list can hold the request, and a block that is
    freed is handed out again for the same layout. *)
Theorem linked_list_refines_heap (heap : range) (st st' : LinkedListAllocator) tr live
    (Hheap : Bump.heap_ok heap) (Halign : (align_of_ListNode | r_start heap))
    (Hsize : size_of_ListNode ≤ r_size heap)
    (Hinit : init new (r_start heap) (r_size heap) = Ret st)
    (Hex : impl_exec request_ok st [] tr st' live) :
  spec_exec heap [] tr live ∧
  (∀ l, request_ok l → if l_size l + align_of_ListNode <=? 2 ^ 63
     then ∃ p st'', alloc st' l = Ret (p, st'') else alloc st' l = Panic "adjusting alignment failed") ∧
  (∃ regions, lseg (mem st') (next (head st')) regions ∧ ∀ l, req l →
     (∃ st'', alloc st' l = Ret (0, st'')) ↔ ∀ r, r ∈ regions → fit r (eff_size l) (eff_align l) = None) ∧
  ∀ b, b ∈ live → ∃ st1 st2, dealloc st' (b_ptr b) (b_layout b) = Ret st1 ∧
    alloc st1 (b_layout b) = Ret (b_ptr b, st2).
Proof.
  destruct (list_init_inv heap Hheap Halign Hsize) as (st0 & Hst0 & Hinv). rewrite Hst0 in Hinit. simplify_eq.
  pose proof (linked_list_heap_spec heap Hheap). apply exec_req in Hex.
  destruct (impl_refines req heap (inv heap) st [] tr st' live Hinv Hex) as (Hinv' & Hspec & _).
  split; [done|]. split; [|split].
  - intros l Hl. destruct (Z.leb_spec (l_size l + align_of_ListNode) (2 ^ 63)).
    + destruct (list_inv_alloc heap Hheap st' live l Hinv') as (p & st'' & Hrun & _); [done|by exists p, st''].
    + apply huge_request_panics. lia.
  - destruct Hinv' as (regions & Hl & Hok & Hd & _). exists regions. split; [done|]. intros l Hreq.
    apply (alloc_null heap); try done. rewrite pairwise_app in Hd by apply _. apply Hd.
  - intros b Hb. apply elem_of_Permutation in Hb as (live' & Hperm).
    destruct (list_inv_dealloc heap Hheap st' live b live' Hinv' Hperm) as (st1 & Hfree & _).
    assert (inv heap st' (b :: live')) as Hinv2 by by eapply inv_Permutation.
    destruct (dealloc_alloc heap st' st1 b live' Hheap Hinv2 Hfree) as (st2 & Hal & _). by exists st1, st2.
Qed.

(** A heap of one page that has handed out one block. *)
Definition sample_heap : range := Range 0x1000 0x1000.
Definition sample_layout : Layout := mk_layout 24 8.
Definition sample_st0 : LinkedListAllocator :=
  mk_ll (mk_node 0 (Some 0x1000)) {[ 0x1000 := mk_node 0x1000 None ]}.
Definition sample_st1 : LinkedListAllocator :=
  mk_ll (mk_node 0 (Some 0x1018)) {[ 0x1000 := mk_node 0x1000 None; 0x1018 := mk_node 0xfe8 None ]}.

Lemma sample_heap_ok : Bump.heap_ok sample_heap.
Proof. split; by vm_compute. Qed.

Lemma linked_list_refines_heap_witness :
  spec_exec sample_heap [] [(CAlloc sample_layout, 0x1000)] [Block 0x1000 sample_layout] ∧
  (∀ l, request_ok l → if l_size l + 8 <=? 2 ^ 63
     then ∃ p st'', alloc sample_st1 l = Ret (p, st'')
     else alloc sample_st1 l = Panic "adjusting alignment failed") ∧
  (∃ regions, lseg (mem sample_st1) (Some 0x1018) regions ∧ ∀ l, req l →
     (∃ st'', alloc sample_st1 l = Ret (0, st'')) ↔ ∀ r, r ∈ regions → fit r (eff_size l) (eff_align l) = None) ∧
  ∀ b, b ∈ [Block 0x1000 sample_layout] → ∃ st1 st2, dealloc sample_st1 (b_ptr b) (b_layout b) = Ret st1 ∧
    alloc st1 (b_layout b) = Ret (b_ptr b, st2).
Proof.
  refine (linked_list_refines_heap sample_heap sample_st0 sample_st1 _ _ sample_heap_ok _ _ _ _).
  - by exists 0x200.
  - by vm_compute.
  - by vm_compute.
  - apply (impl_exec_cons _ _ _ _ _ sample_st1 [Block 0x1000 sample_layout]);
      [by vm_compute|by vm_compute|by vm_compute|constructor].
Defined.

(** Exact accounting of the free list over an [alloc] and the [dealloc] of
    the block it returned: the padding between the start of the chosen region and
    the aligned block is not put back and is lost to the heap. *)
Theorem linked_list_padding_lost (heap : range) (st st1 st2 : LinkedListAllocator) l
    regions l1 r l2 p
    (Hheap : Bump.heap_ok heap) (Hreq : req l)
    (Hl : lseg (mem st) (next (head st)) regions) (Hok : Forall (region_ok heap) regions)
    (Hd : pairwise disjoint_range regions)
    (Hff : first_fit regions (eff_size l) (eff_align l) = Some (l1, r, l2, p))
    (Halloc : alloc st l = Ret (p, st1)) (Hfree : dealloc st1 p l = Ret st2) :
  ∃ regions2, lseg (mem st2) (next (head st2)) regions2 ∧
    total regions2 = total regions - (p - r_start r).
Proof.
  destruct (alloc_first_fit heap st regions l _ _ _ _ Hheap Hreq Hl Hok Hd Hff)
    as (st0 & Heq & Hl0 & Hnode).
  apply first_fit_Some in Hff as [-> Hfit].
  destruct (size_align_run l Hreq) as (_ & Hadj & _).
  apply (pairwise_Permutation _ _ (r :: l1 ++ l2)) in Hd; [|by rewrite Permutation_middle].
  rewrite Forall_app, Forall_cons in Hok. destruct Hok as (Hok1 & Hr & Hok2).
  assert (Forall (region_ok heap) (l1 ++ l2)) as Hok by by apply Forall_app.
  destruct (carve_region heap Hheap st0 r (l1 ++ l2) _ _ p Hadj Hr Hfit Hl0 Hnode Hok)
    as (st1' & extra & Hcarve & Hl1 & Hxok & Hxd & Hxsub & Htot).
  { rewrite pairwise_cons in Hd by apply _. apply Hd. }
  rewrite Heq, Hcarve in Halloc. simplify_eq.
  pose proof (disjoint_split _ _ _ Hd Hxd Hxsub) as Hall. simpl in Hall.
  apply fit_Some in Hfit as (? & Hdiv & ?); [|destruct Hadj; unfold align_of_ListNode in *; lia].
  pose proof Hr as (_ & ? & ? & ?).
  destruct (dealloc_pushes heap Hheap st1 (extra ++ l1 ++ l2) [Block p l] (Block p l) [])
    as (st2' & Hrun & Hl2 & _); simpl in *.
  - done.
  - by apply Forall_app.
  - refine (pairwise_Permutation _ _ _ _ Hall). by rewrite <-Permutation_cons_append.
  - done.
  - unfold live_ok, eff_range, r_end, size_of_ListNode in *. simpl. repeat split; try lia; apply Hreq || done.
  - rewrite Hrun in Hfree. simplify_eq.
    exists (eff_range (Block p l) :: extra ++ l1 ++ l2). split; [done|]. simpl. rewrite !total_app, Htot. unfold r_end. simpl. lia.
Qed.

(** A heap whose first region starts 8 bytes before the alignment asked for. *)
Lemma linked_list_padding_lost_witness :
  ∃ regions2,
    lseg {[ 0x1010 := mk_node 16 (Some 0x1020); 0x1008 := mk_node 0x1010 None;
            0x1020 := mk_node 0xff8 None ]} (Some 0x1010) regions2 ∧ total regions2 = 0x1010 - 8.
Proof.
  refine (linked_list_padding_lost (Range 0x1008 0x1010)
    (mk_ll (mk_node 0 (Some 0x1008)) {[ 0x1008 := mk_node 0x1010 None ]})
    (mk_ll (mk_node 0 (Some 0x1020)) {[ 0x1008 := mk_node 0x1010 None; 0x1020 := mk_node 0xff8 None ]})
    (mk_ll (mk_node 0 (Some 0x1010)) {[ 0x1010 := mk_node 16 (Some 0x1020);
       0x1008 := mk_node 0x1010 None; 0x1020 := mk_node 0xff8 None ]}) (mk_layout 16 16)
    [Range 0x1008 0x1010] [] (Range 0x1008 0x1010) [] 0x1010 _ _ _ _ _ _ _ _).
  - split; by vm_compute.
  - by vm_compute.
  - simpl. split; [done|]. exists None. split; [by vm_compute|done].
  - apply Forall_singleton. split; [by exists 0x201|]. split; [by vm_compute|split; by vm_compute].
  - rewrite pairwise_cons by apply _. split; [set_solver|apply pairwise_nil].
  - by vm_compute.
  - by vm_compute.
  - by vm_compute.
Defined.

End LinkedList.
