(* ===== verification/FixedSizeBlock.v ===== *)
(** * The fixed-size block allocator (kernel/src/allocator/fixed_size_block.rs)

    The kernel's global allocator.  It keeps one free list of blocks per size
    class and gets fresh blocks, and blocks larger than the largest class, from a
    fallback heap.  The fallback heap is the third-party crate
    [linked_list_allocator]: it is a parameter, the class [FallbackHeap], and
    [FallbackSpec] states its contract.  Against that contract the allocator is
    proved to be an instance of [HeapSpec]. *)

From S2P Require Import Prelude GlobalAlloc BumpAllocator LinkedListAllocator.

(** ** The fallback heap: [linked_list_allocator::Heap] *)

Class FallbackHeap (H : Type) := {
  fh_empty : H;
  fh_init : H → Z → Z → outcome H;
  fh_allocate_first_fit : H → Layout → outcome (result unit Z * H);
  fh_deallocate : H → Z → Layout → outcome H;
}.
#[global] Hint Mode FallbackHeap ! : typeclass_instances.

(** The fallback heap seen through the [GlobalAlloc] interface. *)
Definition fallback_global_alloc {H} `{!FallbackHeap H} : GlobalAlloc H := {|
  ga_alloc h l :=
    '(r, h') ← fh_allocate_first_fit h l;
    mret (match r with Ok p => p | Err _ => 0 end, h');
  ga_dealloc := fh_deallocate;
|}.

(** Its contract: it is a heap, starts empty, and its pointers are [NonNull]. *)
Class FallbackSpec {H} `{!FallbackHeap H} (freq : Layout → Prop) (heap : range)
    (finv : H → list block → Prop) : Prop := {
  fs_heap :: HeapSpec (GlobalAlloc0 := fallback_global_alloc) freq heap finv;
  fs_init : ∃ h, fh_init fh_empty (r_start heap) (r_size heap) = Ret h ∧ finv h [];
  fs_nonnull (h h' : H) l p : fh_allocate_first_fit h l = Ret (Ok p, h') → p ≠ 0;
}.

Module FixedSizeBlock.

(** ** Data and operations *)

Definition BLOCK_SIZES : list Z := [8; 16; 32; 64; 128; 256; 512; 1024; 2048].

(** [mem::size_of] and [mem::align_of] of this module's [ListNode]. *)
Definition size_of_ListNode : Z := 8.
Definition align_of_ListNode : Z := 8.

Definition list_index (layout : Layout) : option nat :=
  let required_block_size := Z.max (l_size layout) (l_align layout) in
  position (λ s, s >=? required_block_size) BLOCK_SIZES.

Section Model.
Context {H : Type} `{!FallbackHeap H}.

(** [nodes] is the memory behind the free lists: the [next] field of the
    [ListNode] written into each free block.  [reports] is what [fallback_allocator_oom]
    sent to the serial line. *)
Record FixedSizeBlockAllocator := mk_fsb {
  list_heads : list (option Z);
  nodes : gmap Z (option Z);
  fallback_allocator : H;
  reports : list string;
}.

Definition new : FixedSizeBlockAllocator :=
  mk_fsb (replicate (length BLOCK_SIZES) None) ∅ fh_empty [].

Definition init (self : FixedSizeBlockAllocator) (heap_start heap_size : Z) :
    outcome FixedSizeBlockAllocator :=
  h ← fh_init (fallback_allocator self) heap_start heap_size;
  mret (mk_fsb (list_heads self) (nodes self) h (reports self)).

Definition fallback_allocator_oom (self : FixedSizeBlockAllocator) : FixedSizeBlockAllocator :=
  mk_fsb (list_heads self) (nodes self) (fallback_allocator self)
    (reports self ++ ["[CRITICAL] [alloc] Out of memory!"]).

Definition fallback_alloc (self : FixedSizeBlockAllocator) (layout : Layout) :
    outcome (Z * FixedSizeBlockAllocator) :=
  '(r, h) ← fh_allocate_first_fit (fallback_allocator self) layout;
  let self := mk_fsb (list_heads self) (nodes self) h (reports self) in
  match r with
  | Ok ptr => mret (ptr, self)
  | Err _ => mret (0, fallback_allocator_oom self)
  end.

Definition alloc (self : FixedSizeBlockAllocator) (layout : Layout) :
    outcome (Z * FixedSizeBlockAllocator) :=
  match list_index layout with
  | Some index =>
      head ← expect "index out of bounds" (list_heads self !! index);
      match head with
      | Some node =>
          match nodes self !! node with
          | None => Undef "dangling list node"
          | Some next =>
              mret (node, mk_fsb (<[index := next]> (list_heads self))
                (<[node := None]> (nodes self)) (fallback_allocator self) (reports self))
          end
      | None =>
          block_size ← expect "index out of bounds" (BLOCK_SIZES !! index);
          let block_align := block_size in
          layout ← unwrap (from_size_align block_size block_align);
          fallback_alloc self layout
      end
  | None => fallback_alloc self layout
  end.

Definition dealloc (self : FixedSizeBlockAllocator) (ptr : Z) (layout : Layout) :
    outcome FixedSizeBlockAllocator :=
  match list_index layout with
  | Some index =>
      head ← expect "index out of bounds" (list_heads self !! index);
      block_size ← expect "index out of bounds" (BLOCK_SIZES !! index);
      _ ← assert_that (size_of_ListNode <=? block_size) "assertion failed: size_of::<ListNode>()";
      _ ← assert_that (align_of_ListNode <=? block_size) "assertion failed: align_of::<ListNode>()";
      mret (mk_fsb (<[index := Some ptr]> (list_heads self)) (<[ptr := head]> (nodes self))
              (fallback_allocator self) (reports self))
  | None =>
      ptr ← unwrap (if ptr =? 0 then None else Some ptr);
      h ← fh_deallocate (fallback_allocator self) ptr layout;
      mret (mk_fsb (list_heads self) (nodes self) h (reports self))
  end.

End Model.
Arguments FixedSizeBlockAllocator H : clear implicits.

#[global] Instance fsb_global_alloc {H} `{!FallbackHeap H} :
    GlobalAlloc (FixedSizeBlockAllocator H) := {|
  ga_alloc := alloc;
  ga_dealloc := dealloc;
|}.

(** ** Size classes *)

Definition class_size (i : nat) : Z := BLOCK_SIZES !!! i.
Definition class_layout (i : nat) : Layout := mk_layout (class_size i) (class_size i).

(** [list_index] picks the smallest size class that holds the layout's size
    and alignment, and no class only when one of them exceeds the largest class. *)
Theorem list_index_smallest (l : Layout) :
  match list_index l with
  | Some i =>
      (i < length BLOCK_SIZES)%nat ∧ l_size l ≤ class_size i ∧ l_align l ≤ class_size i ∧
      ∀ j, (j < i)%nat → class_size j < Z.max (l_size l) (l_align l)
  | None => 2048 < Z.max (l_size l) (l_align l)
  end.
Proof.
  unfold list_index. destruct (position _ _) as [i|] eqn:Hp.
  - apply position_Some in Hp as [(s & Hs & Hge) Hmin]. apply Z.geb_le in Hge.
    unfold class_size. rewrite (list_lookup_total_correct _ _ _ Hs).
    pose proof (lookup_lt_Some _ _ _ Hs). repeat split; [done|lia..|].
    intros j Hj. destruct (lookup_lt_is_Some_2 BLOCK_SIZES j) as [s' Hs']; [lia|].
    rewrite (list_lookup_total_correct _ _ _ Hs'). specialize (Hmin j s' Hj Hs').
    simpl in Hmin. rewrite Z.geb_leb in Hmin. apply Z.leb_gt in Hmin. lia.
  - rewrite position_None in Hp. specialize (Hp 2048 ltac:(by vm_compute; repeat constructor)).
    simpl in Hp. rewrite Z.geb_leb in Hp. apply Z.leb_gt in Hp. lia.
Qed.

Lemma list_index_Some l i :
  list_index l = Some i →
  (i < length BLOCK_SIZES)%nat ∧ l_size l ≤ class_size i ∧ l_align l ≤ class_size i.
Proof.
  unfold list_index. intros [(s & Hs & Hge%Z.geb_le) _]%position_Some.
  unfold class_size. rewrite (list_lookup_total_correct _ _ _ Hs).
  pose proof (lookup_lt_Some _ _ _ Hs). split; [done|lia].
Qed.

Lemma class_size_ok i :
  (i < length BLOCK_SIZES)%nat →
  BLOCK_SIZES !! i = Some (class_size i) ∧ is_power_of_two (class_size i) = true ∧
  8 ≤ class_size i ≤ 2048 ∧
  from_size_align (class_size i) (class_size i) = Some (class_layout i).
Proof.
  intros Hi. do 9 (destruct i as [|i]; [vm_compute; done|]). simpl in Hi. lia.
Qed.

(** ** The free lists

    [free] lists the free blocks of all classes, each with its class; the blocks
    of one class, in order, form the list its head points to. *)

Definition of_class (i : nat) (free : list (nat * Z)) : list Z :=
  (filter (λ p, p.1 = i) free).*2.

Fixpoint chain (m : gmap Z (option Z)) (p : option Z) (l : list Z) : Prop :=
  match l with
  | [] => p = None
  | a :: l => p = Some a ∧ ∃ nx, m !! a = Some nx ∧ chain m nx l
  end.

Lemma chain_frame m a v p l : a ∉ l → chain m p l → chain (<[a := v]> m) p l.
Proof.
  revert p. induction l as [|b l IH]; intros p Ha; simpl; [done|].
  intros (-> & nx & Hnx & Hl). split; [done|]. exists nx.
  rewrite lookup_insert_ne by set_solver. split; [done|]. apply IH; [set_solver|done].
Qed.

Lemma of_class_cons i j a free :
  of_class i ((j, a) :: free) = if decide (j = i) then a :: of_class i free else of_class i free.
Proof. unfold of_class. rewrite filter_cons. simpl. by destruct (decide (j = i)). Qed.

Lemma of_class_elem i a free : a ∈ of_class i free → a ∈ free.*2.
Proof.
  unfold of_class. intros (p & -> & [_ Hp]%list_elem_of_filter)%list_elem_of_fmap.
  by apply list_elem_of_fmap_2.
Qed.

(** Taking the first block of class [i] off the lists. *)
Lemma of_class_pop i a rest free :
  of_class i free = a :: rest →
  ∃ free', free ≡ₚ (i, a) :: free' ∧ of_class i free' = rest ∧
    ∀ j, j ≠ i → of_class j free' = of_class j free.
Proof.
  induction free as [|[j b] free IH]; [done|]. rewrite of_class_cons.
  destruct (decide (j = i)) as [->|Hji].
  - intros [= -> <-]. exists free. split; [done|]. split; [done|].
    intros j Hj. rewrite of_class_cons. by destruct (decide (i = j)).
  - intros (free' & Hp & Hi & Hj)%IH. exists ((j, b) :: free'). split; [|split].
    + rewrite Hp. constructor.
    + rewrite of_class_cons. by destruct (decide (j = i)).
    + intros k Hk. rewrite !of_class_cons, Hj by done. done.
Qed.

(** ** The invariant *)

Definition free_block (p : nat * Z) : block := Block p.2 (class_layout p.1).

(** The block of the fallback heap behind a block a client owns. *)
Definition backing (b : block) : block :=
  match list_index (b_layout b) with
  | Some i => Block (b_ptr b) (class_layout i)
  | None => b
  end.

Definition heads_ok (heads : list (option Z)) (m : gmap Z (option Z)) (free : list (nat * Z)) : Prop :=
  length heads = length BLOCK_SIZES ∧
  Forall (λ p, (p.1 < length BLOCK_SIZES)%nat) free ∧
  ∀ i p, heads !! i = Some p → chain m p (of_class i free).

Lemma heads_ok_pop heads m free i a nx :
  heads_ok heads m free → NoDup (free.*2) → heads !! i = Some (Some a) → m !! a = Some nx →
  ∃ free', free ≡ₚ (i, a) :: free' ∧ heads_ok (<[i := nx]> heads) (<[a := None]> m) free'.
Proof.
  intros (Hlen & Hcls & Hch) Hnd Hi Ha. pose proof (Hch _ _ Hi) as Hc.
  destruct (of_class i free) as [|b rest] eqn:Hf; simpl in Hc; [done|].
  destruct Hc as ([= <-] & nx' & Hnx & Hrest). simplify_eq.
  destruct (of_class_pop _ _ _ _ Hf) as (free' & Hperm & Hfi & Hfj).
  exists free'. split; [done|].
  rewrite Hperm in Hcls. apply Forall_cons in Hcls as [_ Hcls].
  assert (a ∉ free'.*2) as Hfresh.
  { rewrite (fmap_Permutation snd _ _ Hperm) in Hnd. by apply NoDup_cons in Hnd as [? _]. }
  split; [by rewrite length_insert|]. split; [done|].
  intros j p. destruct (decide (i = j)) as [<-|Hij].
  - rewrite list_lookup_insert_eq by by eapply lookup_lt_Some. intros [= <-].
    apply chain_frame; [|by rewrite Hfi]. intros Hin. by apply of_class_elem in Hin.
  - rewrite list_lookup_insert_ne by done. intros Hj. apply chain_frame.
    + intros Hin. by apply of_class_elem in Hin.
    + rewrite Hfj by done. by apply Hch.
Qed.

Lemma heads_ok_push heads m free i a p :
  heads_ok heads m free → a ∉ free.*2 → heads !! i = Some p → (i < length BLOCK_SIZES)%nat →
  heads_ok (<[i := Some a]> heads) (<[a := p]> m) ((i, a) :: free).
Proof.
  intros (Hlen & Hcls & Hch) Hfresh Hi Hlt.
  split; [by rewrite length_insert|]. split; [by apply Forall_cons|].
  intros j q. rewrite of_class_cons. destruct (decide (i = j)) as [<-|Hij].
  - rewrite list_lookup_insert_eq by lia. intros [= <-]. simpl. split; [done|].
    exists p. rewrite lookup_insert_eq. split; [done|].
    apply chain_frame; [|by apply Hch]. intros Hin. by apply of_class_elem in Hin.
  - rewrite list_lookup_insert_ne by done. intros Hj.
    apply chain_frame; [|by apply Hch]. intros Hin. by apply of_class_elem in Hin.
Qed.

Lemma backing_ptr b : b_ptr (backing b) = b_ptr b.
Proof. unfold backing. by destruct (list_index _). Qed.

(** The backing block covers the client's block and is at least as aligned. *)
Lemma backing_covers b :
  request_ok (b_layout b) →
  0 < l_size (b_layout (backing b)) ∧ subrange (b_range b) (b_range (backing b)) ∧
  (l_align (b_layout b) | l_align (b_layout (backing b))).
Proof.
  intros [(? & ? & Hp & ?)%layout_ok_elim ?]. unfold backing.
  destruct (list_index (b_layout b)) as [i|] eqn:Hi; simpl; [|by split; [|split; [intros ? ?|]]].
  apply list_index_Some in Hi as (Hlt & ? & ?).
  destruct (class_size_ok i Hlt) as (_ & Hpi & ? & _).
  split; [lia|]. split; [apply subrange_bounds; unfold b_range, r_end; simpl; lia|].
  by apply pow2_divide.
Qed.

Section Invariant.
Context {H : Type} `{!FallbackHeap H} (freq : Layout → Prop) (heap : range)
  (finv : H → list block → Prop) `{!FallbackSpec freq heap finv}.
Context (Hfreq : ∀ i, (i < length BLOCK_SIZES)%nat → freq (class_layout i)).

#[local] Existing Instance fallback_global_alloc.

(** Requests: what [GlobalAlloc] allows, and what the fallback heap accepts
    when the request goes there. *)
Definition req (l : Layout) : Prop := request_ok l ∧ (list_index l = None → freq l).

Definition inv (st : FixedSizeBlockAllocator H) (live : list block) : Prop :=
  ∃ free fl, heads_ok (list_heads st) (nodes st) free ∧ finv (fallback_allocator st) fl ∧
    fl ≡ₚ (free_block <$> free) ++ (backing <$> live) ∧
    Forall (λ b, request_ok (b_layout b)) live.

Lemma inv_NoDup h fl (free : list (nat * Z)) live :
  finv h fl → fl ≡ₚ (free_block <$> free) ++ (backing <$> live) →
  Forall (λ p, (p.1 < length BLOCK_SIZES)%nat) free →
  Forall (λ b, request_ok (b_layout b)) live → NoDup (free.*2 ++ (b_ptr <$> live)).
Proof using FallbackSpec0.
  intros Hfl Hp Hcls Hreq.
  assert (b_ptr <$> fl ≡ₚ free.*2 ++ (b_ptr <$> live)) as <-.
  { rewrite Hp, fmap_app, <-!list_fmap_compose. apply reflexive_eq. f_equal.
    apply list_fmap_ext. intros _ b _. apply backing_ptr. }
  apply disjoint_NoDup_ptr; [|exact (hs_disjoint (A:=H) h fl Hfl)].
  rewrite Hp, Forall_app, !Forall_fmap. split.
  - eapply Forall_impl; [exact Hcls|]. intros p Hlt. simpl.
    destruct (class_size_ok _ Hlt) as (_ & _ & ? & _). lia.
  - eapply Forall_impl; [exact Hreq|]. intros b Hb. simpl.
    by destruct (backing_covers b Hb) as [? _].
Qed.

Lemma fallback_alloc_run (st : FixedSizeBlockAllocator H) fl l :
  finv (fallback_allocator st) fl → freq l →
  ∃ p h' rs, fallback_alloc st l = Ret (p, mk_fsb (list_heads st) (nodes st) h' rs) ∧
    finv h' (if p =? 0 then fl else Block p l :: fl).
Proof using FallbackSpec0.
  intros Hfl Hl. destruct (hs_alloc (A:=H) _ fl l Hfl Hl) as (p & h' & Hrun & Hinv').
  simpl in Hrun. apply bind_Ret in Hrun as ([r h] & Hrun & Heq).
  exists p, h'. unfold fallback_alloc. rewrite Hrun. simpl. destruct r; inv_outcome; by eexists.
Qed.

Lemma inv_fallback_alloc st free fl live l0 l :
  heads_ok (list_heads st) (nodes st) free → finv (fallback_allocator st) fl →
  fl ≡ₚ (free_block <$> free) ++ (backing <$> live) →
  Forall (λ b, request_ok (b_layout b)) live → request_ok l0 → freq l →
  (∀ p, backing (Block p l0) = Block p l) →
  ∃ p st', fallback_alloc st l = Ret (p, st') ∧
    inv st' (if p =? 0 then live else Block p l0 :: live).
Proof using FallbackSpec0.
  intros Hh Hfl Hp Hreq Hl0 Hl Hb.
  destruct (fallback_alloc_run st fl l Hfl Hl) as (p & h' & rs & Hrun & Hfl').
  eexists p, _. split; [done|]. destruct (p =? 0).
  - by exists free, fl.
  - exists free, (Block p l :: fl). split; [done|]. split; [done|]. split.
    + rewrite fmap_cons, Hb, Hp. by rewrite Permutation_middle.
    + by apply Forall_cons.
Qed.

Lemma fsb_inv_alloc st live l :
  inv st live → req l →
  ∃ p st', alloc st l = Ret (p, st') ∧ inv st' (if p =? 0 then live else Block p l :: live).
Proof using FallbackSpec0 Hfreq.
  intros (free & fl & Hh & Hfl & Hp & Hreq) [Hl Hlf]. unfold alloc.
  destruct (list_index l) as [i|] eqn:Hi.
  2: { eapply inv_fallback_alloc; eauto. intros p. unfold backing. simpl. by rewrite Hi. }
  pose proof (list_index_Some _ _ Hi) as (Hlt & _ & _).
  pose proof Hh as (Hlen & Hcls & Hch).
  destruct (lookup_lt_is_Some_2 (list_heads st) i) as [hd Hhd]; [lia|].
  rewrite Hhd. simpl. destruct hd as [a|].
  - pose proof (Hch _ _ Hhd) as Hc. destruct (of_class i free) as [|b rest] eqn:Hf; [done|].
    destruct Hc as ([= <-] & nx & Hnx & _). rewrite Hnx.
    pose proof (inv_NoDup _ _ _ _ Hfl Hp Hcls Hreq) as Hnd. apply NoDup_app in Hnd as [Hnd _].
    destruct (heads_ok_pop _ _ _ _ _ _ Hh Hnd Hhd Hnx) as (free' & Hperm & Hh').
    eexists a, _. split; [done|].
    assert (block_ok heap (free_block (i, a))) as (_ & _ & Hnz).
    { eapply hs_block; [exact Hfl|]. rewrite Hp, Hperm. set_solver. }
    simpl in Hnz. destruct (Z.eqb_spec a 0); [done|].
    exists free', fl. split; [done|]. split; [done|]. split; [|by apply Forall_cons].
    rewrite Hp, Hperm, !fmap_cons. unfold backing at 2. simpl. rewrite Hi.
    by rewrite <-Permutation_middle.
  - destruct (class_size_ok i Hlt) as (Hbs & _ & _ & Hlay). rewrite Hbs. simpl. rewrite Hlay.
    eapply inv_fallback_alloc; eauto. intros p. unfold backing. simpl. by rewrite Hi.
Qed.

Lemma fsb_inv_dealloc st live b live' :
  inv st live → live ≡ₚ b :: live' →
  ∃ st', dealloc st (b_ptr b) (b_layout b) = Ret st' ∧ inv st' live'.
Proof using FallbackSpec0.
  intros (free & fl & Hh & Hfl & Hp & Hreq) Hperm. unfold dealloc.
  pose proof Hh as (Hlen & Hcls & Hch).
  pose proof (inv_NoDup _ _ _ _ Hfl Hp Hcls Hreq) as Hnd.
  rewrite Hperm in Hp, Hnd, Hreq. rewrite fmap_cons in Hp. csimpl in Hnd.
  apply Forall_cons in Hreq as [Hb Hreq]. apply NoDup_app in Hnd as (_ & Hfresh & _).
  destruct (list_index (b_layout b)) as [i|] eqn:Hi.
  - pose proof (list_index_Some _ _ Hi) as (Hlt & _ & _).
    destruct (lookup_lt_is_Some_2 (list_heads st) i) as [hd Hhd]; [lia|].
    destruct (class_size_ok i Hlt) as (Hbs & _ & ? & _). rewrite Hhd, Hbs. simpl.
    unfold size_of_ListNode, align_of_ListNode. rewrite (proj2 (Z.leb_le _ _)) by lia. simpl.
    eexists. split; [done|]. exists ((i, b_ptr b) :: free), fl. split.
    { apply heads_ok_push; [done| |done..]. intros Hin. apply (Hfresh _ Hin). by left. }
    split; [done|]. split; [|done].
    rewrite Hp, fmap_cons. unfold backing at 1. rewrite Hi. by rewrite <-Permutation_middle.
  - assert (fl ≡ₚ b :: (free_block <$> free) ++ (backing <$> live')) as Hp'.
    { rewrite Hp. unfold backing at 1. rewrite Hi. by rewrite <-Permutation_middle. }
    assert (b_ptr b ≠ 0).
    { eapply (hs_block (A:=H)); [exact Hfl|]. rewrite Hp'. by left. }
    destruct (Z.eqb_spec (b_ptr b) 0); [done|]. simpl.
    destruct (hs_dealloc (A:=H) _ _ _ _ Hfl Hp') as (h' & Hrun & Hfl'). simpl in Hrun.
    rewrite Hrun. simpl. eexists. split; [done|].
    eexists free, _. split; [done|]. by split.
Qed.

(** Running out of memory is reported on the serial line, once for each failed request. *)
Lemma alloc_reports st live l p st' : inv st live → alloc st l = Ret (p, st') →
  reports st' = reports st ++ (if p =? 0 then ["[CRITICAL] [alloc] Out of memory!"] else []).
Proof using FallbackSpec0 Hfreq.
  intros (free & fl & (Hlen & Hcls & Hch) & Hfl & Hp & _).
  assert (∀ l', fallback_alloc st l' = Ret (p, st') →
    reports st' = reports st ++ (if p =? 0 then ["[CRITICAL] [alloc] Out of memory!"] else [])) as Hfall.
  { intros l' Hrun. apply bind_Ret in Hrun as ([[[]|q] h] & Hrun & Heq); inv_outcome; [done|].
    rewrite (proj2 (Z.eqb_neq p 0)); [by rewrite app_nil_r|]. by eapply fs_nonnull. }
  unfold alloc. destruct (list_index l) as [i|] eqn:Hi; [|apply Hfall].
  pose proof (list_index_Some _ _ Hi) as (Hlt & _).
  destruct (lookup_lt_is_Some_2 (list_heads st) i) as [hd Hhd]; [lia|]. rewrite Hhd. simpl.
  destruct hd as [a|].
  - pose proof (Hch _ _ Hhd) as Hc. destruct (of_class i free) as [|b rest] eqn:Hf; [done|].
    destruct Hc as ([= <-] & nx & Hnx & _). rewrite Hnx. intros Hrun. inv_outcome.
    assert (block_ok heap (free_block (i, p))) as (_ & _ & Hnz); [|simpl in Hnz].
    { destruct (of_class_pop i p rest free Hf) as (free' & Hperm & _).
      eapply (hs_block (A:=H)); [exact Hfl|]. rewrite Hp, Hperm. set_solver. }
    rewrite (proj2 (Z.eqb_neq p 0)) by done. by rewrite app_nil_r.
  - destruct (class_size_ok i Hlt) as (Hbs & _ & _ & Hlay). rewrite Hbs. simpl. rewrite Hlay. apply Hfall.
Qed.

#[global] Instance fsb_heap_spec : HeapSpec req heap inv.
Proof using FallbackSpec0 Hfreq.
  split.
  - intros st live b (free & fl & _ & Hfl & Hp & Hreq) Hb. rewrite Forall_forall in Hreq.
    destruct (backing_covers b (Hreq b Hb)) as (_ & Hsub & Hal).
    assert (block_ok heap (backing b)) as (Hin & Hdiv & Hnz).
    { eapply hs_block; [exact Hfl|]. rewrite Hp. set_solver. }
    rewrite backing_ptr in *. split; [by intros a ?; auto|]. split; [by etransitivity|done].
  - intros st live (free & fl & _ & Hfl & Hp & Hreq) i j r1 r2 Hij H1 H2.
    pose proof (hs_disjoint _ _ Hfl) as Hd.
    apply (pairwise_Permutation _ _ _ (fmap_Permutation b_range _ _ Hp)) in Hd.
    rewrite fmap_app, pairwise_app in Hd by apply _. destruct Hd as (_ & Hd & _).
    rewrite list_lookup_fmap_Some in H1, H2.
    destruct H1 as (b1 & -> & Hb1), H2 as (b2 & -> & Hb2). rewrite Forall_lookup in Hreq.
    apply (disjoint_range_sub _ (b_range (backing b1))); [by apply backing_covers; eauto|].
    symmetry. apply (disjoint_range_sub _ (b_range (backing b2))); [by apply backing_covers; eauto|].
    symmetry. apply (Hd i j); [done|rewrite !list_lookup_fmap, ?Hb1, ?Hb2; done..].
  - apply fsb_inv_alloc.
  - apply fsb_inv_dealloc.
Qed.

Lemma fsb_init_inv :
  ∃ st, init new (r_start heap) (r_size heap) = Ret st ∧ inv st [].
Proof using FallbackSpec0.
  destruct fs_init as (h & Hrun & Hfl). unfold init. simpl. rewrite Hrun. simpl.
  eexists. split; [done|]. exists [], []. split; [|by split].
  split; [done|]. split; [constructor|]. intros i p Hi. cbn [list_heads] in Hi.
  apply (lookup_replicate (length BLOCK_SIZES)) in Hi as [-> _]. done.
Qed.
End Invariant.

(** ** A concrete fallback heap: the linked-list allocator of this kernel *)

#[global] Instance linked_list_fallback : FallbackHeap LinkedList.LinkedListAllocator := {|
  fh_empty := LinkedList.new;
  fh_init := LinkedList.init;
  fh_allocate_first_fit h l :=
    '(p, h') ← LinkedList.alloc h l; mret (if p =? 0 then Err () else Ok p, h');
  fh_deallocate := LinkedList.dealloc;
|}.

Lemma linked_list_fallback_spec heap :
  Bump.heap_ok heap → (LinkedList.align_of_ListNode | r_start heap) →
  LinkedList.size_of_ListNode ≤ r_size heap →
  FallbackSpec LinkedList.req heap (LinkedList.inv heap).
Proof.
  intros Hheap Hal Hsz. pose proof (LinkedList.linked_list_heap_spec heap Hheap) as Hspec.
  split.
  - split.
    + apply Hspec.
    + apply Hspec.
    + intros h live l Hinv Hl. destruct (hs_alloc h live l Hinv Hl) as (p & h' & Hrun & Hinv').
      exists p, h'. simpl in *. rewrite Hrun. simpl.
      destruct (Z.eqb_spec p 0) as [->|]; done.
    + apply Hspec.
  - by apply LinkedList.list_init_inv.
  - simpl. intros h h' l p Hrun. inv_outcome. destruct v as [q h1]. simpl in *.
    destruct (Z.eqb_spec q 0); by inv_outcome.
Qed.

Lemma linked_list_freq i : (i < length BLOCK_SIZES)%nat → LinkedList.req (class_layout i).
Proof. intros Hi. do 9 (destruct i as [|i]; [vm_compute; done|]). simpl in Hi. lia. Qed.

(** ** Properties *)

(** C1: Over any fallback heap that satisfies its contract, every legal sequence
    of calls to the kernel's global allocator behaves like the abstract heap:
    blocks are inside the heap, aligned and pairwise disjoint, whichever mix of
    size classes and fallback allocations produced them, and no legal call panics
    or follows a dangling free-list node. *)
Theorem fsb_refines_heap {H} `{!FallbackHeap H} (freq : Layout → Prop) (heap : range)
    (finv : H → list block → Prop) (st st' : FixedSizeBlockAllocator H) tr live
    (Hspec : FallbackSpec freq heap finv)
    (Hfreq : ∀ i, (i < length BLOCK_SIZES)%nat → freq (class_layout i))
    (Hinit : init new (r_start heap) (r_size heap) = Ret st)
    (Hex : impl_exec (req freq) st [] tr st' live) :
  spec_exec heap [] tr live ∧
  ∀ c, legal (req freq) live c → ∃ r st'', perform st' c = Ret (r, st'').
Proof.
  destruct (fsb_init_inv freq heap finv) as (b & Hb & Hinv). rewrite Hb in Hinit. simplify_eq.
  pose proof (fsb_heap_spec freq heap finv Hfreq).
  apply (impl_refines (req freq) heap (inv finv) st [] tr st' live Hinv Hex).
Qed.

Definition sample_ll : LinkedList.LinkedListAllocator :=
  LinkedList.mk_ll (LinkedList.mk_node 0 (Some 0x1020))
    {[ 0x1000 := LinkedList.mk_node 0x1000 None; 0x1020 := LinkedList.mk_node 0xfe0 None ]}.
Definition sample_fsb : FixedSizeBlockAllocator LinkedList.LinkedListAllocator :=
  mk_fsb (replicate 9 None) ∅ sample_ll [].
Definition sample_block : block := Block 0x1000 (mk_layout 24 8).

Lemma fsb_refines_heap_witness :
  spec_exec LinkedList.sample_heap [] [(CAlloc (mk_layout 24 8), 0x1000)] [sample_block].
Proof.
  refine (proj1 (fsb_refines_heap LinkedList.req LinkedList.sample_heap
    (LinkedList.inv LinkedList.sample_heap)
    (mk_fsb (replicate 9 None) ∅ LinkedList.sample_st0 []) sample_fsb _ _ _ linked_list_freq _ _)).
  - apply linked_list_fallback_spec;
      [exact LinkedList.sample_heap_ok|by exists 0x200|by vm_compute].
  - by vm_compute.
  - apply (impl_exec_cons _ _ _ _ _ sample_fsb [sample_block]);
      [|by vm_compute|by vm_compute|constructor].
    split; [by vm_compute|done].
Defined.

(** A block of a size class is reused without going to the fallback heap:
    after [dealloc], the next [alloc] of any layout of that class returns it and
    restores the free lists. *)
Theorem fsb_lifo_reuse {H} `{!FallbackHeap H} (st st' : FixedSizeBlockAllocator H) p l l' i
    (Hi : list_index l = Some i) (Hi' : list_index l' = Some i)
    (Hfree : dealloc st p l = Ret st') :
  ∃ m, alloc st' l' = Ret (p, mk_fsb (list_heads st) m (fallback_allocator st) (reports st)) ∧
    ∀ a, a ≠ p → m !! a = nodes st !! a.
Proof.
  unfold dealloc in Hfree. rewrite Hi in Hfree. inv_outcome. unfold alloc. rewrite Hi'. simpl.
  rewrite list_lookup_insert_eq by by eapply lookup_lt_Some. simpl.
  rewrite lookup_insert_eq. eexists. split.
  - f_equal. f_equal. f_equal. rewrite list_insert_insert_eq. by apply list_insert_id.
  - intros a Ha. by rewrite !lookup_insert_ne.
Qed.

Lemma fsb_lifo_reuse_witness :
  ∃ m, alloc (mk_fsb [None; None; Some 0x1000; None; None; None; None; None; None]
      {[ 0x1000 := None ]} sample_ll []) (mk_layout 32 32) =
      Ret (0x1000, mk_fsb (replicate 9 None) m sample_ll []) ∧
    ∀ a, a ≠ 0x1000 → m !! a = nodes sample_fsb !! a.
Proof. by apply (fsb_lifo_reuse sample_fsb _ 0x1000 (mk_layout 24 8) (mk_layout 32 32) 2). Defined.

End FixedSizeBlock.
