(* ===== verification/X86.v ===== *)
(** * The interface of the [x86_64] crate

    The kernel calls the third-party crate [x86_64] for address arithmetic and for
    the page-table mapper.  Both are parameters here: [X86Addr] and [Mapper] are
    the operations the kernel uses and [X86AddrLaws] and [MapperLaws] the
    documented behaviour it relies on.  An address is the [Z] it holds; a page or
    frame of 4 KiB is its start address.  [addr_model] and [map_model] are small
    concrete implementations that satisfy the laws. *)

From S2P Require Import Prelude.

Definition page_size : Z := 4096.

(** Canonical virtual addresses: bits 48 to 63 repeat bit 47. *)
Definition canonical (a : Z) : Prop := 0 ≤ a < 2 ^ 47 ∨ 2 ^ 64 - 2 ^ 47 ≤ a < 2 ^ 64.
#[global] Instance canonical_dec a : Decision (canonical a).
Proof. unfold canonical. apply _. Defined.

(** ** Addresses *)

Class X86Addr := {
  virt_new : Z → outcome Z;            (* VirtAddr::new *)
  virt_new_truncate : Z → Z;           (* VirtAddr::new_truncate *)
  virt_add : Z → Z → outcome Z;        (* VirtAddr + u64 *)
  virt_sub : Z → Z → outcome Z;        (* VirtAddr - u64 *)
  phys_new : Z → outcome Z;            (* PhysAddr::new *)
  phys_add : Z → Z → outcome Z;        (* PhysAddr + u64 *)
  phys_align_down : Z → Z → Z;         (* PhysAddr::align_down *)
  phys_align_up : Z → Z → outcome Z;   (* PhysAddr::align_up *)
  page_containing : Z → Z;             (* Page::containing_address *)
  page_from_start : Z → result unit Z; (* Page::from_start_address *)
  page_range_inclusive : Z → Z → list Z; (* Page::range_inclusive, iterated *)
  frame_containing : Z → Z;            (* PhysFrame::containing_address *)
  p4_index : Z → Z;
  p3_index : Z → Z;
  p2_index : Z → Z;
  p1_index : Z → Z;
  page_offset : Z → Z;
}.

Class X86AddrLaws `{!X86Addr} : Prop := {
  virt_new_ok a : canonical a → virt_new a = Ret a;
  virt_new_bad a r : virt_new a = Ret r → r = a ∧ canonical a;
  virt_new_truncate_ok a : canonical a → virt_new_truncate a = a;
  virt_add_ok a n : canonical (a + n) → virt_add a n = Ret (a + n);
  virt_add_bad a n r : virt_add a n = Ret r → r = a + n ∧ canonical (a + n);
  virt_sub_ok a n : canonical (a - n) → virt_sub a n = Ret (a - n);
  phys_new_ok a : in_u 52 a → phys_new a = Ret a;
  phys_new_bad a r : phys_new a = Ret r → r = a ∧ in_u 52 a;
  phys_add_ok a n : in_u 52 (a + n) → phys_add a n = Ret (a + n);
  phys_add_bad a n r : phys_add a n = Ret r → r = a + n ∧ in_u 52 (a + n);
  phys_align_down_eq a : in_u 52 a → phys_align_down a page_size = a - a `mod` page_size;
  phys_align_up_ok a :
    in_u 52 ((a + (page_size - 1)) `div` page_size * page_size) →
    phys_align_up a page_size = Ret ((a + (page_size - 1)) `div` page_size * page_size);
  phys_align_up_bad a r :
    phys_align_up a page_size = Ret r →
    r = (a + (page_size - 1)) `div` page_size * page_size ∧ in_u 52 r;
  page_containing_eq a : canonical a → page_containing a = a - a `mod` page_size;
  page_from_start_ok a : (page_size | a) → page_from_start a = Ok a;
  page_from_start_bad a r : page_from_start a = Ok r → r = a ∧ (page_size | a);
  page_range_inclusive_eq a b :
    (page_size | a) → (page_size | b) →
    page_range_inclusive a b =
      (λ i, a + page_size * i) <$> seqZ 0 ((b - a) `div` page_size + 1);
  frame_containing_eq a : in_u 52 a → frame_containing a = a - a `mod` page_size;
  p4_index_eq a : p4_index a = a `div` 2 ^ 39 `mod` 512;
  p3_index_eq a : p3_index a = a `div` 2 ^ 30 `mod` 512;
  p2_index_eq a : p2_index a = a `div` 2 ^ 21 `mod` 512;
  p1_index_eq a : p1_index a = a `div` 2 ^ 12 `mod` 512;
  page_offset_eq a : page_offset a = a `mod` page_size;
}.

(** ** I/O ports

    [Port<u8>], [Port<u16>] and [Port<u32>]: a read or write of [w] bits at a port,
    on the state [P] of the devices behind the ports. *)

Class Ports (P : Type) := {
  port_read : P → Z → Z → Z * P;
  port_write : P → Z → Z → Z → P;
}.
#[global] Hint Mode Ports ! : typeclass_instances.

(** Typed devices: a state in [ok] answers a read of [w] bits with a [w]-bit value, and
    stays in [ok] as long as what is written to a [w]-bit port fits in [w] bits. *)
Class PortsTyped (P : Type) `{!Ports P} (ok : P → Prop) : Prop := {
  typed_read (p : P) w port : 0 ≤ w → ok p →
    in_u w (port_read p w port).1 ∧ ok (port_read p w port).2;
  typed_write (p : P) w port v : ok p → in_u w v → ok (port_write p w port v);
}.

(** ** Page tables

    [FrameAllocator] is the trait the mapper calls for frames that hold page
    tables; its state is threaded through [map_to]. *)

Class FrameAllocator (FA : Type) := {
  allocate_frame : FA → outcome (option Z * FA);
}.
#[global] Hint Mode FrameAllocator ! : typeclass_instances.

Inductive MapToError :=
| FrameAllocationFailed
| ParentEntryHugePage
| PageAlreadyMapped (frame : Z).

Inductive UnmapError :=
| UnmapParentEntryHugePage
| PageNotMapped
| InvalidFrameAddress (addr : Z).

(** [PageTableFlags]: bits of a page-table entry. *)
Definition PRESENT : Z := 2 ^ 0.
Definition WRITABLE : Z := 2 ^ 1.
Definition NO_CACHE : Z := 2 ^ 4.

(** Well-formed arguments, as the types [Page], [PhysFrame] and [PageTableFlags] give them:
    page-aligned addresses, and flags of a present 4 KiB page. *)
Definition page_ok (page : Z) : Prop := (page_size | page) ∧ canonical page.
Definition frame_ok (frame : Z) : Prop := (page_size | frame) ∧ in_u 52 frame.
Definition flags_ok (flags : Z) : Prop :=
  0 ≤ flags < 2 ^ 12 ∧ Z.testbit flags 0 = true ∧ Z.testbit flags 7 = false.

(** The operations of the mapper, and what can be observed of its page tables. *)
Class Mapper (M : Type) := {
  map_to {FA} `{!FrameAllocator FA} :
    M → Z → Z → Z → FA → outcome (result MapToError unit * M * FA);
  unmap : M → Z → result UnmapError Z * M;
  mapping : M → Z → option (Z * Z);  (* the frame and flags of a page *)
  vacant : M → Z → bool;             (* nothing is in the way of mapping the page *)
  table_frame : M → Z → Prop;        (* the frame holds a page table *)
  tables_ok : M → Prop;              (* every page table is reached in one way only *)
}.
#[global] Hint Mode Mapper ! : typeclass_instances.

(** Frames taken from an allocator by a sequence of calls. *)
Inductive takes {FA} `{!FrameAllocator FA} : FA → list Z → FA → Prop :=
| takes_nil a : takes a [] a
| takes_none a a1 fs a2 : allocate_frame a = Ret (None, a1) → takes a1 fs a2 → takes a fs a2
| takes_some a f a1 fs a2 :
    allocate_frame a = Ret (Some f, a1) → takes a1 fs a2 → takes a (f :: fs) a2.

Lemma takes_app {FA} `{!FrameAllocator FA} (a1 a2 a3 : FA) fs1 fs2 :
  takes a1 fs1 a2 → takes a2 fs2 a3 → takes a1 (fs1 ++ fs2) a3.
Proof. induction 1; simpl; intros; eauto using takes. Qed.

(** What each call of such a sequence returned. *)
Inductive calls {FA} `{!FrameAllocator FA} : FA → list (option Z) → FA → Prop :=
| calls_nil a : calls a [] a
| calls_cons a o a1 os a2 :
    allocate_frame a = Ret (o, a1) → calls a1 os a2 → calls a (o :: os) a2.

Lemma calls_takes {FA} `{!FrameAllocator FA} (a a' : FA) os : calls a os a' → takes a (omap id os) a'.
Proof. induction 1 as [|a [f|] a1 os a2]; simpl; eauto using takes. Qed.

(** What an allocator must promise of the frames it gives: they are distinct, and none of
    them is in use as a page table. *)
Definition fresh_frames {M} `{!Mapper M} (m : M) (fs : list Z) : Prop :=
  NoDup fs ∧ ∀ f, f ∈ fs → frame_ok f ∧ ¬ table_frame m f.

(** What [map_to] does to the page tables when it took the fresh frames [fs]: only the
    requested page is affected, and only when it reports success. *)
Record mapped_page {M} `{!Mapper M} (m m' : M) (page frame flags : Z) (fs : list Z)
    (r : result MapToError unit) : Prop := {
  mp_ok : tables_ok m';
  mp_tables f : table_frame m' f → table_frame m f ∨ f ∈ fs;
  mp_others q : q ≠ page → mapping m' q = mapping m q ∧ vacant m' q = vacant m q;
  mp_page : match r with
            | Ok _ => mapping m page = None ∧ mapping m' page = Some (frame, flags)
            | Err _ => mapping m' page = mapping m page ∧ vacant m' page = vacant m page
            end;
}.

(** The documented behaviour.  [map_to] asks for at most three frames, one for each lower
    level of the tables; it succeeds on a vacant page when it is given them. *)
Class MapperLaws {M} `{!Mapper M} : Prop := {
  map_to_spec {FA} `{!FrameAllocator FA} (m m' : M) page frame flags (fa fa' : FA) r :
    tables_ok m → page_ok page → frame_ok frame → flags_ok flags →
    map_to m page frame flags fa = Ret (r, m', fa') →
    ∃ os, calls fa os fa' ∧ (length os ≤ 3)%nat ∧
      (fresh_frames m (omap id os) → mapped_page m m' page frame flags (omap id os) r);
  map_to_vacant {FA} `{!FrameAllocator FA} (m : M) page frame flags (fa fa3 : FA) fs :
    tables_ok m → page_ok page → frame_ok frame → flags_ok flags → vacant m page = true →
    calls fa (Some <$> fs) fa3 → length fs = 3%nat → fresh_frames m fs →
    ∃ m' fa', map_to m page frame flags fa = Ret (Ok (), m', fa');
  map_to_mapped {FA} `{!FrameAllocator FA} (m m' : M) page frame flags (fa fa' : FA) r f fl :
    page_ok page → mapping m page = Some (f, fl) →
    map_to m page frame flags fa = Ret (r, m', fa') → r = Err (PageAlreadyMapped f);
  vacant_unmapped (m : M) page : vacant m page = true → mapping m page = None;
  unmap_ok (m m' : M) page f :
    tables_ok m → page_ok page → unmap m page = (Ok f, m') →
    tables_ok m' ∧ mapping m' page = None ∧ vacant m' page = true ∧
    (∀ q, q ≠ page → mapping m' q = mapping m q ∧ vacant m' q = vacant m q) ∧
    ∀ g, table_frame m' g → table_frame m g;
  unmap_mapped (m : M) page f fl :
    mapping m page = Some (f, fl) → ∃ m', unmap m page = (Ok f, m');
}.
Arguments MapperLaws M {_}.

(** ** Concrete models *)

Definition checked_canonical (a : Z) : outcome Z :=
  if decide (canonical a) then Ret a else Panic "address is not canonical".
Definition checked_phys (a : Z) : outcome Z :=
  if decide (in_u 52 a) then Ret a else Panic "physical address has high bits set".

Definition addr_model : X86Addr := {|
  virt_new := checked_canonical;
  virt_new_truncate a :=
    let low := a `mod` 2 ^ 48 in if low <? 2 ^ 47 then low else low + (2 ^ 64 - 2 ^ 48);
  virt_add a n := checked_canonical (a + n);
  virt_sub a n := checked_canonical (a - n);
  phys_new := checked_phys;
  phys_add a n := checked_phys (a + n);
  phys_align_down a n := a - a `mod` n;
  phys_align_up a n := checked_phys ((a + (n - 1)) `div` n * n);
  page_containing a := a - a `mod` page_size;
  page_from_start a := if a `mod` page_size =? 0 then Ok a else Err ();
  page_range_inclusive a b := (λ i, a + page_size * i) <$> seqZ 0 ((b - a) `div` page_size + 1);
  frame_containing a := a - a `mod` page_size;
  p4_index a := a `div` 2 ^ 39 `mod` 512;
  p3_index a := a `div` 2 ^ 30 `mod` 512;
  p2_index a := a `div` 2 ^ 21 `mod` 512;
  p1_index a := a `div` 2 ^ 12 `mod` 512;
  page_offset a := a `mod` page_size;
|}.

Lemma addr_model_laws : @X86AddrLaws addr_model.
Proof.
  split; simpl; try done; unfold checked_canonical, checked_phys; intros.
  all: repeat case_decide; simplify_eq; try done.
  - match goal with H : canonical a |- _ => destruct H end.
    + rewrite (Z.mod_small a) by lia. by rewrite (proj2 (Z.ltb_lt _ _)) by lia.
    + rewrite <-(Z.mod_unique a (2 ^ 48) (2 ^ 16 - 1) (a - (2 ^ 64 - 2 ^ 48))) by lia.
      rewrite (proj2 (Z.ltb_ge _ _)) by lia. lia.
  - unfold page_size in *. destruct (Z.eqb_spec (a `mod` 4096) 0) as [|Hne]; [done|].
    destruct Hne. by apply Z.mod_divide.
  - destruct (Z.eqb_spec (a `mod` page_size) 0) as [Hz|]; simplify_eq.
    split; [done|]. by apply Z.mod_divide.
Qed.

(** A mapper that records mappings and never needs a page-table frame. *)
#[local] Instance map_model : Mapper (gmap Z (Z * Z)) := {|
  map_to FA _ m page frame flags fa :=
    match m !! page with
    | Some (f, _) => Ret (Err (PageAlreadyMapped f), m, fa)
    | None => Ret (Ok (), <[page := (frame, flags)]> m, fa)
    end;
  unmap m page :=
    match m !! page with
    | Some (f, _) => (Ok f, delete page m)
    | None => (Err PageNotMapped, m)
    end;
  mapping m page := m !! page;
  vacant m page := bool_decide (m !! page = None);
  table_frame _ _ := False;
  tables_ok _ := True;
|}.

Lemma map_model_laws : MapperLaws (gmap Z (Z * Z)).
Proof.
  split; simpl.
  - intros FA ? m m' page frame flags fa fa' r _ _ _ _ H. exists []. simpl.
    destruct (m !! page) as [[f fl]|] eqn:Hm; simplify_eq.
    + split; [constructor|]. split; [lia|]. intros _. by split.
    + split; [constructor|]. split; [lia|]. intros _. split; simpl; try done.
      * intros q Hq. by rewrite lookup_insert_ne.
      * by rewrite lookup_insert_eq.
  - intros FA ? m page frame flags fa fa3 fs _ _ _ _ Hv%bool_decide_eq_true _ _ _. rewrite Hv. eauto.
  - intros FA ? m m' page frame flags fa fa' r f fl _ Hm H. rewrite Hm in H. by simplify_eq.
  - intros m page. by rewrite bool_decide_eq_true.
  - intros m m' page f _ _ H. destruct (m !! page) as [[f' fl]|]; simplify_eq. split; [done|].
    rewrite lookup_delete_eq. split; [done|]. split; [done|]. split; [|done].
    intros q Hq. by rewrite lookup_delete_ne.
  - intros m page f fl ->. eauto.
Qed.
