(* ===== verification/Memory.v ===== *)
(** * Physical frames and address translation (kernel/src/memory.rs)

    [FrameAlloc] models [BootInfoFrameAllocator], which hands out the usable 4 KiB
    frames of the bootloader's memory map in order; [Translate] models the walk of
    the four-level page table in [translate_addr]. *)

From S2P Require Import Prelude X86.

(** [bootloader_api::info::MemoryRegion], with the kinds the kernel tells apart. *)
Inductive MemoryRegionKind := Usable | Bootloader | UnknownUefi (tag : Z) | UnknownBios (tag : Z).
#[global] Instance MemoryRegionKind_eq_dec : EqDecision MemoryRegionKind.
Proof. solve_decision. Defined.

Record MemoryRegion := mk_region { mr_start : Z; mr_end : Z; mr_kind : MemoryRegionKind }.

(** ** [BootInfoFrameAllocator] *)

Module FrameAlloc.

Record BootInfoFrameAllocator := mk_bifa { memory_regions : list MemoryRegion; next : nat }.

Definition init (regions : list MemoryRegion) : BootInfoFrameAllocator := mk_bifa regions 0.

(** [(start..end).step_by(4096)]. *)
Definition step_by_page (start end_ : Z) : list Z :=
  (λ i, start + page_size * i) <$> seqZ 0 ((end_ - start + (page_size - 1)) `div` page_size).

Definition frame_addresses (regions : list MemoryRegion) : list Z :=
  let usable_regions := filter (λ r, mr_kind r = Usable) regions in
  usable_regions ≫= λ r, step_by_page (mr_start r) (mr_end r).

Section Model.
Context `{!X86Addr}.

(** The closure that turns a frame address into a [PhysFrame]. *)
Definition usable_frame (addr : Z) : outcome Z :=
  a ← phys_new addr; mret (frame_containing a).

(** [usable_frames().nth(n)]: the iterator builds every frame on the way. *)
Fixpoint usable_frames_nth (addrs : list Z) (n : nat) : outcome (option Z) :=
  match addrs with
  | [] => mret None
  | addr :: addrs =>
      frame ← usable_frame addr;
      match n with
      | O => mret (Some frame)
      | S n => usable_frames_nth addrs n
      end
  end.

(** [usable_frames()] searched for a start address. *)
Fixpoint usable_frames_find (addrs : list Z) (ptr : Z) : outcome (option Z) :=
  match addrs with
  | [] => mret None
  | addr :: addrs =>
      frame ← usable_frame addr;
      if frame =? ptr then mret (Some frame) else usable_frames_find addrs ptr
  end.

Definition allocate_frame_from_physical (self : BootInfoFrameAllocator) (ptr : Z) :
    outcome (option Z * BootInfoFrameAllocator) :=
  let ptr := phys_align_down ptr page_size in
  frame ← usable_frames_find (frame_addresses (memory_regions self)) ptr;
  mret (frame, self).

Definition allocate_frame (self : BootInfoFrameAllocator) :
    outcome (option Z * BootInfoFrameAllocator) :=
  frame ← usable_frames_nth (frame_addresses (memory_regions self)) (next self);
  next ← add_u usize (Z.of_nat (next self)) 1;
  mret (frame, mk_bifa (memory_regions self) (Z.to_nat next)).

#[global] Instance boot_info_frame_allocator : FrameAllocator BootInfoFrameAllocator := {|
  X86.allocate_frame := allocate_frame;
|}.

(** ** The frames of the memory map *)

(** What the bootloader guarantees of the regions it calls usable: page aligned,
    inside the physical address space and pairwise disjoint. *)
Definition region_ok (r : MemoryRegion) : Prop :=
  (page_size | mr_start r) ∧ (page_size | mr_end r) ∧ 0 ≤ mr_start r ≤ mr_end r ∧ mr_end r ≤ 2 ^ 52.
Definition region_range (r : MemoryRegion) : range :=
  Range (mr_start r) (mr_end r - mr_start r).
Definition usable (regions : list MemoryRegion) : list MemoryRegion :=
  filter (λ r, mr_kind r = Usable) regions.
Definition regions_ok (regions : list MemoryRegion) : Prop :=
  Forall region_ok (usable regions) ∧ pairwise disjoint_range (region_range <$> usable regions).

Lemma step_by_page_elem r a :
  region_ok r →
  a ∈ step_by_page (mr_start r) (mr_end r) ↔
  (page_size | a) ∧ mr_start r ≤ a ∧ a + page_size ≤ mr_end r.
Proof.
  intros (Hs & He & Hb & _). unfold step_by_page, page_size in *.
  rewrite list_elem_of_fmap. setoid_rewrite elem_of_seqZ.
  destruct Hs as [s Hs], He as [e He]. rewrite Hs, He in *.
  replace ((e * 4096 - s * 4096 + (4096 - 1)) `div` 4096) with (e - s).
  2: { apply (Z.div_unique _ _ _ 4095); lia. }
  split.
  - intros (i & -> & Hi). split; [exists (s + i); lia|lia].
  - intros ([q ->] & ?). exists (q - s). lia.
Qed.

Lemma step_by_page_NoDup s e : NoDup (step_by_page s e).
Proof.
  unfold step_by_page. apply NoDup_fmap_2; [|apply NoDup_seqZ].
  intros i j Hij. unfold page_size in *. lia.
Qed.

Lemma frame_addresses_elem regions a :
  Forall region_ok (usable regions) →
  a ∈ frame_addresses regions ↔
  ∃ r, r ∈ regions ∧ mr_kind r = Usable ∧ (page_size | a) ∧
    mr_start r ≤ a ∧ a + page_size ≤ mr_end r.
Proof.
  intros Hok. unfold frame_addresses. fold (usable regions).
  rewrite list_elem_of_bind. rewrite Forall_forall in Hok. split.
  - intros (r & Ha & Hr). pose proof (proj1 (step_by_page_elem r a (Hok r Hr)) Ha).
    apply list_elem_of_filter in Hr. naive_solver.
  - intros (r & Hr & Hu & Ha). assert (r ∈ usable regions) as Hin by by apply list_elem_of_filter.
    exists r. split; [|done]. by apply step_by_page_elem, Ha; apply Hok.
Qed.

Lemma frames_NoDup rs :
  Forall region_ok rs → pairwise disjoint_range (region_range <$> rs) →
  NoDup (rs ≫= λ r, step_by_page (mr_start r) (mr_end r)).
Proof.
  induction rs as [|r rs IH]; [constructor|].
  intros [Hr Hrs]%Forall_cons. rewrite fmap_cons, pairwise_cons by apply _. intros [Hd Hds].
  rewrite bind_cons, NoDup_app. split; [apply step_by_page_NoDup|]. split; [|auto].
  intros a Ha (r' & Ha' & Hr')%list_elem_of_bind. rewrite Forall_forall in Hrs.
  apply step_by_page_elem in Ha as (_ & ? & ?); [|done].
  apply step_by_page_elem in Ha' as (_ & ? & ?); [|by apply Hrs].
  apply (Hd (region_range r') (list_elem_of_fmap_2 _ _ _ Hr') a).
  unfold in_range, region_range, r_end, page_size in *. simpl. lia.
Qed.

Lemma frame_addresses_NoDup regions : regions_ok regions → NoDup (frame_addresses regions).
Proof. intros [? ?]. by apply frames_NoDup. Qed.

Context {laws : X86AddrLaws}.

Lemma usable_frame_run a : in_u 52 a → (page_size | a) → usable_frame a = Ret a.
Proof.
  intros Ha Hd. unfold usable_frame. rewrite phys_new_ok by done. simpl.
  rewrite frame_containing_eq by done. apply Z.mod_divide in Hd; [|done]. rewrite Hd. f_equal. lia.
Qed.

Lemma frame_address_ok regions a :
  regions_ok regions → a ∈ frame_addresses regions → in_u 52 a ∧ (page_size | a).
Proof.
  intros [Hok _] Ha. pose proof Ha as (r & Hr & Hu & Hd & ? & ?)%frame_addresses_elem; [|done].
  rewrite Forall_forall in Hok. destruct (Hok r) as (_ & _ & ? & ?); [by apply list_elem_of_filter|].
  unfold in_u, page_size in *. split; [lia|done].
Qed.

Lemma usable_frames_nth_run addrs n :
  Forall (λ a, in_u 52 a ∧ (page_size | a)) addrs → usable_frames_nth addrs n = Ret (addrs !! n).
Proof.
  intros Hok. revert n. induction Hok as [|a addrs [Ha Hd] _ IH]; intros n; simpl; [done|].
  rewrite usable_frame_run by done. destruct n; simpl; [done|apply IH].
Qed.

Lemma usable_frames_find_run addrs p :
  Forall (λ a, in_u 52 a ∧ (page_size | a)) addrs →
  usable_frames_find addrs p = Ret (if decide (p ∈ addrs) then Some p else None).
Proof.
  induction 1 as [|a addrs [Ha Hd] _ IH]; simpl; [done|].
  rewrite usable_frame_run by done. simpl. rewrite IH.
  destruct (Z.eqb_spec a p) as [->|Hne].
  - by rewrite decide_True by left.
  - destruct (decide (p ∈ addrs)); [rewrite decide_True by by right|rewrite decide_False by set_solver]; done.
Qed.

Lemma addresses_Forall regions :
  regions_ok regions → Forall (λ a, in_u 52 a ∧ (page_size | a)) (frame_addresses regions).
Proof. intros. apply Forall_forall. intros a Ha. by eapply frame_address_ok. Qed.

(** What one call returns: the frame at index [next]. *)
Lemma allocate_frame_run fa :
  regions_ok (memory_regions fa) → Z.of_nat (next fa) < usize_max →
  allocate_frame fa =
    Ret (frame_addresses (memory_regions fa) !! next fa, mk_bifa (memory_regions fa) (S (next fa))).
Proof.
  intros Hok Hn. unfold allocate_frame. rewrite usable_frames_nth_run by by apply addresses_Forall.
  simpl. run_u. simpl. repeat f_equal. lia.
Qed.

Lemma allocate_frame_Ret fa o fa' :
  regions_ok (memory_regions fa) → allocate_frame fa = Ret (o, fa') →
  o = frame_addresses (memory_regions fa) !! next fa ∧
  fa' = mk_bifa (memory_regions fa) (S (next fa)).
Proof.
  intros Hok. unfold allocate_frame. rewrite usable_frames_nth_run by by apply addresses_Forall.
  intros Hrun. inv_outcome. inv_arith. split; [done|]. subst. f_equal. lia.
Qed.

(** The frames taken by any number of calls are the next ones of the list. *)
Lemma takes_slice fa fs fa' :
  regions_ok (memory_regions fa) → takes fa fs fa' →
  memory_regions fa' = memory_regions fa ∧ (next fa ≤ next fa')%nat ∧
  fs = take (next fa' - next fa) (drop (next fa) (frame_addresses (memory_regions fa))).
Proof.
  intros Hok Ht.
  induction Ht as [fa|fa fa1 fs fa2 Ha Ht IH|fa f fa1 fs fa2 Ha Ht IH].
  - rewrite Nat.sub_diag. split; [done|]. split; [lia|done].
  - apply allocate_frame_Ret in Ha as [Hnone ->]; [|done]. simpl in *.
    destruct (IH Hok) as (Hr & Hle & ->). split; [done|]. split; [lia|].
    symmetry in Hnone. apply lookup_ge_None in Hnone.
    rewrite !drop_ge by lia. by rewrite !take_nil.
  - apply allocate_frame_Ret in Ha as [Hsome ->]; [|done]. simpl in *.
    destruct (IH Hok) as (Hr & Hle & ->). split; [done|]. split; [lia|].
    symmetry in Hsome. rewrite (drop_S _ f (next fa)) by done.
    replace (next fa2 - next fa)%nat with (S (next fa2 - S (next fa))) by lia. done.
Qed.

(** The frames that are still to be handed out. *)
Definition remaining (fa : BootInfoFrameAllocator) : list Z :=
  drop (next fa) (frame_addresses (memory_regions fa)).

(** A memory map in order, of fewer frames than the counter can count. *)
Definition map_ok (fa : BootInfoFrameAllocator) : Prop :=
  regions_ok (memory_regions fa) ∧ Z.of_nat (length (frame_addresses (memory_regions fa))) < usize_max.

Lemma remaining_fresh fa f : map_ok fa → f ∈ remaining fa → frame_ok f.
Proof.
  intros [Hok _] (i & Hi)%list_elem_of_lookup. unfold remaining in Hi. rewrite lookup_drop in Hi.
  apply list_elem_of_lookup_2, (frame_address_ok (memory_regions fa)) in Hi as [? ?]; [by split|done].
Qed.

Lemma remaining_NoDup fa : map_ok fa → NoDup (remaining fa).
Proof.
  intros [Hok _]. eapply sublist_NoDup; [by apply frame_addresses_NoDup|apply sublist_drop].
Qed.

(** Any calls hand out the first of the remaining frames, one for each call. *)
Lemma calls_remaining fa os fa' :
  map_ok fa → calls fa os fa' →
  memory_regions fa' = memory_regions fa ∧ remaining fa' = drop (length os) (remaining fa) ∧
  omap id os = take (length os) (remaining fa).
Proof.
  intros [Hok Hmax] Hc. induction Hc as [fa|fa o fa1 os fa2 Ha Hc IH]; [done|].
  apply allocate_frame_Ret in Ha as [-> ->]; [|done]. simpl in *.
  destruct (IH Hok Hmax) as (Hr & Hrem & Hos). split; [done|]. rewrite Hrem. unfold remaining in *. simpl in *.
  split; [by rewrite !drop_drop, Nat.add_succ_r|].
  destruct (frame_addresses (memory_regions fa) !! next fa) as [f|] eqn:Hf; simpl.
  - rewrite (drop_S _ f (next fa) Hf). simpl. f_equal. exact Hos.
  - apply lookup_ge_None in Hf. etransitivity; [exact Hos|]. rewrite !drop_ge by lia. by rewrite !take_nil.
Qed.

Lemma allocate_next fa f fs : map_ok fa → remaining fa = f :: fs →
  ∃ fa', allocate_frame fa = Ret (Some f, fa') ∧ memory_regions fa' = memory_regions fa ∧ remaining fa' = fs.
Proof.
  intros [Hok Hmax] Hrem. unfold remaining in *.
  assert (frame_addresses (memory_regions fa) !! next fa = Some f) as Hf.
  { by rewrite <-(Nat.add_0_r (next fa)), <-lookup_drop, Hrem. }
  pose proof (lookup_lt_Some _ _ _ Hf). eexists. split; [|split].
  - by rewrite allocate_frame_run, Hf by (done || lia).
  - done.
  - simpl. rewrite (drop_S _ f (next fa) Hf) in Hrem. by injection Hrem.
Qed.

(** As many calls as there are frames left all succeed. *)
Lemma remaining_supply n : ∀ fa, map_ok fa → (n ≤ length (remaining fa))%nat →
  ∃ fa', calls fa (Some <$> take n (remaining fa)) fa'.
Proof.
  induction n as [|n IH]; intros fa Hmap Hn; [exists fa; constructor|].
  destruct (remaining fa) as [|f fs] eqn:Hrem; simpl in Hn; [lia|].
  destruct (allocate_next fa f fs Hmap Hrem) as (fa1 & Ha & Hreg & Hrem1).
  destruct (IH fa1) as [fa' Hc]; [unfold map_ok; by rewrite Hreg|rewrite Hrem1; lia|].
  rewrite Hrem1 in Hc. exists fa'. by econstructor.
Qed.

End Model.

(** ** Properties *)

(** C17: No frame is handed out twice, and every frame handed out is a whole,
    page-aligned 4 KiB frame of a region the bootloader marked usable, however
    many calls are made and whether they come from the kernel or from the mapper.
    [allocate_frame_from_physical], which nothing calls and which reserves nothing, is
    not one of these calls. *)
Theorem frames_unique_usable `{!X86Addr} (regions : list MemoryRegion) fs fa
    (Hlaws : X86AddrLaws) (Hok : regions_ok regions) (Htakes : takes (init regions) fs fa) :
  NoDup fs ∧
  ∀ f, f ∈ fs → ∃ r, r ∈ regions ∧ mr_kind r = Usable ∧ (page_size | f) ∧
    mr_start r ≤ f ∧ f + page_size ≤ mr_end r.
Proof.
  apply takes_slice in Htakes as (_ & _ & ->); [|done]. simpl. rewrite drop_0. split.
  - eapply sublist_NoDup; [by apply frame_addresses_NoDup|apply sublist_take].
  - intros f (i & Hi & _)%elem_of_take. apply frame_addresses_elem; [apply Hok|].
    by eapply list_elem_of_lookup_2.
Qed.

Definition sample_regions : list MemoryRegion :=
  [mk_region 0 0x1000 Bootloader; mk_region 0x1000 0x3000 Usable; mk_region 0x8000 0x9000 Usable].

Lemma sample_regions_ok : regions_ok sample_regions.
Proof.
  split; simpl.
  - apply Forall_cons. split; [|apply Forall_singleton].
    + split; [by exists 1|]. split; [by exists 3|]. done.
    + split; [by exists 8|]. split; [by exists 9|]. done.
  - rewrite !pairwise_cons by apply _. split; [|split; [set_solver|apply pairwise_nil]].
    intros r ->%list_elem_of_singleton. apply disjoint_range_alt. by left.
Qed.

Lemma frames_unique_usable_witness :
  NoDup [0x1000; 0x2000] ∧
  ∀ f, f ∈ [0x1000; 0x2000] → ∃ r, r ∈ sample_regions ∧ mr_kind r = Usable ∧ (page_size | f) ∧
    mr_start r ≤ f ∧ f + page_size ≤ mr_end r.
Proof.
  apply (@frames_unique_usable addr_model sample_regions [0x1000; 0x2000]
    (mk_bifa sample_regions 2) addr_model_laws sample_regions_ok).
  eapply takes_some; [by vm_compute|]. eapply takes_some; [by vm_compute|]. constructor.
Defined.

(** When the usable frames are used up, [allocate_frame] reports [None] and
    keeps doing so; until then the [n]-th call returns the [n]-th usable frame. *)
Theorem allocate_frame_in_order `{!X86Addr} (fa : BootInfoFrameAllocator)
    (Hlaws : X86AddrLaws) (Hok : regions_ok (memory_regions fa))
    (Hn : Z.of_nat (next fa) < usize_max) :
  ∃ o fa', allocate_frame fa = Ret (o, fa') ∧ next fa' = S (next fa) ∧
    memory_regions fa' = memory_regions fa ∧
    (o = None ↔ (length (frame_addresses (memory_regions fa)) ≤ next fa)%nat) ∧
    ∀ f, o = Some f ↔ frame_addresses (memory_regions fa) !! next fa = Some f.
Proof.
  eexists _, _. split; [by apply allocate_frame_run|]. split; [done|]. split; [done|].
  split; [apply lookup_ge_None|done].
Qed.

Lemma allocate_frame_in_order_witness :
  ∃ o fa', @allocate_frame addr_model (init sample_regions) = Ret (o, fa') ∧ next fa' = 1%nat ∧
    memory_regions fa' = sample_regions ∧
    (o = None ↔ (length (frame_addresses sample_regions) ≤ 0)%nat) ∧
    ∀ f, o = Some f ↔ frame_addresses sample_regions !! 0%nat = Some f.
Proof.
  exact (@allocate_frame_in_order addr_model (init sample_regions) addr_model_laws
    sample_regions_ok eq_refl).
Defined.

(** [allocate_frame_from_physical] finds the usable frame containing the
    address but does not reserve it: the allocator is unchanged, so a later
    [allocate_frame] can return the same frame. *)
Theorem from_physical_does_not_reserve `{!X86Addr} (fa : BootInfoFrameAllocator) ptr
    (Hlaws : X86AddrLaws) (Hok : regions_ok (memory_regions fa)) (Hptr : in_u 52 ptr) :
  let frame := ptr - ptr `mod` page_size in
  allocate_frame_from_physical fa ptr =
    Ret (if decide (frame ∈ frame_addresses (memory_regions fa)) then Some frame else None, fa).
Proof.
  simpl. unfold allocate_frame_from_physical. rewrite phys_align_down_eq by done.
  by rewrite usable_frames_find_run by by apply addresses_Forall.
Qed.

Lemma from_physical_does_not_reserve_witness :
  @allocate_frame_from_physical addr_model (init sample_regions) 0x1234 =
    Ret (Some 0x1000, init sample_regions) ∧
  @allocate_frame addr_model (init sample_regions) = Ret (Some 0x1000, mk_bifa sample_regions 1).
Proof.
  split; [|by vm_compute].
  exact (@from_physical_does_not_reserve addr_model (init sample_regions) 0x1234
    addr_model_laws sample_regions_ok ltac:(by vm_compute)).
Defined.

End FrameAlloc.

(** ** [translate_addr] *)

Module Translate.

(** [x86_64]'s [FrameError] and the result of [PageTableEntry::frame]. *)
Inductive FrameError := FrameNotPresent | HugeFrame.

Section Model.
Context `{!X86Addr}.

(** [cr3] is the frame of the level 4 table, and [entry_frame table index] what
    [PageTableEntry::frame] returns for the entry [index] of the page table at the
    virtual address [table]. *)
Context (cr3 : Z) (entry_frame : Z → Z → result FrameError Z).

Fixpoint walk (physical_memory_offset frame : Z) (indexes : list Z) : outcome (option Z) :=
  match indexes with
  | [] => mret (Some frame)
  | index :: indexes =>
      virt ← virt_add physical_memory_offset frame;
      match entry_frame virt index with
      | Ok frame => walk physical_memory_offset frame indexes
      | Err FrameNotPresent => mret None
      | Err HugeFrame => Panic "huge pages not supported"
      end
  end.

Definition translate_addr_inner (addr physical_memory_offset : Z) : outcome (option Z) :=
  let table_indexes := [p4_index addr; p3_index addr; p2_index addr; p1_index addr] in
  frame ← walk physical_memory_offset cr3 table_indexes;
  match frame with
  | None => mret None
  | Some frame => pa ← phys_add frame (page_offset addr); mret (Some pa)
  end.

Definition translate_addr (addr physical_memory_offset : Z) : outcome (option Z) :=
  translate_addr_inner addr physical_memory_offset.

(** [active_level_4_table] returns a reference to the table: its address. *)
Definition active_level_4_table (physical_memory_offset : Z) : outcome Z :=
  virt_add physical_memory_offset cr3.

(** The hardware's view: [maps frame indexes f] says that the tables reached from
    [frame] through [indexes] are present and lead to the frame [f]. *)
Inductive maps (offset : Z) : Z → list Z → Z → Prop :=
| maps_nil frame : maps offset frame [] frame
| maps_cons frame index next indexes f :
    entry_frame (offset + frame) index = Ok next → maps offset next indexes f →
    maps offset frame (index :: indexes) f.

Lemma walk_maps `{!X86AddrLaws} offset frame indexes f :
  walk offset frame indexes = Ret (Some f) → maps offset frame indexes f.
Proof.
  revert frame. induction indexes as [|i l IH]; intros frame; simpl.
  - intros [= ->]. constructor.
  - intros Hrun. apply bind_Ret in Hrun as (virt & Hvirt & Hrun).
    apply virt_add_bad in Hvirt as [-> _].
    destruct (entry_frame (offset + frame) i) as [[]|next] eqn:He; [done..|].
    econstructor; eauto.
Qed.

(** The callers' obligation: all of physical memory, [limit] bytes, is mapped at
    [offset], and the page tables only refer to frames in it. *)
Definition memory_mapped (offset limit : Z) : Prop :=
  limit ≤ 2 ^ 52 ∧ (∀ g : Z, 0 ≤ g < limit → canonical (offset + g)) ∧
  (0 ≤ cr3 ∧ cr3 + page_size ≤ limit) ∧
  ∀ t i next, entry_frame t i = Ok next → 0 ≤ next ∧ next + page_size ≤ limit.

Lemma maps_walk `{!X86AddrLaws} offset limit frame indexes f :
  memory_mapped offset limit → 0 ≤ frame → frame + page_size ≤ limit →
  maps offset frame indexes f →
  walk offset frame indexes = Ret (Some f) ∧ 0 ≤ f ∧ f + page_size ≤ limit.
Proof.
  intros (Hlim & Hcan & _ & Hent) ? ?. induction 1 as [|frame i next l f He _ IH]; simpl; [done|].
  unfold page_size in *. rewrite virt_add_ok by (apply Hcan; lia). simpl. rewrite He.
  destruct (Hent _ _ _ He). auto.
Qed.
End Model.

(** C10: [translate_addr] computes the hardware's translation: it returns the
    physical address [pa] exactly when the four table levels selected by the
    address are present and lead to a frame [f] with [pa] the page offset into it. *)
Theorem translate_addr_correct `{!X86Addr} (cr3 : Z) (entry_frame : Z → Z → result FrameError Z)
    (addr offset limit pa : Z)
    (Hlaws : X86AddrLaws) (Hmem : memory_mapped cr3 entry_frame offset limit) :
  translate_addr cr3 entry_frame addr offset = Ret (Some pa) ↔
  ∃ f, maps entry_frame offset cr3
         [addr `div` 2 ^ 39 `mod` 512; addr `div` 2 ^ 30 `mod` 512;
          addr `div` 2 ^ 21 `mod` 512; addr `div` 2 ^ 12 `mod` 512] f ∧
       pa = f + addr `mod` page_size.
Proof.
  unfold translate_addr, translate_addr_inner.
  rewrite p4_index_eq, p3_index_eq, p2_index_eq, p1_index_eq, page_offset_eq. split.
  - intros Hrun. apply bind_Ret in Hrun as ([f|] & Hwalk & Hrun); [|done].
    apply bind_Ret in Hrun as (a & Ha & Hrun). apply phys_add_bad in Ha as [-> _].
    exists f. split; [by apply walk_maps|]. by inv_outcome.
  - intros (f & Hmaps & ->). pose proof Hmem as (Hlim & _ & (? & ?) & _).
    destruct (maps_walk _ _ _ _ _ _ _ Hmem ltac:(done) ltac:(done) Hmaps) as (-> & ? & ?). simpl.
    pose proof (Z.mod_pos_bound addr page_size ltac:(done)). unfold page_size in *.
    rewrite phys_add_ok by (unfold in_u; lia). done.
Qed.

(** Identity-mapped tables of one megabyte: frame 0x1000 through 0x4000 hold the
    tables of the address 0x201234. *)
Definition sample_entry (t i : Z) : result FrameError Z :=
  if (t =? 0x1000) && (i =? 0) then Ok 0x2000
  else if (t =? 0x2000) && (i =? 0) then Ok 0x3000
  else if (t =? 0x3000) && (i =? 1) then Ok 0x4000
  else if (t =? 0x4000) && (i =? 1) then Ok 0x9000 else Err FrameNotPresent.

Lemma translate_addr_correct_witness :
  @translate_addr addr_model 0x1000 sample_entry 0x201234 0 = Ret (Some 0x9234).
Proof.
  apply (@translate_addr_correct addr_model 0x1000 sample_entry 0x201234 0 0x100000 0x9234
    addr_model_laws).
  - split; [done|]. split; [intros g Hg; left; lia|]. split; [done|].
    intros t i next. unfold sample_entry, page_size.
    repeat (case_match; [intros [= <-]; lia|]). done.
  - exists 0x9000. split; [|done].
    repeat (eapply maps_cons; [vm_compute; reflexivity|]). constructor.
Defined.

End Translate.
