(* ===== verification/Paging.v ===== *)
(** * Kernel memory set-up and device mappings

    The global mapper and frame allocator of kernel/src/memory.rs, the virtual
    page allocator of kernel/src/allocator/page.rs, the heap set-up of
    kernel/src/allocator.rs and kernel/src/main.rs, and the mapping of physical
    regions in kernel/src/device/acpi/handler.rs. *)

From S2P Require Import Prelude GlobalAlloc BumpAllocator LinkedListAllocator FixedSizeBlock X86 Memory.
Import FrameAlloc.

(** ** Global state

    The statics [MAPPER], [FRAME_ALLOCATOR] and the page allocator's [ALLOCATOR]. *)

Record Kmem (M : Type) := mk_kmem {
  MAPPER : option M;
  FRAME_ALLOCATOR : option BootInfoFrameAllocator;
  PAGE_ALLOCATOR : Z;
}.
Arguments mk_kmem {M} _ _ _.
Arguments MAPPER {M} _.
Arguments FRAME_ALLOCATOR {M} _.
Arguments PAGE_ALLOCATOR {M} _.

Definition HEAP_START : Z := 0x444444440000.
Definition HEAP_SIZE : Z := 1024 * 1024.

(** [acpi::PhysicalMapping]. *)
Record PhysicalMapping := mk_mapping {
  physical_start : Z;
  virtual_start : Z;
  region_length : Z;
  mapped_length : Z;
}.

Section Model.
Context `{!X86Addr} {M : Type} `{!Mapper M}.

(** *** kernel/src/memory.rs *)

(** [offset_page_table] is the crate's [OffsetPageTable::new], on the level 4
    table and the offset. *)
Definition init_mapper (offset_page_table : Z → Z → M) (k : Kmem M)
    (cr3 physical_memory_offset : Z) : outcome (Kmem M) :=
  level_4_table ← Translate.active_level_4_table cr3 physical_memory_offset;
  mret (mk_kmem (Some (offset_page_table level_4_table physical_memory_offset))
          (FRAME_ALLOCATOR k) (PAGE_ALLOCATOR k)).

Definition init_frame_allocator (k : Kmem M) (regions : list MemoryRegion) : Kmem M :=
  mk_kmem (MAPPER k) (Some (FrameAlloc.init regions)) (PAGE_ALLOCATOR k).

(** The closures see the locked object and the other statics. *)
Definition with_mapper {R} (k : Kmem M) (f : M → Kmem M → outcome (R * M * Kmem M)) :
    outcome (R * Kmem M) :=
  mapper ← unwrap (MAPPER k);
  '(r, mapper, k) ← f mapper k;
  mret (r, mk_kmem (Some mapper) (FRAME_ALLOCATOR k) (PAGE_ALLOCATOR k)).

Definition with_frame_allocator {R} (k : Kmem M)
    (f : BootInfoFrameAllocator → Kmem M → outcome (R * BootInfoFrameAllocator * Kmem M)) :
    outcome (R * Kmem M) :=
  allocator ← unwrap (FRAME_ALLOCATOR k);
  '(r, allocator, k) ← f allocator k;
  mret (r, mk_kmem (MAPPER k) (Some allocator) (PAGE_ALLOCATOR k)).

(** *** kernel/src/allocator/page.rs *)

Definition page_allocator_new : Z := virt_new_truncate 0x1000000000.

Definition allocate_n (k : Kmem M) (n : Z) : outcome (Z * Kmem M) :=
  _ ← assert_that (negb (n =? 0)) "assertion `left != right` failed";
  size ← mul_u 64 n 4096;
  let addr := PAGE_ALLOCATOR k in
  addr' ← virt_add addr size;
  mret (addr, mk_kmem (MAPPER k) (FRAME_ALLOCATOR k) addr').

Definition allocate (k : Kmem M) : outcome (Z * Kmem M) := allocate_n k 1.

(** *** kernel/src/allocator.rs: [init_heap] *)

Definition heap_flags : Z := Z.lor PRESENT WRITABLE.

Definition heap_page_range : outcome (list Z) :=
  heap_start ← virt_new HEAP_START;
  past ← virt_add heap_start HEAP_SIZE;
  heap_end ← virt_sub past 1;
  let heap_start_page := page_containing heap_start in
  let heap_end_page := page_containing heap_end in
  mret (page_range_inclusive heap_start_page heap_end_page).

Fixpoint map_heap_pages {FA} `{!FrameAllocator FA} (pages : list Z) (mapper : M) (fa : FA) :
    outcome (result MapToError unit * M * FA) :=
  match pages with
  | [] => mret (Ok (), mapper, fa)
  | page :: pages =>
      '(frame, fa) ← X86.allocate_frame fa;
      match frame with
      | None => mret (Err FrameAllocationFailed, mapper, fa)
      | Some frame =>
          '(r, mapper, fa) ← map_to mapper page frame heap_flags fa;
          match r with
          | Err e => mret (Err e, mapper, fa)
          | Ok _ => map_heap_pages pages mapper fa
          end
      end
  end.

Definition init_heap {H} `{!FallbackHeap H} {FA} `{!FrameAllocator FA} (mapper : M) (fa : FA)
    (allocator : FixedSizeBlock.FixedSizeBlockAllocator H) :
    outcome (result MapToError unit * M * FA * FixedSizeBlock.FixedSizeBlockAllocator H) :=
  page_range ← heap_page_range;
  '(r, mapper, fa) ← map_heap_pages page_range mapper fa;
  match r with
  | Err e => mret (Err e, mapper, fa, allocator)
  | Ok _ =>
      allocator ← FixedSizeBlock.init allocator HEAP_START HEAP_SIZE;
      mret (Ok (), mapper, fa, allocator)
  end.

(** *** kernel/src/main.rs: [init_heap] *)

Definition main_init_heap {H} `{!FallbackHeap H} (offset_page_table : Z → Z → M)
    (k : Kmem M) (cr3 : Z)
    (physical_memory_offset : option Z) (regions : list MemoryRegion)
    (allocator : FixedSizeBlock.FixedSizeBlockAllocator H) :
    outcome (FixedSizeBlock.FixedSizeBlockAllocator H * Kmem M) :=
  physical_memory_offset ←
    expect "No bootloader_api::BootInfo.physical_memory_offset" physical_memory_offset;
  phys_mem_offset ← virt_new physical_memory_offset;
  k ← init_mapper offset_page_table k cr3 phys_mem_offset;
  let k := init_frame_allocator k regions in
  with_mapper k (λ mapper k,
    '(mr, k) ← with_frame_allocator k (λ frame_allocator k,
      '(r, mapper, frame_allocator, allocator) ← init_heap mapper frame_allocator allocator;
      match r with
      | Ok _ => mret (mapper, allocator, frame_allocator, k)
      | Err _ => Panic "heap initialization failed"
      end);
    let '(mapper, allocator) := (mr : M * FixedSizeBlock.FixedSizeBlockAllocator H) in
    mret (allocator, mapper, k)).

(** *** kernel/src/device/acpi/handler.rs *)

Definition device_flags : Z := Z.lor (Z.lor PRESENT WRITABLE) NO_CACHE.

Definition map_page (k : Kmem M) (page ptr flags : Z) : outcome (unit * Kmem M) :=
  with_mapper k (λ mapper k,
    '(mapper, k) ← with_frame_allocator k (λ allocator k,
      let frame := frame_containing ptr in
      '(r, mapper, allocator) ← map_to mapper page frame flags allocator;
      match r with
      | Ok _ => mret (mapper, allocator, k)
      | Err _ => Panic "Failed to map"
      end);
    mret ((), mapper, k)).

Fixpoint do_map_region (fuel : nat) (k : Kmem M) (ptr end_ virt flags : Z) : outcome (Kmem M) :=
  match fuel with
  | O => Undef "mapping loop does not end"
  | S fuel =>
      if ptr <? end_ then
        page ← unwrap (match page_from_start virt with Ok p => Some p | Err _ => None end);
        '(_, k) ← map_page k page ptr flags;
        ptr ← phys_add ptr 4096;
        virt ← virt_add virt 4096;
        do_map_region fuel k ptr end_ virt flags
      else mret k
  end.

(** The loop runs once per page, so one more than [end_ / 4096 - start / 4096] is
    enough fuel. *)
Definition map_physical_region (k : Kmem M) (physical_address size : Z) :
    outcome (PhysicalMapping * Kmem M) :=
  pa ← phys_new physical_address;
  let start := phys_align_down pa 4096 in
  past ← add_u usize physical_address size;
  past ← phys_new past;
  end_ ← phys_align_up past 4096;
  len ← sub_u 64 end_ start;
  let page_count := len `div` 4096 in
  '(virt, k) ← allocate_n k page_count;
  k ← do_map_region (S (Z.to_nat page_count)) k start end_ virt device_flags;
  let mapped_length := len in
  let virt_offset := physical_address `mod` 4096 in
  virt_ptr ← add_u usize virt virt_offset;
  virtual_start ← unwrap (if virt_ptr =? 0 then None else Some virt_ptr);
  mret (mk_mapping physical_address virtual_start size mapped_length, k).

Fixpoint unmap_pages (n : nat) (k : Kmem M) (virt : Z) : outcome (Kmem M) :=
  match n with
  | O => mret k
  | S n =>
      let page := page_containing virt in
      '(_, k) ← with_mapper k (λ mapper k,
        let '(r, mapper) := unmap mapper page in
        match r with
        | Ok _ => mret ((), mapper, k)
        | Err _ => Panic "Failed to unmap ACPI"
        end);
      virt ← virt_add virt 4096;
      unmap_pages n k virt
  end.

Definition unmap_physical_region (k : Kmem M) (region : PhysicalMapping) : outcome (Kmem M) :=
  virt ← virt_new (virtual_start region);
  let count := mapped_length region `div` 4096 in
  unmap_pages (Z.to_nat count) k virt.


(** ** Proofs about device mappings *)

Context {laws : X86AddrLaws} {mlaws : MapperLaws M}.

(** The frame allocator serves the mapper: the memory map is in order, and no frame that is
    still to be handed out holds a page table. *)
Definition frames_ok (m : M) (fa : BootInfoFrameAllocator) : Prop :=
  tables_ok m ∧ map_ok fa ∧ ∀ f, f ∈ remaining fa → ¬ table_frame m f.

Lemma frames_ok_fresh m fa n : frames_ok m fa → fresh_frames m (take n (remaining fa)).
Proof.
  intros (_ & Hmap & Hfresh). split.
  - eapply sublist_NoDup; [by apply remaining_NoDup|apply sublist_take].
  - intros f (i & Hi & _)%elem_of_take. apply list_elem_of_lookup_2 in Hi.
    split; [by eapply remaining_fresh|by apply Hfresh].
Qed.

(** The table frames that a mapping adds are not handed out again. *)
Lemma frames_ok_drop m m' fa fa' n : frames_ok m fa → tables_ok m' →
  (∀ f, table_frame m' f → table_frame m f ∨ f ∈ take n (remaining fa)) →
  memory_regions fa' = memory_regions fa → remaining fa' = drop n (remaining fa) → frames_ok m' fa'.
Proof.
  intros (_ & Hmap & Hfresh) Ht Htab Hreg Hrem. split; [done|]. split.
  { unfold map_ok. by rewrite Hreg. }
  rewrite Hrem. intros f Hf Hft. pose proof (remaining_NoDup fa Hmap) as Hnd.
  rewrite <-(take_drop n (remaining fa)) in Hnd. apply NoDup_app in Hnd as (_ & Hdis & _).
  apply Htab in Hft as [Hft|Hft]; [|by eapply Hdis]. eapply Hfresh; [|exact Hft].
  rewrite <-(take_drop n (remaining fa)). set_solver.
Qed.

(** A step that took at most [n] of the remaining frames, as page tables or for pages. *)
Record frames_used (m m' : M) (fa fa' : BootInfoFrameAllocator) (n : nat) : Prop := {
  fu_ok : frames_ok m' fa';
  fu_left : ∃ j, (j ≤ n)%nat ∧ remaining fa' = drop j (remaining fa);
  fu_tables f : table_frame m' f → table_frame m f ∨ f ∈ remaining fa;
}.

Lemma frames_used_refl m fa : frames_ok m fa → frames_used m m fa fa 0.
Proof. intros. split; [done|by exists 0%nat|by left]. Qed.

Lemma frames_used_trans m1 m2 m3 fa1 fa2 fa3 a b :
  frames_used m1 m2 fa1 fa2 a → frames_used m2 m3 fa2 fa3 b → frames_used m1 m3 fa1 fa3 (a + b).
Proof.
  intros [_ (i & Hi & Hrem) Htab] [Hok (j & Hj & Hrem') Htab']. split; [done| |].
  - exists (i + j)%nat. split; [lia|]. by rewrite Hrem', Hrem, drop_drop.
  - intros f [Hf|Hf]%Htab'; [auto|]. right. rewrite Hrem in Hf. by eapply sublist_subseteq, Hf; apply sublist_drop.
Qed.

Lemma frames_used_length m m' fa fa' n : frames_used m m' fa fa' n →
  (length (remaining fa) ≤ length (remaining fa') + n)%nat.
Proof. intros [_ (j & Hj & ->) _]. rewrite length_drop. lia. Qed.

(** [map_to] on a vacant page, with the three frames it may need. *)
Lemma map_to_run m fa page frame flags :
  frames_ok m fa → page_ok page → frame_ok frame → flags_ok flags → vacant m page = true →
  (3 ≤ length (remaining fa))%nat →
  ∃ m' fa', map_to m page frame flags fa = Ret (Ok (), m', fa') ∧ frames_used m m' fa fa' 3 ∧
    mapping m' page = Some (frame, flags) ∧
    ∀ q, q ≠ page → mapping m' q = mapping m q ∧ vacant m' q = vacant m q.
Proof.
  intros Hok Hp Hf Hfl Hv Hn. pose proof Hok as (Ht & Hmap & _).
  destruct (remaining_supply 3 fa Hmap Hn) as [fa3 Hsup].
  destruct (map_to_vacant m page frame flags fa fa3 (take 3 (remaining fa))) as (m' & fa' & Hrun); try done.
  { rewrite length_take. lia. }
  { by apply frames_ok_fresh. }
  destruct (map_to_spec m m' page frame flags fa fa' (Ok ())) as (os & Hos & Hlen & Hspec); [done..|].
  destruct (calls_remaining fa os fa' Hmap Hos) as (Hreg & Hrem & Heq).
  rewrite Heq in Hspec. destruct (Hspec (frames_ok_fresh m fa _ Hok)) as [Ht' Htab Hoth [_ Hat]].
  exists m', fa'. split; [done|]. split; [|done]. split.
  - by eapply frames_ok_drop.
  - eauto.
  - intros f [Hft|Hft]%Htab; [auto|]. right. by eapply sublist_subseteq, Hft; apply sublist_take.
Qed.

(** [n] consecutive pages from [virt] are mapped to the frames from [ptr], and no
    other page changed. *)
Definition maps_run (m m' : M) (n virt ptr flags : Z) : Prop :=
  (∀ i, 0 ≤ i < n → mapping m' (virt + page_size * i) = Some (ptr + page_size * i, flags)) ∧
  ∀ q, (∀ i, 0 ≤ i < n → q ≠ virt + page_size * i) →
    mapping m' q = mapping m q ∧ vacant m' q = vacant m q.

Lemma map_page_run (k : Kmem M) m fa page ptr flags :
  MAPPER k = Some m → FRAME_ALLOCATOR k = Some fa → frames_ok m fa → (3 ≤ length (remaining fa))%nat →
  page_ok page → vacant m page = true → frame_ok ptr → flags_ok flags →
  ∃ m' fa', map_page k page ptr flags = Ret ((), mk_kmem (Some m') (Some fa') (PAGE_ALLOCATOR k)) ∧
    frames_used m m' fa fa' 3 ∧ mapping m' page = Some (ptr, flags) ∧
    ∀ q, q ≠ page → mapping m' q = mapping m q ∧ vacant m' q = vacant m q.
Proof.
  intros Hm Hf Hok Hn Hp Hv [Hd Hptr] Hfl.
  destruct (map_to_run m fa page ptr flags) as (m' & fa' & Hrun & Hrest); [done..|].
  exists m', fa'. unfold map_page, with_mapper, with_frame_allocator. rewrite Hm. simpl. rewrite Hf. simpl.
  rewrite frame_containing_eq by done. apply Z.mod_divide in Hd; [|done].
  by rewrite Hd, Z.sub_0_r, Hrun.
Qed.

Lemma canonical_low a : 0 ≤ a < 2 ^ 47 → canonical a.
Proof. by left. Qed.

Lemma window_page_ok virt : (page_size | virt) → 0 ≤ virt < 2 ^ 47 → page_ok virt.
Proof. intros. split; [done|by apply canonical_low]. Qed.

Lemma do_map_region_run n fuel (k : Kmem M) m fa ptr virt flags :
  (n < fuel)%nat → MAPPER k = Some m → FRAME_ALLOCATOR k = Some fa →
  frames_ok m fa → (3 * n ≤ length (remaining fa))%nat → flags_ok flags →
  (page_size | ptr) → (page_size | virt) → 0 ≤ ptr → ptr + page_size * Z.of_nat n < 2 ^ 52 →
  0 ≤ virt → virt + page_size * Z.of_nat n < 2 ^ 47 →
  (∀ i, 0 ≤ i < Z.of_nat n → vacant m (virt + page_size * i) = true) →
  ∃ m' fa',
    do_map_region fuel k ptr (ptr + page_size * Z.of_nat n) virt flags =
      Ret (mk_kmem (Some m') (Some fa') (PAGE_ALLOCATOR k)) ∧
    frames_used m m' fa fa' (3 * n) ∧ maps_run m m' (Z.of_nat n) virt ptr flags.
Proof.
  revert fuel k m fa ptr virt.
  induction n as [|n IH]; intros [|fuel] k m fa ptr virt Hfuel Hm Hf Hok Hleft Hfl Hdp Hdv Hp Hpe Hv Hve Hfree;
    try lia; simpl do_map_region.
  { rewrite Z.mul_0_r, Z.add_0_r, Z.ltb_irrefl. destruct k; simpl in *; subst.
    exists m, fa. split; [done|]. split; [by apply frames_used_refl|]. split; [lia|done]. }
  rewrite (proj2 (Z.ltb_lt _ _)) by (unfold page_size; lia).
  rewrite page_from_start_ok by done. simpl.
  destruct (map_page_run k m fa virt ptr flags) as (m1 & fa1 & Hrun & Hu1 & Hat & Hoth); try done.
  { lia. }
  { apply window_page_ok; [done|unfold page_size in *; lia]. }
  { specialize (Hfree 0 ltac:(lia)). by rewrite Z.mul_0_r, Z.add_0_r in Hfree. }
  { split; [done|]. unfold in_u, page_size in *. lia. }
  pose proof (frames_used_length _ _ _ _ _ Hu1). pose proof (fu_ok _ _ _ _ _ Hu1).
  rewrite Hrun. simpl. rewrite phys_add_ok by (unfold in_u, page_size in *; lia). simpl.
  rewrite virt_add_ok by (apply canonical_low; unfold page_size in *; lia). simpl.
  destruct (IH fuel (mk_kmem (Some m1) (Some fa1) (PAGE_ALLOCATOR k)) m1 fa1 (ptr + 4096) (virt + 4096))
    as (m' & fa' & Hrun' & Hu' & Hin & Hout); try done; try (unfold page_size in *; lia).
  { by apply Z.divide_add_r; [|exists 1]. }
  { by apply Z.divide_add_r; [|exists 1]. }
  { intros i Hi. destruct (Hoth (virt + 4096 + page_size * i)) as [_ ->]; [unfold page_size; lia|].
    rewrite <-(Hfree (i + 1)) by lia. f_equal. unfold page_size. lia. }
  exists m', fa'. split.
  { etransitivity; [|exact Hrun']. f_equal. unfold page_size. lia. }
  pose proof (frames_used_trans _ _ _ _ _ _ _ _ Hu1 Hu') as Hu.
  replace (3 + 3 * n)%nat with (3 * S n)%nat in Hu by lia. split; [done|]. split.
  - intros i Hi. destruct (decide (i = 0)) as [->|Hne].
    + rewrite !Z.mul_0_r, !Z.add_0_r. destruct (Hout virt) as [-> _]; [unfold page_size; lia|done].
    + replace (virt + page_size * i) with (virt + 4096 + page_size * (i - 1)) by (unfold page_size; lia).
      replace (ptr + page_size * i) with (ptr + 4096 + page_size * (i - 1)) by (unfold page_size; lia).
      apply Hin. lia.
  - intros q Hq. destruct (Hout q) as [-> ->].
    + intros i Hi. specialize (Hq (i + 1) ltac:(lia)). unfold page_size in *. lia.
    + apply Hoth. specialize (Hq 0 ltac:(lia)). by rewrite Z.mul_0_r, Z.add_0_r in Hq.
Qed.

(** *** The invariant between mappings *)

(** Two states of the page tables that hold the same address space. *)
Definition same_space (m m' : M) : Prop :=
  ∀ q, mapping m' q = mapping m q ∧ vacant m' q = vacant m q.
#[global] Instance same_space_equiv : Equivalence same_space.
Proof.
  split; [by intros m q|intros m m' Hq q; by destruct (Hq q)|].
  intros m1 m2 m3 Hq1 Hq2 q. destruct (Hq1 q) as [<- <-]. apply Hq2.
Qed.

(** The window of virtual pages the page allocator hands out, up to [limit] and below the
    heap, is vacant from its cursor on, and the frame allocator can serve the mapper. *)
Record kmem_ok (limit : Z) (k : Kmem M) (m : M) (fa : BootInfoFrameAllocator) : Prop := {
  ok_mapper : MAPPER k = Some m;
  ok_allocator : FRAME_ALLOCATOR k = Some fa;
  ok_frames : frames_ok m fa;
  ok_aligned : (page_size | PAGE_ALLOCATOR k);
  ok_cursor : 0 < PAGE_ALLOCATOR k ≤ limit;
  ok_top : limit ≤ HEAP_START;
  ok_window q : (page_size | q) → PAGE_ALLOCATOR k ≤ q < limit → vacant m q = true;
}.

(** The frames that are left for page tables. *)
Definition frames_left (k : Kmem M) : Z :=
  match FRAME_ALLOCATOR k with
  | Some fa => Z.of_nat (length (remaining fa))
  | None => 0
  end.

(** The byte at the virtual address [v] is the byte at the physical address [p]. *)
Definition byte_maps (m : M) (v p flags : Z) : Prop :=
  mapping m (v - v `mod` page_size) = Some (p - p `mod` page_size, flags) ∧
  v `mod` page_size = p `mod` page_size.

Definition region_pages (pa size : Z) : Z :=
  (pa + size + (page_size - 1)) `div` page_size - pa `div` page_size.

Lemma maps_run_bytes m m' virt pa size flags i :
  (page_size | virt) → 0 ≤ i < size →
  maps_run m m' (region_pages pa size) virt (pa - pa `mod` page_size) flags →
  byte_maps m' (virt + pa `mod` page_size + i) (pa + i) flags.
Proof.
  intros [v ->] Hi [Hin _].
  unfold byte_maps, region_pages, page_size in *.
  set (j := (pa `mod` 4096 + i) `div` 4096).
  specialize (Hin j). 
  assert ((v * 4096 + pa `mod` 4096 + i) `mod` 4096 = (pa `mod` 4096 + i) `mod` 4096) as Hv
    by (rewrite <-Z.add_assoc, Z.add_comm; apply Z_mod_plus_full).
  assert ((pa + i) `mod` 4096 = (pa `mod` 4096 + i) `mod` 4096) as Hp
    by (rewrite <-Z.add_mod_idemp_l by lia; done).
  rewrite Hv, Hp. split; [|done].
  assert (v * 4096 + pa `mod` 4096 + i - (pa `mod` 4096 + i) `mod` 4096 = v * 4096 + 4096 * j) as ->
    by (unfold j; zdm).
  assert (pa + i - (pa `mod` 4096 + i) `mod` 4096 = pa - pa `mod` 4096 + 4096 * j) as ->
    by (unfold j; zdm).
  apply Hin. unfold j. zdm.
Qed.

(** A mapping request inside physical memory and the page allocator's window, with frames
    left for the page tables. *)
Definition request_fits (limit : Z) (k : Kmem M) (pa size : Z) : Prop :=
  0 ≤ pa ∧ 0 < size ∧ pa + size + page_size < 2 ^ 52 ∧
  PAGE_ALLOCATOR k + page_size * region_pages pa size ≤ limit ∧
  3 * region_pages pa size ≤ frames_left k.

Lemma region_pages_bounds pa size :
  0 ≤ pa → 0 < size → 0 < region_pages pa size ∧
  page_size * region_pages pa size < pa `mod` page_size + size + page_size ∧
  pa `mod` page_size + size ≤ page_size * region_pages pa size ∧
  (pa + size + (page_size - 1)) `div` page_size * page_size =
    pa - pa `mod` page_size + page_size * region_pages pa size.
Proof. unfold region_pages, page_size. intros. repeat split; zdm. Qed.

Lemma allocate_n_run (k : Kmem M) n :
  0 < n → 0 ≤ PAGE_ALLOCATOR k → PAGE_ALLOCATOR k + page_size * n ≤ HEAP_START →
  allocate_n k n = Ret (PAGE_ALLOCATOR k,
    mk_kmem (MAPPER k) (FRAME_ALLOCATOR k) (PAGE_ALLOCATOR k + page_size * n)).
Proof.
  intros Hn Hc Hroom. unfold allocate_n. destruct (Z.eqb_spec n 0); [lia|]. simpl.
  unfold HEAP_START, page_size in *. rewrite mul_u_in by (unfold in_u; lia). simpl.
  rewrite virt_add_ok by (apply canonical_low; lia). simpl. by rewrite (Z.mul_comm n).
Qed.

#[local] Arguments do_map_region : simpl never.

Lemma device_flags_ok : flags_ok device_flags.
Proof. by vm_compute. Qed.

(** The result of [map_physical_region], in one equation. *)
Lemma map_physical_region_run limit (k : Kmem M) m fa pa size :
  kmem_ok limit k m fa → request_fits limit k pa size →
  ∃ m' fa' k',
    map_physical_region k pa size =
      Ret (mk_mapping pa (PAGE_ALLOCATOR k + pa `mod` page_size) size
             (page_size * region_pages pa size), k') ∧
    k' = mk_kmem (Some m') (Some fa') (PAGE_ALLOCATOR k + page_size * region_pages pa size) ∧
    kmem_ok limit k' m' fa' ∧ frames_used m m' fa fa' (Z.to_nat (3 * region_pages pa size)) ∧
    maps_run m m' (region_pages pa size) (PAGE_ALLOCATOR k) (pa - pa `mod` page_size) device_flags.
Proof.
  intros [Hm Hf Hfr Hal Hcur Htop Hwin] (Hpa & Hsz & Hphys & Hroom & Hleft).
  unfold frames_left in *. rewrite Hf in *.
  destruct (region_pages_bounds pa size Hpa Hsz) as (Hn & Hub & Hlb & Hend).
  set (n := region_pages pa size) in *.
  pose proof (Z.mod_pos_bound pa page_size ltac:(done)) as Hmod.
  pose proof (Z.mod_le pa page_size ltac:(lia) ltac:(done)) as Hmle.
  unfold map_physical_region. change 4096 with page_size.
  rewrite phys_new_ok by (unfold in_u, page_size in *; lia). simpl.
  rewrite phys_align_down_eq by (unfold in_u, page_size in *; lia).
  rewrite add_u_in by (unfold in_u, page_size in *; lia). simpl.
  rewrite phys_new_ok by (unfold in_u, page_size in *; lia). simpl.
  rewrite phys_align_up_ok by (rewrite Hend; unfold in_u, page_size in *; lia). simpl.
  rewrite Hend, sub_u_in by (unfold in_u, page_size in *; lia). simpl.
  assert ((pa - pa `mod` page_size + page_size * n - (pa - pa `mod` page_size)) = n * page_size)
    as -> by lia.
  rewrite Z.div_mul by done. rewrite allocate_n_run by lia. simpl.
  destruct (do_map_region_run (Z.to_nat n) (S (Z.to_nat n))
    (mk_kmem (MAPPER k) (FRAME_ALLOCATOR k) (PAGE_ALLOCATOR k + page_size * n)) m fa
    (pa - pa `mod` page_size) (PAGE_ALLOCATOR k) device_flags)
    as (m' & fa' & Hrun & Hu & Hmaps); rewrite ?Z2Nat.id in * by lia; try done; try lia.
  { exists (pa `div` page_size). unfold page_size. zdm. }
  { unfold HEAP_START, page_size in *. lia. }
  { intros i Hi. apply Hwin; [by apply Z.divide_add_r, Z.divide_factor_l|unfold page_size in *; lia]. }
  eexists m', fa', _. split; [|split; [reflexivity|]].
  { rewrite Hrun. simpl.
    rewrite add_u_in by (unfold in_u, HEAP_START, page_size in *; lia). simpl.
    destruct (Z.eqb_spec (PAGE_ALLOCATOR k + pa `mod` page_size) 0); [lia|]. simpl.
    by rewrite (Z.mul_comm n). }
  split; [|split; [by replace (Z.to_nat (3 * n)) with (3 * Z.to_nat n)%nat by lia|done]].
  split; simpl; try done.
  - apply Hu.
  - by apply Z.divide_add_r, Z.divide_factor_l.
  - unfold page_size in *. lia.
  - intros q Hq Hr. rewrite (proj2 (proj2 Hmaps q ltac:(unfold page_size in *; lia))).
    apply Hwin; [done|unfold page_size in *; lia].
Qed.

Lemma frames_left_used limit (k k' : Kmem M) m m' fa fa' n : kmem_ok limit k m fa → kmem_ok limit k' m' fa' → 0 ≤ n →
  frames_used m m' fa fa' (Z.to_nat n) → frames_left k ≤ frames_left k' + n.
Proof.
  intros Hok Hok' Hn Hu%frames_used_length. unfold frames_left.
  rewrite (ok_allocator _ _ _ _ Hok), (ok_allocator _ _ _ _ Hok'). lia.
Qed.

(** Unmapping [n] pages from the page of [virt] on leaves them vacant. *)
Lemma unmap_pages_run n (k : Kmem M) m virt :
  MAPPER k = Some m → tables_ok m → 0 ≤ virt → virt + page_size * Z.of_nat n < 2 ^ 47 →
  (∀ i, 0 ≤ i < Z.of_nat n → is_Some (mapping m (virt - virt `mod` page_size + page_size * i))) →
  ∃ m', unmap_pages n k virt = Ret (mk_kmem (Some m') (FRAME_ALLOCATOR k) (PAGE_ALLOCATOR k)) ∧
    tables_ok m' ∧ (∀ f, table_frame m' f → table_frame m f) ∧
    (∀ i, 0 ≤ i < Z.of_nat n → vacant m' (virt - virt `mod` page_size + page_size * i) = true) ∧
    ∀ q, (∀ i, 0 ≤ i < Z.of_nat n → q ≠ virt - virt `mod` page_size + page_size * i) →
      mapping m' q = mapping m q ∧ vacant m' q = vacant m q.
Proof.
  revert k m virt. induction n as [|n IH]; intros k m virt Hm Ht Hv Hend Hmap; simpl unmap_pages.
  { destruct k; simpl in *; subst. exists m. split_and!; try done. lia. }
  pose proof (Z.mod_pos_bound virt page_size ltac:(done)) as Hmb.
  pose proof (Z.mod_le virt page_size Hv ltac:(done)) as Hmle.
  rewrite page_containing_eq by (apply canonical_low; unfold page_size in *; lia).
  pose proof (Hmap 0 ltac:(lia)) as [[f fl] Hf]. rewrite Z.mul_0_r, Z.add_0_r in Hf.
  destruct (unmap_mapped _ _ _ _ Hf) as [m1 Hun].
  destruct (unmap_ok m m1 (virt - virt `mod` page_size) f) as (Ht1 & _ & Hvac & Hoth & Htab); try done.
  { apply window_page_ok; [|unfold page_size in *; lia]. exists (virt `div` page_size). unfold page_size. zdm. }
  unfold with_mapper. rewrite Hm. simpl. rewrite Hun. simpl.
  rewrite virt_add_ok by (apply canonical_low; unfold page_size in *; lia). simpl.
  assert ((virt + 4096) `mod` page_size = virt `mod` page_size) as Hmod
    by (unfold page_size; zdm).
  destruct (IH (mk_kmem (Some m1) (FRAME_ALLOCATOR k) (PAGE_ALLOCATOR k)) m1 (virt + 4096))
    as (m' & Hrun & Ht' & Htab' & Hin & Hout); rewrite ?Hmod in *; try done; try (unfold page_size in *; lia).
  { intros i Hi. replace (virt + 4096 - virt `mod` page_size + page_size * i)
      with (virt - virt `mod` page_size + page_size * (i + 1)) by (unfold page_size; lia).
    destruct (Hoth (virt - virt `mod` page_size + page_size * (i + 1))) as [-> _]; [unfold page_size; lia|].
    apply Hmap. lia. }
  exists m'. split; [done|]. split; [done|]. split; [auto|]. split.
  - intros i Hi. destruct (decide (i = 0)) as [->|Hne].
    + rewrite Z.mul_0_r, Z.add_0_r. by destruct (Hout (virt - virt `mod` page_size)) as [_ ->];
        [unfold page_size; lia|].
    + rewrite <-(Hin (i - 1)) by lia. f_equal. unfold page_size. lia.
  - intros q Hq. destruct (Hout q) as [-> ->].
    + intros i Hi. specialize (Hq (i + 1) ltac:(lia)). unfold page_size in *. lia.
    + apply Hoth. specialize (Hq 0 ltac:(lia)). by rewrite Z.mul_0_r, Z.add_0_r in Hq.
Qed.

End Model.

Lemma in_run_dec n virt q :
  (∃ i, 0 ≤ i < n ∧ q = virt + page_size * i) ∨ ∀ i, 0 ≤ i < n → q ≠ virt + page_size * i.
Proof.
  set (j := (q - virt) `div` page_size).
  destruct (decide (0 ≤ j < n ∧ q = virt + page_size * j)) as [[? ?]|Hno]; [eauto|].
  right. intros i Hi ->. apply Hno. unfold j.
  rewrite Z.add_simpl_l, Z.mul_comm, Z.div_mul by done. lia.
Qed.

(** ** Properties *)

(** C8: [map_physical_region] returns a mapping in which every byte of the
    requested physical region, however it is aligned, is reached at the same
    offset from [virtual_start] with the device flags; the pages come from the
    unused window of the page allocator, which ends at any address [limit] below the heap,
    so no existing mapping changes, and the invariant holds again for the next request. *)
Theorem map_physical_region_correct `{!X86Addr} {M} `{!Mapper M} limit (k : Kmem M) m fa pa size
    (Hlaws : X86AddrLaws) (Hmlaws : MapperLaws M)
    (Hok : kmem_ok limit k m fa) (Hfits : request_fits limit k pa size) :
  ∃ region k' m' fa', map_physical_region k pa size = Ret (region, k') ∧
    physical_start region = pa ∧ region_length region = size ∧ size ≤ mapped_length region ∧
    (∀ i, 0 ≤ i < size → byte_maps m' (virtual_start region + i) (pa + i)
       (Z.lor (Z.lor PRESENT WRITABLE) NO_CACHE)) ∧
    (∀ q, is_Some (mapping m q) → mapping m' q = mapping m q) ∧
    kmem_ok limit k' m' fa'.
Proof.
  destruct (map_physical_region_run limit k m fa pa size Hok Hfits) as (m' & fa' & k' & Hrun & _ & Hok' & _ & Hmaps).
  destruct Hok as [_ _ _ Hal Hcur Htop Hwin]. destruct Hfits as (Hpa & Hsz & Hphys & Hroom & _).
  destruct (region_pages_bounds pa size Hpa Hsz) as (Hn & Hub & Hlb & _).
  pose proof (Z.mod_pos_bound pa page_size ltac:(done)).
  eexists _, k', m', fa'. split; [done|]. simpl. split; [done|]. split; [done|]. split; [lia|].
  split; [|split; [|done]].
  - intros i Hi. by eapply maps_run_bytes.
  - intros q Hq. apply Hmaps. intros i Hi ->. rewrite vacant_unmapped in Hq; [by destruct Hq|].
    apply Hwin; [by apply Z.divide_add_r, Z.divide_factor_l|unfold page_size in *; lia].
Qed.

Lemma unmap_mapped_region `{!X86Addr} {M} `{!Mapper M} limit (k k' : Kmem M) m fa pa size region
    (Hlaws : X86AddrLaws) (Hmlaws : MapperLaws M)
    (Hok : kmem_ok limit k m fa) (Hfits : request_fits limit k pa size)
    (Hmap : map_physical_region k pa size = Ret (region, k')) :
  ∃ k'' m'' fa'', unmap_physical_region k' region = Ret k'' ∧ kmem_ok limit k'' m'' fa'' ∧
    same_space m m'' ∧
    PAGE_ALLOCATOR k'' = PAGE_ALLOCATOR k' ∧ FRAME_ALLOCATOR k'' = FRAME_ALLOCATOR k' ∧
    frames_used m m'' fa fa'' (Z.to_nat (3 * region_pages pa size)).
Proof.
  destruct (map_physical_region_run limit k m fa pa size Hok Hfits)
    as (m' & fa' & k1 & Hrun & Hk1 & Hok1 & [_ Hleft Htabs] & Hin & Hout).
  rewrite Hrun in Hmap. injection Hmap as <- <-. rewrite Hk1 in *. clear Hk1 Hrun.
  destruct Hok as [Hm Hf _ Hal Hcur Htop Hwin]. destruct Hfits as (Hpa & Hsz & Hphys & Hroom & _).
  destruct (region_pages_bounds pa size Hpa Hsz) as (Hn & Hub & Hlb & _).
  set (n := region_pages pa size) in *. destruct Hok1 as [_ _ (Ht & Hmapok & Hfresh) Hal1 Hcur1 _ Hwin1]. simpl in *.
  pose proof (Z.mod_pos_bound pa page_size ltac:(done)).
  assert ((PAGE_ALLOCATOR k + pa `mod` page_size) `mod` page_size = pa `mod` page_size) as Hmod.
  { destruct Hal as [c ->]. unfold page_size. zdm. }
  unfold unmap_physical_region. simpl. unfold HEAP_START in *.
  rewrite virt_new_ok by (apply canonical_low; unfold page_size in *; lia). simpl.
  rewrite (Z.mul_comm page_size n), Z.div_mul by done. rewrite (Z.mul_comm page_size n) in Hal1, Hcur1, Hwin1.
  destruct (unmap_pages_run (Z.to_nat n) (mk_kmem (Some m') (Some fa') (PAGE_ALLOCATOR k + n * page_size))
    m' (PAGE_ALLOCATOR k + pa `mod` page_size)) as (m'' & Hrun' & Ht' & Htab & Hin' & Hout');
    rewrite ?Z2Nat.id, ?Hmod in * by lia; try done; try (unfold page_size in *; lia).
  { intros i Hi. rewrite Z.add_simpl_r, Hin by done. eauto. }
  assert (same_space m m'') as Hsame.
  { intros q. destruct (in_run_dec n (PAGE_ALLOCATOR k) q) as [(i & Hi & ->)|Hno].
    - specialize (Hin' i Hi). rewrite Z.add_simpl_r in Hin'.
      assert (vacant m (PAGE_ALLOCATOR k + page_size * i) = true) as Hv.
      { apply Hwin; [by apply Z.divide_add_r, Z.divide_factor_l|unfold page_size in *; lia]. }
      rewrite !vacant_unmapped by done. by rewrite Hin', Hv.
    - destruct (Hout' q) as [-> ->]; [|by apply Hout]. intros i Hi. rewrite Z.add_simpl_r. auto. }
  assert (frames_ok m'' fa') as Hfr.
  { split; [done|]. split; [done|]. intros f Hf1 Hf2. by eapply Hfresh, Htab. }
  eexists _, m'', fa'. split; [done|]. split.
  2: { split_and!; try done. split; [done..|]. intros f Hf2. by apply Htabs, Htab. }
  split; simpl; try done.
  - intros q Hq Hr. rewrite (proj2 (Hsame q)). apply Hwin; [done|]. unfold HEAP_START, page_size in *. lia.
Qed.

(** Unmapping the region that [map_physical_region] returned succeeds and
    restores every page of the address space to what it was before; the virtual
    pages are not given back to the page allocator. *)
Theorem unmap_map_roundtrip `{!X86Addr} {M} `{!Mapper M} limit (k k' : Kmem M) m fa pa size region
    (Hlaws : X86AddrLaws) (Hmlaws : MapperLaws M)
    (Hok : kmem_ok limit k m fa) (Hfits : request_fits limit k pa size)
    (Hmap : map_physical_region k pa size = Ret (region, k')) :
  ∃ k'' m'' fa'', unmap_physical_region k' region = Ret k'' ∧ kmem_ok limit k'' m'' fa'' ∧
    same_space m m'' ∧
    PAGE_ALLOCATOR k'' = PAGE_ALLOCATOR k' ∧ FRAME_ALLOCATOR k'' = FRAME_ALLOCATOR k'.
Proof.
  destruct (unmap_mapped_region limit k k' m fa pa size region Hlaws Hmlaws Hok Hfits Hmap)
    as (k'' & m'' & fa'' & Hun & Hok'' & Hsame & Hpa & Hfa & _). by exists k'', m'', fa''.
Qed.

(** ** The heap *)

Section HeapProofs.
Context `{!X86Addr} {laws : X86AddrLaws} {M : Type} `{!Mapper M} {mlaws : MapperLaws M}.

Lemma heap_page_range_run :
  heap_page_range = Ret ((λ i, HEAP_START + page_size * i) <$> seqZ 0 256).
Proof.
  unfold heap_page_range. rewrite virt_new_ok by by left. simpl.
  rewrite virt_add_ok by by left. simpl. rewrite virt_sub_ok by by left. simpl.
  rewrite !page_containing_eq by by left.
  change (HEAP_START - HEAP_START `mod` page_size) with HEAP_START.
  rewrite page_range_inclusive_eq; [done|by exists (HEAP_START `div` page_size)|].
  by exists (HEAP_START `div` page_size + 255).
Qed.

(** Frames taken one by one, with the mapper taking some in between. *)
Lemma map_heap_pages_run pages (m : M) (fa : BootInfoFrameAllocator) :
  frames_ok m fa → NoDup pages → Forall (λ p, page_ok p ∧ vacant m p = true) pages →
  (4 * length pages ≤ length (remaining fa))%nat →
  ∃ fs m' fa', map_heap_pages pages m fa = Ret (Ok (), m', fa') ∧
    frames_used m m' fa fa' (4 * length pages) ∧
    length fs = length pages ∧ fs `sublist_of` remaining fa ∧
    (∀ i page f, pages !! i = Some page → fs !! i = Some f → mapping m' page = Some (f, heap_flags)) ∧
    ∀ q, q ∉ pages → mapping m' q = mapping m q ∧ vacant m' q = vacant m q.
Proof.
  revert m fa. induction pages as [|page pages IH]; intros m fa Hok Hnd Hfree Hroom.
  { exists [], m, fa. split_and!; try done; [by apply frames_used_refl|apply sublist_nil_l]. }
  simpl in Hroom. apply NoDup_cons in Hnd as [Hpage Hnd]. apply Forall_cons in Hfree as [[Hp Hv] Hfree].
  pose proof Hok as (Ht & Hmap & Hfresh).
  destruct (remaining fa) as [|f rest] eqn:Hrem; simpl in Hroom; [lia|].
  destruct (allocate_next fa f rest Hmap Hrem) as (fa1 & Halloc & Hreg1 & Hrem1).
  assert (frames_used m m fa fa1 1) as Hu1.
  { split; [|exists 1%nat; by rewrite Hrem, Hrem1|by left].
    eapply (frames_ok_drop m m fa fa1 1); [done..| |done|]; [by left|by rewrite Hrem, Hrem1]. }
  destruct (map_to_run m fa1 page f heap_flags) as (m1 & fa2 & Hrun1 & Hu2 & Hat & Hoth);
    try done; [apply Hu1| |rewrite Hrem1; lia|].
  { eapply remaining_fresh; [exact Hmap|]. rewrite Hrem. by left. }
  pose proof (frames_used_length _ _ _ _ _ Hu2) as Hl. rewrite Hrem1 in Hl.
  destruct (IH m1 fa2) as (fs & m' & fa' & Hrun & Hu' & Hlen & Hsub & Hin & Hout); try done.
  { apply Hu2. }
  { rewrite Forall_forall in Hfree |- *. intros q Hq. destruct (Hoth q) as [_ ->]; [set_solver|auto]. }
  { lia. }
  exists (f :: fs), m', fa'. split.
  { simpl. rewrite Halloc. simpl. by rewrite Hrun1. }
  split.
  { replace (4 * length (page :: pages))%nat with (1 + (3 + 4 * length pages))%nat by (simpl; lia).
    eapply frames_used_trans; [exact Hu1|by eapply frames_used_trans]. }
  split; [simpl; lia|]. split.
  { apply sublist_skip. etransitivity; [exact Hsub|]. destruct Hu2 as [_ (j & _ & ->) _]. rewrite Hrem1.
    apply sublist_drop. }
  split.
  - intros [|i] q g Hq Hg; simplify_eq/=; [|by eapply Hin]. by rewrite (proj1 (Hout _ Hpage)).
  - intros q Hq. destruct (Hout q) as [-> ->]; [set_solver|]. apply Hoth. set_solver.
Qed.
End HeapProofs.

Lemma init_heap_run `{!X86Addr} {M} `{!Mapper M} {FH} `{!FallbackHeap FH}
    (m : M) (regions : list MemoryRegion) (A A' : FixedSizeBlock.FixedSizeBlockAllocator FH)
    (Hlaws : X86AddrLaws) (Hmlaws : MapperLaws M) (Hok : frames_ok m (FrameAlloc.init regions))
    (Hframes : (1024 ≤ length (frame_addresses regions))%nat)
    (Hfree : ∀ i, 0 ≤ i < 256 → vacant m (HEAP_START + page_size * i) = true)
    (Hinit : FixedSizeBlock.init A HEAP_START HEAP_SIZE = Ret A') :
  ∃ m' fa' fs, init_heap m (FrameAlloc.init regions) A = Ret (Ok (), m', fa', A') ∧
    frames_used m m' (FrameAlloc.init regions) fa' 1024 ∧
    length fs = 256%nat ∧ NoDup fs ∧ (∀ f, f ∈ fs → f ∈ frame_addresses regions) ∧
    (∀ i f, fs !! i = Some f →
       mapping m' (HEAP_START + page_size * Z.of_nat i) = Some (f, Z.lor PRESENT WRITABLE)) ∧
    ∀ q, (∀ i, 0 ≤ i < 256 → q ≠ HEAP_START + page_size * i) →
      mapping m' q = mapping m q ∧ vacant m' q = vacant m q.
Proof.
  set (pages := (λ i, HEAP_START + page_size * i) <$> seqZ 0 256).
  assert (length pages = 256%nat) as Hpages by (unfold pages; by rewrite length_fmap, length_seqZ).
  destruct (map_heap_pages_run pages m (FrameAlloc.init regions))
    as (fs & m' & fa' & Hrun & Hused & Hlen & Hsub & Hin & Hout); [done|..].
  { apply NoDup_fmap_2; [|apply NoDup_seqZ]. intros i j. unfold page_size. lia. }
  { apply Forall_fmap, Forall_forall. intros i [? ?]%elem_of_seqZ. simpl. split; [|apply Hfree; lia].
    apply window_page_ok; [|unfold HEAP_START, page_size; lia].
    apply Z.divide_add_r; [by exists (HEAP_START `div` page_size)|apply Z.divide_factor_l]. }
  { rewrite Hpages. unfold remaining. simpl. rewrite drop_0. lia. }
  unfold remaining in Hsub. simpl in Hsub. rewrite drop_0 in Hsub. rewrite Hpages in Hused.
  exists m', fa', fs. split.
  { unfold init_heap. apply bind_Ret. eexists. split; [apply heap_page_range_run|].
    apply bind_Ret. eexists. split; [exact Hrun|]. simpl. by rewrite Hinit. }
  split; [done|]. split; [lia|]. split; [|split; [|split]].
  - eapply sublist_NoDup; [|exact Hsub]. apply frame_addresses_NoDup, Hok.
  - intros f Hf. by eapply sublist_subseteq.
  - intros i f Hf. eapply Hin; [|exact Hf]. unfold pages. rewrite list_lookup_fmap.
    rewrite lookup_seqZ_lt by (apply lookup_lt_Some in Hf; lia). done.
  - intros q Hq. apply Hout. unfold pages. rewrite list_elem_of_fmap.
    intros (i & -> & [? ?]%elem_of_seqZ). apply (Hq i); [lia|done].
Qed.

(** Given 1024 usable frames, [init_heap] succeeds: each of the 256 pages of
    the kernel heap is mapped present and writable to a usable frame of its own,
    no other page changes, and the global allocator is initialised on exactly that
    range. *)
Theorem init_heap_maps_heap `{!X86Addr} {M} `{!Mapper M} {FH} `{!FallbackHeap FH}
    (m : M) (regions : list MemoryRegion) (A A' : FixedSizeBlock.FixedSizeBlockAllocator FH)
    (Hlaws : X86AddrLaws) (Hmlaws : MapperLaws M) (Hok : frames_ok m (FrameAlloc.init regions))
    (Hframes : (1024 ≤ length (frame_addresses regions))%nat)
    (Hfree : ∀ i, 0 ≤ i < 256 → vacant m (HEAP_START + page_size * i) = true)
    (Hinit : FixedSizeBlock.init A HEAP_START HEAP_SIZE = Ret A') :
  ∃ m' fa' fs, init_heap m (FrameAlloc.init regions) A = Ret (Ok (), m', fa', A') ∧
    frames_used m m' (FrameAlloc.init regions) fa' 1024 ∧
    length fs = 256%nat ∧ NoDup fs ∧ (∀ f, f ∈ fs → f ∈ frame_addresses regions) ∧
    (∀ i f, fs !! i = Some f →
       mapping m' (HEAP_START + page_size * Z.of_nat i) = Some (f, Z.lor PRESENT WRITABLE)) ∧
    ∀ q, (∀ i, 0 ≤ i < 256 → q ≠ HEAP_START + page_size * i) →
      mapping m' q = mapping m q ∧ vacant m' q = vacant m q.
Proof. by apply init_heap_run. Qed.

(** ** Witnesses *)

(** Memory maps with 32 frames and with 64 MiB of them. *)
Definition usable_after_1M (end_ : Z) : list MemoryRegion :=
  [mk_region 0 0x100000 Bootloader; mk_region 0x100000 end_ Usable].
Definition device_regions : list MemoryRegion := usable_after_1M 0x120000.
Definition heap_regions : list MemoryRegion := usable_after_1M 0x4100000.

Lemma usable_after_1M_frames end_ :
  length (frame_addresses (usable_after_1M end_)) = Z.to_nat ((end_ - 0x100000 + 4095) `div` 4096).
Proof.
  unfold frame_addresses, usable_after_1M, step_by_page. simpl. by rewrite app_nil_r, length_fmap, length_seqZ.
Qed.

Lemma usable_after_1M_ok end_ : (page_size | end_) → 0x100000 ≤ end_ ≤ 2 ^ 52 →
  map_ok (FrameAlloc.init (usable_after_1M end_)).
Proof.
  intros Hd He. split; [split|]; cbn [memory_regions FrameAlloc.init].
  - apply Forall_singleton. split; [by exists 0x100|]. split; [done|]. simpl. lia.
  - simpl. rewrite pairwise_cons by apply _. split; [set_solver|apply pairwise_nil].
  - rewrite usable_after_1M_frames. unfold_u. norm_pow. zdm.
Qed.

(** A kernel with one page mapped, about to map 8 bytes across a page boundary. *)
(** A page of the bootloader, and the first page of the kernel. *)
Definition sample_map : gmap Z (Z * Z) := {[ 0x7000 := (0x1000, 1); 0x8000000000 := (0x400000, 1) ]}.
Definition sample_top : Z := 0x1001000000.
Definition sample_kmem : Kmem (gmap Z (Z * Z)) :=
  mk_kmem (Some sample_map) (Some (FrameAlloc.init device_regions)) 0x1000000000.

#[local] Existing Instances addr_model map_model addr_model_laws map_model_laws.

Lemma heap_frames : length (frame_addresses heap_regions) = Z.to_nat 16384.
Proof. apply usable_after_1M_frames. Qed.

Lemma map_model_frames_ok (m : gmap Z (Z * Z)) end_ : (page_size | end_) → 0x100000 ≤ end_ ≤ 2 ^ 52 →
  frames_ok m (FrameAlloc.init (usable_after_1M end_)).
Proof. intros. split; [done|]. split; [by apply usable_after_1M_ok|]. intros f _ []. Qed.

Lemma heap_frames_ok (m : gmap Z (Z * Z)) : frames_ok m (FrameAlloc.init heap_regions).
Proof. apply map_model_frames_ok; [by exists 0x4100|done]. Qed.

Lemma sample_map_vacant q : q ≠ 0x7000 → q ≠ 0x8000000000 → vacant sample_map q = true.
Proof. intros. apply bool_decide_eq_true. unfold sample_map. by rewrite lookup_insert_ne, lookup_singleton_ne. Qed.

Lemma sample_kmem_ok :
  kmem_ok sample_top sample_kmem sample_map (FrameAlloc.init device_regions).
Proof.
  split; try done.
  - apply map_model_frames_ok; [by exists 0x120|done].
  - by exists 0x1000000.
  - intros q _ Hq. apply sample_map_vacant; unfold sample_top in Hq; simpl in Hq; lia.
Qed.

Lemma sample_fits : request_fits sample_top sample_kmem 0x1ffc 8.
Proof. by vm_compute. Qed.

Definition sample_mapped : gmap Z (Z * Z) :=
  {[ 0x7000 := (0x1000, 1); 0x8000000000 := (0x400000, 1); 0x1000000000 := (0x1000, 19); 0x1000001000 := (0x2000, 19) ]}.

Lemma map_physical_region_correct_witness :
  ∃ region k' m' fa', map_physical_region sample_kmem 0x1ffc 8 = Ret (region, k') ∧
    physical_start region = 0x1ffc ∧ region_length region = 8 ∧ 8 ≤ mapped_length region ∧
    (∀ i, 0 ≤ i < 8 → byte_maps m' (virtual_start region + i) (0x1ffc + i) device_flags) ∧
    (∀ q, is_Some (mapping sample_map q) →
       mapping m' q = mapping sample_map q) ∧
    kmem_ok sample_top k' m' fa'.
Proof.
  exact (map_physical_region_correct sample_top sample_kmem _ _ 0x1ffc 8 addr_model_laws map_model_laws
    sample_kmem_ok sample_fits).
Defined.

Lemma unmap_map_roundtrip_witness :
  ∃ k'' m'' fa'', unmap_physical_region
      (mk_kmem (Some sample_mapped) (Some (FrameAlloc.init device_regions)) 0x1000002000)
      (mk_mapping 0x1ffc 0x1000000ffc 8 0x2000) = Ret k'' ∧ kmem_ok sample_top k'' m'' fa'' ∧
    same_space sample_map m'' ∧
    PAGE_ALLOCATOR k'' = 0x1000002000 ∧ FRAME_ALLOCATOR k'' = Some (FrameAlloc.init device_regions).
Proof.
  refine (unmap_map_roundtrip sample_top sample_kmem _ _ _ 0x1ffc 8 _ addr_model_laws map_model_laws
    sample_kmem_ok sample_fits _). by vm_compute.
Defined.

Definition heap_fsb : FixedSizeBlock.FixedSizeBlockAllocator LinkedList.LinkedListAllocator :=
  FixedSizeBlock.mk_fsb (replicate 9 None) ∅
    (LinkedList.mk_ll (LinkedList.mk_node 0 (Some HEAP_START))
      {[ HEAP_START := LinkedList.mk_node HEAP_SIZE None ]}) [].

Lemma init_heap_maps_heap_witness :
  ∃ m' fa' fs, init_heap sample_map (FrameAlloc.init heap_regions)
      (FixedSizeBlock.new (H := LinkedList.LinkedListAllocator)) =
      Ret (Ok (), m', fa', heap_fsb) ∧
    frames_used sample_map m' (FrameAlloc.init heap_regions) fa' 1024 ∧
    length fs = 256%nat ∧ NoDup fs ∧ (∀ f, f ∈ fs → f ∈ frame_addresses heap_regions) ∧
    (∀ i f, fs !! i = Some f →
       mapping m' (HEAP_START + page_size * Z.of_nat i) = Some (f, heap_flags)) ∧
    ∀ q, (∀ i, 0 ≤ i < 256 → q ≠ HEAP_START + page_size * i) →
       mapping m' q = mapping sample_map q ∧ vacant m' q = vacant sample_map q.
Proof.
  refine (init_heap_maps_heap sample_map heap_regions _ _ addr_model_laws map_model_laws
    (heap_frames_ok _) _ _ _).
  - rewrite heap_frames. lia.
  - intros i Hi. apply sample_map_vacant; unfold HEAP_START, page_size; lia.
  - by vm_compute.
Defined.
