(* ===== verification/PageTables.v ===== *)
(** * Page tables in memory, and what the kernel's mappings translate to

    [PageWalk] is the processor's view of the mapper's tables: the entries that
    [translate_addr] (kernel/src/memory.rs) reads.  Against it the mappings that
    kernel/src/device/acpi/handler.rs makes are followed through the kernel's own table
    walk.  [PageTables] is a concrete four-level implementation of the mapper's interface
    that satisfies its laws. *)

From S2P Require Import Prelude GlobalAlloc BumpAllocator LinkedListAllocator FixedSizeBlock X86 Memory Paging.
Import FrameAlloc.

(** ** The tables as the processor reads them *)

(** [walk_entry m table index] is what [PageTableEntry::frame] says of an entry of the table
    in the frame [table]. *)
Class PageWalk (M : Type) := {
  level_4_frame : M → Z;
  walk_entry : M → Z → Z → result Translate.FrameError Z;
}.
#[global] Hint Mode PageWalk ! : typeclass_instances.

(** The indexes that an address selects at the four levels. *)
Definition indexes (a : Z) : list Z :=
  [a `div` 2 ^ 39 `mod` 512; a `div` 2 ^ 30 `mod` 512; a `div` 2 ^ 21 `mod` 512; a `div` 2 ^ 12 `mod` 512].

(** From the table [frame], the entries at [l] are present and lead to the frame [f]; or one
    of them is not present. *)
Inductive leads_to {M} `{!Mapper M} `{!PageWalk M} (m : M) : Z → list Z → Z → Prop :=
| leads_here frame : leads_to m frame [] frame
| leads_step frame i next l f :
    table_frame m frame → walk_entry m frame i = Ok next → leads_to m next l f →
    leads_to m frame (i :: l) f.
Inductive stops_at {M} `{!Mapper M} `{!PageWalk M} (m : M) : Z → list Z → Prop :=
| stops_here frame i l :
    table_frame m frame → walk_entry m frame i = Err Translate.FrameNotPresent → stops_at m frame (i :: l)
| stops_later frame i next l :
    table_frame m frame → walk_entry m frame i = Ok next → stops_at m next l → stops_at m frame (i :: l).

Class PageWalkLaws (M : Type) `{!Mapper M} `{!PageWalk M} : Prop := {
  mapping_leads (m : M) page f fl :
    mapping m page = Some (f, fl) → leads_to m (level_4_frame m) (indexes page) f;
  vacant_stops (m : M) page : vacant m page = true → stops_at m (level_4_frame m) (indexes page);
}.

(** ** [translate_addr] on a mapped address *)

Section Translation.
Context `{!X86Addr} {laws : X86AddrLaws} {M : Type} `{!Mapper M} `{!PageWalk M} {wlaws : PageWalkLaws M}.

(** The entry [index] of the table at the virtual address [table], with all of physical
    memory mapped at [offset]. *)
Definition entry_at_offset (m : M) (offset table index : Z) : result Translate.FrameError Z :=
  walk_entry m (table - offset) index.

(** The kernel's [translate_addr] on the tables of [m]. *)
Definition translate (m : M) (offset addr : Z) : outcome (option Z) :=
  Translate.translate_addr (level_4_frame m) (entry_at_offset m offset) addr offset.

(** The page tables are in the physical memory that is mapped at [offset]. *)
Definition tables_reachable (m : M) (offset : Z) : Prop :=
  ∀ f, table_frame m f → canonical (offset + f).

Lemma walk_leads m offset frame l f : tables_reachable m offset → leads_to m frame l f →
  Translate.walk (entry_at_offset m offset) offset frame l = Ret (Some f).
Proof using laws.
  intros Hreach. induction 1 as [|frame i next l f Ht He _ IH]; [done|]. cbn [Translate.walk].
  rewrite virt_add_ok by by apply Hreach. cbn [mbind outcome_bind].
  unfold entry_at_offset at 1. by rewrite Z.add_simpl_l, He.
Qed.

Lemma walk_stops m offset frame l : tables_reachable m offset → stops_at m frame l →
  Translate.walk (entry_at_offset m offset) offset frame l = Ret None.
Proof using laws.
  intros Hreach. induction 1 as [frame i l Ht He|frame i next l Ht He _ IH]; cbn [Translate.walk];
    rewrite virt_add_ok by (by apply Hreach); cbn [mbind outcome_bind]; unfold entry_at_offset at 1;
    by rewrite Z.add_simpl_l, He.
Qed.

Lemma indexes_of_page v : indexes (v - v `mod` page_size) = indexes v.
Proof.
  unfold indexes, page_size. norm_pow.
  assert (∀ d, d = 549755813888 ∨ d = 1073741824 ∨ d = 2097152 ∨ d = 4096 →
    (v - v `mod` 4096) `div` d = v `div` d) as Hd.
  { intros d [-> | [-> | [-> | ->]]]; zdm. }
  by rewrite !Hd by tauto.
Qed.

(** The walk of an address in a page that is mapped, or vacant. *)
Lemma translate_byte (m : M) offset v p flags : tables_reachable m offset → in_u 52 p →
  byte_maps m v p flags → translate m offset v = Ret (Some p).
Proof using laws wlaws.
  intros Hreach Hp [Hm Hmod]. unfold translate, Translate.translate_addr, Translate.translate_addr_inner.
  rewrite p4_index_eq, p3_index_eq, p2_index_eq, p1_index_eq, page_offset_eq.
  apply mapping_leads in Hm. rewrite indexes_of_page in Hm. unfold indexes in Hm.
  rewrite (walk_leads m offset _ _ _ Hreach Hm). cbn [mbind outcome_bind].
  rewrite Hmod, phys_add_ok; rewrite Z.sub_add; done.
Qed.

Lemma translate_vacant (m : M) offset v : tables_reachable m offset →
  vacant m (v - v `mod` page_size) = true → translate m offset v = Ret None.
Proof using laws wlaws.
  intros Hreach Hv. unfold translate, Translate.translate_addr, Translate.translate_addr_inner.
  rewrite p4_index_eq, p3_index_eq, p2_index_eq, p1_index_eq.
  apply vacant_stops in Hv. rewrite indexes_of_page in Hv. unfold indexes in Hv.
  by rewrite (walk_stops m offset _ _ Hreach Hv).
Qed.

(** All frames that hold page tables now or may do so later can be reached at [offset]. *)
Definition frames_reachable (m : M) (fa : BootInfoFrameAllocator) (offset : Z) : Prop :=
  tables_reachable m offset ∧ ∀ f, f ∈ remaining fa → canonical (offset + f).

Lemma frames_reachable_used (m m' : M) fa fa' n offset :
  frames_reachable m fa offset → frames_used m m' fa fa' n → frames_reachable m' fa' offset.
Proof.
  intros [Ht Hr] [_ (j & _ & Hrem) Htab]. split.
  - intros f [Hf|Hf]%Htab; auto.
  - intros f Hf. apply Hr. rewrite Hrem in Hf. eapply sublist_subseteq; [apply sublist_drop|exact Hf].
Qed.

(** The 256 pages of the heap, each with its frame. *)
Definition heap_pages (m : M) (fs : list Z) : Prop :=
  length fs = 256%nat ∧ NoDup fs ∧ Forall frame_ok fs ∧
  ∀ i f, fs !! i = Some f → mapping m (HEAP_START + page_size * Z.of_nat i) = Some (f, heap_flags).

(** The physical address of the byte at the offset [o] of the heap. *)
Definition heap_byte (fs : list Z) (o : Z) : Z :=
  fs !!! Z.to_nat (o `div` page_size) + o `mod` page_size.

Lemma heap_frame_lookup m fs o : heap_pages m fs → 0 ≤ o < HEAP_SIZE →
  ∃ f, fs !! Z.to_nat (o `div` page_size) = Some f ∧ heap_byte fs o = f + o `mod` page_size.
Proof.
  intros (Hlen & _) Ho. destruct (lookup_lt_is_Some_2 fs (Z.to_nat (o `div` page_size))) as [f Hf].
  { rewrite Hlen. unfold HEAP_SIZE, page_size in *. zdm. }
  exists f. split; [done|]. unfold heap_byte. by rewrite (list_lookup_total_correct _ _ _ Hf).
Qed.

Lemma heap_byte_maps m fs o : heap_pages m fs → 0 ≤ o < HEAP_SIZE →
  byte_maps m (HEAP_START + o) (heap_byte fs o) heap_flags ∧ in_u 52 (heap_byte fs o).
Proof.
  intros Hh Ho. destruct (heap_frame_lookup m fs o Hh Ho) as (f & Hf & ->).
  destruct Hh as (_ & _ & Hok & Hmap). pose proof (Hmap _ _ Hf) as Hm.
  rewrite Forall_forall in Hok. destruct (Hok f (list_elem_of_lookup_2 _ _ _ Hf)) as [[c ->] Hr].
  rewrite Z2Nat.id in Hm by (apply Z.div_pos; [lia|done]). unfold byte_maps, in_u, HEAP_START, page_size in *.
  assert ((0x444444440000 + o) `mod` 4096 = o `mod` 4096) as -> by zdm.
  assert ((c * 4096 + o `mod` 4096) `mod` 4096 = o `mod` 4096) as -> by zdm.
  split; [split; [|done]|zdm].
  replace (0x444444440000 + o - o `mod` 4096) with (0x444444440000 + 4096 * (o `div` 4096)) by zdm.
  by rewrite Z.add_simpl_r.
Qed.

Lemma heap_byte_inj m fs o o' : heap_pages m fs → 0 ≤ o < HEAP_SIZE → 0 ≤ o' < HEAP_SIZE →
  heap_byte fs o = heap_byte fs o' → o = o'.
Proof.
  intros Hh Ho Ho'. destruct (heap_frame_lookup m fs o Hh Ho) as (f & Hf & ->).
  destruct (heap_frame_lookup m fs o' Hh Ho') as (f' & Hf' & ->).
  destruct Hh as (_ & Hnd & Hok & _). rewrite Forall_forall in Hok.
  destruct (Hok f (list_elem_of_lookup_2 _ _ _ Hf)) as [[c ->] _].
  destruct (Hok f' (list_elem_of_lookup_2 _ _ _ Hf')) as [[c' ->] _]. intros Heq.
  unfold page_size in *. assert (c = c') as <- by zdm. pose proof (NoDup_lookup _ _ _ _ Hnd Hf Hf') as Hi.
  apply (f_equal Z.of_nat) in Hi. rewrite !Z2Nat.id in Hi by (apply Z.div_pos; lia). zdm.
Qed.
End Translation.

(** ** A concrete four-level implementation *)

Module Tables.

(** The root frame, and the entries in use: the frame and flags at an index of a table. *)
Record PageTables := mk_tables { root : Z; entries : gmap (Z * Z) (Z * Z) }.

Definition entry (t : PageTables) (f i : Z) : option (Z * Z) := entries t !! (f, i).
Definition set_entry (t : PageTables) (f i : Z) (e : Z * Z) : PageTables :=
  mk_tables (root t) (<[(f, i) := e]> (entries t)).
Definition clear_entry (t : PageTables) (f i : Z) : PageTables :=
  mk_tables (root t) (delete (f, i) (entries t)).
Definition zero_table (t : PageTables) (f : Z) : PageTables :=
  mk_tables (root t) (filter (λ e, e.1.1 ≠ f) (entries t)).

Definition follows (fl : Z) : bool := Z.testbit fl 0 && negb (Z.testbit fl 7).

Fixpoint walk (t : PageTables) (f : Z) (l : list Z) : option Z :=
  match l with
  | [] => Some f
  | i :: l =>
      match entry t f i with
      | Some (g, fl) => if follows fl then walk t g l else None
      | None => None
      end
  end.

(** What the walk of the four indexes of a page ends at. *)
Inductive Probe := Hole | Blocked | Leaf (frame flags : Z).
Fixpoint probe (t : PageTables) (f : Z) (l : list Z) : Probe :=
  match l with
  | [] => Blocked
  | i :: l =>
      match entry t f i with
      | None => Hole
      | Some (g, fl) =>
          if follows fl then match l with [] => Leaf g fl | _ => probe t g l end else Blocked
      end
  end.

#[local] Instance page_ok_dec p : Decision (page_ok p).
Proof.
  unfold page_ok. refine (cast_if (decide (p `mod` page_size = 0 ∧ canonical p)));
    abstract (rewrite <-Z.mod_divide by done; done).
Defined.

Definition probe_page (t : PageTables) (page : Z) : Probe :=
  if decide (page_ok page) then probe t (root t) (indexes page) else Blocked.

(** The table for the next level is made when there is none. *)
Fixpoint descend {FA} `{!FrameAllocator FA} (t : PageTables) (f : Z) (l : list Z) (fa : FA) :
    outcome (result MapToError Z * PageTables * FA) :=
  match l with
  | [] => mret (Ok f, t, fa)
  | i :: l =>
      match entry t f i with
      | None =>
          '(o, fa) ← X86.allocate_frame fa;
          match o with
          | None => mret (Err FrameAllocationFailed, t, fa)
          | Some g => descend (zero_table (set_entry t f i (g, Z.lor PRESENT WRITABLE)) g) g l fa
          end
      | Some (g, fl) =>
          if Z.testbit fl 7 then mret (Err ParentEntryHugePage, t, fa)
          else if Z.testbit fl 0 then descend t g l fa
          else Panic "entry should be mapped at this point"
      end
  end.

Definition upper_indexes (page : Z) : list Z :=
  [page `div` 2 ^ 39 `mod` 512; page `div` 2 ^ 30 `mod` 512; page `div` 2 ^ 21 `mod` 512].
Definition last_index (page : Z) : Z := page `div` 2 ^ 12 `mod` 512.

Definition tables_map_to {FA} `{!FrameAllocator FA} (t : PageTables) (page frame flags : Z) (fa : FA) :
    outcome (result MapToError unit * PageTables * FA) :=
  '(r, t, fa) ← descend t (root t) (upper_indexes page) fa;
  match r with
  | Err e => mret (Err e, t, fa)
  | Ok f =>
      match entry t f (last_index page) with
      | Some (g, _) => mret (Err (PageAlreadyMapped g), t, fa)
      | None => mret (Ok (), set_entry t f (last_index page) (frame, flags), fa)
      end
  end.

Definition tables_unmap (t : PageTables) (page : Z) : result UnmapError Z * PageTables :=
  match probe_page t page, walk t (root t) (upper_indexes page) with
  | Leaf g _, Some f => (Ok g, clear_entry t f (last_index page))
  | _, _ => (Err PageNotMapped, t)
  end.

(** A frame reached through at most three indexes holds a table, and is reached so in one
    way only. *)
Definition is_table (t : PageTables) (f : Z) : Prop :=
  ∃ l, (length l ≤ 3)%nat ∧ walk t (root t) l = Some f.
Definition tree (t : PageTables) : Prop :=
  ∀ l l' f, (length l ≤ 3)%nat → (length l' ≤ 3)%nat →
    walk t (root t) l = Some f → walk t (root t) l' = Some f → l = l'.

#[local] Instance tables_mapper : Mapper PageTables := {|
  map_to FA _ := tables_map_to;
  unmap := tables_unmap;
  mapping t page := match probe_page t page with Leaf g fl => Some (g, fl) | _ => None end;
  vacant t page := match probe_page t page with Hole => true | _ => false end;
  table_frame := is_table;
  tables_ok := tree;
|}.

#[local] Instance tables_walk : PageWalk PageTables := {|
  level_4_frame := root;
  walk_entry t f i :=
    match entry t f i with
    | None => Err Translate.FrameNotPresent
    | Some (g, fl) =>
        if negb (Z.testbit fl 0) then Err Translate.FrameNotPresent
        else if Z.testbit fl 7 then Err Translate.HugeFrame else Ok g
    end;
|}.

(** *** Walks *)

Lemma walk_app t f l l' : walk t f (l ++ l') = (g ← walk t f l; walk t g l').
Proof.
  revert f. induction l as [|i l IH]; intros f; simpl; [done|].
  destruct (entry t f i) as [[g fl]|]; [|done]. by destruct (follows fl).
Qed.

Lemma walk_snoc t f l i g : walk t f (l ++ [i]) = Some g ↔
  ∃ h fl, walk t f l = Some h ∧ entry t h i = Some (g, fl) ∧ follows fl = true.
Proof.
  rewrite walk_app. split.
  - destruct (walk t f l) as [h|]; simpl; [|done]. destruct (entry t h i) as [[g' fl]|] eqn:He; [|done].
    destruct (follows fl) eqn:Hf; [|done]. intros [= ->]. by exists h, fl.
  - intros (h & fl & -> & He & Hf). simpl. by rewrite He, Hf.
Qed.

Lemma probe_app t f l f' l' : walk t f l = Some f' → l' ≠ [] → probe t f (l ++ l') = probe t f' l'.
Proof.
  revert f. induction l as [|i l IH]; intros f; simpl; [by intros [= ->]|]. intros Hw Hne.
  destruct (entry t f i) as [[g fl]|]; [|done]. destruct (follows fl); [|done].
  rewrite <-(IH g Hw Hne). destruct l; simpl; [by destruct l'|done].
Qed.

Lemma is_table_root t : is_table t (root t).
Proof. exists []. split; [simpl; lia|done]. Qed.

(** Two sets of tables that agree but for the entry [i0] of the table at the end of [l0]. *)
Section Agree.
Context (t t' : PageTables) (l0 : list Z) (f0 i0 : Z).
Context (Htree : tree t) (Hlen0 : (length l0 ≤ 3)%nat) (Hl0 : walk t (root t) l0 = Some f0).
Context (Hroot : root t' = root t).
Context (Hsame : ∀ f i, is_table t f → ¬ (f = f0 ∧ i = i0) → entry t' f i = entry t f i).

Lemma entry_agree l f i : (length l ≤ 3)%nat → walk t (root t) l = Some f → l ++ [i] ≠ l0 ++ [i0] →
  entry t' f i = entry t f i.
Proof using Htree Hlen0 Hl0 Hsame.
  intros Hl Hw Hne. apply Hsame; [by exists l|]. intros [-> ->]. apply Hne. f_equal. by eapply Htree.
Qed.

Lemma probe_agree s : ∀ l f, (length l + length s ≤ 4)%nat → walk t (root t) l = Some f →
  ¬ (l0 ++ [i0]) `prefix_of` (l ++ s) → probe t' f s = probe t f s.
Proof using Htree Hlen0 Hl0 Hsame.
  induction s as [|i s IH]; intros l f Hl Hw Hpre; [done|]. simpl in *.
  rewrite (entry_agree l f i); [|lia|done|].
  2: { intros Heq. apply Hpre. rewrite <-Heq. exists s. by rewrite <-app_assoc. }
  destruct (entry t f i) as [[g fl]|] eqn:He; [|done]. destruct (follows fl) eqn:Hf; [|done].
  destruct s as [|j s]; [done|]. apply (IH (l ++ [i]) g).
  - rewrite length_app. simpl in *. lia.
  - apply walk_snoc. by exists f, fl.
  - by rewrite <-app_assoc.
Qed.

Lemma walk_agree l : (length l ≤ 3)%nat → ¬ (l0 ++ [i0]) `prefix_of` l →
  walk t' (root t') l = walk t (root t) l.
Proof using Htree Hlen0 Hl0 Hsame Hroot.
  induction l as [|i l IH] using rev_ind; intros Hl Hpre; [by rewrite Hroot|].
  rewrite length_app in Hl. simpl in Hl. rewrite !walk_app, IH; [|lia|].
  2: { intros Hp. apply Hpre. by apply prefix_app_r. }
  destruct (walk t (root t) l) as [f|] eqn:Hw; [|done]. simpl.
  rewrite (entry_agree l f i); [done|lia|done|]. intros Heq. apply Hpre. by rewrite Heq.
Qed.
End Agree.

(** *** A new table *)

Lemma zero_entry t g i : entry (zero_table t g) g i = None.
Proof. unfold entry. simpl. apply map_lookup_filter_None. right. by intros e _ []. Qed.

Section Create.
Context (t : PageTables) (l0 : list Z) (f0 i0 g : Z).
Context (Htree : tree t) (Hlen0 : (length l0 ≤ 2)%nat) (Hl0 : walk t (root t) l0 = Some f0).
Context (Hnone : entry t f0 i0 = None) (Hfresh : ¬ is_table t g).
Local Abbreviation t' := (zero_table (set_entry t f0 i0 (g, Z.lor PRESENT WRITABLE)) g).

Lemma create_same f i : is_table t f → ¬ (f = f0 ∧ i = i0) → entry t' f i = entry t f i.
Proof using Hfresh.
  intros Hf Hne. unfold entry. simpl.
  rewrite map_lookup_filter, lookup_insert_ne by (intros Heq; apply Hne; split; congruence).
  destruct (entries t !! (f, i)) as [e|] eqn:He; simpl; [|done]. rewrite option_guard_True; [done|].
  intros Heq. apply Hfresh. by rewrite <-Heq.
Qed.

Lemma create_entry : entry t' f0 i0 = Some (g, Z.lor PRESENT WRITABLE).
Proof using Hl0 Hlen0 Hfresh.
  unfold entry. simpl. apply map_lookup_filter_Some_2; [apply lookup_insert_eq|]. simpl. intros Heq.
  apply Hfresh. rewrite <-Heq. exists l0. split; [lia|done].
Qed.

Lemma create_walk l : (length l ≤ 3)%nat →
  walk t' (root t') l =
    (if decide (l = l0 ++ [i0]) then Some g else walk t (root t) l).
Proof using Htree Hlen0 Hl0 Hnone Hfresh.
  intros Hl. destruct (decide ((l0 ++ [i0]) `prefix_of` l)) as [[s ->]|Hno].
  - rewrite <-app_assoc, !walk_app.
    rewrite (walk_agree t t' l0 f0 i0 Htree ltac:(lia) Hl0 eq_refl create_same l0 ltac:(lia)).
    2: { intros [s' Hs]. apply (f_equal length) in Hs. rewrite !length_app in Hs. simpl in Hs. lia. }
    rewrite Hl0. simpl. rewrite create_entry. simpl. destruct s as [|j s]; simpl.
    + by rewrite decide_True by done.
    + rewrite zero_entry, Hnone. case_decide as Heq; [|done].
      apply (f_equal length) in Heq. rewrite !length_app in Heq. simpl in Heq. lia.
  - rewrite (walk_agree t t' l0 f0 i0); try done; [|lia|exact create_same].
    by rewrite decide_False by (intros ->; by apply Hno).
Qed.

Lemma create_tree : tree t'.
Proof using Htree Hlen0 Hl0 Hnone Hfresh.
  intros l l' f Hl Hl'. rewrite !create_walk by done.
  repeat case_decide; subst; try done; [| |by apply Htree].
  - intros [= <-] Hw. destruct Hfresh. by exists l'.
  - intros Hw [= <-]. destruct Hfresh. by exists l.
Qed.

Lemma create_tables f : is_table t' f → is_table t f ∨ f = g.
Proof using Htree Hlen0 Hl0 Hnone Hfresh.
  intros (l & Hl & Hw). rewrite create_walk in Hw by done. case_decide; [|left; by exists l].
  right. congruence.
Qed.

Lemma create_probe l : length l = 4%nat → probe t' (root t') l = probe t (root t) l.
Proof using Htree Hlen0 Hl0 Hnone Hfresh.
  intros Hl. destruct (decide ((l0 ++ [i0]) `prefix_of` l)) as [[s ->]|Hno].
  - rewrite !length_app in Hl. simpl in Hl. destruct s as [|j s]; [simpl in Hl; lia|].
    rewrite (probe_app t' _ (l0 ++ [i0]) g) by (try done; rewrite create_walk by (rewrite length_app; simpl; lia);
      by rewrite decide_True by done).
    rewrite <-app_assoc, (probe_app t _ l0 f0) by done. simpl. by rewrite zero_entry, Hnone.
  - change (root t') with (root t).
    apply (probe_agree t t' l0 f0 i0) with (l := []); try done; [lia|exact create_same|simpl; lia].
Qed.
End Create.

(** *** Descending to the last table *)

(** What [descend] leaves of the tables, when the frames it took were fresh. *)
Record descended (t t' : PageTables) (fs : list Z) : Prop := {
  de_tree : tree t';
  de_tables h : is_table t' h → is_table t h ∨ h ∈ fs;
  de_probe p : length p = 4%nat → probe t' (root t') p = probe t (root t) p;
}.

Lemma descended_refl t : tree t → descended t t [].
Proof. intros. split; [done|by left|done]. Qed.

Lemma fresh_create t t1 g fs : fresh_frames t (g :: fs) → (∀ h, is_table t1 h → is_table t h ∨ h = g) →
  fresh_frames t1 fs.
Proof.
  intros [Hnd Hf] Ht1. apply NoDup_cons in Hnd as [Hg Hnd]. split; [done|]. intros h Hh.
  destruct (Hf h) as [Hok Hno]; [by right|]. split; [done|]. intros [Ht | ->]%Ht1; by auto.
Qed.

Lemma descend_spec {FA} `{!FrameAllocator FA} s : ∀ (t t' : PageTables) f (fa fa' : FA) r,
  descend t f s fa = Ret (r, t', fa') →
  ∃ os, calls fa os fa' ∧ (length os ≤ length s)%nat ∧
    ∀ l, tree t → (length l + length s ≤ 3)%nat → walk t (root t) l = Some f →
      fresh_frames t (omap id os) →
      descended t t' (omap id os) ∧ ∀ f', r = Ok f' → walk t' (root t') (l ++ s) = Some f'.
Proof.
  induction s as [|i s IH]; intros t t' f fa fa' r Hrun; cbn [descend length] in *.
  { injection Hrun as <- <- <-. exists []. split; [constructor|]. split; [simpl; lia|].
    intros l Htree _ Hw _. split; [by apply descended_refl|]. intros f' [= <-]. by rewrite app_nil_r. }
  destruct (entry t f i) as [[g fl]|] eqn:He.
  - destruct (Z.testbit fl 7) eqn:H7; [|destruct (Z.testbit fl 0) eqn:H0; [|done]].
    { injection Hrun as <- <- <-. exists []. split; [constructor|]. split; [simpl; lia|].
      intros l Htree _ _ _. split; [by apply descended_refl|done]. }
    destruct (IH t t' g fa fa' r Hrun) as (os & Hos & Hl & Hspec).
    exists os. split; [done|]. split; [lia|]. intros l Htree Hlen Hw Hfresh.
    rewrite (cons_middle i l s), app_assoc. apply Hspec; try done.
    + rewrite length_app. simpl. lia.
    + apply walk_snoc. exists f, fl. unfold follows. by rewrite H0, H7.
  - apply bind_Ret in Hrun as ([o fa1] & Ha & Hrun). destruct o as [g|].
    2: { injection Hrun as <- <- <-. exists [None]. split; [by econstructor; [|constructor]|].
         split; [simpl; lia|]. intros l Htree _ _ _. split; [by apply descended_refl|done]. }
    destruct (IH _ _ _ _ _ _ Hrun) as (os & Hos & Hl & Hspec).
    exists (Some g :: os). split; [by econstructor|]. split; [simpl; lia|]. intros l Htree Hlen Hw Hfresh.
    change (omap id (Some g :: os)) with (g :: omap id os) in *.
    assert (¬ is_table t g) as Hg by (apply Hfresh; by left). assert (length l ≤ 2)%nat as Hl2 by lia.
    destruct (Hspec (l ++ [i])) as [[Htree' Htab Hprobe] Hend].
    + by eapply (create_tree t l f i g).
    + rewrite length_app. simpl. lia.
    + rewrite (create_walk t l f i g) by (done || (rewrite length_app; simpl; lia)). by rewrite decide_True.
    + eapply fresh_create; [exact Hfresh|]. intros h. by apply (create_tables t l f i g).
    + split; [split; [done| |]|by rewrite <-app_assoc in Hend].
      * intros h [Hh|Hh]%Htab; [|right; by right].
        apply (create_tables t l f i g) in Hh as [Hh | ->]; try done; [by left|right; by left].
      * intros p Hp. rewrite Hprobe by done. by apply (create_probe t l f i g).
Qed.

(** Towards a hole it succeeds, given a frame for each table that is missing. *)
Lemma descend_hole {FA} `{!FrameAllocator FA} s i : ∀ (t : PageTables) f (fa fa' : FA) fs,
  probe t f (s ++ [i]) = Hole → calls fa (Some <$> fs) fa' → (length s ≤ length fs)%nat →
  ∃ g t1 fa1, descend t f s fa = Ret (Ok g, t1, fa1) ∧ entry t1 g i = None.
Proof.
  induction s as [|j s IH]; intros t f fa fa' fs Hp Hc Hl; cbn [descend probe app length] in *.
  { exists f, t, fa. split; [done|]. destruct (entry t f i) as [[g fl]|]; [|done]. by destruct (follows fl). }
  destruct (entry t f j) as [[g fl]|] eqn:He.
  - destruct (follows fl) eqn:Hf; [|done]. unfold follows in Hf. apply andb_prop in Hf as [H0 H7].
    apply negb_true_iff in H7. rewrite H7, H0. eapply IH; [|exact Hc|lia].
    destruct (s ++ [i]) eqn:Hs; [by destruct s|done].
  - destruct fs as [|g fs]; simpl in Hl; [lia|]. inversion Hc as [|? ? fa1 ? ? Ha Hc']; subst.
    rewrite Ha. cbn [mbind outcome_bind]. eapply IH; [|exact Hc'|lia].
    assert (∀ l x, l ≠ [] → probe (zero_table x g) g l = Hole) as Hz.
    { intros [|k l] x Hne; [done|]. cbn [probe]. by rewrite zero_entry. }
    apply Hz. by destruct s.
Qed.

(** *** The entry of a page *)

Lemma indexes_split page : indexes page = upper_indexes page ++ [last_index page].
Proof. done. Qed.

Lemma indexes_inj p q : page_ok p → page_ok q → indexes p = indexes q → p = q.
Proof.
  intros [[a ->] Hp] [[b ->] Hq] [= H4 H3 H2 H1]. unfold canonical, page_size in *. norm_pow.
  assert (a `mod` 2 ^ 36 = b `mod` 2 ^ 36) as Hab by (norm_pow; zdm). norm_pow. zdm.
Qed.

Lemma probe_leaf t s i f g fl : probe t f (s ++ [i]) = Leaf g fl →
  ∃ f', walk t f s = Some f' ∧ entry t f' i = Some (g, fl) ∧ follows fl = true.
Proof.
  revert f. induction s as [|j s IH]; intros f; cbn [probe walk app].
  - destruct (entry t f i) as [[g' fl']|] eqn:He; [|done]. destruct (follows fl') eqn:Hf; [|done].
    intros [= <- <-]. eauto.
  - destruct (entry t f j) as [[g' fl']|] eqn:He; [|done]. destruct (follows fl') eqn:Hf; [|done].
    intros Hp. apply IH. by destruct (s ++ [i]) eqn:Hs; [destruct s|].
Qed.

Lemma probe_end t s i f f' : walk t f s = Some f' → probe t f (s ++ [i]) = probe t f' [i].
Proof. intros Hw. by apply probe_app. Qed.

Lemma descend_walk {FA} `{!FrameAllocator FA} t s (fa : FA) : ∀ f f', walk t f s = Some f' →
  descend t f s fa = Ret (Ok f', t, fa).
Proof.
  induction s as [|j s IH]; intros f f'; cbn [walk descend]; [by intros [= ->]|].
  destruct (entry t f j) as [[g fl]|] eqn:He; [|done]. destruct (follows fl) eqn:Hf; [|done].
  unfold follows in Hf. apply andb_prop in Hf as [-> ->%negb_true_iff]. apply IH.
Qed.

(** Changing the entry of one page. *)
Section Leaf.
Context (t t' : PageTables) (l0 : list Z) (f0 i0 : Z).
Context (Htree : tree t) (Hlen0 : length l0 = 3%nat) (Hl0 : walk t (root t) l0 = Some f0).
Context (Hroot : root t' = root t).
Context (Hsame : ∀ f i, is_table t f → ¬ (f = f0 ∧ i = i0) → entry t' f i = entry t f i).

Lemma leaf_walk l : (length l ≤ 3)%nat → walk t' (root t') l = walk t (root t) l.
Proof using Htree Hlen0 Hl0 Hroot Hsame.
  intros Hl. apply (walk_agree t t' l0 f0 i0); try done; [lia|]. intros [s ->].
  rewrite !length_app in Hl. simpl in Hl. lia.
Qed.

Lemma leaf_tree : tree t'.
Proof using Htree Hlen0 Hl0 Hroot Hsame. intros l l' f Hl Hl'. rewrite !leaf_walk by done. by apply Htree. Qed.

Lemma leaf_tables h : is_table t' h → is_table t h.
Proof using Htree Hlen0 Hl0 Hroot Hsame.
  intros (l & Hl & Hw). exists l. by rewrite leaf_walk in Hw by done.
Qed.

Lemma leaf_probe p : length p = 4%nat → p ≠ l0 ++ [i0] → probe t' (root t') p = probe t (root t) p.
Proof using Htree Hlen0 Hl0 Hroot Hsame.
  intros Hp Hne. rewrite Hroot.
  apply (probe_agree t t' l0 f0 i0) with (l := []); try done; [lia|simpl; lia|]. intros [s Hs]. simpl in Hs.
  apply Hne. pose proof (f_equal length Hs) as Hl. rewrite !length_app in Hl. simpl in Hl.
  destruct s; [by rewrite app_nil_r in Hs|simpl in Hl; lia].
Qed.

Lemma leaf_here : probe t' (root t') (l0 ++ [i0]) = probe t' f0 [i0].
Proof using Htree Hlen0 Hl0 Hroot Hsame. apply probe_end. by rewrite leaf_walk by lia. Qed.
End Leaf.

Lemma probe_page_leaf t t' l0 f0 i0 page q : tree t → length l0 = 3%nat → walk t (root t) l0 = Some f0 →
  root t' = root t → (∀ f i, is_table t f → ¬ (f = f0 ∧ i = i0) → entry t' f i = entry t f i) →
  page_ok page → indexes page = l0 ++ [i0] → q ≠ page → probe_page t' q = probe_page t q.
Proof.
  intros Htree Hlen Hl0 Hroot Hsame Hp Hix Hq. unfold probe_page. case_decide; [|done].
  apply (leaf_probe t t' l0 f0 i0); try done. rewrite <-Hix. intros Heq. by apply Hq, indexes_inj.
Qed.

Lemma set_entry_same t f0 i0 e f i : ¬ (f = f0 ∧ i = i0) → entry (set_entry t f0 i0 e) f i = entry t f i.
Proof. intros Hne. unfold entry. simpl. apply lookup_insert_ne. intros [= -> ->]. by apply Hne. Qed.
Lemma clear_entry_same t f0 i0 f i : ¬ (f = f0 ∧ i = i0) → entry (clear_entry t f0 i0) f i = entry t f i.
Proof. intros Hne. unfold entry. simpl. apply lookup_delete_ne. intros [= -> ->]. by apply Hne. Qed.

(** *** The laws *)

Lemma follows_ok flags : flags_ok flags → follows flags = true.
Proof. intros (_ & H0 & H7). unfold follows. by rewrite H0, H7. Qed.

Lemma descended_probe t t' fs q : descended t t' fs → probe_page t' q = probe_page t q.
Proof. intros [_ _ Hp]. unfold probe_page. case_decide; [by apply Hp|done]. Qed.

Lemma descended_error t t' page frame flags fs e : descended t t' fs →
  mapped_page t t' page frame flags fs (Err e).
Proof.
  intros Hd. pose proof (descended_probe t t' fs) as Hp. split; simpl; try apply Hd.
  - intros q _. by rewrite Hp.
  - by rewrite Hp.
Qed.

Lemma map_entry_spec t t1 f page frame flags fs : page_ok page → flags_ok flags → descended t t1 fs →
  walk t1 (root t1) (upper_indexes page) = Some f → entry t1 f (last_index page) = None →
  mapped_page t (set_entry t1 f (last_index page) (frame, flags)) page frame flags fs (Ok ()).
Proof.
  intros Hp Hfl Hd Hw Hnone. pose proof (descended_probe t t1 fs) as Hprobe.
  pose proof (de_tree _ _ _ Hd) as Htree.
  assert (∀ g i, is_table t1 g → ¬ (g = f ∧ i = last_index page) →
    entry (set_entry t1 f (last_index page) (frame, flags)) g i = entry t1 g i) as Hsame
    by (intros; by apply set_entry_same).
  split; simpl.
  - by apply (leaf_tree t1 _ (upper_indexes page) f (last_index page)).
  - intros h Hh. apply (de_tables _ _ _ Hd).
    by apply (leaf_tables t1 (set_entry t1 f (last_index page) (frame, flags)) (upper_indexes page) f (last_index page)).
  - intros q Hq. rewrite <-(Hprobe q) by done.
    by rewrite (probe_page_leaf t1 _ (upper_indexes page) f (last_index page) page q).
  - rewrite <-(Hprobe page) by done. unfold probe_page. rewrite !decide_True by done.
    rewrite indexes_split, (probe_end t1 _ _ _ f) by done. split.
    + cbn [probe]. by rewrite Hnone.
    + rewrite (leaf_here t1 _ (upper_indexes page) f (last_index page)) by done. cbn [probe]. unfold entry. simpl.
      by rewrite lookup_insert_eq, follows_ok.
Qed.

Lemma map_to_spec_tables {FA} `{!FrameAllocator FA} (t t' : PageTables) page frame flags (fa fa' : FA) r :
  tree t → page_ok page → flags_ok flags → tables_map_to t page frame flags fa = Ret (r, t', fa') →
  ∃ os, calls fa os fa' ∧ (length os ≤ 3)%nat ∧
    (fresh_frames t (omap id os) → mapped_page t t' page frame flags (omap id os) r).
Proof.
  intros Htree Hp Hfl Hrun. unfold tables_map_to in Hrun.
  apply bind_Ret in Hrun as ([[r1 t1] fa1] & Hd & Hrun).
  destruct (descend_spec _ _ _ _ _ _ _ Hd) as (os & Hos & Hlen & Hspec). exists os.
  assert (fa' = fa1) as ->.
  { destruct r1 as [e|f]; [by injection Hrun|]. by destruct (entry t1 f (last_index page)) as [[]|]; injection Hrun. }
  split; [done|]. split; [exact Hlen|].
  intros Hfresh. destruct (Hspec [] Htree ltac:(simpl; lia) eq_refl Hfresh) as [Hde Hend].
  destruct r1 as [e|f]; [injection Hrun as <- <-; by apply descended_error|]. specialize (Hend f eq_refl).
  destruct (entry t1 f (last_index page)) as [[g fl]|] eqn:He; injection Hrun as <- <-.
  - by apply descended_error.
  - by apply map_entry_spec.
Qed.

Lemma unmap_spec_tables (t t' : PageTables) page f : tree t → page_ok page → tables_unmap t page = (Ok f, t') →
  tree t' ∧ probe_page t' page = Hole ∧ (∀ q, q ≠ page → probe_page t' q = probe_page t q) ∧
  ∀ g, is_table t' g → is_table t g.
Proof.
  intros Htree Hp Hrun. unfold tables_unmap in Hrun.
  destruct (probe_page t page) as [| |g fl]; [done..|].
  destruct (walk t (root t) (upper_indexes page)) as [h|] eqn:Hw; [|done]. injection Hrun as _ <-.
  assert (∀ g i, is_table t g → ¬ (g = h ∧ i = last_index page) →
    entry (clear_entry t h (last_index page)) g i = entry t g i) as Hsame
    by (intros; by apply clear_entry_same).
  split; [by apply (leaf_tree t _ (upper_indexes page) h (last_index page))|]. split; [|split].
  - unfold probe_page. rewrite decide_True, indexes_split by done. rewrite (leaf_here t _ (upper_indexes page) h (last_index page)) by done.
    cbn [probe]. unfold entry. simpl. by rewrite lookup_delete_eq.
  - intros q Hq. by apply (probe_page_leaf t _ (upper_indexes page) h (last_index page) page q).
  - intros g'. by apply (leaf_tables t _ (upper_indexes page) h (last_index page)).
Qed.

Lemma tables_laws : MapperLaws PageTables.
Proof.
  split; simpl.
  - intros FA ? t t' page frame flags fa fa' r Ht Hp _ Hfl Hrun. by eapply map_to_spec_tables.
  - intros FA ? t page frame flags fa fa3 fs _ Hp _ _ Hv Hc Hlen _. unfold probe_page in Hv.
    rewrite decide_True, indexes_split in Hv by done.
    destruct (descend_hole (upper_indexes page) (last_index page) t (root t) fa fa3 fs)
      as (g & t1 & fa1 & Hd & Hnone); [by destruct (probe t _ _)|done|simpl; lia|].
    unfold tables_map_to. rewrite Hd. cbn [mbind outcome_bind]. rewrite Hnone. eauto.
  - intros FA ? t t' page frame flags fa fa' r f fl Hp Hm Hrun. unfold probe_page in Hm.
    rewrite decide_True, indexes_split in Hm by done.
    destruct (probe t (root t) _) as [| |g gl] eqn:Hpr; [done..|]. injection Hm as -> ->.
    apply probe_leaf in Hpr as (h & Hw & He & _). unfold tables_map_to in Hrun.
    rewrite (descend_walk t _ fa _ h Hw) in Hrun. cbn [mbind outcome_bind] in Hrun. rewrite He in Hrun.
    by injection Hrun as <- _ _.
  - intros t page. by destruct (probe_page t page).
  - intros t t' page f Ht Hp Hun. destruct (unmap_spec_tables t t' page f Ht Hp Hun) as (Ht' & Hhole & Hoth & Htab).
    rewrite Hhole. split_and!; try done. intros q Hq. by rewrite Hoth.
  - intros t page f fl Hm. unfold tables_unmap.
    destruct (probe_page t page) as [| |g gl] eqn:Hpr; [done..|]. injection Hm as -> ->.
    unfold probe_page in Hpr. case_decide; [|done]. rewrite indexes_split in Hpr.
    apply probe_leaf in Hpr as (h & -> & _). eauto.
Qed.

Lemma tables_walk_laws : PageWalkLaws PageTables.
Proof.
  split; simpl.
  - intros t page f fl Hm. unfold probe_page in Hm. case_decide; [|done].
    destruct (probe t (root t) (indexes page)) as [| |g gl] eqn:Hpr; [done..|]. injection Hm as -> ->.
    assert (∀ s l h, (length l + length s ≤ 4)%nat → walk t (root t) l = Some h → probe t h s = Leaf f fl →
      leads_to t h s f) as Hgen; [|by eapply (Hgen _ [])].
    clear. induction s as [|i s IH]; intros l h Hl Hw Hp; [done|]. cbn [probe] in Hp. simpl in Hl.
    destruct (entry t h i) as [[g gl]|] eqn:He; [|done]. destruct (follows gl) eqn:Hf; [|done].
    pose proof Hf as [H0 H7%negb_true_iff]%andb_prop.
    eapply leads_step with (next := g); [exists l; split; [lia|done]|cbn [walk_entry tables_walk]; by rewrite He, H0, H7|].
    destruct s as [|j s]; [injection Hp as -> ->; constructor|].
    apply (IH (l ++ [i])); [rewrite length_app; simpl in *; lia|apply walk_snoc; eauto|done].
  - intros t page Hv. unfold probe_page in Hv. case_decide; [|done].
    destruct (probe t (root t) (indexes page)) as [| |g gl] eqn:Hpr; [|done..].
    assert (∀ s l h, (length l + length s ≤ 4)%nat → walk t (root t) l = Some h → probe t h s = Hole →
      stops_at t h s) as Hgen; [|by eapply (Hgen _ [])].
    clear. induction s as [|i s IH]; intros l h Hl Hw Hp; [done|]. cbn [probe] in Hp. simpl in Hl.
    assert (is_table t h) as Ht by (exists l; split; [lia|done]).
    destruct (entry t h i) as [[g gl]|] eqn:He; [|apply stops_here; [done|simpl; by rewrite He]].
    destruct (follows gl) eqn:Hf; [|done]. pose proof Hf as [H0 H7%negb_true_iff]%andb_prop.
    eapply stops_later with (next := g); [done|cbn [walk_entry tables_walk]; by rewrite He, H0, H7|].
    destruct s as [|j s]; [done|].
    apply (IH (l ++ [i])); [rewrite length_app; simpl in *; lia|apply walk_snoc; eauto|done].
Qed.
End Tables.

(** ** Properties *)

(** C9: The mapped device regions, followed by the kernel's own page-table walk: every byte of
    the region that [map_physical_region] returns translates to its physical address, and
    after [unmap_physical_region] none of them translates to anything. *)
Theorem mapped_region_translates `{!X86Addr} {M} `{!Mapper M} `{!PageWalk M} limit (k : Kmem M) m fa pa size offset
    (Hlaws : X86AddrLaws) (Hmlaws : MapperLaws M) (Hwlaws : PageWalkLaws M)
    (Hok : kmem_ok limit k m fa) (Hfits : request_fits limit k pa size) (Hreach : frames_reachable m fa offset) :
  ∃ region k1 m1 k2 m2, map_physical_region k pa size = Ret (region, k1) ∧ MAPPER k1 = Some m1 ∧
    (∀ i, 0 ≤ i < size → translate m1 offset (virtual_start region + i) = Ret (Some (pa + i))) ∧
    unmap_physical_region k1 region = Ret k2 ∧ MAPPER k2 = Some m2 ∧
    ∀ i, 0 ≤ i < size → translate m2 offset (virtual_start region + i) = Ret None.
Proof.
  destruct (map_physical_region_run limit k m fa pa size Hok Hfits) as (m1 & fa1 & k1 & Hrun & _ & Hok1 & Hused & Hmaps).
  destruct (unmap_mapped_region limit k k1 m fa pa size _ Hlaws Hmlaws Hok Hfits Hrun)
    as (k2 & m2 & fa2 & Hun & Hok2 & Hsame & _ & _ & Hused2).
  destruct Hok as [_ _ _ Hal Hcur Htop Hwin]. destruct Hfits as (Hpa & Hsz & Hphys & Hroom & _).
  destruct (region_pages_bounds pa size Hpa Hsz) as (Hn & _ & Hlb & _).
  pose proof (Z.mod_pos_bound pa page_size ltac:(done)).
  eexists _, k1, m1, k2, m2. split; [exact Hrun|]. split; [apply Hok1|]. split; [|split; [done|split; [apply Hok2|]]].
  - intros i Hi. eapply translate_byte; [by eapply frames_reachable_used| |by eapply maps_run_bytes].
    unfold in_u, page_size in *. lia.
  - intros i Hi. apply translate_vacant; [by eapply frames_reachable_used|]. simpl.
    rewrite (proj2 (Hsame _)). destruct Hal as [c Hc]. apply Hwin.
    + exists ((PAGE_ALLOCATOR k + pa `mod` page_size + i) `div` page_size). unfold page_size. zdm.
    + rewrite Hc in *. unfold HEAP_START, page_size in *. zdm.
Qed.

(** The heap in physical memory: after [init_heap] every byte of the heap translates to a
    byte of a usable frame, and no two of them to the same one. *)
Theorem heap_translates `{!X86Addr} {M} `{!Mapper M} `{!PageWalk M} {FH} `{!FallbackHeap FH}
    (m : M) (regions : list MemoryRegion) (A A' : FixedSizeBlock.FixedSizeBlockAllocator FH) offset
    (Hlaws : X86AddrLaws) (Hmlaws : MapperLaws M) (Hwlaws : PageWalkLaws M)
    (Hok : frames_ok m (FrameAlloc.init regions)) (Hreach : frames_reachable m (FrameAlloc.init regions) offset)
    (Hframes : (1024 ≤ length (frame_addresses regions))%nat)
    (Hfree : ∀ i, 0 ≤ i < 256 → vacant m (HEAP_START + page_size * i) = true)
    (Hinit : FixedSizeBlock.init A HEAP_START HEAP_SIZE = Ret A') :
  ∃ m' fa' pa, init_heap m (FrameAlloc.init regions) A = Ret (Ok (), m', fa', A') ∧
    (∀ o, 0 ≤ o < HEAP_SIZE → translate m' offset (HEAP_START + o) = Ret (Some (pa o)) ∧
       ∃ r, r ∈ regions ∧ mr_kind r = Usable ∧ mr_start r ≤ pa o < mr_end r) ∧
    ∀ o o', 0 ≤ o < HEAP_SIZE → 0 ≤ o' < HEAP_SIZE → pa o = pa o' → o = o'.
Proof.
  destruct (init_heap_run m regions A A' Hlaws Hmlaws Hok Hframes Hfree Hinit)
    as (m' & fa' & fs & Hrun & Hused & Hlen & Hnd & Hin & Hat & _).
  assert (heap_pages m' fs) as Hh.
  { split; [done|]. split; [done|]. split; [|done]. apply Forall_forall. intros f Hf.
    destruct Hok as (_ & Hmap & _). eapply remaining_fresh; [exact Hmap|]. unfold remaining. simpl.
    rewrite drop_0. auto. }
  exists m', fa', (heap_byte fs). split; [done|]. split; [|intros; by eapply heap_byte_inj].
  intros o Ho. destruct (heap_byte_maps m' fs o Hh Ho) as [Hmaps Hr]. split.
  - eapply translate_byte; [by eapply frames_reachable_used|done..].
  - destruct (heap_frame_lookup m' fs o Hh Ho) as (f & Hf & ->).
    apply list_elem_of_lookup_2, Hin, frame_addresses_elem in Hf as (r & Hr1 & Hr2 & _ & Hr3 & Hr4);
      [|apply Hok].
    exists r. pose proof (Z.mod_pos_bound o page_size ltac:(done)). split_and!; [done..|lia|lia].
Qed.

(** ** Witnesses *)

#[local] Existing Instances addr_model addr_model_laws Tables.tables_mapper Tables.tables_walk
  Tables.tables_laws Tables.tables_walk_laws.

(** What the bootloader leaves: two pages of the kernel at 0x8000000000, and the physical
    memory at 0x280000000000, a huge page; the level 4 table is at 0x1000. *)
Definition boot_entries : list ((Z * Z) * (Z * Z)) :=
  [((0x1000, 1), (0x2000, 3)); ((0x2000, 0), (0x3000, 3)); ((0x3000, 0), (0x4000, 3));
   ((0x4000, 0), (0x5000, 3)); ((0x4000, 1), (0x6000, 3));
   ((0x1000, 80), (0x7000, 3)); ((0x7000, 0), (0x8000, 3)); ((0x8000, 0), (0, 0x83))].
Definition boot_tables : Tables.PageTables := Tables.mk_tables 0x1000 (list_to_map boot_entries).
(** Its tables, with the indexes that lead there. *)
Definition boot_paths : list (list Z * Z) :=
  [([], 0x1000); ([1], 0x2000); ([1; 0], 0x3000); ([1; 0; 0], 0x4000); ([80], 0x7000); ([80; 0], 0x8000)].

Lemma boot_entry f i g fl : Tables.entry boot_tables f i = Some (g, fl) → ((f, i), (g, fl)) ∈ boot_entries.
Proof. unfold Tables.entry, boot_tables. cbn [Tables.entries]. apply elem_of_list_to_map_2. Qed.

Lemma boot_extend l f i g fl : (l, f) ∈ boot_paths → (length l < 3)%nat →
  Tables.entry boot_tables f i = Some (g, fl) → Tables.follows fl = true → (l ++ [i], g) ∈ boot_paths.
Proof.
  intros Hl Hlen He Hf. apply boot_entry in He. unfold boot_paths, boot_entries in *.
  repeat (apply elem_of_cons in Hl as [Heq|Hl]; [injection Heq as -> ->|]); [..|by apply elem_of_nil in Hl];
    repeat (apply elem_of_cons in He as [Heq|He]; [simplify_eq|]); try (by apply elem_of_nil in He);
    try (simpl in Hlen; lia); try done; simpl; set_solver.
Qed.

Lemma boot_walk l : ∀ f, (length l ≤ 3)%nat → Tables.walk boot_tables 0x1000 l = Some f → (l, f) ∈ boot_paths.
Proof.
  induction l as [|i l IH] using rev_ind; intros f Hlen Hw.
  { injection Hw as <-. by left. }
  rewrite length_app in Hlen. simpl in Hlen. apply Tables.walk_snoc in Hw as (h & fl & Hw & He & Hf).
  eapply boot_extend; [apply IH; [lia|done]|lia|done..].
Qed.

Lemma boot_frames_ok end_ : (page_size | end_) → 0x100000 ≤ end_ ≤ 2 ^ 46 →
  frames_ok boot_tables (FrameAlloc.init (usable_after_1M end_)) ∧
  frames_reachable boot_tables (FrameAlloc.init (usable_after_1M end_)) 0x280000000000.
Proof.
  intros Hd He. assert (map_ok (FrameAlloc.init (usable_after_1M end_))) as Hok.
  { apply usable_after_1M_ok; [done|]. norm_pow. lia. }
  assert (∀ f, f ∈ remaining (FrameAlloc.init (usable_after_1M end_)) → 0x100000 ≤ f < 2 ^ 46) as Hr.
  { intros f. unfold remaining. simpl. rewrite drop_0. intros Hf.
    apply frame_addresses_elem in Hf as (r & Hr & Hu & _ & Hlo & Hhi); [|apply Hok].
    unfold usable_after_1M in Hr. apply list_elem_of_In in Hr as [<-|[<-|[]]]; [done|]. unfold page_size in *. simpl in *. norm_pow. lia. }
  assert (∀ f, table_frame boot_tables f → 0 < f < 0x100000) as Ht.
  { intros f (l & Hl & Hw). apply boot_walk in Hw; [|done]. unfold boot_paths in Hw.
    repeat (apply elem_of_cons in Hw as [Heq|Hw]; [injection Heq as -> ->; lia|]). by apply elem_of_nil in Hw. }
  split; split.
  - intros l l' f Hl Hl' Hw Hw'. apply boot_walk in Hw, Hw'; [|done..]. unfold boot_paths in *.
    repeat (apply elem_of_cons in Hw as [Heq|Hw]; [injection Heq as -> ->|]); [..|by apply elem_of_nil in Hw];
      repeat (apply elem_of_cons in Hw' as [Heq|Hw']; [by simplify_eq|]); by apply elem_of_nil in Hw'.
  - split; [done|]. intros f Hf Hf'%Ht. apply Hr in Hf. lia.
  - intros f Hf%Ht. left. norm_pow. lia.
  - intros f Hf%Hr. left. norm_pow. lia.
Qed.

(** Every page outside the two level 4 entries in use is vacant. *)
Lemma boot_vacant q : page_ok q → q `div` 2 ^ 39 `mod` 512 ∉ [1; 80] → vacant boot_tables q = true.
Proof.
  intros Hq Hno. simpl. unfold Tables.probe_page. rewrite decide_True by done. unfold indexes. cbn [Tables.probe].
  change (Tables.root boot_tables) with 0x1000.
  destruct (Tables.entry boot_tables 0x1000 _) as [[g fl]|] eqn:He; [|done]. apply boot_entry in He.
  destruct Hno. unfold boot_entries in He.
  repeat (apply elem_of_cons in He as [Heq|He]; [simplify_eq; try set_solver|]). by apply elem_of_nil in He.
Qed.
Lemma low_vacant q : (page_size | q) → 0 ≤ q < 2 ^ 39 → vacant boot_tables q = true.
Proof.
  intros Hd Hq. apply boot_vacant; [apply window_page_ok; [done|norm_pow; lia]|].
  rewrite (Z.div_small q) by lia. rewrite !not_elem_of_cons. split_and!; [done..|apply not_elem_of_nil].
Qed.
Lemma heap_page_vacant q : (page_size | q) → HEAP_START ≤ q < HEAP_START + HEAP_SIZE → vacant boot_tables q = true.
Proof.
  intros Hd Hq. unfold HEAP_START, HEAP_SIZE in Hq. apply boot_vacant; [apply window_page_ok; [done|lia]|].
  assert (q `div` 2 ^ 39 = 136) as -> by (norm_pow; zdm).
  rewrite !not_elem_of_cons. split_and!; [done..|apply not_elem_of_nil].
Qed.
Lemma heap_vacant i : 0 ≤ i < 256 → vacant boot_tables (HEAP_START + page_size * i) = true.
Proof.
  intros Hi. apply heap_page_vacant; [|unfold HEAP_SIZE, page_size; lia].
  apply Z.divide_add_r; [by exists (HEAP_START `div` page_size)|apply Z.divide_factor_l].
Qed.

Definition tables_kmem : Kmem Tables.PageTables :=
  mk_kmem (Some boot_tables) (Some (FrameAlloc.init device_regions)) 0x1000000000.

Lemma tables_kmem_ok : kmem_ok sample_top tables_kmem boot_tables (FrameAlloc.init device_regions).
Proof.
  split; try done.
  - apply boot_frames_ok; [by exists 0x120|done].
  - by exists 0x1000000.
  - intros q Hd Hq. apply low_vacant; [done|]. unfold sample_top in Hq. simpl in Hq. norm_pow. lia.
Qed.

Lemma mapped_region_translates_witness :
  ∃ region k1 m1 k2 m2, map_physical_region tables_kmem 0x1ffc 8 = Ret (region, k1) ∧ MAPPER k1 = Some m1 ∧
    (∀ i, 0 ≤ i < 8 → translate m1 0x280000000000 (virtual_start region + i) = Ret (Some (0x1ffc + i))) ∧
    unmap_physical_region k1 region = Ret k2 ∧ MAPPER k2 = Some m2 ∧
    ∀ i, 0 ≤ i < 8 → translate m2 0x280000000000 (virtual_start region + i) = Ret None.
Proof.
  refine (mapped_region_translates sample_top tables_kmem boot_tables _ 0x1ffc 8 0x280000000000 addr_model_laws
    Tables.tables_laws Tables.tables_walk_laws tables_kmem_ok _ _); [by vm_compute|].
  apply boot_frames_ok; [by exists 0x120|done].
Defined.

Lemma heap_translates_witness :
  ∃ m' fa' pa, init_heap boot_tables (FrameAlloc.init heap_regions)
      (FixedSizeBlock.new (H := LinkedList.LinkedListAllocator)) = Ret (Ok (), m', fa', heap_fsb) ∧
    (∀ o, 0 ≤ o < HEAP_SIZE → translate m' 0x280000000000 (HEAP_START + o) = Ret (Some (pa o)) ∧
       ∃ r, r ∈ heap_regions ∧ mr_kind r = Usable ∧ mr_start r ≤ pa o < mr_end r) ∧
    ∀ o o', 0 ≤ o < HEAP_SIZE → 0 ≤ o' < HEAP_SIZE → pa o = pa o' → o = o'.
Proof.
  refine (heap_translates boot_tables heap_regions _ _ 0x280000000000 addr_model_laws Tables.tables_laws
    Tables.tables_walk_laws _ _ _ _ _).
  - apply boot_frames_ok; [by exists 0x4100|done].
  - apply boot_frames_ok; [by exists 0x4100|done].
  - rewrite heap_frames. lia.
  - intros i Hi. by apply heap_vacant.
  - by vm_compute.
Defined.
