(* ===== verification/Vga.v ===== *)
(** * The framebuffer console: kernel/src/vga_text_buffer.rs, kernel/src/meta/console.rs

    The writer with its escape-sequence state machine, its cursor and its
    framebuffer.  A [char] is its code point, a [&str] the list of its chars, the
    framebuffer a list of bytes.  The bitmap font is the crate
    noto_sans_mono_bitmap, the class [Font]. *)

From Stdlib Require Import Ascii.
From S2P Require Import Prelude.

(** A one-byte character literal of the source. *)
Definition ch (a : Ascii.ascii) : Z := Z.of_nat (Ascii.nat_of_ascii a).
Arguments ch a%_char.
(** A string literal of the source (they are all ASCII). *)
Fixpoint chars (s : string) : list Z :=
  match s with
  | EmptyString => []
  | String a s => ch a :: chars s
  end.
Definition ESC : Z := 0x1b.

(** Replace character literals by their code points. *)
Ltac norm_ch :=
  repeat match goal with
  | |- context [ch ?a] => let v := eval vm_compute in (ch a) in change (ch a) with v
  | H : context [ch ?a] |- _ => let v := eval vm_compute in (ch a) in change (ch a) with v in H
  end.

Record RasterizedChar := mk_raster { raster : list (list Z); raster_width : Z }.

(** The font: [noto_sans_mono_bitmap::get_raster] at the weight and height of
    [font_constants], [get_raster_width] and [RasterHeight::val]. *)
Class Font := {
  get_raster : Z → option RasterizedChar;
  CHAR_RASTER_WIDTH : Z;
  CHAR_RASTER_HEIGHT : Z;
}.

Definition BACKUP_CHAR : Z := 0xFFFD.

(** What the crate documents: a monospaced bitmap font, with a replacement
    character. *)
Class FontLaws `{!Font} : Prop := {
  font_width : 0 < CHAR_RASTER_WIDTH < 2 ^ 16;
  font_height : 0 < CHAR_RASTER_HEIGHT < 2 ^ 16;
  font_raster c r : get_raster c = Some r →
    raster_width r = CHAR_RASTER_WIDTH ∧
    Z.of_nat (length (raster r)) = CHAR_RASTER_HEIGHT ∧
    ∀ row, row ∈ raster r →
      Z.of_nat (length row) = CHAR_RASTER_WIDTH ∧ ∀ i, i ∈ row → in_u 8 i;
  font_backup : is_Some (get_raster BACKUP_CHAR);
}.

Module Vga.

Inductive Color :=
  Black | Blue | Green | Cyan | Red | Magenta | Brown | LightGray | DarkGray | LightBlue
| LightGreen | LightCyan | LightRed | Pink | Yellow | White.

#[global] Instance Color_eq_dec : EqDecision Color.
Proof. solve_decision. Defined.

Definition rgb (self : Color) : list Z :=
  let alpha := 0x00 in
  match self with
  | Black => [0x00; 0x00; 0x00; alpha]
  | Blue => [0x00; 0x00; 0xFF; alpha]
  | Green => [0x00; 0xFF; 0x00; alpha]
  | Cyan => [0x00; 0xFF; 0xFF; alpha]
  | Red => [0xFF; 0x00; 0x00; alpha]
  | Magenta => [0xFF; 0x00; 0xFF; alpha]
  | Brown => [0xFF; 0xFF; 0x80; alpha]
  | LightGray => [0x55; 0x55; 0x55; alpha]
  | DarkGray => [0xAA; 0xAA; 0xAA; alpha]
  | LightBlue => [0x00; 0x00; 0x80; alpha]
  | LightGreen => [0x00; 0x80; 0x80; alpha]
  | LightCyan => [0x00; 0x80; 0x80; alpha]
  | LightRed => [0x80; 0x00; 0x00; alpha]
  | Pink => [0xFF; 0xCC; 0xCC; alpha]
  | Yellow => [0xFF; 0xFF; 0x00; alpha]
  | White => [0xFF; 0xFF; 0xFF; alpha]
  end.

(** [font_constants] *)
Definition LINE_SPACING : Z := 2.
Definition LETTER_SPACING : Z := 0.
Definition BORDER_PADDING : Z := 1.

Definition get_char_raster `{!Font} (c : Z) : outcome RasterizedChar :=
  match get_raster c with
  | Some r => mret r
  | None => expect "Should get raster of backup char." (get_raster BACKUP_CHAR)
  end.

Inductive WriterState :=
| Normal
| Escape
| FirstCode
| SecondCode (first : Z)
| Finishing (first second : Z)
| StateColor (c : Color).

Definition feed (self : WriterState) (c : Z) : bool * WriterState :=
  match self with
  | Normal => if negb (c =? ESC) then (true, Normal) else (false, Escape)
  | Escape => if negb (c =? ch "[") then (true, Normal) else (false, FirstCode)
  | FirstCode => if c =? ch "0" then (false, Finishing c c) else (false, SecondCode c)
  | SecondCode first => (false, Finishing first c)
  | Finishing first second =>
      if negb (c =? ch "m") then (true, Normal)
      else if first =? ch "0" then (false, StateColor White)
      else if negb (first =? ch "3") then (false, Normal)
      else if second =? ch "0" then (false, StateColor Black)
      else if second =? ch "1" then (false, StateColor Red)
      else if second =? ch "2" then (false, StateColor Green)
      else if second =? ch "3" then (false, StateColor Yellow)
      else if second =? ch "4" then (false, StateColor Blue)
      else if second =? ch "5" then (false, StateColor Magenta)
      else if second =? ch "6" then (false, StateColor Cyan)
      else if second =? ch "7" then (false, StateColor White)
      else (false, Normal)
  | StateColor c' => (true, StateColor c')
  end.

(** bootloader_api's framebuffer description. *)
Inductive PixelFormat := Rgb | Bgr | U8 | Unknown.
Record FrameBufferInfo := mk_info {
  byte_len : Z; fb_width : Z; fb_height : Z; pixel_format : PixelFormat;
  bytes_per_pixel : Z; stride : Z;
}.

Record Writer := mk_writer {
  framebuffer : list Z;
  info : FrameBufferInfo;
  last_width : Z;
  x_pos : Z;
  y_pos : Z;
  color : Color;
  state : WriterState;
}.

Definition with_framebuffer (self : Writer) (fb : list Z) : Writer :=
  mk_writer fb (info self) (last_width self) (x_pos self) (y_pos self) (color self) (state self).
Definition with_cursor (self : Writer) (x y : Z) : Writer :=
  mk_writer (framebuffer self) (info self) (last_width self) x y (color self) (state self).
Definition with_state (self : Writer) (st : WriterState) : Writer :=
  mk_writer (framebuffer self) (info self) (last_width self) (x_pos self) (y_pos self) (color self) st.
Definition with_color (self : Writer) (c : Color) : Writer :=
  mk_writer (framebuffer self) (info self) (last_width self) (x_pos self) (y_pos self) c (state self).

(** [WRITER] before [set_fb]. *)
Definition WRITER : Writer :=
  mk_writer [] (mk_info 0 0 0 U8 0 0) 0 0 0 White Normal.

Definition carriage_return (self : Writer) : Writer := with_cursor self BORDER_PADDING (y_pos self).

Definition newline `{!Font} (self : Writer) : outcome Writer :=
  step ← add_u usize CHAR_RASTER_HEIGHT LINE_SPACING;
  y ← add_u usize (y_pos self) step;
  mret (carriage_return (with_cursor self (x_pos self) y)).

Definition clear (self : Writer) : Writer :=
  let self := with_cursor self BORDER_PADDING BORDER_PADDING in
  with_framebuffer self (replicate (length (framebuffer self)) 0).

Definition set_buffer (self : Writer) (buf : list Z) : Writer :=
  clear (with_framebuffer self buf).

Definition set_fb (self : Writer) (buf : list Z) (i : FrameBufferInfo) : Writer :=
  let self := set_buffer self buf in
  mk_writer (framebuffer self) i (last_width self) (x_pos self) (y_pos self) (color self) (state self).

Definition get_color (self : Writer) (intensity : Z) : outcome (list Z) :=
  let color := (λ value, wrap 8 ((value * intensity) `div` 255)) <$> rgb (color self) in
  match pixel_format (info self) with
  | Rgb => mret color
  | Bgr =>
      c2 ← unwrap (color !! 2%nat); c1 ← unwrap (color !! 1%nat);
      c0 ← unwrap (color !! 0%nat); c3 ← unwrap (color !! 3%nat);
      mret [c2; c1; c0; c3]
  | U8 => mret [if intensity >? 200 then 0xf else 0; 0; 0; 0]
  | Unknown => Panic "pixel format not supported in logger"
  end.

(** [fb[from..to]] as the target of [copy_from_slice]: both slices are bounds
    checked and their lengths compared. *)
Definition copy_from_slice (fb : list Z) (from to : Z) (src : list Z) : outcome (list Z) :=
  assert_that (from <=? to) "slice index starts after its end";;
  assert_that (to <=? Z.of_nat (length fb)) "range end index out of range for slice";;
  assert_that (to - from =? Z.of_nat (length src)) "source slice length does not match destination";;
  mret (take (Z.to_nat from) fb ++ src ++ drop (Z.to_nat to) fb).

Definition write_pixel (self : Writer) (x y intensity : Z) : outcome Writer :=
  row ← mul_u usize y (stride (info self));
  pixel_offset ← add_u usize row x;
  color ← get_color self intensity;
  let bpp := bytes_per_pixel (info self) in
  byte_offset ← mul_u usize pixel_offset bpp;
  to ← add_u usize byte_offset bpp;
  assert_that (bpp <=? Z.of_nat (length color)) "range end index out of range for slice";;
  fb ← copy_from_slice (framebuffer self) byte_offset to (take (Z.to_nat bpp) color);
  unwrap (fb !! Z.to_nat byte_offset);;
  mret (with_framebuffer self fb).

Fixpoint write_row (self : Writer) (y x : Z) (row : list Z) : outcome Writer :=
  match row with
  | [] => mret self
  | byte :: row =>
      px ← add_u usize (x_pos self) x;
      py ← add_u usize (y_pos self) y;
      self ← write_pixel self px py byte;
      write_row self y (x + 1) row
  end.

Fixpoint write_rows (self : Writer) (y : Z) (rows : list (list Z)) : outcome Writer :=
  match rows with
  | [] => mret self
  | row :: rows => self ← write_row self y 0 row; write_rows self (y + 1) rows
  end.

Definition write_rendered_char (self : Writer) (rendered_char : RasterizedChar) : outcome Writer :=
  self ← write_rows self 0 (raster rendered_char);
  let w := raster_width rendered_char in
  advance ← add_u usize w LETTER_SPACING;
  x ← add_u usize (x_pos self) advance;
  mret (mk_writer (framebuffer self) (info self) w x (y_pos self) (color self) (state self)).

(** The default arm of [write_char]. *)
Definition write_glyph `{!Font} (self : Writer) (c : Z) : outcome Writer :=
  new_xpos ← add_u usize (x_pos self) CHAR_RASTER_WIDTH;
  self ← (if new_xpos >=? fb_width (info self) then newline self else mret self);
  h ← add_u usize (y_pos self) CHAR_RASTER_HEIGHT;
  new_ypos ← add_u usize h BORDER_PADDING;
  let self := if new_ypos >=? fb_height (info self) then clear self else self in
  r ← get_char_raster c;
  write_rendered_char self r.

Definition write_char `{!Font} (self : Writer) (c : Z) : outcome Writer :=
  let '(printable, st) := feed (state self) c in
  let self := with_state self st in
  if negb printable then
    match state self with
    | StateColor color => mret (with_color (with_state self Normal) color)
    | _ => mret self
    end
  else if c =? ch "010" then newline self
  else if c =? ch "013" then mret (carriage_return self)
  else write_glyph self c.

Definition backspace `{!Font} (self : Writer) : outcome Writer :=
  x ← sub_u usize (x_pos self) (last_width self);
  self ← write_char (with_cursor self x (y_pos self)) (ch " ");
  x ← sub_u usize (x_pos self) (last_width self);
  mret (with_cursor self x (y_pos self)).

Fixpoint write_string `{!Font} (self : Writer) (s : list Z) : outcome Writer :=
  match s with
  | [] => mret self
  | c :: s => self ← write_char self c; write_string self s
  end.

(** [write_fmt] passes the pieces of the format one by one to [write_str];
    [_print] is that under the lock. *)
Fixpoint _print `{!Font} (self : Writer) (pieces : list (list Z)) : outcome Writer :=
  match pieces with
  | [] => mret self
  | s :: pieces => self ← write_string self s; _print self pieces
  end.

(** Printing panics or returns, whatever the state of the console. *)
Lemma write_row_defined row : ∀ w y x, defined (write_row w y x row).
Proof.
  assert (∀ w x y i, defined (write_pixel w x y i)) as Hp.
  { intros. unfold write_pixel, get_color, copy_from_slice. solve_defined. }
  induction row as [|c row IH]; intros w y x; cbn [write_row]; solve_defined.
Qed.
#[global] Hint Resolve write_row_defined : nocciolo.
Lemma write_rows_defined rows : ∀ w y, defined (write_rows w y rows).
Proof.
  induction rows as [|row rows IH]; intros w y; cbn [write_rows]; solve_defined.
Qed.
#[global] Hint Resolve write_rows_defined : nocciolo.
Lemma write_char_defined `{!Font} w c : defined (write_char w c).
Proof.
  unfold write_char, write_glyph, newline, get_char_raster, write_rendered_char. cbv zeta.
  solve_defined.
Qed.
#[global] Hint Resolve write_char_defined : nocciolo.
Lemma backspace_defined `{!Font} w : defined (backspace w).
Proof. unfold backspace. solve_defined. Qed.
#[global] Hint Resolve backspace_defined : nocciolo.
Lemma write_string_defined `{!Font} s : ∀ w, defined (write_string w s).
Proof.
  induction s as [|c s IH]; intros w; cbn [write_string]; solve_defined.
Qed.
#[global] Hint Resolve write_string_defined : nocciolo.
Lemma print_defined `{!Font} pieces : ∀ w, defined (_print w pieces).
Proof.
  induction pieces as [|s pieces IH]; intros w; cbn [_print]; solve_defined.
Qed.
#[global] Hint Resolve print_defined : nocciolo.

(** ** Pixels *)

(** The bytes of the pixel at column [x] of line [y]. *)
Definition pixel (i : FrameBufferInfo) (fb : list Z) (x y : Z) : list Z :=
  take (Z.to_nat (bytes_per_pixel i)) (drop (Z.to_nat ((y * stride i + x) * bytes_per_pixel i)) fb).

(** The bytes stored for a pixel of the given intensity in the current colour. *)
Definition shade (w : Writer) (intensity : Z) : list Z :=
  match get_color w intensity with
  | Ret c => take (Z.to_nat (bytes_per_pixel (info w))) c
  | _ => []
  end.

(** A framebuffer as the bootloader describes it, of a supported pixel format. *)
Record geometry (i : FrameBufferInfo) (fb : list Z) : Prop := {
  geo_format : pixel_format i ≠ Unknown;
  geo_bpp : 1 ≤ bytes_per_pixel i ≤ 4;
  geo_width : 0 < fb_width i ≤ stride i;
  geo_height : 0 < fb_height i;
  geo_len : fb_height i * stride i * bytes_per_pixel i ≤ Z.of_nat (length fb);
  geo_max : Z.of_nat (length fb) < 2 ^ 63;
}.

(** [fb'] is [fb] with the pixels painted that [paint] gives. *)
Definition drawn (i : FrameBufferInfo) (fb fb' : list Z) (paint : Z → Z → option (list Z)) : Prop :=
  length fb' = length fb ∧
  ∀ x y, 0 ≤ x < stride i → 0 ≤ y → pixel i fb' x y = default (pixel i fb x y) (paint x y).

Definition lookup_z {A} (l : list A) (k : Z) : option A :=
  if k <? 0 then None else l !! Z.to_nat k.

(** The picture of a glyph whose top left corner is at [(x0, y0)]. *)
Definition row_paint (w : Writer) (row : list Z) (x0 y0 : Z) (x y : Z) : option (list Z) :=
  if y =? y0 then shade w <$> lookup_z row (x - x0) else None.
Definition glyph_paint (w : Writer) (rows : list (list Z)) (x0 y0 : Z) (x y : Z) : option (list Z) :=
  row ← lookup_z rows (y - y0); shade w <$> lookup_z row (x - x0).

Lemma lookup_z_cons {A} (a : A) l k :
  lookup_z (a :: l) k = if k =? 0 then Some a else lookup_z l (k - 1).
Proof.
  unfold lookup_z. destruct (Z.eqb_spec k 0) as [->|Hk]; [done|].
  destruct (Z.ltb_spec k 0), (Z.ltb_spec (k - 1) 0); try lia; [done|].
  by replace (Z.to_nat k) with (S (Z.to_nat (k - 1))) by lia.
Qed.

Lemma lookup_z_nil {A} k : lookup_z (@nil A) k = None.
Proof. unfold lookup_z. by destruct (k <? 0). Qed.

Lemma lookup_z_neg {A} (l : list A) k : k < 0 → lookup_z l k = None.
Proof. intros Hk. unfold lookup_z. by rewrite (proj2 (Z.ltb_lt k 0)). Qed.

Lemma get_color_length w c col : get_color w c = Ret col → length col = 4%nat.
Proof.
  unfold get_color. intros H. destruct (pixel_format (info w)); inv_outcome; destruct (color w); done.
Qed.

Lemma get_color_run w c : pixel_format (info w) ≠ Unknown → is_Some (match get_color w c with Ret x => Some x | _ => None end).
Proof. unfold get_color. destruct (pixel_format (info w)), (color w); simpl; eauto; done. Qed.

(** Writing a slice of a list and reading slices of the result. *)
Lemma slice_same (fb src : list Z) o :
  (o ≤ length fb)%nat →
  take (length src) (drop o (take o fb ++ src ++ drop (o + length src) fb)) = src.
Proof.
  intros Ho. rewrite drop_app_length' by (rewrite length_take; lia).
  by rewrite take_app_length.
Qed.

Lemma slice_other (fb src : list Z) o o' n :
  (o + length src ≤ length fb)%nat → (o' + n ≤ o ∨ o + length src ≤ o')%nat →
  take n (drop o' (take o fb ++ src ++ drop (o + length src) fb)) = take n (drop o' fb).
Proof.
  intros Ho [Hlt|Hge].
  - rewrite drop_app_le by (rewrite length_take; lia).
    rewrite take_app_le by (rewrite length_drop, length_take; lia).
    rewrite <-(take_drop o fb) at 2. rewrite drop_app_le by (rewrite length_take; lia).
    by rewrite take_app_le by (rewrite length_drop, length_take; lia).
  - rewrite drop_app_ge by (rewrite length_take; lia). rewrite length_take.
    rewrite drop_app_ge by lia. rewrite drop_drop. f_equal. f_equal. lia.
Qed.

Lemma copy_from_slice_run fb from to src :
  0 ≤ from → to - from = Z.of_nat (length src) → to ≤ Z.of_nat (length fb) →
  ∃ fb', copy_from_slice fb from to src = Ret fb' ∧
    fb' = take (Z.to_nat from) fb ++ src ++ drop (Z.to_nat from + length src) fb ∧
    length fb' = length fb.
Proof.
  intros Hfrom Hsrc Hto. eexists. split; [|split; [reflexivity|]].
  - unfold copy_from_slice. rewrite (proj2 (Z.leb_le from to)) by lia.
    rewrite (proj2 (Z.leb_le to _)) by lia. rewrite (proj2 (Z.eqb_eq _ _)) by lia. simpl.
    do 4 f_equal. lia.
  - rewrite !length_app, length_drop, length_take. lia.
Qed.

Lemma pixel_index_inj s x y x' y' :
  0 ≤ x < s → 0 ≤ x' < s → y * s + x = y' * s + x' → x = x' ∧ y = y'.
Proof. intros Hx Hx' Heq. assert (y = y') as -> by nia. lia. Qed.

Lemma pixel_offsets_apart b p q :
  1 ≤ b → p ≠ q → p * b + b ≤ q * b ∨ q * b + b ≤ p * b.
Proof. intros Hb Hpq. destruct (decide (p < q)); [left|right]; nia. Qed.

Lemma write_pixel_run w x y c :
  geometry (info w) (framebuffer w) → 0 ≤ x < fb_width (info w) → 0 ≤ y < fb_height (info w) →
  ∃ fb', write_pixel w x y c = Ret (with_framebuffer w fb') ∧
    drawn (info w) (framebuffer w) fb'
      (λ x' y', if (x' =? x) && (y' =? y) then Some (shade w c) else None).
Proof.
  intros [Hf Hb Hw Hh Hl Hm] Hx Hy. unfold write_pixel, shade.
  destruct (get_color_run w c Hf) as [col Hcol].
  destruct (get_color w c) as [col'| |] eqn:Hget; simplify_eq/=.
  pose proof (get_color_length _ _ _ Hget) as Hc4.
  set (b := bytes_per_pixel (info w)) in *. set (s := stride (info w)) in *.
  assert (0 ≤ y * s) by nia. assert (y * s + x < fb_height (info w) * s) by nia.
  assert (0 ≤ (y * s + x) * b) by nia.
  assert ((y * s + x) * b + b ≤ fb_height (info w) * s * b) by nia.
  assert (y * s + x ≤ (y * s + x) * b) by nia.
  change (2 ^ 63) with 9223372036854775808 in Hm.
  rewrite (mul_u_in usize y s) by (unfold_u; lia). simpl.
  run_u. simpl.
  run_u. simpl. run_u. simpl.
  rewrite Hc4, (proj2 (Z.leb_le b (Z.of_nat 4))) by lia. simpl.
  set (o := Z.to_nat ((y * s + x) * b)).
  assert (length (take (Z.to_nat b) col) = Z.to_nat b) as Htake by (rewrite length_take; lia).
  destruct (copy_from_slice_run (framebuffer w) ((y * s + x) * b) ((y * s + x) * b + b)
    (take (Z.to_nat b) col)) as (fb' & Hcopy & Hfb & Hlen); [lia..|].
  rewrite Hcopy. simpl. fold o in Hfb |- *.
  destruct (lookup_lt_is_Some_2 fb' o) as [v Hv]; [lia|]. rewrite Hv. simpl.
  exists fb'. split; [done|]. split; [done|]. intros x' y' Hx' Hy'. unfold pixel.
  fold b s. destruct (Z.eqb_spec x' x) as [->|Hne]; [destruct (Z.eqb_spec y' y) as [->|Hne]|]; simpl.
  - fold o. rewrite Hfb, <-Htake at 1. by apply slice_same; lia.
  - rewrite Hfb. apply slice_other; [lia|]. rewrite Htake.
    destruct (pixel_offsets_apart b (y * s + x) (y' * s + x)); [lia|nia|nia|nia].
  - rewrite Hfb. apply slice_other; [lia|]. rewrite Htake.
    destruct (pixel_offsets_apart b (y * s + x) (y' * s + x')); [lia| |nia|nia].
    intros Heq. apply (pixel_index_inj s x y x' y') in Heq as [? ?]; [congruence|lia..].
Qed.

(** ** Glyphs *)

Lemma drawn_trans i fb1 fb2 fb3 p q r :
  drawn i fb1 fb2 p → drawn i fb2 fb3 q →
  (∀ x y, r x y = match q x y with Some v => Some v | None => p x y end) →
  drawn i fb1 fb3 r.
Proof.
  intros [Hl1 H1] [Hl2 H2] Hr. split; [congruence|]. intros x y Hx Hy.
  rewrite H2, Hr by done. destruct (q x y); [done|]. by apply H1.
Qed.

Lemma drawn_refl i fb p : (∀ x y, p x y = None) → drawn i fb fb p.
Proof. intros Hp. split; [done|]. intros x y _ _. by rewrite Hp. Qed.

Lemma geometry_length i fb fb' : length fb' = length fb → geometry i fb → geometry i fb'.
Proof. intros Hl [? ? ? ? ? ?]. split; rewrite ?Hl; done. Qed.

Lemma write_row_run row : ∀ w y x,
  geometry (info w) (framebuffer w) → 0 ≤ x → 0 ≤ x_pos w →
  x_pos w + x + Z.of_nat (length row) ≤ fb_width (info w) → 0 ≤ y → 0 ≤ y_pos w →
  y_pos w + y < fb_height (info w) → fb_height (info w) < 2 ^ 63 → fb_width (info w) < 2 ^ 63 →
  ∃ fb', write_row w y x row = Ret (with_framebuffer w fb') ∧
    drawn (info w) (framebuffer w) fb' (row_paint w row (x_pos w + x) (y_pos w + y)).
Proof.
  induction row as [|c row IH]; intros w y x Hg Hx Hxp Hw Hy Hyp Hh Hhm Hwm; simpl in *.
  { exists (framebuffer w). split; [by destruct w|]. apply drawn_refl. intros x' y'.
    unfold row_paint. rewrite lookup_z_nil. by destruct (_ =? _). }
  unfold_u. run_u. simpl.
  destruct (write_pixel_run w (x_pos w + x) (y_pos w + y) c Hg) as (fb1 & Hrun1 & Hd1); [lia..|].
  rewrite Hrun1. simpl.
  destruct (IH (with_framebuffer w fb1) y (x + 1)) as (fb2 & Hrun2 & Hd2); simpl; try lia.
  { eapply geometry_length; [apply Hd1|done]. }
  exists fb2. split; [done|]. eapply drawn_trans; [exact Hd1|exact Hd2|]. simpl.
  intros x' y'. unfold row_paint. rewrite lookup_z_cons.
  destruct (Z.eqb_spec y' (y_pos w + y)); [|by rewrite andb_false_r].
  rewrite andb_true_r. replace (x' - (x_pos w + (x + 1))) with (x' - (x_pos w + x) - 1) by lia.
  destruct (Z.eqb_spec x' (x_pos w + x)) as [->|Hne].
  - rewrite (lookup_z_neg row) by lia. by rewrite Z.sub_diag.
  - destruct (Z.eqb_spec (x' - (x_pos w + x)) 0); [lia|].
    change (shade (with_framebuffer w fb1)) with (shade w). by destruct (shade w <$> _).
Qed.

Lemma write_rows_run rows : ∀ w y n,
  geometry (info w) (framebuffer w) → 0 ≤ x_pos w →
  x_pos w + n ≤ fb_width (info w) → 0 ≤ y → 0 ≤ y_pos w →
  y_pos w + y + Z.of_nat (length rows) ≤ fb_height (info w) →
  fb_height (info w) < 2 ^ 63 → fb_width (info w) < 2 ^ 63 →
  (∀ row, row ∈ rows → Z.of_nat (length row) = n) →
  ∃ fb', write_rows w y rows = Ret (with_framebuffer w fb') ∧
    drawn (info w) (framebuffer w) fb' (glyph_paint w rows (x_pos w) (y_pos w + y)).
Proof.
  induction rows as [|row rows IH]; intros w y n Hg Hxp Hw Hy Hyp Hh Hhm Hwm Hn; simpl in *.
  { exists (framebuffer w). split; [by destruct w|]. apply drawn_refl. intros x' y'.
    unfold glyph_paint. by rewrite lookup_z_nil. }
  assert (Z.of_nat (length row) = n) as Hrow by (apply Hn; left).
  destruct (write_row_run row w y 0 Hg) as (fb1 & Hrun1 & Hd1); [lia..|]. rewrite Hrun1. simpl.
  destruct (IH (with_framebuffer w fb1) (y + 1) n) as (fb2 & Hrun2 & Hd2); simpl; try lia.
  { eapply geometry_length; [apply Hd1|done]. }
  { intros r Hr. apply Hn. by right. }
  exists fb2. split; [done|]. eapply drawn_trans; [exact Hd1|exact Hd2|]. simpl.
  intros x' y'. unfold glyph_paint, row_paint. rewrite lookup_z_cons.
  replace (y' - (y_pos w + (y + 1))) with (y' - (y_pos w + y) - 1) by lia.
  destruct (Z.eqb_spec y' (y_pos w + y)) as [->|Hne].
  - rewrite (lookup_z_neg rows) by lia. rewrite Z.sub_diag. simpl. by rewrite Z.add_0_r.
  - destruct (Z.eqb_spec (y' - (y_pos w + y)) 0); [lia|].
    change (shade (with_framebuffer w fb1)) with (shade w).
    by destruct (lookup_z rows _ ≫= _).
Qed.

Section Writer.
Context `{!Font}.

(** What [set_fb] establishes and every operation keeps: a framebuffer of a
    supported format, big enough for one glyph, the cursor on it. *)
Record writer_ok (w : Writer) : Prop := {
  wo_geometry : geometry (info w) (framebuffer w);
  wo_width : CHAR_RASTER_WIDTH + 1 ≤ fb_width (info w);
  wo_height : CHAR_RASTER_HEIGHT + 1 ≤ fb_height (info w);
  wo_x : 0 ≤ x_pos w ≤ fb_width (info w);
  wo_y : 0 ≤ y_pos w;
  wo_state : ∀ c, state w ≠ StateColor c;
}.

(** Where [write_char] puts the next glyph, and whether it clears the screen
    first. *)
Definition line_height : Z := CHAR_RASTER_HEIGHT + LINE_SPACING.
Definition wraps (w : Writer) : bool := fb_width (info w) <=? x_pos w + CHAR_RASTER_WIDTH.
Definition next_y (w : Writer) : Z := if wraps w then y_pos w + line_height else y_pos w.
Definition scrolls (w : Writer) : bool :=
  fb_height (info w) <=? next_y w + CHAR_RASTER_HEIGHT + BORDER_PADDING.
Definition glyph_x (w : Writer) : Z := if wraps w || scrolls w then BORDER_PADDING else x_pos w.
Definition glyph_y (w : Writer) : Z := if scrolls w then BORDER_PADDING else next_y w.
Definition glyph_background (w : Writer) : list Z :=
  if scrolls w then replicate (length (framebuffer w)) 0 else framebuffer w.

Context {laws : FontLaws}.

Lemma geometry_bounds i fb : geometry i fb → fb_height i < 2 ^ 63 ∧ fb_width i < 2 ^ 63.
Proof.
  intros [_ Hb Hw Hh Hl Hm].
  assert (0 < fb_height i * stride i) by (apply Z.mul_pos_pos; lia).
  assert (fb_height i * stride i ≤ fb_height i * stride i * bytes_per_pixel i)
    by (apply Z.le_mul_diag_r; lia).
  assert (fb_height i ≤ fb_height i * stride i) by (apply Z.le_mul_diag_r; lia).
  assert (stride i ≤ fb_height i * stride i) by (rewrite Z.mul_comm; apply Z.le_mul_diag_r; lia). lia.
Qed.

Lemma get_char_raster_run c :
  ∃ r, get_char_raster c = Ret r ∧ (get_raster c = Some r ∨
    get_raster c = None ∧ get_raster BACKUP_CHAR = Some r).
Proof using laws.
  unfold get_char_raster. destruct (get_raster c) as [r|] eqn:Hr; [by eauto|].
  destruct font_backup as [r Hb]. rewrite Hb. eauto.
Qed.

Lemma write_rendered_char_run w c r :
  geometry (info w) (framebuffer w) → 0 ≤ x_pos w → 0 ≤ y_pos w →
  x_pos w + CHAR_RASTER_WIDTH ≤ fb_width (info w) →
  y_pos w + CHAR_RASTER_HEIGHT ≤ fb_height (info w) → get_char_raster c = Ret r →
  ∃ fb', write_rendered_char w r = Ret (mk_writer fb' (info w) CHAR_RASTER_WIDTH
      (x_pos w + CHAR_RASTER_WIDTH) (y_pos w) (color w) (state w)) ∧
    drawn (info w) (framebuffer w) fb' (glyph_paint w (raster r) (x_pos w) (y_pos w)).
Proof using laws.
  intros Hg Hx Hy Hw Hh Hr. destruct (geometry_bounds _ _ Hg) as [Hhm Hwm].
  assert (∃ c', get_raster c' = Some r) as [c' Hc'].
  { destruct (get_char_raster_run c) as (r' & Hr' & [?|[_ ?]]); rewrite Hr in Hr'; simplify_eq; eauto. }
  destruct (font_raster _ _ Hc') as (Hrw & Hlen & Hrows).
  pose proof font_width as Hfw.
  destruct (write_rows_run (raster r) w 0 CHAR_RASTER_WIDTH) as (fb' & Hrun & Hd); try done; try lia.
  { intros row Hrow. by apply Hrows. }
  rewrite Z.add_0_r in Hd. exists fb'. split; [|done].
  unfold write_rendered_char. rewrite Hrun, Hrw. simpl. unfold LETTER_SPACING. unfold_u.
  run_u. simpl. run_u. simpl.
  by rewrite Z.add_0_r.
Qed.

Lemma newline_run w :
  0 ≤ y_pos w → y_pos w + line_height < 2 ^ 64 →
  newline w = Ret (with_cursor w BORDER_PADDING (y_pos w + line_height)).
Proof using laws.
  unfold newline, line_height, LINE_SPACING. intros Hy Hb.
  pose proof font_height. unfold_u. run_u. simpl.
  run_u. done.
Qed.

Lemma geometry_clear w :
  geometry (info w) (framebuffer w) → geometry (info w) (glyph_background w).
Proof.
  apply geometry_length. unfold glyph_background. case_match; [by rewrite length_replicate|done].
Qed.

Lemma glyph_position_ok w : writer_ok w →
  0 ≤ glyph_x w ∧ 0 ≤ glyph_y w ∧ glyph_x w + CHAR_RASTER_WIDTH ≤ fb_width (info w) ∧
  glyph_y w + CHAR_RASTER_HEIGHT ≤ fb_height (info w).
Proof using laws.
  intros [Hg Hw Hh Hx Hy Hs]. pose proof font_height. pose proof font_width.
  unfold glyph_x, glyph_y, BORDER_PADDING, scrolls. destruct (wraps w) eqn:Hwr; simpl.
  - destruct (Z.leb_spec (fb_height (info w)) (next_y w + CHAR_RASTER_HEIGHT + BORDER_PADDING));
      unfold next_y, line_height, LINE_SPACING, BORDER_PADDING in *; rewrite ?Hwr in *; lia.
  - unfold wraps in Hwr. apply Z.leb_gt in Hwr.
    destruct (Z.leb_spec (fb_height (info w)) (next_y w + CHAR_RASTER_HEIGHT + BORDER_PADDING));
      unfold next_y, wraps, BORDER_PADDING in *;
      rewrite ?(proj2 (Z.leb_gt (fb_width (info w)) _)) in * by lia; lia.
Qed.

(** The writer with the cursor where the next glyph goes. *)
Definition glyph_start (w : Writer) : Writer :=
  with_framebuffer (with_cursor w (glyph_x w) (glyph_y w)) (glyph_background w).

(** What [write_glyph] does before it draws. *)
Definition make_room (w : Writer) : outcome Writer :=
  new_xpos ← add_u usize (x_pos w) CHAR_RASTER_WIDTH;
  w ← (if new_xpos >=? fb_width (info w) then newline w else mret w);
  h ← add_u usize (y_pos w) CHAR_RASTER_HEIGHT;
  new_ypos ← add_u usize h BORDER_PADDING;
  mret (if new_ypos >=? fb_height (info w) then clear w else w).

Lemma write_glyph_make_room w c :
  write_glyph w c = (w ← make_room w; r ← get_char_raster c; write_rendered_char w r).
Proof.
  unfold write_glyph, make_room. destruct (add_u usize (x_pos w) _) as [nx|m|m]; [|done..]. simpl.
  destruct (if nx >=? _ then _ else _) as [w1|m|m]; [|done..]. simpl.
  destruct (add_u usize (y_pos w1) _) as [h|m|m]; [|done..]. simpl.
  by destruct (add_u usize h _).
Qed.

Lemma glyph_start_run w :
  writer_ok w → y_pos w + 2 * line_height < 2 ^ 64 →
  make_room w = Ret (glyph_start w).
Proof using laws.
  intros [Hg Hw Hh Hx Hy Hs] Hb. destruct (geometry_bounds _ _ Hg) as [Hhm Hwm]. unfold make_room.
  pose proof font_height. pose proof font_width.
  assert (line_height = CHAR_RASTER_HEIGHT + 2) as Hlh by done. unfold_u.
  run_u. simpl. rewrite Z.geb_leb. fold (wraps w).
  assert ((if wraps w then newline w else mret w) =
    Ret (with_cursor w (if wraps w then BORDER_PADDING else x_pos w) (next_y w))) as ->.
  { unfold next_y. destruct (wraps w); [apply newline_run; unfold_u; lia|by destruct w]. }
  simpl. assert (0 ≤ next_y w ≤ y_pos w + line_height) by (unfold next_y; case_match; lia).
  run_u. simpl. unfold BORDER_PADDING at 2 3.
  run_u. simpl. rewrite Z.geb_leb.
  change (next_y w + CHAR_RASTER_HEIGHT + 1) with (next_y w + CHAR_RASTER_HEIGHT + BORDER_PADDING).
  fold (scrolls w). unfold glyph_start, glyph_x, glyph_y, glyph_background.
  destruct (wraps w), (scrolls w); done.
Qed.

Lemma make_room_ret w w' : make_room w = Ret w' → w' = glyph_start w.
Proof.
  unfold make_room. intros Hrun. apply bind_Ret in Hrun as (nx & Hnx & Hrun). inv_arith. subst nx.
  apply bind_Ret in Hrun as (w1 & Hw1 & Hrun). rewrite Z.geb_leb in Hw1. fold (wraps w) in Hw1.
  assert (w1 = with_cursor w (if wraps w then BORDER_PADDING else x_pos w) (next_y w)) as ->.
  { unfold next_y, line_height. destruct (wraps w); [|destruct w; by injection Hw1 as <-].
    unfold newline in Hw1. apply bind_Ret in Hw1 as (d & Hd & Hw1). apply bind_Ret in Hw1 as (y & Hy & Hw1).
    inv_arith. subst. by injection Hw1 as <-. }
  apply bind_Ret in Hrun as (h & Hh & Hrun). apply bind_Ret in Hrun as (ny & Hny & Hrun). inv_arith. subst h ny.
  injection Hrun as <-. rewrite Z.geb_leb. simpl. fold (scrolls w).
  unfold glyph_start, glyph_x, glyph_y, glyph_background. destruct (wraps w), (scrolls w); done.
Qed.

Lemma write_glyph_from w c : writer_ok w →
  ∃ r fb', get_char_raster c = Ret r ∧
    write_rendered_char (glyph_start w) r = Ret (mk_writer fb' (info w) CHAR_RASTER_WIDTH
      (glyph_x w + CHAR_RASTER_WIDTH) (glyph_y w) (color w) (state w)) ∧
    drawn (info w) (glyph_background w) fb' (glyph_paint w (raster r) (glyph_x w) (glyph_y w)).
Proof using laws.
  intros Hok. pose proof (glyph_position_ok w Hok) as (Hgx & Hgy & Hgw & Hgh).
  destruct (get_char_raster_run c) as (r & Hr & _).
  destruct (write_rendered_char_run (glyph_start w) c r) as (fb' & Hrun & Hd); try done.
  { exact (geometry_clear w (wo_geometry _ Hok)). }
  by exists r, fb'.
Qed.

Lemma write_glyph_run w c :
  writer_ok w → y_pos w + 2 * line_height < 2 ^ 64 →
  ∃ r fb', get_char_raster c = Ret r ∧
    write_glyph w c = Ret (mk_writer fb' (info w) CHAR_RASTER_WIDTH
      (glyph_x w + CHAR_RASTER_WIDTH) (glyph_y w) (color w) (state w)) ∧
    drawn (info w) (glyph_background w) fb' (glyph_paint w (raster r) (glyph_x w) (glyph_y w)).
Proof using laws.
  intros Hok Hb. destruct (write_glyph_from w c Hok) as (r & fb' & Hr & Hrun & Hd). exists r, fb'.
  by rewrite write_glyph_make_room, glyph_start_run, Hr by done.
Qed.

(** The same without a bound on the line, for a glyph that was written. *)
Lemma write_glyph_ret w c w' : writer_ok w → write_glyph w c = Ret w' →
  ∃ r fb', get_char_raster c = Ret r ∧
    w' = mk_writer fb' (info w) CHAR_RASTER_WIDTH
      (glyph_x w + CHAR_RASTER_WIDTH) (glyph_y w) (color w) (state w) ∧
    drawn (info w) (glyph_background w) fb' (glyph_paint w (raster r) (glyph_x w) (glyph_y w)).
Proof using laws.
  intros Hok Hrun. destruct (write_glyph_from w c Hok) as (r & fb' & Hr & Hrun' & Hd). exists r, fb'.
  rewrite write_glyph_make_room in Hrun. apply bind_Ret in Hrun as (w1 & ->%make_room_ret & Hrun).
  rewrite Hr in Hrun. cbn [mbind outcome_bind] in Hrun. rewrite Hrun' in Hrun. by injection Hrun as <-.
Qed.

Lemma feed_state st c b st' :
  feed st c = (b, st') → b = true → (∀ k, st ≠ StateColor k) → st' = Normal.
Proof.
  intros Hf -> Hst. destruct st; simpl in Hf; repeat case_match; simplify_eq; try done.
  by edestruct Hst.
Qed.

Lemma newline_ret w w' : newline w = Ret w' →
  w' = with_cursor w BORDER_PADDING (y_pos w + line_height).
Proof.
  unfold newline. intros Hrun. apply bind_Ret in Hrun as (d & Hd & Hrun).
  apply bind_Ret in Hrun as (y & Hy & Hrun). inv_arith. subst. by injection Hrun as <-.
Qed.

Lemma writer_ok_cursor w x y : writer_ok w → 0 ≤ x ≤ fb_width (info w) → 0 ≤ y →
  writer_ok (with_cursor w x y).
Proof. intros []. by split. Qed.

Lemma write_char_ret w c w' : writer_ok w → write_char w c = Ret w' →
  writer_ok w' ∧ info w' = info w ∧ y_pos w' ≤ y_pos w + line_height.
Proof using laws.
  intros Hok. pose proof font_height. pose proof font_width.
  assert (line_height = CHAR_RASTER_HEIGHT + 2) as Hlh by done.
  unfold write_char. destruct (feed (state w) c) as [b st] eqn:Hf. destruct b; simpl.
  - pose proof (feed_state _ _ _ _ Hf eq_refl (wo_state _ Hok)) as ->.
    assert (writer_ok (with_state w Normal)) as Hok' by (destruct Hok; by split).
    pose proof (wo_y _ Hok). pose proof (wo_width _ Hok).
    destruct (c =? ch "010"); [|destruct (c =? ch "013")]; intros Hrun.
    + apply newline_ret in Hrun as ->. split; [|done].
      apply writer_ok_cursor; [done|..]; unfold BORDER_PADDING; simpl; lia.
    + injection Hrun as <-. split; [|split; [done|simpl; lia]].
      apply writer_ok_cursor; [done|..]; unfold BORDER_PADDING; simpl; lia.
    + apply write_glyph_ret in Hrun as (r & fb' & Hr & -> & Hd); [|done].
      pose proof (glyph_position_ok _ Hok') as (Hgx & Hgy & Hgw & Hgh). split; [|split; [done|]].
      * destruct Hok. split; simpl in *; try done; [|lia].
        eapply geometry_length; [apply Hd|]. by apply (geometry_clear (with_state w Normal)).
      * simpl. unfold glyph_y, next_y, BORDER_PADDING. destruct Hok. simpl in *. repeat case_match; lia.
  - destruct st as [| | | | |k]; intros [= <-]; (split; [|split; [done|simpl; lia]]); destruct Hok; by split.
Qed.

Lemma write_char_run w c :
  writer_ok w → y_pos w + 2 * line_height < 2 ^ 64 →
  ∃ w', write_char w c = Ret w' ∧ writer_ok w' ∧ info w' = info w ∧
    y_pos w' ≤ y_pos w + line_height.
Proof using laws.
  intros Hok Hb. cut (∃ w', write_char w c = Ret w').
  { intros [w' Hrun]. exists w'. split; [done|]. by eapply write_char_ret. }
  pose proof font_height. assert (line_height = CHAR_RASTER_HEIGHT + 2) as Hlh by done.
  unfold write_char. destruct (feed (state w) c) as [b st] eqn:Hf. destruct b; simpl.
  - pose proof (feed_state _ _ _ _ Hf eq_refl (wo_state _ Hok)) as ->.
    destruct (c =? ch "010"); [|destruct (c =? ch "013"); [by eexists|]].
    + rewrite newline_run by (simpl; destruct Hok; lia). by eexists.
    + destruct (write_glyph_run (with_state w Normal) c) as (r & fb' & _ & -> & _); [|done|by eexists].
      destruct Hok. by split.
  - destruct st; by eexists.
Qed.

Lemma write_string_run_y s : ∀ w,
  writer_ok w → y_pos w + (Z.of_nat (length s) + 1) * line_height < 2 ^ 64 →
  ∃ w', write_string w s = Ret w' ∧ writer_ok w' ∧ info w' = info w ∧
    y_pos w' ≤ y_pos w + Z.of_nat (length s) * line_height.
Proof using laws.
  pose proof font_height.
  assert (line_height = CHAR_RASTER_HEIGHT + 2) as Hlh by done.
  induction s as [|c s IH]; intros w Hok Hb; simpl length in *.
  { exists w. simpl. split_and!; (done || lia). }
  destruct (write_char_run w c Hok) as (w1 & Hrun & Hok1 & Hi & Hy); [nia|].
  simpl. rewrite Hrun. simpl. rewrite <-Hi.
  destruct (IH w1) as (w2 & Hrun2 & Hok2 & Hi2 & Hy2); [done|nia|].
  exists w2. split_and!; [done..|nia].
Qed.

Lemma write_string_run s w :
  writer_ok w → y_pos w + (Z.of_nat (length s) + 1) * line_height < 2 ^ 64 →
  ∃ w', write_string w s = Ret w' ∧ writer_ok w' ∧ info w' = info w.
Proof using laws.
  intros Hok Hb. destruct (write_string_run_y s w Hok Hb) as (w' & ? & ? & ? & _). by exists w'.
Qed.
End Writer.

(** ** Properties *)

(** A character that [write_char] draws when no escape sequence is open. *)
Definition printable (c : Z) : bool :=
  negb ((c =? ESC) || (c =? ch "010") || (c =? ch "013")).

Lemma write_char_printable `{!Font} w c :
  state w = Normal → printable c = true → write_char w c = write_glyph w c.
Proof.
  unfold printable, write_char. intros Hst Hp. rewrite Hst. simpl.
  destruct (c =? ESC), (c =? ch "010"), (c =? ch "013"); simplify_eq/=.
  f_equal. destruct w; simpl in *. by subst.
Qed.

(** A printable character is drawn as the font's glyph (or the replacement
    glyph) in the current colour: at the cursor, at the start of the next line when
    the line is full, or at the top of a cleared screen when the screen is full.
    Every other pixel keeps its bytes and the cursor moves one glyph to the right. *)
Theorem write_char_draws_glyph `{!Font} (w : Writer) (c : Z) (Hlaws : FontLaws)
    (Hok : writer_ok w) (Hst : state w = Normal) (Hc : printable c = true)
    (Hy : y_pos w + 2 * line_height < 2 ^ 64) :
  ∃ r fb', get_char_raster c = Ret r ∧
    write_char w c = Ret (mk_writer fb' (info w) CHAR_RASTER_WIDTH
      (glyph_x w + CHAR_RASTER_WIDTH) (glyph_y w) (color w) Normal) ∧
    drawn (info w) (glyph_background w) fb' (glyph_paint w (raster r) (glyph_x w) (glyph_y w)).
Proof. rewrite write_char_printable, <-Hst by done. by apply write_glyph_run. Qed.

(** On a framebuffer of a supported format with room for one glyph, writing any
    string, escape sequences included, never panics: no byte outside the
    framebuffer is touched and the writer stays well-formed. *)
Theorem write_string_never_panics `{!Font} (w : Writer) (s : list Z) (Hlaws : FontLaws)
    (Hok : writer_ok w) (Hy : y_pos w + (Z.of_nat (length s) + 1) * line_height < 2 ^ 64) :
  ∃ w', write_string w s = Ret w' ∧ writer_ok w' ∧ info w' = info w.
Proof. by apply write_string_run. Qed.

(** The ANSI foreground colours. *)
Definition ansi_color (first second : Z) : option Color :=
  if first =? ch "3" then
    lookup_z [Black; Red; Green; Yellow; Blue; Magenta; Cyan; White] (second - ch "0")
  else None.

Lemma feed_code first second : first ≠ ch "0" →
  feed (Finishing first second) (ch "m") =
    (false, match ansi_color first second with Some c => StateColor c | None => Normal end).
Proof.
  intros Hfirst. unfold ansi_color. cbn -[ch lookup_z].
  rewrite (proj2 (Z.eqb_neq first (ch "0"))) by done.
  rewrite Z.eqb_refl. destruct (first =? ch "3"); [|done]. cbn -[ch lookup_z].
  repeat match goal with |- (if second =? ?d then _ else _) = _ =>
    destruct (Z.eqb_spec second d); [by subst|] end.
  assert (lookup_z [Black; Red; Green; Yellow; Blue; Magenta; Cyan; White] (second - ch "0") = None) as ->;
    [|done].
  unfold lookup_z. destruct (Z.ltb_spec (second - ch "0") 0); [done|].
  apply lookup_ge_None. norm_ch. simpl length. lia.
Qed.

(** The escape sequence with the two characters of an ANSI foreground colour
    selects that colour, any other two-character code changes nothing, and the code 0
    selects white; none of them draws anything or moves the cursor. *)
Theorem escape_sets_color `{!Font} (w : Writer) (first second : Z)
    (Hst : state w = Normal) (Hfirst : first ≠ ch "0") :
  write_string w [ESC; ch "["; first; second; ch "m"] =
    Ret (match ansi_color first second with Some c => with_color w c | None => w end) ∧
  write_string w [ESC; ch "["; ch "0"; ch "m"] = Ret (with_color w White).
Proof.
  destruct w as [fb i lw x y c st]. simpl in Hst. subst st. split; [|done].
  pose proof (feed_code first second Hfirst) as Hcode.
  assert (feed FirstCode first = (false, SecondCode first)) as Hsecond
    by (simpl; by rewrite (proj2 (Z.eqb_neq first _))).
  unfold write_string, write_char, with_state. cbn [state mbind outcome_bind].
  change (feed Normal ESC) with (false, Escape). cbn -[feed ch ansi_color].
  change (feed Escape (ch "[")) with (false, FirstCode). cbn -[feed ch ansi_color].
  rewrite Hsecond. cbn -[feed ch ansi_color].
  change (feed (SecondCode first) second) with (false, Finishing first second).
  cbn -[feed ch ansi_color]. rewrite Hcode. by destruct (ansi_color first second).
Qed.

Lemma shade_zero w : pixel_format (info w) ≠ Unknown → bytes_per_pixel (info w) ≤ 4 →
  shade w 0 = replicate (Z.to_nat (bytes_per_pixel (info w))) 0.
Proof.
  intros Hf Hb. unfold shade.
  assert (get_color w 0 = Ret (replicate 4 0)) as ->.
  { unfold get_color. destruct (pixel_format (info w)), (color w); done. }
  rewrite take_replicate. f_equal. lia.
Qed.

(** The cell of one glyph. *)
Definition in_cell `{!Font} (x0 y0 x y : Z) : bool :=
  (x0 <=? x) && (x <? x0 + CHAR_RASTER_WIDTH) && (y0 <=? y) && (y <? y0 + CHAR_RASTER_HEIGHT).

Lemma glyph_paint_cell `{!Font} {laws : FontLaws} w c r x0 y0 x y :
  get_char_raster c = Ret r →
  is_Some (glyph_paint w (raster r) x0 y0 x y) ↔ in_cell x0 y0 x y = true.
Proof.
  intros Hr. destruct (get_char_raster_run c) as (r' & Hr' & Hget).
  rewrite Hr in Hr'. injection Hr' as <-.
  assert (∃ c', get_raster c' = Some r) as [c' Hc'] by (destruct Hget as [?|[_ ?]]; eauto).
  destruct (font_raster _ _ Hc') as (_ & Hlen & Hrows).
  unfold glyph_paint, lookup_z, in_cell. rewrite !andb_true_iff, !Z.leb_le, !Z.ltb_lt.
  destruct (Z.ltb_spec (y - y0) 0); simpl.
  { split; [by intros []|lia]. }
  destruct (raster r !! Z.to_nat (y - y0)) as [row|] eqn:Hrow; simpl.
  - pose proof (lookup_lt_Some _ _ _ Hrow). apply list_elem_of_lookup_2, Hrows in Hrow as [Hrow _].
    rewrite fmap_is_Some. destruct (Z.ltb_spec (x - x0) 0); [split; [by intros []|lia]|].
    rewrite lookup_lt_is_Some. lia.
  - apply lookup_ge_None in Hrow. split; [by intros []|lia].
Qed.

Lemma glyph_paint_blank `{!Font} w rows x0 y0 x y v :
  (∀ row i, row ∈ rows → i ∈ row → i = 0) →
  glyph_paint w rows x0 y0 x y = Some v → v = shade w 0.
Proof.
  unfold glyph_paint, lookup_z. intros Hz Hp.
  apply bind_Some in Hp as (row & Hrow & Hp). apply fmap_Some in Hp as (i & Hi & ->).
  destruct (_ <? 0); [done|]. destruct (_ <? 0); [done|].
  f_equal. eapply Hz; by eapply list_elem_of_lookup_2.
Qed.

(** A glyph written again where the last one was stays there. *)
Lemma glyph_start_again `{!Font} {laws : FontLaws} w w1 :
  writer_ok w → info w1 = info w → x_pos w1 = glyph_x w → y_pos w1 = glyph_y w →
  CHAR_RASTER_WIDTH + 1 < fb_width (info w) → CHAR_RASTER_HEIGHT + 2 < fb_height (info w) →
  wraps w1 = false ∧ scrolls w1 = false.
Proof.
  intros Hok Hi Hx Hy Hw Hh.
  assert (wraps w1 = false) as Hwr.
  { unfold wraps. rewrite Hi, Hx. apply Z.leb_gt. unfold glyph_x, BORDER_PADDING.
    destruct (wraps w) eqn:E; simpl; [lia|]. unfold wraps in E. apply Z.leb_gt in E.
    case_match; lia. }
  split; [done|]. unfold scrolls, next_y. rewrite Hwr, Hi, Hy. apply Z.leb_gt.
  unfold glyph_y. destruct (scrolls w) eqn:E; unfold BORDER_PADDING; [lia|].
  unfold scrolls, BORDER_PADDING in E. apply Z.leb_gt in E. lia.
Qed.

(** Typing a character and then a backspace erases it: the cursor is back where
    the glyph was, the glyph's cell is black again and every other pixel is as the
    character left it. *)
Theorem backspace_erases `{!Font} (w w1 : Writer) (c : Z) (rs : RasterizedChar) (Hlaws : FontLaws)
    (Hok : writer_ok w) (Hst : state w = Normal) (Hc : printable c = true)
    (Hy : y_pos w + 3 * line_height < 2 ^ 64)
    (Hroom : CHAR_RASTER_WIDTH + 1 < fb_width (info w) ∧ CHAR_RASTER_HEIGHT + 2 < fb_height (info w))
    (Hspace : get_raster (ch " ") = Some rs) (Hblank : ∀ row i, row ∈ raster rs → i ∈ row → i = 0)
    (Hwrite : write_char w c = Ret w1) :
  ∃ w2, backspace w1 = Ret w2 ∧ x_pos w2 = glyph_x w ∧ y_pos w2 = glyph_y w ∧
    drawn (info w) (glyph_background w) (framebuffer w2) (λ x y,
      if in_cell (glyph_x w) (glyph_y w) x y
      then Some (replicate (Z.to_nat (bytes_per_pixel (info w))) 0) else None).
Proof.
  pose proof font_height. pose proof font_width. destruct (geometry_bounds _ _ (wo_geometry _ Hok)).
  assert (line_height = CHAR_RASTER_HEIGHT + 2) as Hlh by done. unfold_u.
  destruct (write_glyph_run w c Hok) as (r & fb1 & Hr & Hrun & Hd1); [unfold_u; lia|].
  rewrite write_char_printable, Hrun in Hwrite by done. injection Hwrite as <-.
  pose proof (glyph_position_ok w Hok) as (Hgx & Hgy & Hgw & Hgh).
  unfold backspace. simpl. run_u. simpl.
  rewrite Z.add_simpl_r. set (w1 := with_cursor _ _ _).
  assert (writer_ok w1) as Hok1.
  { destruct Hok. split; simpl; try done; [|lia].
    eapply geometry_length; [apply Hd1|]. by apply geometry_clear. }
  rewrite write_char_printable by done.
  destruct (write_glyph_run w1 (ch " ") Hok1) as (r' & fb2 & Hr' & Hrun2 & Hd2).
  { simpl. unfold_u. unfold glyph_y, next_y, BORDER_PADDING. repeat case_match; lia. }
  assert (wraps w1 = false ∧ scrolls w1 = false) as [Hwr Hsc] by (apply (glyph_start_again w); (done || apply Hroom)).
  assert (glyph_x w1 = glyph_x w) as Hx1 by (unfold glyph_x at 1; by rewrite Hwr, Hsc).
  assert (glyph_y w1 = glyph_y w) as Hy1 by (unfold glyph_y at 1, next_y; by rewrite Hwr, Hsc).
  rewrite Hrun2, Hx1, Hy1. simpl. run_u. simpl.
  eexists. split; [done|]. simpl. split; [lia|]. split; [done|].
  unfold glyph_background in Hd2. rewrite Hsc, Hx1, Hy1 in Hd2. simpl in Hd2.
  assert (r' = rs) as -> by (unfold get_char_raster in Hr'; rewrite Hspace in Hr'; by injection Hr').
  eapply drawn_trans; [exact Hd1|exact Hd2|]. intros x y.
  rewrite <-(shade_zero w) by (destruct Hok as [[] _ _ _ _ _]; (done || lia)).
  pose proof (glyph_paint_cell w c r (glyph_x w) (glyph_y w) x y Hr) as Hcell.
  pose proof (glyph_paint_cell w1 _ rs (glyph_x w) (glyph_y w) x y Hr') as Hcell'.
  destruct (glyph_paint w1 _ _ _ _ _) as [v|] eqn:Hp.
  - rewrite (proj1 Hcell') by eauto. f_equal. symmetry.
    by apply glyph_paint_blank in Hp as ->.
  - destruct (in_cell _ _ _ _); [destruct (proj2 Hcell' eq_refl) as [? [=]]|].
    destruct (glyph_paint w _ _ _ _ _); [|done]. by discriminate (proj1 Hcell (mk_is_Some _ _ eq_refl)).
Qed.

(** At the start of a line, which is where [newline] and [carriage_return] leave the
    cursor, [backspace] subtracts the width of the last glyph from the border padding
    and panics instead of doing nothing. *)
Lemma backspace_at_line_start_panics `{!Font} (w : Writer)
    (Hlast : BORDER_PADDING < last_width w) :
  backspace (carriage_return w) = Panic "attempt to subtract with overflow" ∧
  ∀ w', newline w = Ret w' → backspace w' = Panic "attempt to subtract with overflow".
Proof.
  assert (∀ y, backspace (with_cursor w BORDER_PADDING y) =
    Panic "attempt to subtract with overflow") as Hpanic.
  { intros y. unfold backspace, sub_u. simpl.
    by rewrite (proj2 (checked_None _ _)) by (unfold_u; lia). }
  split; [apply Hpanic|]. unfold newline. intros w' Hnl. inv_outcome. apply Hpanic.
Qed.

(** Before [set_fb] the framebuffer is empty, and the first printable character
    panics: this is what a boot without a framebuffer does. *)
Lemma print_without_framebuffer_panics `{!Font} (c : Z) (Hlaws : FontLaws) (Hc : printable c = true) :
  ∃ msg, write_char WRITER c = Panic msg.
Proof.
  rewrite write_char_printable by done.
  pose proof font_width as Hw. pose proof font_height as Hh. unfold_u. norm_pow.
  unfold write_glyph, newline. cbn [WRITER x_pos y_pos info fb_width fb_height].
  rewrite !add_u_in by (unfold_u; unfold LINE_SPACING; lia). run_bind.
  rewrite (proj2 (Z.geb_le _ _)) by lia. rewrite !add_u_in by (unfold_u; unfold LINE_SPACING; lia).
  cbn. rewrite !add_u_in by (unfold_u; unfold LINE_SPACING, BORDER_PADDING; lia). run_bind.
  rewrite add_u_in by (unfold_u; unfold LINE_SPACING, BORDER_PADDING; lia). run_bind.
  rewrite (proj2 (Z.geb_le _ _)) by (unfold LINE_SPACING, BORDER_PADDING; lia).
  destruct (get_char_raster_run c) as (r & -> & Hr). run_bind.
  assert (∃ i row rows, raster r = (i :: row) :: rows) as (i & row & rows & Hrows).
  { destruct Hr as [Hr|[_ Hr]]; apply font_raster in Hr as (_ & Hlen & Hrow);
      destruct (raster r) as [|[|i row] rows]; simpl in Hlen; try lia; try by eauto;
      specialize (Hrow [] ltac:(set_solver)) as [Hz _]; simpl in Hz; lia. }
  unfold write_rendered_char. rewrite Hrows. by eexists.
Qed.

(** ** Witnesses: a font of two-by-two glyphs on a framebuffer of 5 by 8 pixels *)

#[local] Instance sample_font : Font := {|
  get_raster c :=
    if c =? ch " " then Some (mk_raster [[0; 0]; [0; 0]] 2)
    else if (c <? 128) || (c =? BACKUP_CHAR) then Some (mk_raster [[255; 0]; [128; 255]] 2)
    else None;
  CHAR_RASTER_WIDTH := 2;
  CHAR_RASTER_HEIGHT := 2;
|}.

Lemma sample_font_laws : FontLaws.
Proof.
  split; [done..| |by vm_compute; eauto].
  intros c r Hr. simpl in Hr. repeat case_match; simplify_eq; simpl.
  all: split; [done|]; split; [done|]; intros row Hrow.
  all: repeat (apply elem_of_cons in Hrow as [->|Hrow]; [|]); try by apply elem_of_nil in Hrow.
  all: split; [done|]; intros i Hi.
  all: repeat (apply elem_of_cons in Hi as [->|Hi]; [done|]); by apply elem_of_nil in Hi.
Qed.

Definition sample_writer : Writer :=
  set_fb WRITER (replicate 160 7) (mk_info 160 5 8 Bgr 4 5).

Lemma sample_writer_ok : writer_ok sample_writer.
Proof. split; [split|..]; (done || (split; done)). Qed.

Lemma write_char_draws_glyph_witness :
  ∃ r fb', get_char_raster (ch "A") = Ret r ∧
    write_char sample_writer (ch "A") =
      Ret (mk_writer fb' (info sample_writer) 2 3 1 White Normal) ∧
    drawn (info sample_writer) (glyph_background sample_writer) fb'
      (glyph_paint sample_writer (raster r) 1 1).
Proof.
  exact (write_char_draws_glyph sample_writer (ch "A") sample_font_laws sample_writer_ok
    eq_refl eq_refl eq_refl).
Defined.

Lemma write_string_never_panics_witness :
  ∃ w', write_string sample_writer (chars "abcd" ++ [ESC; 0x1F980; 10; 13]) = Ret w' ∧
    writer_ok w' ∧ info w' = info sample_writer.
Proof.
  by apply (write_string_never_panics sample_writer _ sample_font_laws sample_writer_ok).
Defined.

Lemma escape_sets_color_witness :
  write_string sample_writer (ESC :: chars "[33m") = Ret (with_color sample_writer Yellow) ∧
  write_string sample_writer (ESC :: chars "[0m") = Ret (with_color sample_writer White).
Proof. by apply (escape_sets_color sample_writer (ch "3") (ch "3")). Defined.

Definition sample_after_a : Writer :=
  match write_char sample_writer (ch "a") with Ret w => w | _ => sample_writer end.

Lemma backspace_erases_witness :
  ∃ w2, backspace sample_after_a = Ret w2 ∧ x_pos w2 = 1 ∧ y_pos w2 = 1 ∧
    drawn (info sample_writer) (glyph_background sample_writer) (framebuffer w2) (λ x y,
      if in_cell 1 1 x y then Some (replicate 4 0) else None).
Proof.
  refine (backspace_erases sample_writer sample_after_a (ch "a") (mk_raster [[0; 0]; [0; 0]] 2)
    sample_font_laws sample_writer_ok eq_refl eq_refl eq_refl (conj eq_refl eq_refl) eq_refl _ _).
  - simpl. intros row i Hrow Hi.
    repeat (apply elem_of_cons in Hrow as [->|Hrow]); try by apply elem_of_nil in Hrow.
    all: repeat (apply elem_of_cons in Hi as [->|Hi]; [done|]); by apply elem_of_nil in Hi.
  - by vm_compute.
Defined.

End Vga.
