(* ===== verification/Terminal.v ===== *)
(** * The console as a terminal

    What a user sees of kernel/src/vga_text_buffer.rs, without bytes: a terminal is a
    cursor, a colour and the glyphs drawn since the screen was last cleared, and its
    picture gives each point the ink of the last glyph over it.  The writer refines it:
    whatever the pixel format, the bytes of a pixel and the stride of the framebuffer,
    the pixels it leaves are the terminal's picture, encoded. *)

From Stdlib Require Import Ascii.
From S2P Require Import Prelude Vga.

Module Terminal.
Import Vga.

Section Terminal.
Context `{!Font}.

(** ** The abstract terminal *)

Record glyph := mk_glyph { g_x : Z; g_y : Z; g_color : Color; g_char : Z }.
Record terminal := mk_terminal {
  t_width : Z; t_height : Z;
  t_x : Z; t_y : Z; t_last : Z;
  t_color : Color; t_state : WriterState;
  t_glyphs : list glyph;                   (* the last one first *)
}.

Definition move (t : terminal) (x y : Z) : terminal :=
  mk_terminal (t_width t) (t_height t) x y (t_last t) (t_color t) (t_state t) (t_glyphs t).
Definition put_state (t : terminal) (st : WriterState) : terminal :=
  mk_terminal (t_width t) (t_height t) (t_x t) (t_y t) (t_last t) (t_color t) st (t_glyphs t).
Definition put_color (t : terminal) (c : Color) : terminal :=
  mk_terminal (t_width t) (t_height t) (t_x t) (t_y t) (t_last t) c (t_state t) (t_glyphs t).

(** A glyph goes to the cursor, to the next line when it does not fit on this one, and
    to the top of an empty screen when it does not fit on that either. *)
Definition t_wraps (t : terminal) : bool := t_width t <=? t_x t + CHAR_RASTER_WIDTH.
Definition t_line (t : terminal) : Z := if t_wraps t then t_y t + line_height else t_y t.
Definition t_full (t : terminal) : bool :=
  t_height t <=? t_line t + CHAR_RASTER_HEIGHT + BORDER_PADDING.
Definition t_place (t : terminal) : Z * Z :=
  (if t_wraps t || t_full t then BORDER_PADDING else t_x t,
   if t_full t then BORDER_PADDING else t_line t).

Definition term_draw (t : terminal) (c : Z) : terminal :=
  let '(x, y) := t_place t in
  mk_terminal (t_width t) (t_height t) (x + CHAR_RASTER_WIDTH) y CHAR_RASTER_WIDTH (t_color t) (t_state t)
    (mk_glyph x y (t_color t) c :: if t_full t then [] else t_glyphs t).

Definition term_char (t : terminal) (c : Z) : terminal :=
  let '(shown, st) := feed (t_state t) c in
  let t := put_state t st in
  if shown then
    if c =? ch "010" then move t BORDER_PADDING (t_y t + line_height)
    else if c =? ch "013" then move t BORDER_PADDING (t_y t)
    else term_draw t c
  else match st with StateColor k => put_color (put_state t Normal) k | _ => t end.

Definition term_string (t : terminal) (s : list Z) : terminal := foldl term_char t s.

(** A backspace writes a space over the last character. *)
Definition term_backspace (t : terminal) : terminal :=
  let t := term_char (move t (t_x t - t_last t) (t_y t)) (ch " ") in
  move t (t_x t - t_last t) (t_y t).

(** The edits that programs make: they print text, and they erase a character. *)
Inductive edit := Text (s : list Z) | Erase.
Definition term_edit (t : terminal) (e : edit) : terminal :=
  match e with Text s => term_string t s | Erase => term_backspace t end.
Definition run_edit (w : Writer) (e : edit) : outcome Writer :=
  match e with Text s => write_string w s | Erase => backspace w end.

(** *** Its picture *)

Definition glyph_ink (g : glyph) (x y : Z) : option (Color * Z) :=
  match get_char_raster (g_char g) with
  | Ret r => row ← lookup_z (raster r) (y - g_y g); pair (g_color g) <$> lookup_z row (x - g_x g)
  | _ => None
  end.
Fixpoint ink (gs : list glyph) (x y : Z) : option (Color * Z) :=
  match gs with
  | [] => None
  | g :: gs => match glyph_ink g x y with Some i => Some i | None => ink gs x y end
  end.

(** The bytes for a point of the picture; where there is no ink they are zero. *)
Definition encode (i : FrameBufferInfo) (p : option (Color * Z)) : list Z :=
  match p with
  | Some (c, intensity) => shade (mk_writer [] i 0 0 0 c Normal) intensity
  | None => replicate (Z.to_nat (bytes_per_pixel i)) 0
  end.

(** ** The refinement *)

Record shows (w : Writer) (t : terminal) : Prop := {
  sh_size : fb_width (info w) = t_width t ∧ fb_height (info w) = t_height t;
  sh_cursor : x_pos w = t_x t ∧ y_pos w = t_y t ∧ last_width w = t_last t;
  sh_last : 0 ≤ t_last t;
  sh_color : color w = t_color t;
  sh_state : state w = t_state t;
  sh_pixels x y : 0 ≤ x < stride (info w) → 0 ≤ y < t_height t →
    pixel (info w) (framebuffer w) x y = encode (info w) (ink (t_glyphs t) x y);
}.

(** The terminal of a cleared screen. *)
Definition term_new (width height : Z) : terminal :=
  mk_terminal width height BORDER_PADDING BORDER_PADDING 0 White Normal [].

Lemma pixel_cleared i fb x y : geometry i fb → 0 ≤ x < stride i → 0 ≤ y < fb_height i →
  pixel i (replicate (length fb) 0) x y = replicate (Z.to_nat (bytes_per_pixel i)) 0.
Proof.
  intros [_ Hb Hw Hh Hl _] Hx Hy. unfold pixel. rewrite drop_replicate, take_replicate. f_equal.
  assert ((y * stride i + x + 1) * bytes_per_pixel i ≤ fb_height i * stride i * bytes_per_pixel i)
    by (apply Z.mul_le_mono_nonneg_r; nia).
  assert (0 ≤ (y * stride i + x) * bytes_per_pixel i) by nia. nia.
Qed.

Context {laws : FontLaws}.

Lemma glyph_paint_ink w c r x0 y0 x y : get_char_raster c = Ret r →
  glyph_paint w (raster r) x0 y0 x y =
    encode (info w) ∘ Some <$> glyph_ink (mk_glyph x0 y0 (color w) c) x y.
Proof.
  intros Hr. unfold glyph_paint, glyph_ink. cbn [g_char g_x g_y g_color]. rewrite Hr.
  destruct (lookup_z (raster r) (y - y0)) as [row|]; [|done]. simpl. by destruct (lookup_z row (x - x0)).
Qed.

Lemma shows_place w t : shows w t → (glyph_x w, glyph_y w) = t_place t ∧ scrolls w = t_full t.
Proof.
  intros [[Hw Hh] (Hx & Hy & _) _ _ _ _].
  unfold glyph_x, glyph_y, t_place, scrolls, t_full, next_y, t_line, wraps, t_wraps.
  by rewrite Hw, Hh, Hx, Hy.
Qed.

Lemma shows_background w t x y : writer_ok w → shows w t →
  0 ≤ x < stride (info w) → 0 ≤ y < t_height t →
  pixel (info w) (glyph_background w) x y =
    encode (info w) (ink (if t_full t then [] else t_glyphs t) x y).
Proof.
  intros Hok Ht Hx Hy. destruct (shows_place w t Ht) as [_ <-]. unfold glyph_background.
  destruct (scrolls w); [|by apply (sh_pixels _ _ Ht)].
  apply pixel_cleared; [apply Hok|done|]. by rewrite (proj2 (sh_size _ _ Ht)).
Qed.

Lemma write_glyph_shows w t c w' : writer_ok w → shows w t → write_glyph w c = Ret w' →
  shows w' (term_draw t c).
Proof using laws.
  intros Hok Ht Hrun. apply write_glyph_ret in Hrun as (r & fb' & Hr & -> & Hlen & Hd); [|done].
  destruct (shows_place w t Ht) as [Hplace Hfull].
  unfold term_draw. rewrite <-Hplace. pose proof Ht as [Hsize _ _ Hc Hs _].
  split; cbn [t_width t_height t_x t_y t_last t_color t_state t_glyphs info framebuffer]; try done;
    [pose proof font_width; lia|].
  intros x y Hx Hy. rewrite (Hd x y) by lia. rewrite (glyph_paint_ink w c r _ _ x y Hr), Hc.
  cbn [ink]. destruct (glyph_ink _ x y) as [p|]; [done|]. by apply shows_background.
Qed.

Lemma shows_state w t st : shows w t → shows (with_state w st) (put_state t st).
Proof. by intros []; split. Qed.
Lemma shows_color w t c : shows w t → shows (with_color w c) (put_color t c).
Proof. by intros []; split. Qed.
Lemma shows_move w t x y : shows w t → shows (with_cursor w x y) (move t x y).
Proof. by intros [? (? & ? & ?) ? ? ? ?]; split. Qed.

Lemma sub_u_cursor w x : writer_ok w → 0 ≤ last_width w → sub_u usize (x_pos w) (last_width w) = Ret x →
  x = x_pos w - last_width w ∧ 0 ≤ x ≤ fb_width (info w).
Proof. intros Hok Hl Hx. inv_arith. destruct Hok. unfold_u. lia. Qed.

Lemma write_char_shows w t c w' : writer_ok w → shows w t → write_char w c = Ret w' →
  shows w' (term_char t c).
Proof using laws.
  intros Hok Ht. unfold write_char, term_char. rewrite <-(sh_state _ _ Ht).
  destruct (feed (state w) c) as [shown st] eqn:Hf. pose proof (shows_state w t st Ht) as Ht'.
  destruct (sh_cursor _ _ Ht) as (_ & Hy & _). destruct shown; simpl.
  - pose proof (feed_state _ _ _ _ Hf eq_refl (wo_state _ Hok)) as ->.
    destruct (c =? ch "010"); [|destruct (c =? ch "013")]; intros Hrun.
    + apply newline_ret in Hrun as ->. rewrite <-Hy. by apply (shows_move _ _ _ _ Ht').
    + injection Hrun as <-. rewrite <-Hy. by apply (shows_move _ _ _ _ Ht').
    + eapply write_glyph_shows; [|done..]. destruct Hok. by split.
  - destruct st; intros [= <-]; try done. by apply shows_color, (shows_state w t).
Qed.

Lemma write_string_shows s : ∀ w t w', writer_ok w → shows w t → write_string w s = Ret w' →
  writer_ok w' ∧ shows w' (term_string t s).
Proof using laws.
  induction s as [|c s IH]; intros w t w' Hok Ht Hrun; [by injection Hrun as <-|].
  apply bind_Ret in Hrun as (w1 & Hw1 & Hrun).
  eapply IH; [by eapply write_char_ret|by eapply write_char_shows|done].
Qed.

Lemma backspace_shows w t w' : writer_ok w → shows w t → backspace w = Ret w' →
  writer_ok w' ∧ shows w' (term_backspace t).
Proof using laws.
  intros Hok Ht Hrun. unfold backspace in Hrun. unfold term_backspace.
  apply bind_Ret in Hrun as (x & Hx & Hrun). apply bind_Ret in Hrun as (w1 & Hw1 & Hrun).
  apply bind_Ret in Hrun as (x' & Hx' & Hrun). injection Hrun as <-.
  destruct (sh_cursor _ _ Ht) as (Htx & Hty & Htl). pose proof (sh_last _ _ Ht).
  apply sub_u_cursor in Hx as [-> Hx]; [|done|lia]. rewrite <-Htx, <-Hty, <-Htl.
  pose proof (writer_ok_cursor w _ _ Hok Hx (wo_y _ Hok)) as Hok0.
  pose proof (write_char_shows _ _ _ _ Hok0 (shows_move w t _ _ Ht) Hw1) as Ht1.
  apply write_char_ret in Hw1 as (Hok1 & _ & _); [|done].
  destruct (sh_cursor _ _ Ht1) as (Htx1 & Hty1 & Htl1). pose proof (sh_last _ _ Ht1).
  apply sub_u_cursor in Hx' as [-> Hx']; [|done|lia].
  split; [by apply writer_ok_cursor; [..|apply Hok1]|].
  rewrite <-Htx1, <-Hty1, <-Htl1. by apply shows_move.
Qed.

Lemma run_edit_shows w t e w' : writer_ok w → shows w t → run_edit w e = Ret w' →
  writer_ok w' ∧ shows w' (term_edit t e).
Proof using laws. destruct e; [apply write_string_shows|apply backspace_shows]. Qed.

(** A new framebuffer is a cleared screen; [set_fb] keeps the colour and the state. *)
Lemma set_fb_shows i fb : geometry i fb →
  shows (set_fb WRITER fb i) (term_new (fb_width i) (fb_height i)).
Proof. intros Hg. split; try done. intros x y Hx Hy. by apply pixel_cleared. Qed.

Lemma set_fb_ok i fb : geometry i fb → CHAR_RASTER_WIDTH + 1 ≤ fb_width i →
  CHAR_RASTER_HEIGHT + 1 ≤ fb_height i → writer_ok (set_fb WRITER fb i).
Proof using laws.
  intros Hg Hw Hh. pose proof font_width. split; try done.
  - simpl. eapply geometry_length; [|done]. by rewrite length_replicate.
  - simpl. unfold BORDER_PADDING. lia.
Qed.

(** ** Where text is

    The glyphs of a line that begins at [(x, y)], in reading order. *)
Fixpoint line_glyphs (x y : Z) (k : Color) (s : list Z) : list glyph :=
  match s with
  | [] => []
  | c :: s => mk_glyph x y k c :: line_glyphs (x + CHAR_RASTER_WIDTH) y k s
  end.

Lemma line_glyphs_lookup s : ∀ x y k j c, s !! j = Some c →
  line_glyphs x y k s !! j = Some (mk_glyph (x + Z.of_nat j * CHAR_RASTER_WIDTH) y k c).
Proof.
  induction s as [|c0 s IH]; intros x y k j c Hj; [done|]. destruct j as [|j]; simpl in *.
  - injection Hj as ->. do 2 f_equal. lia.
  - rewrite (IH _ _ _ _ _ Hj). do 2 f_equal. lia.
Qed.

Lemma term_char_printable t c : t_state t = Normal → printable c = true → term_char t c = term_draw t c.
Proof.
  unfold term_char, printable. intros Hst Hc. rewrite Hst. simpl.
  destruct (c =? ESC), (c =? ch "010"), (c =? ch "013"); try done. simpl.
  unfold put_state. rewrite <-Hst. by destruct t.
Qed.

(** A line of text that fits is drawn on the line of the cursor, a glyph beside the
    other, over what was there. *)
Lemma term_line s : ∀ t, t_state t = Normal → Forall (λ c, printable c = true) s →
  t_x t + Z.of_nat (length s) * CHAR_RASTER_WIDTH < t_width t →
  t_y t + CHAR_RASTER_HEIGHT + BORDER_PADDING < t_height t →
  t_glyphs (term_string t s) = reverse (line_glyphs (t_x t) (t_y t) (t_color t) s) ++ t_glyphs t.
Proof using laws.
  pose proof font_width.
  induction s as [|c s IH]; intros t Hst Hp Hx Hy; [done|]. apply Forall_cons in Hp as [Hc Hp].
  simpl length in Hx. cbn [term_string foldl line_glyphs]. rewrite term_char_printable by done.
  assert (t_wraps t = false) as Hwr by (apply Z.leb_gt; nia).
  assert (t_full t = false) as Hfu by (apply Z.leb_gt; unfold t_line; rewrite Hwr; lia).
  assert (term_draw t c = mk_terminal (t_width t) (t_height t) (t_x t + CHAR_RASTER_WIDTH) (t_y t)
    CHAR_RASTER_WIDTH (t_color t) (t_state t) (mk_glyph (t_x t) (t_y t) (t_color t) c :: t_glyphs t)) as ->
    by (unfold term_draw, t_place, t_line; by rewrite Hfu, Hwr).
  fold (term_string). rewrite reverse_cons, <-app_assoc. apply IH; simpl; [done..|nia|done].
Qed.

Lemma lookup_z_nat {A} (l : list A) (n : nat) : lookup_z l (Z.of_nat n) = l !! n.
Proof. unfold lookup_z. rewrite Nat2Z.id. by destruct (Z.ltb_spec (Z.of_nat n) 0); [lia|]. Qed.

Lemma raster_size c r (dx dy : nat) row v : get_char_raster c = Ret r →
  raster r !! dy = Some row → row !! dx = Some v →
  Z.of_nat dx < CHAR_RASTER_WIDTH ∧ Z.of_nat dy < CHAR_RASTER_HEIGHT.
Proof using laws.
  intros Hr Hrow Hv. destruct (get_char_raster_run c) as (r' & Hr' & Hget). rewrite Hr in Hr'. injection Hr' as <-.
  assert (∃ c, get_raster c = Some r) as (c' & Hc) by (destruct Hget as [? | [_ ?]]; eauto).
  destruct (font_raster _ _ Hc) as (_ & Hlen & Hrows).
  pose proof (lookup_lt_Some _ _ _ Hrow). apply lookup_lt_Some in Hv.
  apply list_elem_of_lookup_2, Hrows in Hrow as [Hw _]. lia.
Qed.

Lemma glyph_ink_outside g x y : ¬ g_x g ≤ x < g_x g + CHAR_RASTER_WIDTH → glyph_ink g x y = None.
Proof using laws.
  intros Hx. unfold glyph_ink. destruct (get_char_raster_run (g_char g)) as (r & Hr & _). rewrite Hr.
  destruct (lookup_z (raster r) (y - g_y g)) as [row|] eqn:Hrow; [|done]. simpl.
  destruct (lookup_z row (x - g_x g)) as [v|] eqn:Hv; [|done]. exfalso. apply Hx. unfold lookup_z in *.
  destruct (y - g_y g <? 0); [done|]. destruct (Z.ltb_spec (x - g_x g) 0); [done|].
  destruct (raster_size _ _ _ _ _ _ Hr Hrow Hv). lia.
Qed.

Lemma ink_app gs gs' x y : ink (gs ++ gs') x y = match ink gs x y with Some p => Some p | None => ink gs' x y end.
Proof. induction gs as [|g gs IH]; simpl; [done|]. by destruct (glyph_ink g x y). Qed.

Lemma line_ink_before s : ∀ x0 y0 k x y, x < x0 → ink (reverse (line_glyphs x0 y0 k s)) x y = None.
Proof using laws.
  pose proof font_width. induction s as [|c s IH]; intros x0 y0 k x y Hx; [done|].
  cbn [line_glyphs]. rewrite reverse_cons, ink_app, IH by lia. simpl. by rewrite glyph_ink_outside by (simpl; lia).
Qed.

(** In the cell of the [j]-th character of the line there is that character's ink. *)
Lemma line_ink s : ∀ x0 y0 k j c x y, s !! j = Some c →
  x0 + Z.of_nat j * CHAR_RASTER_WIDTH ≤ x < x0 + (Z.of_nat j + 1) * CHAR_RASTER_WIDTH →
  ink (reverse (line_glyphs x0 y0 k s)) x y =
    glyph_ink (mk_glyph (x0 + Z.of_nat j * CHAR_RASTER_WIDTH) y0 k c) x y.
Proof using laws.
  pose proof font_width. induction s as [|c0 s IH]; intros x0 y0 k j c x y Hj Hx; [done|].
  cbn [line_glyphs]. rewrite reverse_cons, ink_app. destruct j as [|j]; simpl in Hj.
  - injection Hj as ->. rewrite line_ink_before by lia. simpl.
    replace (x0 + 0 * CHAR_RASTER_WIDTH) with x0 by lia. by destruct (glyph_ink _ x y).
  - rewrite (IH (x0 + CHAR_RASTER_WIDTH) y0 k j c x y Hj) by lia.
    replace (x0 + CHAR_RASTER_WIDTH + Z.of_nat j * CHAR_RASTER_WIDTH)
      with (x0 + Z.of_nat (S j) * CHAR_RASTER_WIDTH) by lia.
    destruct (glyph_ink _ x y) eqn:He; [done|]. simpl. by rewrite glyph_ink_outside by (simpl; nia).
Qed.

Lemma first_text_shown i fb s : geometry i fb → CHAR_RASTER_WIDTH + 1 ≤ fb_width i →
  CHAR_RASTER_HEIGHT + 1 ≤ fb_height i →
  BORDER_PADDING + (Z.of_nat (length s) + 1) * line_height < 2 ^ 64 →
  ∃ w', write_string (set_fb WRITER fb i) s = Ret w' ∧ info w' = i ∧
    shows w' (term_string (term_new (fb_width i) (fb_height i)) s).
Proof using laws.
  intros Hg Hw Hh Hb. pose proof (set_fb_ok i fb Hg Hw Hh) as Hok.
  destruct (write_string_run s _ Hok Hb) as (w' & Hrun & _ & Hi). exists w'. split_and!; [done..|].
  by eapply write_string_shows; [|apply set_fb_shows|].
Qed.
End Terminal.

(** ** Properties *)

(** C5: The console refines the abstract terminal: on a framebuffer of any supported
    format, depth and stride, writing a text never panics, and every pixel of the screen
    then has the colour that the terminal of that size shows there after the same text.
    The picture depends on the text and the size of the screen alone. *)
Theorem console_refines_terminal `{!Font} (i : FrameBufferInfo) (fb s : list Z) (Hlaws : FontLaws)
    (Hg : geometry i fb) (Hw : CHAR_RASTER_WIDTH + 1 ≤ fb_width i)
    (Hh : CHAR_RASTER_HEIGHT + 1 ≤ fb_height i)
    (Hb : BORDER_PADDING + (Z.of_nat (length s) + 1) * line_height < 2 ^ 64) :
  ∃ w', write_string (set_fb WRITER fb i) s = Ret w' ∧
    shows w' (term_string (term_new (fb_width i) (fb_height i)) s).
Proof. destruct (first_text_shown i fb s Hg Hw Hh Hb) as (w' & ? & _ & ?). by exists w'. Qed.

(** C16: A line of printable characters that fits the screen can be read on it: the
    cell of each character has the font's glyph of that character, in white. *)
Theorem line_legible `{!Font} (i : FrameBufferInfo) (fb s : list Z) (Hlaws : FontLaws)
    (Hg : geometry i fb) (Hs : Forall (λ c, printable c = true) s)
    (Hw : BORDER_PADDING + Z.of_nat (length s) * CHAR_RASTER_WIDTH < fb_width i)
    (Hw1 : CHAR_RASTER_WIDTH + 1 ≤ fb_width i)
    (Hh : 2 * BORDER_PADDING + CHAR_RASTER_HEIGHT < fb_height i)
    (Hb : BORDER_PADDING + (Z.of_nat (length s) + 1) * line_height < 2 ^ 64) :
  ∃ w', write_string (set_fb WRITER fb i) s = Ret w' ∧
    ∀ j c r (dx dy : nat) row v, s !! j = Some c → get_char_raster c = Ret r →
      raster r !! dy = Some row → row !! dx = Some v →
      pixel i (framebuffer w') (BORDER_PADDING + Z.of_nat j * CHAR_RASTER_WIDTH + Z.of_nat dx)
        (BORDER_PADDING + Z.of_nat dy) = encode i (Some (White, v)).
Proof.
  pose proof font_width. unfold BORDER_PADDING in Hh.
  destruct (first_text_shown i fb s Hg Hw1) as (w' & Hrun & Hi & Ht); [lia|done|].
  exists w'. split; [done|]. intros j c r dx dy row v Hj Hr Hrow Hv.
  destruct (raster_size _ _ _ _ _ _ Hr Hrow Hv) as [Hdx Hdy].
  pose proof (lookup_lt_Some _ _ _ Hj). pose proof (geo_width _ _ Hg).
  pose proof (sh_pixels _ _ Ht) as Hp. rewrite Hi in Hp.
  assert (t_height (term_string (term_new (fb_width i) (fb_height i)) s) = fb_height i) as Hth
    by (rewrite <-(proj2 (sh_size _ _ Ht)), Hi; done). rewrite Hth in Hp.
  unfold BORDER_PADDING in *. rewrite Hp by nia. f_equal.
  rewrite term_line by (simpl; unfold BORDER_PADDING; (done || lia)). simpl. rewrite app_nil_r.
  rewrite (line_ink s _ _ _ j c) by (done || unfold BORDER_PADDING; lia).
  unfold glyph_ink, BORDER_PADDING. simpl. rewrite Hr.
  replace (1 + Z.of_nat dy - 1) with (Z.of_nat dy) by lia. rewrite lookup_z_nat, Hrow. simpl.
  replace (1 + Z.of_nat j * CHAR_RASTER_WIDTH + Z.of_nat dx - (1 + Z.of_nat j * CHAR_RASTER_WIDTH))
    with (Z.of_nat dx) by lia. by rewrite lookup_z_nat, Hv.
Qed.

(** ** Witnesses *)

#[local] Existing Instance sample_font.
Definition sample_info : FrameBufferInfo := mk_info 160 5 8 Bgr 4 5.

Lemma sample_geometry : geometry sample_info (replicate 160 7).
Proof. split; (done || (split; done)). Qed.

Lemma console_refines_terminal_witness :
  ∃ w', write_string (set_fb WRITER (replicate 160 7) sample_info) (chars "ab" ++ 10 :: chars "cde") = Ret w' ∧
    shows w' (term_string (term_new 5 8) (chars "ab" ++ 10 :: chars "cde")).
Proof.
  refine (console_refines_terminal sample_info (replicate 160 7) _ sample_font_laws sample_geometry _ _ _);
    by vm_compute.
Defined.

Lemma line_legible_witness :
  ∃ w', write_string (set_fb WRITER (replicate 160 7) sample_info) (chars "a") = Ret w' ∧
    pixel sample_info (framebuffer w') 1 2 = encode sample_info (Some (White, 128)).
Proof.
  destruct (line_legible sample_info (replicate 160 7) (chars "a") sample_font_laws sample_geometry)
    as (w' & Hrun & Hp); [by repeat constructor|by vm_compute..|].
  exists w'. split; [exact Hrun|]. by eapply (Hp 0%nat (ch "a") _ 0%nat 1%nat).
Defined.
End Terminal.
