(* ===== verification/Format.v ===== *)
(** * Formatting: what the kernel uses of crate core's [fmt]

    Integers in decimal and hexadecimal, and the [Debug] text of an optional string. *)

From Stdlib Require Import Ascii.
From S2P Require Import Prelude Vga.

Module Format.

(** ** Integers

    The digits of a number, the last one first, until nothing is left of it. [fuel]
    bounds their number: 20 decimal or 16 hexadecimal digits are enough for [u64]. *)

Definition digit (upper : bool) (d : Z) : Z :=
  if d <? 10 then ch "0" + d else (if upper then ch "A" else ch "a") + (d - 10).

Fixpoint digits (fuel : nat) (upper : bool) (base n : Z) (acc : list Z) : list Z :=
  match fuel with
  | O => acc
  | S fuel =>
      let acc := digit upper (n `mod` base) :: acc in
      if n `div` base =? 0 then acc else digits fuel upper base (n `div` base) acc
  end.

Definition display (n : Z) : list Z := digits 20 false 10 n [].
Definition lower_hex (n : Z) : list Z := digits 16 false 16 n [].
Definition upper_hex (n : Z) : list Z := digits 16 true 16 n [].

(** The text of a list of characters. *)
Fixpoint text (l : list Z) : string :=
  match l with
  | [] => EmptyString
  | c :: l => String (ascii_of_nat (Z.to_nat c)) (text l)
  end.

(** ** Strings

    [Debug] of a string escapes quotes, backslashes and what is not printable; the names
    in the symbol table of the kernel are ASCII. *)

Definition escape_debug (c : Z) : list Z :=
  if c =? 0 then chars "\0"
  else if c =? 9 then chars "\t"
  else if c =? 10 then chars "\n"
  else if c =? 13 then chars "\r"
  else if (c =? 34) || (c =? 92) then [92; c]
  else if (32 <=? c) && (c <? 127) then [c]
  else chars "\u{" ++ lower_hex c ++ chars "}".
Definition debug_str (s : string) : list Z := [34] ++ (chars s ≫= escape_debug) ++ [34].
Definition debug_option_str (o : option string) : list Z :=
  match o with
  | None => chars "None"
  | Some s => chars "Some(" ++ debug_str s ++ chars ")"
  end.

(** ** Digits are read back *)

Definition digit_value (c : Z) : Z :=
  if c <? ch "A" then c - ch "0" else if c <? ch "a" then c - ch "A" + 10 else c - ch "a" + 10.
Definition value (base : Z) (l : list Z) : Z := fold_left (λ n c, n * base + digit_value c) l 0.

Lemma digit_value_digit upper d : 0 ≤ d < 16 → digit_value (digit upper d) = d.
Proof.
  intros Hd. assert (d ∈ seqZ 0 16) as Hin by (apply elem_of_seqZ; lia). clear Hd. revert d Hin.
  apply Forall_forall. destruct upper; vm_compute; repeat constructor.
Qed.

Lemma value_digits fuel : ∀ upper base n acc, 2 ≤ base ≤ 16 → 0 ≤ n < base ^ Z.of_nat fuel → (0 < fuel)%nat →
  value base (digits fuel upper base n acc) = fold_left (λ n c, n * base + digit_value c) acc n.
Proof.
  induction fuel as [|fuel IH]; intros upper base n acc Hb Hn Hf; [lia|]. cbn [digits].
  pose proof (Z.mod_pos_bound n base ltac:(lia)) as Hm. pose proof (Z.div_mod n base ltac:(lia)) as Hdm.
  destruct (Z.eqb_spec (n `div` base) 0) as [Hz|Hnz].
  - unfold value. cbn [fold_left]. rewrite digit_value_digit by lia. f_equal. lia.
  - rewrite Nat2Z.inj_succ, Z.pow_succ_r in Hn by lia.
    assert (0 ≤ n `div` base < base ^ Z.of_nat fuel) as Hq
      by (split; [apply Z.div_pos; lia|apply Z.div_lt_upper_bound; lia]).
    rewrite IH; [|done|done|destruct fuel; [simpl in Hq; lia|lia]].
    cbn [fold_left]. rewrite digit_value_digit by lia. f_equal. lia.
Qed.

(** The fuel is enough for every [u64]: the numbers of a line can be read back. *)
Lemma numbers_read_back n : in_u 64 n →
  value 10 (display n) = n ∧ value 16 (lower_hex n) = n ∧ value 16 (upper_hex n) = n.
Proof.
  intros [H0 Hn]. unfold display, lower_hex, upper_hex.
  split_and!; rewrite value_digits; try done; try lia; (split; [done|]);
    eapply Z.lt_le_trans; try exact Hn; by vm_compute.
Qed.

(** ** Lengths *)

Lemma length_digits fuel : ∀ upper base n acc,
  (length (digits fuel upper base n acc) ≤ fuel + length acc)%nat.
Proof.
  induction fuel as [|fuel IH]; intros upper base n acc; cbn [digits]; [lia|].
  case_match; [simpl; lia|]. etrans; [apply IH|]. simpl. lia.
Qed.
Lemma length_display n : (length (display n) ≤ 20)%nat.
Proof. apply (length_digits 20 _ _ _ []). Qed.
Lemma length_lower_hex n : (length (lower_hex n) ≤ 16)%nat.
Proof. apply (length_digits 16 _ _ _ []). Qed.
Lemma length_upper_hex n : (length (upper_hex n) ≤ 16)%nat.
Proof. apply (length_digits 16 _ _ _ []). Qed.

(** A text gives its characters back. *)
Lemma chars_text l : Forall (λ c, 0 ≤ c < 256) l → chars (text l) = l.
Proof.
  induction 1 as [|c l Hc _ IH]; simpl; [done|]. rewrite IH. f_equal. unfold ch.
  rewrite nat_ascii_embedding by lia. lia.
Qed.
End Format.
