(* ===== verification/Logging.v ===== *)
(** * The logger: kernel/src/logging.rs, kernel/src/serial.rs

    Coloured text as it is formatted, the style of each level, and the logger that
    writes every record to the serial port and all but traces to the framebuffer
    console of [Vga].  The serial port is the sequence of characters sent to it;
    what crate log prints for a level is a parameter. *)

From Stdlib Require Import Ascii.
From S2P Require Import Prelude Vga.

Module Logging.
Import Vga.

Inductive Color := Black | Red | Green | Yellow | Blue | Magenta | Cyan | White | Default.

Definition as_str (self : Color) : list Z :=
  match self with
  | Black => chars "30"
  | Red => chars "31"
  | Green => chars "32"
  | Yellow => chars "33"
  | Blue => chars "34"
  | Magenta => chars "35"
  | Cyan => chars "36"
  | White => chars "37"
  | Default => chars "39"
  end.

(** [Display for Color] *)
Definition fmt_color (self : Color) : list Z := (ESC :: chars "[") ++ as_str self ++ [ch "m"].

Record Colored (S : Type) := mk_colored { colored_color : Color; colored_inner : S }.
Arguments mk_colored {S} _ _.
Arguments colored_color {S} _.
Arguments colored_inner {S} _.

(** [Display], [LowerHex] and [UpperHex] for [Colored]: the inner value is printed
    by its own implementation of the same trait. *)
Definition fmt_colored {S} (fmt : S → list Z) (self : Colored S) : list Z :=
  fmt_color (colored_color self) ++ fmt (colored_inner self) ++ ESC :: chars "[0m".

(** [trait Colorize] *)
Definition with_color {S} (self : S) (color : Color) : Colored S := mk_colored color self.
Definition black {S} (self : S) : Colored S := with_color self Black.
Definition red {S} (self : S) : Colored S := with_color self Red.
Definition green {S} (self : S) : Colored S := with_color self Green.
Definition yellow {S} (self : S) : Colored S := with_color self Yellow.
Definition blue {S} (self : S) : Colored S := with_color self Blue.
Definition magenta {S} (self : S) : Colored S := with_color self Magenta.
Definition cyan {S} (self : S) : Colored S := with_color self Cyan.
Definition white {S} (self : S) : Colored S := with_color self White.

(** The levels of crate log. *)
Inductive Level := Error | Warn | Info | Debug | Trace.
#[global] Instance Level_eq_dec : EqDecision Level.
Proof. solve_decision. Defined.

Definition stylized (self : Level) : Colored Level :=
  match self with
  | Error => red self
  | Warn => yellow self
  | Info => green self
  | Debug => magenta self
  | Trace => blue self
  end.

(** A record of crate log: its target, level and formatted arguments. *)
Record LogRecord := mk_record { target : list Z; level : Level; args : list Z }.

Section Log.
Context `{!Font} (level_fmt : Level → list Z).

Definition enabled (r : LogRecord) : bool := true.

(** The pieces of ["[{}] [\x1b[31m{}\x1b[0m] {}"], shared by both outputs. *)
Definition log_pieces (r : LogRecord) : list (list Z) :=
  [chars "["; fmt_colored id (white (target r)); chars "] [" ++ ESC :: chars "[31m";
   fmt_colored level_fmt (stylized (level r)); ESC :: chars "[0m] "; args r].

(** [serial_println!] appends to what was sent to the serial port. *)
Definition serial_println (serial : list Z) (pieces : list (list Z)) : list Z :=
  serial ++ concat pieces ++ [ch "010"].

Definition log (serial : list Z) (w : Writer) (r : LogRecord) : outcome (list Z * Writer) :=
  let serial := serial_println serial (log_pieces r) in
  if negb (bool_decide (level r = Trace)) then
    w ← _print w (log_pieces r ++ [[ch "010"]]);
    mret (serial, w)
  else mret (serial, w).
End Log.

(** ** Lemmas *)

(** The console colour that a log colour asks for; code 39 is not one of the
    console's, which keeps its colour. *)
Definition console_color (c : Color) : option Vga.Color :=
  match c with
  | Black => Some Vga.Black
  | Red => Some Vga.Red
  | Green => Some Vga.Green
  | Yellow => Some Vga.Yellow
  | Blue => Some Vga.Blue
  | Magenta => Some Vga.Magenta
  | Cyan => Some Vga.Cyan
  | White => Some Vga.White
  | Default => None
  end.

Section Proofs.
Context `{!Font}.

Lemma write_string_app s1 s2 w :
  write_string w (s1 ++ s2) = w' ← write_string w s1; write_string w' s2.
Proof. revert w. induction s1 as [|c s1 IH]; intros w; simpl; [done|]. by destruct (write_char w c); simpl. Qed.

Lemma print_concat pieces w : _print w pieces = write_string w (concat pieces).
Proof.
  revert w. induction pieces as [|s pieces IH]; intros w; simpl; [done|].
  rewrite write_string_app. destruct (write_string w s); simpl; auto.
Qed.

Lemma fmt_color_run w c : state w = Normal →
  write_string w (fmt_color c) =
    Ret (match console_color c with Some k => Vga.with_color w k | None => w end).
Proof. intros Hst. destruct w; simpl in Hst; subst. by destruct c. Qed.

Lemma reset_run w : state w = Normal →
  write_string w (ESC :: chars "[0m") = Ret (Vga.with_color w Vga.White).
Proof. intros Hst. destruct w; simpl in Hst; subst. done. Qed.

Lemma write_rows_state rows : ∀ w y w', write_rows w y rows = Ret w' → state w' = state w.
Proof.
  assert (∀ row w y x w', write_row w y x row = Ret w' → state w' = state w) as Hrow.
  { induction row as [|c row IH]; intros w y x w' Hw; simpl in Hw; inv_outcome; [done|].
    apply IH in Hw. rewrite Hw. unfold write_pixel in *. by inv_outcome. }
  induction rows as [|row rows IH]; intros w y w' Hw; simpl in Hw; inv_outcome; [done|].
  apply IH in Hw. rewrite Hw. by eapply Hrow.
Qed.

Lemma write_glyph_state w c w' : write_glyph w c = Ret w' → state w' = state w.
Proof.
  unfold write_glyph, write_rendered_char. intros Hw. inv_outcome.
  match goal with H : write_rows _ _ _ = Ret _ |- _ => rewrite (write_rows_state _ _ _ _ H) end.
  unfold newline in *. repeat case_match; inv_outcome; done.
Qed.

(** Text without an escape character leaves the escape machine at rest. *)
Lemma write_string_normal s : ∀ w w',
  state w = Normal → ESC ∉ s → write_string w s = Ret w' → state w' = Normal.
Proof.
  induction s as [|c s IH]; intros w w' Hst Hesc Hw; simpl in Hw; inv_outcome; [done|].
  apply not_elem_of_cons in Hesc as [Hc Hesc]. eapply IH; [|done..].
  unfold write_char in *. rewrite Hst in *. simpl in *.
  rewrite (proj2 (Z.eqb_neq c ESC)) in * by done. simpl in *.
  repeat case_match; inv_outcome; [|done|by etransitivity; [eapply write_glyph_state|]].
  unfold newline in *. by inv_outcome.
Qed.

Lemma fmt_colored_run {S} (fmt : S → list Z) w x k c : state w = Normal → ESC ∉ fmt x →
  console_color c = Some k →
  write_string w (fmt_colored fmt (with_color x c)) =
    w' ← write_string (Vga.with_color w k) (fmt x); mret (Vga.with_color w' Vga.White).
Proof.
  intros Hst Hx Hc. unfold fmt_colored. rewrite !write_string_app. simpl colored_color.
  rewrite fmt_color_run, Hc by done. simpl mbind at 1.
  rewrite write_string_app. destruct (write_string _ (fmt _)) as [w'| |] eqn:Hw; [|done..].
  simpl mbind. apply reset_run. by eapply write_string_normal; [|exact Hx|exact Hw].
Qed.
End Proofs.

(** ** Properties *)

(** The console reads back every colour the logger formats: writing the escape
    sequence of a log colour to an idle console selects exactly that colour, code 39
    keeps the current one, and nothing is drawn. *)
Theorem log_color_roundtrip `{!Font} (w : Writer) (c : Color) (Hst : state w = Normal) :
  write_string w (fmt_color c) =
    Ret (match console_color c with Some k => Vga.with_color w k | None => w end).
Proof. by apply fmt_color_run. Qed.

(** The colour of each level. *)
Definition level_color (l : Level) : Vga.Color :=
  match l with
  | Error => Vga.Red | Warn => Vga.Yellow | Info => Vga.Green | Debug => Vga.Magenta
  | Trace => Vga.Blue
  end.

(** What a reader of the screen should see of a record: the target in white, the
    level in its colour, the message in white, and a new line. *)
Definition log_on_screen `{!Font} (level_fmt : Level → list Z) (w : Writer) (r : LogRecord) :
    outcome Writer :=
  w ← write_string w (chars "[");
  w ← write_string (Vga.with_color w Vga.White) (target r);
  w ← write_string (Vga.with_color w Vga.White) (chars "] [");
  w ← write_string (Vga.with_color w (level_color (level r))) (level_fmt (level r));
  w ← write_string (Vga.with_color w Vga.White) (chars "] ");
  w ← write_string w (args r);
  write_string w [ch "010"].

Lemma stylized_run `{!Font} level_fmt w l : state w = Normal → ESC ∉ level_fmt l →
  write_string w (fmt_colored level_fmt (stylized l)) =
    w' ← write_string (Vga.with_color w (level_color l)) (level_fmt l);
    mret (Vga.with_color w' Vga.White).
Proof. intros Hst Hesc. destruct l; by apply fmt_colored_run. Qed.

Lemma red_run `{!Font} w : state w = Normal →
  write_string w (ESC :: chars "[31m") = Ret (Vga.with_color w Vga.Red).
Proof. exact (fmt_color_run w Red). Qed.

Lemma esc_free_chars s : forallb (λ c, negb (c =? ESC)) (chars s) = true → ESC ∉ chars s.
Proof.
  intros Hs Hin. apply list_elem_of_In in Hin. rewrite forallb_forall in Hs.
  by apply Hs in Hin.
Qed.

Lemma log_pieces_run `{!Font} level_fmt w r :
  state w = Normal → ESC ∉ target r → ESC ∉ level_fmt (level r) →
  _print w (log_pieces level_fmt r ++ [[ch "010"]]) = log_on_screen level_fmt w r.
Proof.
  intros Hst Htarget Hlevel. unfold log_pieces, log_on_screen. cbn [_print app].
  apply bind_ext_Ret. intros w1 H1.
  assert (state w1 = Normal) as Hst1 by (eapply (write_string_normal (chars "[")); [exact Hst|by apply esc_free_chars|exact H1]).
  unfold white. rewrite fmt_colored_run with (k := Vga.White) by done. rewrite bind_bind.
  apply bind_ext_Ret. intros w2 H2. cbn [mret outcome_ret mbind outcome_bind].
  assert (state w2 = Normal) as Hst2 by by eapply (write_string_normal (target r)); [|exact Htarget|exact H2].
  change (ch "]" :: ch " " :: ch "[" :: ESC :: chars "[31m") with (chars "] [" ++ ESC :: chars "[31m").
  rewrite write_string_app, bind_bind. apply bind_ext_Ret. intros w3 H3.
  assert (state w3 = Normal) as Hst3 by by eapply (write_string_normal (chars "] [")); [|by apply esc_free_chars|exact H3].
  rewrite red_run by done. run_bind.
  rewrite stylized_run, bind_bind by done. apply bind_ext_Ret. intros w4 H4.
  assert (state w4 = Normal) as Hst4 by by eapply (write_string_normal (level_fmt _)); [|exact Hlevel|exact H4].
  cbn [mret outcome_ret mbind outcome_bind].
  change (ESC :: chars "[0m] ") with ((ESC :: chars "[0m") ++ chars "] ").
  rewrite write_string_app, bind_bind, reset_run by done. run_bind.
  apply bind_ext_Ret. intros w5 _. apply bind_ext_Ret. intros w6 _.
  by destruct (write_string w6 _).
Qed.

(** C33: Every record goes to the serial port; all but traces also go to the screen,
    where the escape sequences in the format disappear and leave the target in
    white, the level in its colour and the message in white. A trace leaves the
    screen untouched. *)
Theorem log_shows_record `{!Font} (level_fmt : Level → list Z) serial (w : Writer) (r : LogRecord)
    (Hst : state w = Normal) (Htarget : ESC ∉ target r)
    (Hlevel : ESC ∉ level_fmt (level r)) :
  log level_fmt serial w r =
    let serial' := serial_println serial (log_pieces level_fmt r) in
    if decide (level r = Trace) then Ret (serial', w)
    else w' ← log_on_screen level_fmt w r; Ret (serial', w').
Proof.
  unfold log. rewrite bool_decide_decide. destruct (decide (level r = Trace)); [done|].
  cbn [negb]. by rewrite log_pieces_run.
Qed.

(** ** Witnesses *)

#[local] Existing Instance sample_font.

Definition sample_level_fmt (l : Level) : list Z :=
  match l with
  | Error => chars "ERROR" | Warn => chars "WARN" | Info => chars "INFO"
  | Debug => chars "DEBUG" | Trace => chars "TRACE"
  end.
Definition sample_record : LogRecord := mk_record (chars "pci") Warn (chars "x").

Lemma log_color_roundtrip_witness :
  write_string sample_writer (fmt_color Cyan) = Ret (Vga.with_color sample_writer Vga.Cyan).
Proof. exact (log_color_roundtrip sample_writer Cyan eq_refl). Defined.

Lemma log_shows_record_witness :
  log sample_level_fmt [] sample_writer sample_record =
    w' ← log_on_screen sample_level_fmt sample_writer sample_record;
    Ret (serial_println [] (log_pieces sample_level_fmt sample_record), w').
Proof.
  refine (log_shows_record sample_level_fmt [] sample_writer sample_record eq_refl _ _);
    by apply esc_free_chars.
Defined.

End Logging.
