(* ===== verification/IoApic.v ===== *)
(** * The I/O APIC: kernel/src/interrupts/apic/io.rs

    The redirection table of the I/O APIC, reached through its register select and
    window registers, and the routing [initialize] sets up.  The device is the class
    [IoApicDevice]: what a 32-bit access at an index of the mapped array does; its
    laws are those of the chip's data sheet.  Also the interrupt vectors of
    kernel/src/interrupts.rs. *)

From Stdlib Require Import Btauto.
From S2P Require Import Prelude X86 Memory Paging.

(** ** Interrupt vectors *)

Definition PIC_1_OFFSET : Z := 32.
Definition PIC_2_OFFSET : Z := PIC_1_OFFSET + 8.

Inductive InterruptIndex := Timer | Keyboard | SpuriousIoApic | SpuriousLocalApic.

Definition interrupt_as_u8 (self : InterruptIndex) : Z :=
  match self with
  | Timer => PIC_1_OFFSET
  | Keyboard => PIC_1_OFFSET + 1
  | SpuriousIoApic => 39
  | SpuriousLocalApic => 40
  end.

(** The entries of the MADT table the kernel looks at (crate acpi). *)
Inductive MadtEntry :=
| MadtIoApic (io_apic_address : Z)
| LocalApicAddressOverride (local_apic_address : Z)
| MadtOther.

(** ** The device *)

Class IoApicDevice (D : Type) := {
  mmio_read : D → Z → Z * D;
  mmio_write : D → Z → Z → D;
}.

(** The bits of the low word of a redirection entry that the chip owns: delivery
    status and remote IRR. *)
Definition chip_bit (i : Z) : bool := (i =? 12) || (i =? 14).

(** Index 0 is the register select, index 4 (byte offset 0x10) the window.  [sel]
    is the selected register, [reg] the contents of the registers. *)
Class IoApicLaws (D : Type) `{!IoApicDevice D} (sel : D → Z) (reg : D → Z → Z) : Prop := {
  select_sel d v : in_u 8 v → sel (mmio_write d 0 v) = v;
  select_reg d v r : reg (mmio_write d 0 v) r = reg d r;
  window_read d : (mmio_read d 4).1 = reg d (sel d);
  window_read_sel d : sel (mmio_read d 4).2 = sel d;
  window_read_reg d r : reg (mmio_read d 4).2 r = reg d r;
  window_write_sel d v : sel (mmio_write d 4 v) = sel d;
  window_write_other d v r : r ≠ sel d → reg (mmio_write d 4 v) r = reg d r;
  window_write_low d v ent i : sel d = 0x10 + 2 * ent → 0 ≤ ent → 0 ≤ i →
    Z.testbit (reg (mmio_write d 4 v) (sel d)) i =
      if chip_bit i then Z.testbit (reg d (sel d)) i else (i <=? 16) && Z.testbit v i;
  window_write_high d v ent i : sel d = 0x10 + 2 * ent + 1 → 0 ≤ ent → 0 ≤ i →
    Z.testbit (reg (mmio_write d 4 v) (sel d)) i = (24 <=? i) && (i <? 32) && Z.testbit v i;
  reg_u32 d r : in_u 32 (reg d r);
}.

Module IoApic.

(** ** Data *)

Record IOApic := mk_ioapic {
  mapping : PhysicalMapping;
  redirection_entry_count : Z;
  end_of_interrupt_addr : Z;
}.

Inductive DeliveryMode := Fixed | LowestPriority | SystemManaged | NMI | INIT | External.
Inductive DeliveryStatus := Idle | SentPending.
Inductive DestinationMode := Physical | Logical.
Inductive InterruptPolarity := HighActive | LowActive.
Inductive TriggerMode := EdgeSensitive | LevelSensitive.
Inductive InterruptMask := Unmasked | Masked.
Inductive DestinationField :=
| PhysicalApicId (val : Z)
| LogicalSetOfProcessors (val : Z).

Record IOApicRedirectionEntry := mk_entry {
  vector : Z;
  delivery_mode : DeliveryMode;
  destination_mode : DestinationMode;
  delivery_status : DeliveryStatus;
  polarity : InterruptPolarity;
  remote_irr : bool;
  trigger_mode : TriggerMode;
  mask : InterruptMask;
  destination : DestinationField;
}.

Inductive IOApicRegister :=
| Id | Version | ArbitrationId
| RedirectionEntry (ent : Z)
| ManuallySpecified (ent : Z).

(** The discriminants of the [repr(u8)] enums. *)
Definition delivery_mode_u8 (m : DeliveryMode) : Z :=
  match m with
  | Fixed => 0 | LowestPriority => 1 | SystemManaged => 2 | NMI => 4 | INIT => 5 | External => 7
  end.
Definition delivery_status_u8 (s : DeliveryStatus) : Z :=
  match s with Idle => 0 | SentPending => 1 end.
Definition destination_mode_u8 (m : DestinationMode) : Z :=
  match m with Physical => 0 | Logical => 1 end.
Definition polarity_u8 (p : InterruptPolarity) : Z :=
  match p with HighActive => 0 | LowActive => 1 end.
Definition trigger_mode_u8 (t : TriggerMode) : Z :=
  match t with EdgeSensitive => 0 | LevelSensitive => 1 end.
Definition mask_u8 (m : InterruptMask) : Z := match m with Unmasked => 0 | Masked => 1 end.

(** [mem::transmute] from [u8]: a value that is no discriminant is undefined
    behaviour. *)
Definition delivery_mode_of (x : Z) : outcome DeliveryMode :=
  match x with
  | 0 => Ret Fixed | 1 => Ret LowestPriority | 2 => Ret SystemManaged | 4 => Ret NMI
  | 5 => Ret INIT | 7 => Ret External
  | _ => Undef "transmute to an invalid DeliveryMode"
  end.
Definition two_of {A} (a b : A) (x : Z) : outcome A :=
  match x with 0 => Ret a | 1 => Ret b | _ => Undef "transmute to an invalid discriminant" end.

Definition destination_new (mode : DestinationMode) (value : Z) : DestinationField :=
  match mode with
  | Physical => PhysicalApicId (Z.land value 15)
  | Logical => LogicalSetOfProcessors value
  end.
Definition destination_as_u8 (self : DestinationField) : Z :=
  match self with PhysicalApicId val => val | LogicalSetOfProcessors val => val end.

Definition as_u8 (self : IOApicRegister) : outcome Z :=
  match self with
  | Id => mret 0
  | Version => mret 1
  | ArbitrationId => mret 2
  | RedirectionEntry ent => twice ← mul_u 8 ent 2; add_u 8 0x10 twice
  | ManuallySpecified ent => mret ent
  end.

Definition second_part_redir (self : IOApicRegister) : outcome IOApicRegister :=
  r ← as_u8 self; r ← add_u 8 r 1; mret (ManuallySpecified r).

(** ** Register access *)

Section Access.
Context {D : Type} `{!IoApicDevice D}.

(** An index of the mapped [[u32; 256]]. *)
Definition offset_to_addr (offset : Z) : outcome Z :=
  assert_that ((0 <=? offset) && (offset <? 256)) "index out of bounds";; mret offset.

Definition select_register (d : D) (reg : IOApicRegister) : outcome D :=
  addr ← offset_to_addr 0; r ← as_u8 reg; mret (mmio_write d addr r).

Definition read_u32 (d : D) (reg : IOApicRegister) : outcome (Z * D) :=
  d ← select_register d reg; addr ← offset_to_addr 4; mret (mmio_read d addr).

Definition write_u32 (d : D) (reg : IOApicRegister) (value : Z) : outcome D :=
  d ← select_register d reg; addr ← offset_to_addr 4; mret (mmio_write d addr value).

Definition is_redirection_entry (reg : IOApicRegister) : bool :=
  match reg with RedirectionEntry _ => true | _ => false end.

Definition read_u64 (d : D) (reg : IOApicRegister) : outcome (Z * D) :=
  assert_that (is_redirection_entry reg) "not a redirection entry";;
  '(lo, d) ← read_u32 d reg;
  second ← second_part_redir reg;
  '(hi, d) ← read_u32 d second;
  mret (Z.lor lo (Z.shiftl hi 32), d).

Definition write_u64 (d : D) (reg : IOApicRegister) (value : Z) : outcome D :=
  assert_that (is_redirection_entry reg) "not a redirection entry";;
  let lo := Z.land value 0xFFFFFFFF in
  let hi := Z.land (Z.shiftr value 32) 0xFFFFFFFF in
  d ← write_u32 d reg lo;
  second ← second_part_redir reg;
  write_u32 d second hi.

Definition read_version (d : D) : outcome (Z * D) :=
  '(v, d) ← read_u32 d Version; mret (Z.land v 0xFF, d).

Definition read_redirection_entry_count (d : D) : outcome (Z * D) :=
  '(v, d) ← read_u32 d Version; mret (Z.land (Z.shiftr v 16) 0xFF, d).

(** ** Redirection entries *)

(** The unpacking of the 64-bit entry in [read_entry]. *)
Definition decode (value : Z) : outcome IOApicRedirectionEntry :=
  let bit n := Z.land (Z.shiftr value n) 1 in
  destination_mode ← two_of Physical Logical (bit 11);
  let destination := destination_new destination_mode (Z.land (Z.shiftr value 56) 255) in
  delivery_mode ← delivery_mode_of (Z.land (Z.shiftr value 8) 7);
  delivery_status ← two_of Idle SentPending (bit 12);
  polarity ← two_of HighActive LowActive (bit 13);
  remote_irr ← two_of false true (bit 14);
  trigger_mode ← two_of EdgeSensitive LevelSensitive (bit 15);
  mask ← two_of Unmasked Masked (bit 16);
  mret (mk_entry (Z.land value 0xFF) delivery_mode destination_mode delivery_status polarity
    remote_irr trigger_mode mask destination).

Definition read_entry (self : IOApic) (d : D) (index : Z) : outcome (IOApicRedirectionEntry * D) :=
  assert_that (index <? redirection_entry_count self) "Redirection Entry falls outside the entries";;
  '(value, d) ← read_u64 d (RedirectionEntry index);
  entry ← decode value;
  mret (entry, d).

(** The two words [write_entry] packs. *)
Definition value_lo (entry : IOApicRedirectionEntry) : Z :=
  Z.lor (Z.lor (Z.lor (Z.lor (Z.lor (Z.lor (Z.lor (vector entry)
    (Z.shiftl (delivery_mode_u8 (delivery_mode entry)) 8))
    (Z.shiftl (destination_mode_u8 (destination_mode entry)) 11))
    (Z.shiftl (delivery_status_u8 (delivery_status entry)) 12))
    (Z.shiftl (polarity_u8 (polarity entry)) 13))
    (Z.shiftl (Z.b2z (remote_irr entry)) 14))
    (Z.shiftl (trigger_mode_u8 (trigger_mode entry)) 15))
    (Z.shiftl (mask_u8 (mask entry)) 16).
Definition value_hi (entry : IOApicRedirectionEntry) : Z :=
  wrap 32 (Z.shiftl (destination_as_u8 (destination entry)) 24).

Definition write_entry (self : IOApic) (d : D) (index : Z) (entry : IOApicRedirectionEntry) :
    outcome D :=
  assert_that (index <? redirection_entry_count self) "Redirection Entry falls outside the entries";;
  d ← write_u32 d (RedirectionEntry index) (value_lo entry);
  second ← second_part_redir (RedirectionEntry index);
  write_u32 d second (value_hi entry).

Definition route (entry : IOApicRedirectionEntry) (vector : InterruptIndex) : IOApicRedirectionEntry :=
  mk_entry (interrupt_as_u8 vector) (delivery_mode entry) (destination_mode entry)
    (delivery_status entry) (polarity entry) (remote_irr entry) (trigger_mode entry)
    Unmasked (destination entry).

Definition map (self : IOApic) (d : D) (index : Z) (vector : InterruptIndex) : outcome D :=
  '(entry, d) ← read_entry self d index;
  write_entry self d index (route entry vector).

Fixpoint map_from (self : IOApic) (d : D) (index : Z) (n : nat) : outcome D :=
  match n with
  | O => mret d
  | S n =>
      '(entry, d) ← read_entry self d index;
      d ← write_entry self d index (route entry SpuriousIoApic);
      map_from self d (index + 1) n
  end.

Definition map_all_to_spurious_vectors (self : IOApic) (d : D) : outcome D :=
  map_from self d 0 (Z.to_nat (redirection_entry_count self)).

(** The dump of all entries at the end of [initialize]. *)
Fixpoint dump_from (self : IOApic) (d : D) (index : Z) (n : nat) : outcome D :=
  match n with
  | O => mret d
  | S n => '(_, d) ← read_entry self d index; dump_from self d (index + 1) n
  end.

Definition initialize (self : IOApic) (d : D) : outcome D :=
  '(_, d) ← read_version d;
  d ← map self d 2 SpuriousIoApic;
  d ← map_all_to_spurious_vectors self d;
  dump_from self d 0 (Z.to_nat (redirection_entry_count self)).

(** ** The published instance *)

Definition publish (self : IOApic) : option IOApic := Some self.

Definition with_ (instance : option IOApic) (f : IOApic → D → outcome D) (d : D) : outcome D :=
  match instance with
  | None => mret d
  | Some instance => f instance d
  end.

Definition dump_debug_info (instance : option IOApic) (d : D) : outcome D :=
  with_ instance (λ this d, '(_, d) ← read_entry this d 2; mret d) d.

(** The write to [end_of_interrupt_addr] goes to the local APIC, the memory [l]. *)
Definition end_of_interrupt {L} (write_volatile : L → Z → Z → L) (instance : option IOApic)
    (d : D) (l : L) : outcome (D * L) :=
  d ← dump_debug_info instance d;
  let l := match instance with
           | None => l
           | Some this => write_volatile l (end_of_interrupt_addr this) 0
           end in
  d ← dump_debug_info instance d;
  mret (d, l).
End Access.

(** ** Construction *)

Fixpoint find_io_apic_entry (entries : list MadtEntry) : option Z :=
  match entries with
  | [] => None
  | MadtIoApic addr :: _ => Some addr
  | _ :: entries => find_io_apic_entry entries
  end.

Definition find_io_apic_base (madt : option (list MadtEntry)) : option Z :=
  entries ← madt; find_io_apic_entry entries.

Section New.
Context {D : Type} `{!IoApicDevice D} `{!X86Addr} {M : Type} `{!Mapper M}.

Definition from_addr (k : Kmem M) (d : D) (addr eoi_addr : Z) : outcome (IOApic * Kmem M * D) :=
  '(mapping, k) ← map_physical_region k addr 0x400;
  assert_that (addr `mod` 4096 =? 0) "assertion failed: addr.as_u64() % 4096 == 0";;
  '(count, d) ← read_redirection_entry_count d;
  count ← add_u 8 count 1;
  assert_that (negb (count =? 0)) "assertion failed: redirection_entry_count != 0";;
  mret (mk_ioapic mapping count eoi_addr, k, d).

Definition new (k : Kmem M) (d : D) (madt : option (list MadtEntry)) (eoi_addr : Z) :
    outcome (IOApic * Kmem M * D) :=
  addr ← expect "NO IOAPIC FOUND :(" (find_io_apic_base madt);
  from_addr k d addr eoi_addr.
End New.

(** ** Bit fields of an entry *)

Lemma field_ext a b k n m : 0 ≤ k → 0 ≤ n → m = 2 ^ n - 1 →
  (∀ i, k ≤ i < k + n → Z.testbit a i = Z.testbit b i) →
  Z.land (Z.shiftr a k) m = Z.land (Z.shiftr b k) m.
Proof.
  intros Hk Hn -> Hbits. apply Z.bits_inj'. intros i Hi.
  rewrite !Z.land_spec, !Z.shiftr_spec by done.
  replace (2 ^ n - 1) with (Z.ones n) by (rewrite Z.ones_equiv; lia).
  destruct (decide (i < n)).
  - rewrite Hbits by lia. done.
  - by rewrite Z.ones_spec_high, !andb_false_r by lia.
Qed.

Lemma bit_field a n : 0 ≤ n → Z.land (Z.shiftr a n) 1 = Z.b2z (Z.testbit a n).
Proof.
  intros Hn. rewrite (land_mask_mod _ 1) by done. rewrite shiftr_div by done.
  by rewrite Z.testbit_spec'.
Qed.

Lemma two_of_bit {A} (a b : A) (t : bool) : two_of a b (Z.b2z t) = Ret (if t then b else a).
Proof. by destruct t. Qed.

Definition entry_wf (e : IOApicRedirectionEntry) : Prop :=
  in_u 8 (vector e) ∧ in_u 8 (destination_as_u8 (destination e)).

Lemma entry_bounds e :
  0 ≤ delivery_mode_u8 (delivery_mode e) ≤ 7 ∧ 0 ≤ destination_mode_u8 (destination_mode e) ≤ 1 ∧
  0 ≤ delivery_status_u8 (delivery_status e) ≤ 1 ∧ 0 ≤ polarity_u8 (polarity e) ≤ 1 ∧
  0 ≤ Z.b2z (remote_irr e) ≤ 1 ∧ 0 ≤ trigger_mode_u8 (trigger_mode e) ≤ 1 ∧
  0 ≤ mask_u8 (mask e) ≤ 1.
Proof. destruct e as [v [] [] [] [] [] [] [] dst]; simpl; lia. Qed.

Lemma value_lo_sum e : entry_wf e →
  value_lo e = vector e + delivery_mode_u8 (delivery_mode e) * 2 ^ 8 +
    destination_mode_u8 (destination_mode e) * 2 ^ 11 +
    delivery_status_u8 (delivery_status e) * 2 ^ 12 + polarity_u8 (polarity e) * 2 ^ 13 +
    Z.b2z (remote_irr e) * 2 ^ 14 + trigger_mode_u8 (trigger_mode e) * 2 ^ 15 +
    mask_u8 (mask e) * 2 ^ 16.
Proof.
  intros [Hv _]. unfold value_lo. unfold_u.
  destruct (entry_bounds e) as (? & ? & ? & ? & ? & ? & ?).
  rewrite (lor_shiftl_add _ _ 8), (lor_shiftl_add _ _ 11), (lor_shiftl_add _ _ 12),
    (lor_shiftl_add _ _ 13), (lor_shiftl_add _ _ 14), (lor_shiftl_add _ _ 15),
    (lor_shiftl_add _ _ 16) by (norm_pow; lia).
  done.
Qed.

(** The fields of the packed low word. *)
Lemma value_lo_fields e : entry_wf e →
  Z.land (value_lo e) 0xFF = vector e ∧
  Z.land (Z.shiftr (value_lo e) 8) 7 = delivery_mode_u8 (delivery_mode e) ∧
  Z.land (Z.shiftr (value_lo e) 11) 1 = destination_mode_u8 (destination_mode e) ∧
  Z.land (Z.shiftr (value_lo e) 13) 1 = polarity_u8 (polarity e) ∧
  Z.land (Z.shiftr (value_lo e) 15) 1 = trigger_mode_u8 (trigger_mode e) ∧
  Z.land (Z.shiftr (value_lo e) 16) 1 = mask_u8 (mask e).
Proof.
  intros Hwf. rewrite (value_lo_sum e Hwf). destruct Hwf as [Hv _]. unfold_u.
  rewrite !shiftr_div by done.
  rewrite (land_mask_mod _ 8), (land_mask_mod _ 3), !(land_mask_mod _ 1) by done.
  destruct (entry_bounds e) as (? & ? & ? & ? & ? & ? & ?).
  norm_pow.
  repeat split; zdm.
Qed.

(** What the chip shows after [e] is written over an entry whose packed value was
    [old]: its own status bits, and the destination cut to the mode's width. *)
Definition settle (old : Z) (e : IOApicRedirectionEntry) : IOApicRedirectionEntry :=
  mk_entry (vector e) (delivery_mode e) (destination_mode e)
    (if Z.testbit old 12 then SentPending else Idle) (polarity e) (Z.testbit old 14)
    (trigger_mode e) (mask e)
    (destination_new (destination_mode e) (destination_as_u8 (destination e))).

Lemma delivery_mode_of_u8 m : delivery_mode_of (delivery_mode_u8 m) = Ret m.
Proof. by destruct m. Qed.

(** A value with the bits of [e], its status bits apart, decodes to [e]. *)
Lemma decode_settled e v : entry_wf e →
  (∀ i, 0 ≤ i ≤ 16 → chip_bit i = false → Z.testbit v i = Z.testbit (value_lo e) i) →
  (∀ i, 24 ≤ i < 32 → Z.testbit v (32 + i) = Z.testbit (value_hi e) i) →
  decode v = Ret (settle v e).
Proof.
  intros Hwf Hlo Hhi. destruct (value_lo_fields e Hwf) as (Fv & Fd & Fm & Fp & Ft & Fk).
  assert (∀ i, chip_bit i = false ↔ i ≠ 12 ∧ i ≠ 14) as Hchip.
  { intros i. unfold chip_bit. rewrite orb_false_iff, !Z.eqb_neq. done. }
  assert (∀ k n m, 0 ≤ k → 0 ≤ n → m = 2 ^ n - 1 → k + n ≤ 17 → ¬ (k ≤ 12 < k + n) →
    ¬ (k ≤ 14 < k + n) → Z.land (Z.shiftr v k) m = Z.land (Z.shiftr (value_lo e) k) m) as Hfield.
  { intros k n m Hk Hn Hm Hkn H12 H14. eapply field_ext; [done..|]. intros i Hi.
    apply Hlo; [lia|]. apply Hchip. lia. }
  assert (Z.land v 255 = vector e) as Hvec.
  { rewrite <-Fv. rewrite <-(Z.shiftr_0_r v), <-(Z.shiftr_0_r (value_lo e)).
    apply (Hfield 0 8); (done || lia). }
  assert (Z.land (Z.shiftr v 56) 255 = destination_as_u8 (destination e)) as Hdst.
  { transitivity (Z.land (Z.shiftr (value_hi e) 24) 255).
    - apply Z.bits_inj'. intros i Hi. rewrite !Z.land_spec, !Z.shiftr_spec by done.
      destruct (decide (i < 8)).
      + rewrite <-Hhi by lia. do 2 f_equal. lia.
      + change 255 with (Z.ones 8). by rewrite Z.ones_spec_high, !andb_false_r by lia.
    - destruct Hwf as [_ Hd]. unfold value_hi, wrap. rewrite (land_mask_mod _ 8) by done.
      rewrite shiftr_div, Z.shiftl_mul_pow2 by done. unfold_u. norm_pow. zdm. }
  unfold decode. rewrite Hdst, Hvec, !(bit_field v 12), !(bit_field v 14) by done.
  rewrite (Hfield 11 1), (Hfield 8 3), (Hfield 13 1), (Hfield 15 1), (Hfield 16 1) by (done || lia).
  rewrite Fm, Fd, Fp, Ft, Fk, delivery_mode_of_u8, !two_of_bit.
  destruct e as [v' dm [] ds [] irr [] [] dst]; unfold settle; cbn -[Z.land Z.testbit];
    by destruct (Z.testbit v 14).
Qed.

(** Reading back what was read changes nothing. *)
Lemma settle_decoded v e : decode v = Ret e → settle v e = e ∧ entry_wf e.
Proof.
  assert (in_u 8 (Z.land (Z.shiftr v 56) 255)) as Hd.
  { rewrite (land_mask_mod _ 8) by done. by apply (wrap_in 8). }
  assert (in_u 8 (Z.land v 255)) as Hv.
  { rewrite (land_mask_mod _ 8) by done. by apply (wrap_in 8). }
  unfold decode, settle. intros He. rewrite !bit_field, !two_of_bit in He by done.
  destruct (delivery_mode_of _) as [dm| |]; [|done..]. revert He.
  generalize (Z.testbit v 11) (Z.testbit v 12) (Z.testbit v 13) (Z.testbit v 14)
    (Z.testbit v 15) (Z.testbit v 16).
  intros t11 t12 t13 t14 t15 t16 He. injection He as <-. unfold entry_wf. cbn -[Z.land Z.shiftr].
  destruct t11, t14; cbn -[Z.land Z.shiftr]; try done.
  all: rewrite !(land_mask_mod _ 4 15), Zmod_mod by done; split; [done|]; split; [done|].
  all: unfold_u; norm_pow.
  all: pose proof (Z.mod_pos_bound (Z.land (Z.shiftr v 56) 255) 16 ltac:(done)); lia.
Qed.

(** ** Reading and writing the table *)

Section Table.
Context {D : Type} `{!IoApicDevice D} {sel : D → Z} {reg : D → Z → Z}.
Context {laws : IoApicLaws D sel reg}.

(** The 64-bit entry in the chip's registers, and what it says. *)
Definition entry_value (d : D) (index : Z) : Z :=
  Z.lor (reg d (0x10 + 2 * index)) (Z.shiftl (reg d (0x10 + 2 * index + 1)) 32).
Definition entry_at (d : D) (index : Z) : outcome IOApicRedirectionEntry :=
  decode (entry_value d index).

Lemma entry_value_low d index i : i < 32 →
  Z.testbit (entry_value d index) i = Z.testbit (reg d (0x10 + 2 * index)) i.
Proof.
  intros Hi. unfold entry_value. rewrite Z.lor_spec.
  destruct (decide (0 ≤ i)); [|by rewrite !Z.testbit_neg_r by lia].
  by rewrite Z.shiftl_spec_low, orb_false_r by lia.
Qed.

Lemma entry_value_high d index i : 0 ≤ i →
  Z.testbit (entry_value d index) (32 + i) = Z.testbit (reg d (0x10 + 2 * index + 1)) i.
Proof using laws.
  intros Hi. unfold entry_value. rewrite Z.lor_spec, Z.shiftl_spec by lia.
  pose proof (reg_u32 d (0x10 + 2 * index)) as [Hlo Hhi].
  rewrite (Z.bits_above_log2 (reg d (0x10 + 2 * index))); [|done|].
  - simpl. f_equal. lia.
  - destruct (decide (reg d (0x10 + 2 * index) = 0)) as [->|Hne]; [simpl; lia|].
    apply Z.log2_lt_pow2; [lia|]. eapply Z.lt_le_trans; [exact Hhi|].
    apply Z.pow_le_mono_r; lia.
Qed.

Lemma entry_value_ext d d' index :
  reg d' (0x10 + 2 * index) = reg d (0x10 + 2 * index) →
  reg d' (0x10 + 2 * index + 1) = reg d (0x10 + 2 * index + 1) →
  entry_value d' index = entry_value d index.
Proof. unfold entry_value. by intros -> ->. Qed.

Lemma as_u8_entry index : 0 ≤ index < 120 → as_u8 (RedirectionEntry index) = Ret (0x10 + 2 * index).
Proof.
  intros Hi. unfold as_u8. run_u. simpl.
  run_u. f_equal. lia.
Qed.

Lemma second_part_entry index : 0 ≤ index < 120 →
  second_part_redir (RedirectionEntry index) = Ret (ManuallySpecified (0x10 + 2 * index + 1)).
Proof.
  intros Hi. unfold second_part_redir. rewrite as_u8_entry by done. simpl.
  by run_u.
Qed.

Lemma read_u32_run d r n : as_u8 r = Ret n → in_u 8 n →
  ∃ d', read_u32 d r = Ret (reg d n, d') ∧ ∀ r', reg d' r' = reg d r'.
Proof using laws.
  intros Hr Hn. unfold read_u32, select_register. simpl. rewrite Hr. simpl.
  exists (mmio_read (mmio_write d 0 n) 4).2. split.
  - rewrite (surjective_pairing (mmio_read _ _)) at 1.
    by rewrite window_read, select_sel, select_reg by done.
  - intros r'. by rewrite window_read_reg, select_reg.
Qed.

Lemma write_u32_run d r n v : as_u8 r = Ret n → in_u 8 n →
  ∃ d1, write_u32 d r v = Ret (mmio_write d1 4 v) ∧ sel d1 = n ∧ ∀ r', reg d1 r' = reg d r'.
Proof using laws.
  intros Hr Hn. unfold write_u32, select_register. simpl. rewrite Hr. simpl.
  exists (mmio_write d 0 n). split; [done|]. split; [by apply select_sel|]. intros. apply select_reg.
Qed.

Lemma read_entry_run self d index :
  0 ≤ index < redirection_entry_count self → redirection_entry_count self ≤ 120 →
  ∃ d', read_entry self d index = (e ← entry_at d index; mret (e, d')) ∧
    ∀ r, reg d' r = reg d r.
Proof using laws.
  intros Hi Hc. unfold read_entry. rewrite (proj2 (Z.ltb_lt _ _)) by lia. cbn [assert_that mbind outcome_bind].
  unfold read_u64. cbn [is_redirection_entry assert_that mbind outcome_bind]. rewrite second_part_entry by lia.
  destruct (read_u32_run d (RedirectionEntry index) (0x10 + 2 * index)) as (d1 & -> & H1);
    [apply as_u8_entry; lia|unfold_u; lia|]. run_bind.
  destruct (read_u32_run d1 (ManuallySpecified (0x10 + 2 * index + 1)) (0x10 + 2 * index + 1))
    as (d2 & -> & H2); [done|unfold_u; lia|]. run_bind.
  exists d2. split; [by rewrite H1|]. intros r. by rewrite H2, H1.
Qed.

Lemma write_entry_run self d index e :
  0 ≤ index < redirection_entry_count self → redirection_entry_count self ≤ 120 → entry_wf e →
  ∃ d', write_entry self d index e = Ret d' ∧
    entry_at d' index = Ret (settle (entry_value d index) e) ∧
    ∀ r, r ≠ 0x10 + 2 * index → r ≠ 0x10 + 2 * index + 1 → reg d' r = reg d r.
Proof using laws.
  intros Hi Hc Hwf. unfold write_entry. rewrite (proj2 (Z.ltb_lt _ _)) by lia. simpl mbind.
  rewrite second_part_entry by lia.
  destruct (write_u32_run d (RedirectionEntry index) (0x10 + 2 * index) (value_lo e))
    as (d1 & -> & Hs1 & H1); [apply as_u8_entry; lia|unfold_u; lia|]. simpl mbind.
  set (d2 := mmio_write d1 4 (value_lo e)).
  destruct (write_u32_run d2 (ManuallySpecified (0x10 + 2 * index + 1)) (0x10 + 2 * index + 1) (value_hi e))
    as (d3 & -> & Hs3 & H3); [done|unfold_u; lia|].
  set (d4 := mmio_write d3 4 (value_hi e)). exists d4. split; [done|].
  assert (∀ r, r ≠ 0x10 + 2 * index + 1 → reg d4 r = reg d2 r) as H4.
  { intros r Hr. unfold d4. rewrite window_write_other by congruence. apply H3. }
  assert (∀ i, i < 32 → 0 ≤ i → Z.testbit (entry_value d4 index) i =
    if chip_bit i then Z.testbit (entry_value d index) i else (i <=? 16) && Z.testbit (value_lo e) i) as Hlow.
  { intros i Hi32 Hi0. rewrite !entry_value_low, H4 by lia. unfold d2. rewrite <-Hs1.
    rewrite (window_write_low d1 (value_lo e) index i), H1 by lia. by rewrite Hs1. }
  split; [|intros r Hr1 Hr2; rewrite H4 by done; unfold d2; rewrite window_write_other by congruence; apply H1].
  unfold entry_at. rewrite (decode_settled e).
  - unfold settle. by rewrite !Hlow by lia.
  - done.
  - intros i Hi' Hchip. rewrite Hlow, Hchip by lia. by rewrite (proj2 (Z.leb_le i 16)) by lia.
  - intros i Hi'. rewrite entry_value_high by lia. unfold d4. rewrite <-Hs3.
    rewrite (window_write_high d3 (value_hi e) index i) by lia.
    by rewrite (proj2 (Z.leb_le 24 i)), (proj2 (Z.ltb_lt i 32)) by lia.
Qed.

Lemma settle_route v e k : decode v = Ret e → settle v (route e k) = route e k ∧ entry_wf (route e k).
Proof.
  intros He. destruct (settle_decoded v e He) as [Hs [Hv Hd]]. split.
  - unfold settle, route in *. destruct e. cbn [vector delivery_mode destination_mode delivery_status
      polarity remote_irr trigger_mode mask destination] in *. congruence.
  - split; [by destruct k|done].
Qed.

Lemma map_run self d index e k :
  0 ≤ index < redirection_entry_count self → redirection_entry_count self ≤ 120 →
  entry_at d index = Ret e →
  ∃ d', map self d index k = Ret d' ∧ entry_at d' index = Ret (route e k) ∧
    ∀ j, j ≠ index → entry_value d' j = entry_value d j.
Proof using laws.
  intros Hi Hc He. unfold map.
  destruct (read_entry_run self d index Hi Hc) as (d1 & -> & H1). rewrite He. cbn [mbind outcome_bind mret outcome_ret].
  assert (∀ j, entry_value d1 j = entry_value d j) as Hv1 by (intros j; by apply entry_value_ext).
  destruct (settle_route _ e k He) as [Hset Hwf].
  destruct (write_entry_run self d1 index (route e k) Hi Hc Hwf) as (d2 & -> & H2 & Hoth).
  exists d2. split; [done|]. split; [by rewrite H2, Hv1, Hset|]. intros j Hj.
  rewrite <-Hv1. apply entry_value_ext; apply Hoth; lia.
Qed.

Lemma map_from_run self n : ∀ d index,
  0 ≤ index → index + Z.of_nat n ≤ redirection_entry_count self →
  redirection_entry_count self ≤ 120 →
  (∀ j, index ≤ j < index + Z.of_nat n → ∃ e, entry_at d j = Ret e) →
  ∃ d', map_from self d index n = Ret d' ∧
    (∀ j e, index ≤ j < index + Z.of_nat n → entry_at d j = Ret e →
      entry_at d' j = Ret (route e SpuriousIoApic)) ∧
    ∀ j, ¬ (index ≤ j < index + Z.of_nat n) → entry_value d' j = entry_value d j.
Proof using laws.
  induction n as [|n IH]; intros d index Hi Hn Hc Hall.
  { exists d. split; [done|]. split; [lia|done]. }
  destruct (Hall index) as [e He]; [lia|].
  destruct (map_run self d index e SpuriousIoApic) as (d1 & Hmap & Hat & Hoth); [lia|done..|].
  destruct (IH d1 (index + 1)) as (d2 & Hrun & Hin & Hout); [lia..| |].
  { intros j Hj. unfold entry_at. rewrite Hoth by lia. apply Hall. lia. }
  exists d2. split; [|split].
  - unfold map in Hmap. simpl map_from. destruct (read_entry self d index) as [[e' d']| |]; [|done..].
    run_bind in Hmap. run_bind. rewrite Hmap. exact Hrun.
  - intros j e' Hj He'. destruct (decide (j = index)) as [->|Hne].
    + unfold entry_at. rewrite Hout by lia. rewrite He in He'. by injection He' as <-.
    + apply Hin; [lia|]. unfold entry_at. by rewrite Hoth by done.
  - intros j Hj. rewrite Hout by lia. apply Hoth. lia.
Qed.

Lemma dump_from_run self n : ∀ d index,
  0 ≤ index → index + Z.of_nat n ≤ redirection_entry_count self →
  redirection_entry_count self ≤ 120 →
  (∀ j, index ≤ j < index + Z.of_nat n → ∃ e, entry_at d j = Ret e) →
  ∃ d', dump_from self d index n = Ret d' ∧ ∀ j, entry_value d' j = entry_value d j.
Proof using laws.
  induction n as [|n IH]; intros d index Hi Hn Hc Hall; simpl dump_from; [by eauto|].
  destruct (read_entry_run self d index) as (d1 & -> & H1); [lia..|].
  assert (∀ j, entry_value d1 j = entry_value d j) as Hv1 by (intros j; by apply entry_value_ext).
  destruct (Hall index) as [e ->]; [lia|]. cbn [mbind outcome_bind mret outcome_ret].
  destruct (IH d1 (index + 1)) as (d2 & -> & H2); [lia..| |].
  { intros j Hj. unfold entry_at. rewrite Hv1. apply Hall. lia. }
  exists d2. split; [done|]. intros j. by rewrite H2, Hv1.
Qed.

Lemma read_version_run d :
  ∃ v d', read_version d = Ret (v, d') ∧ ∀ j, entry_value d' j = entry_value d j.
Proof using laws.
  unfold read_version. destruct (read_u32_run d Version 1) as (d' & -> & H1); [done..|].
  eexists _, d'. split; [done|]. intros j. by apply entry_value_ext.
Qed.
End Table.

(** ** Properties *)

(** C23: On a chip with at most 120 entries, writing a redirection entry and reading it back gives the entry, with the
    status bits the chip owns unchanged and the destination cut to four bits in
    physical mode; no other register of the chip changes. *)
Theorem write_read_entry {D} `{!IoApicDevice D} sel reg (self : IOApic) (d : D) index e
    (Hlaws : IoApicLaws D sel reg) (Hi : 0 ≤ index < redirection_entry_count self)
    (Hc : redirection_entry_count self ≤ 120) (Hwf : entry_wf e) :
  ∃ d1 d2, write_entry self d index e = Ret d1 ∧
    read_entry self d1 index = Ret (settle (entry_value (reg := reg) d index) e, d2) ∧
    ∀ r, r ≠ 0x10 + 2 * index → r ≠ 0x10 + 2 * index + 1 → reg d2 r = reg d r.
Proof.
  destruct (write_entry_run self d index e Hi Hc Hwf) as (d1 & Hw & Hat & Hoth).
  destruct (read_entry_run self d1 index Hi Hc) as (d2 & Hr & Hsame).
  exists d1, d2. split; [done|]. rewrite Hr, Hat. split; [done|].
  intros r H1 H2. rewrite Hsame. auto.
Qed.

Lemma initialize_run {D} `{!IoApicDevice D} sel reg (self : IOApic) (d : D)
    (Hlaws : IoApicLaws D sel reg) (Hc : 3 ≤ redirection_entry_count self ≤ 120)
    (Hvalid : ∀ j, 0 ≤ j < redirection_entry_count self → ∃ e, entry_at (reg := reg) d j = Ret e) :
  ∃ d', initialize self d = Ret d' ∧
    (∀ j e, 0 ≤ j < redirection_entry_count self → entry_at (reg := reg) d j = Ret e →
      entry_at (reg := reg) d' j = Ret (route e SpuriousIoApic)) ∧
    ∀ j, redirection_entry_count self ≤ j → entry_value (reg := reg) d' j = entry_value (reg := reg) d j.
Proof.
  unfold initialize. destruct (read_version_run d) as (v & d1 & -> & H1). run_bind.
  assert (∀ j, entry_at (reg := reg) d1 j = entry_at (reg := reg) d j) as Hat1
    by (intros j; unfold entry_at; by rewrite H1).
  destruct (Hvalid 2) as [e2 He2]; [lia|]. rewrite <-Hat1 in He2.
  destruct (map_run self d1 2 e2 SpuriousIoApic) as (d2 & -> & H2 & Hoth2); [lia..|done|].
  run_bind. unfold map_all_to_spurious_vectors.
  assert (∀ j, 0 ≤ j < redirection_entry_count self →
    ∃ e, entry_at (reg := reg) d2 j = Ret e) as Hvalid2.
  { intros j Hj. destruct (decide (j = 2)) as [->|Hne]; [by eauto|].
    destruct (Hvalid j Hj) as [e He]. exists e. unfold entry_at. rewrite Hoth2, H1 by done. exact He. }
  destruct (map_from_run self (Z.to_nat (redirection_entry_count self)) d2 0)
    as (d3 & -> & Hin & Hout); [lia..| |].
  { intros j Hj. apply Hvalid2. lia. }
  run_bind.
  destruct (dump_from_run self (Z.to_nat (redirection_entry_count self)) d3 0) as (d4 & -> & H4); [lia..| |].
  { intros j Hj. destruct (Hvalid2 j) as [e He]; [lia|]. eexists. apply Hin; [lia|done]. }
  exists d4. split; [done|]. split.
  - intros j e Hj He. unfold entry_at at 1. rewrite H4. fold (entry_at (reg := reg) d3 j).
    destruct (decide (j = 2)) as [->|Hne].
    + rewrite (Hin 2 _ ltac:(lia) H2). by rewrite Hat1, He in He2; injection He2 as ->.
    + apply Hin; [lia|]. unfold entry_at. rewrite Hoth2, H1 by done. exact He.
  - intros j Hj. rewrite H4, Hout, Hoth2, H1 by lia. done.
Qed.

(** C24: [initialize] routes every line of an I/O APIC with 3 to 120 entries, the timer's
    and the keyboard's included, unmasked to the spurious vector 39, and keeps the rest of
    each entry, if all of them can be decoded; it touches no entry beyond the chip's. *)
Theorem initialize_routes_all {D} `{!IoApicDevice D} sel reg (self : IOApic) (d : D)
    (Hlaws : IoApicLaws D sel reg) (Hc : 3 ≤ redirection_entry_count self ≤ 120)
    (Hvalid : ∀ j, 0 ≤ j < redirection_entry_count self → ∃ e, entry_at (reg := reg) d j = Ret e) :
  ∃ d', initialize self d = Ret d' ∧
    (∀ j e, 0 ≤ j < redirection_entry_count self → entry_at (reg := reg) d j = Ret e →
      entry_at (reg := reg) d' j = Ret (route e SpuriousIoApic)) ∧
    ∀ j, redirection_entry_count self ≤ j → entry_value (reg := reg) d' j = entry_value (reg := reg) d j.
Proof. by apply (initialize_run sel reg). Qed.

(** ** Witnesses: a chip with three entries *)

Record chip := mk_chip { chip_sel : Z; chip_store : Z → Z }.

Definition chip_window (r old v : Z) : Z :=
  if r <? 0x10 then old
  else if Z.even r then Z.lor (Z.land v 0x1AFFF) (Z.land old 0x5000)
  else Z.land v 0xFF000000.

#[local] Instance chip_device : IoApicDevice chip := {|
  mmio_read d i :=
    (if i =? 4 then wrap 32 (chip_store d (chip_sel d)) else chip_sel d, d);
  mmio_write d i v :=
    if i =? 0 then mk_chip (wrap 8 v) (chip_store d)
    else if i =? 4 then
      mk_chip (chip_sel d) (λ r, if r =? chip_sel d then chip_window r (chip_store d r) v
                                 else chip_store d r)
    else d;
|}.

Definition chip_reg (d : chip) (r : Z) : Z := wrap 32 (chip_store d r).

(** A statement about the bits of a word, checked bit by bit. *)
Lemma bits_below (P : Z → bool) n i :
  forallb P (seqZ 0 n) = true → 0 ≤ i < n → P i = true.
Proof.
  rewrite forallb_forall. intros HP Hi. apply HP, list_elem_of_In, elem_of_seqZ. lia.
Qed.

Lemma chip_low_mask i : 0 ≤ i < 32 →
  Z.testbit 0x1AFFF i = (i <=? 16) && negb (chip_bit i) ∧ Z.testbit 0x5000 i = chip_bit i.
Proof.
  intros Hi. split.
  - apply eqb_prop, (bits_below (λ i, Bool.eqb (Z.testbit 0x1AFFF i) ((i <=? 16) && negb (chip_bit i))) 32);
      [by vm_compute|done].
  - apply eqb_prop, (bits_below (λ i, Bool.eqb (Z.testbit 0x5000 i) (chip_bit i)) 32);
      [by vm_compute|done].
Qed.

Lemma chip_high_mask i : 0 ≤ i < 32 → Z.testbit 0xFF000000 i = (24 <=? i) && (i <? 32).
Proof.
  intros Hi. apply eqb_prop,
    (bits_below (λ i, Bool.eqb (Z.testbit 0xFF000000 i) ((24 <=? i) && (i <? 32))) 32);
    [by vm_compute|done].
Qed.

Lemma chip_bit_high i : 17 ≤ i → chip_bit i = false.
Proof. intros Hi. unfold chip_bit. by rewrite !(proj2 (Z.eqb_neq _ _)) by lia. Qed.

Lemma chip_laws : IoApicLaws chip chip_sel chip_reg.
Proof.
  split; simpl; try done.
  - intros d v Hv. by apply wrap_small.
  - intros d v r Hr. unfold chip_reg. simpl. by rewrite (proj2 (Z.eqb_neq _ _)).
  - intros d v ent i Hsel He Hi. unfold chip_reg, chip_window. simpl. rewrite Z.eqb_refl, Hsel.
    rewrite (proj2 (Z.ltb_ge _ _)), Z.even_add_mul_2 by lia. simpl. unfold wrap.
    destruct (decide (i < 32)).
    + rewrite !Z.mod_pow2_bits_low by lia. destruct (chip_low_mask i) as [H1 H2]; [lia|].
      rewrite Z.lor_spec, !Z.land_spec, H1, H2. destruct (chip_bit i); simpl; btauto.
    + rewrite !Z.mod_pow2_bits_high, chip_bit_high by lia.
      by rewrite (proj2 (Z.leb_gt i 16)) by lia.
  - intros d v ent i Hsel He Hi. unfold chip_reg, chip_window. simpl. rewrite Z.eqb_refl, Hsel.
    rewrite (proj2 (Z.ltb_ge _ _)) by lia.
    replace (16 + 2 * ent + 1) with (17 + 2 * ent) by lia. rewrite Z.even_add_mul_2. simpl.
    unfold wrap. destruct (decide (i < 32)).
    + rewrite Z.mod_pow2_bits_low by lia. rewrite Z.land_spec, chip_high_mask by lia. btauto.
    + rewrite Z.mod_pow2_bits_high by lia. by rewrite (proj2 (Z.ltb_ge i 32)), andb_false_r by lia.
  - intros d r. by apply wrap_in.
Qed.

Definition sample_ioapic : IOApic := mk_ioapic (mk_mapping 0xFEC00000 0x1000000000 0x400 0x1000) 3 0.
(** Entries at reset: masked, delivery fixed. *)
Definition sample_chip : chip := mk_chip 0 (λ r, if Z.even r then 0x10000 else 0).
Definition sample_entry : IOApicRedirectionEntry :=
  mk_entry 33 LowestPriority Physical SentPending LowActive true LevelSensitive Unmasked (PhysicalApicId 0x25).

Lemma write_read_entry_witness :
  ∃ d1 d2, write_entry sample_ioapic sample_chip 1 sample_entry = Ret d1 ∧
    read_entry sample_ioapic d1 1 =
      Ret (mk_entry 33 LowestPriority Physical Idle LowActive false LevelSensitive Unmasked
        (PhysicalApicId 5), d2) ∧
    ∀ r, r ≠ 0x12 → r ≠ 0x13 → chip_reg d2 r = chip_reg sample_chip r.
Proof.
  refine (write_read_entry chip_sel chip_reg sample_ioapic sample_chip 1 sample_entry
    chip_laws _ _ _); [done..|]. split; done.
Defined.

Lemma initialize_routes_all_witness :
  ∃ d', initialize sample_ioapic sample_chip = Ret d' ∧
    (∀ j e, 0 ≤ j < 3 → entry_at (reg := chip_reg) sample_chip j = Ret e →
      entry_at (reg := chip_reg) d' j = Ret (route e SpuriousIoApic)) ∧
    ∀ j, 3 ≤ j → entry_value (reg := chip_reg) d' j = entry_value (reg := chip_reg) sample_chip j.
Proof.
  refine (initialize_routes_all chip_sel chip_reg sample_ioapic sample_chip chip_laws _ _); [done|].
  simpl. intros j Hj. assert (j = 0 ∨ j = 1 ∨ j = 2) as [-> | [-> | ->]] by lia;
    eexists; by vm_compute.
Defined.

End IoApic.
