(* ===== verification/LocalApic.v ===== *)
(** * The local APIC: kernel/src/interrupts/apic/local.rs, kernel/src/interrupts/apic/mod.rs

    Finding and mapping the local APIC, its registers and their permissions, the
    packing of a local vector table register, and the initialisation of both
    APICs.  Volatile accesses at virtual addresses are the class [VolatileMem], what was
    written at an address is [VolatileMemLaws]. *)

From S2P Require Import Prelude X86 Memory Paging IoApic.

Class VolatileMem (V : Type) := {
  read_volatile : V → Z → Z * V;
  write_volatile : V → Z → Z → V;
}.

(** [written v a] is what was written last at an address: no other access changes it. *)
Class VolatileMemLaws (V : Type) `{!VolatileMem V} (written : V → Z → Z) : Prop := {
  written_write v a x : written (write_volatile v a x) a = x;
  written_write_other v a x b : b ≠ a → written (write_volatile v a x) b = written v b;
  written_read v a b : written (read_volatile v a).2 b = written v b;
}.

Module LocalApic.

Inductive ApicRegisterPermissions := PermNone | ReadWrite | ReadOnly | WriteOnly.

Inductive LocalApicRegister :=
  Id | Version | TaskPriority | ArbitrationPriority | ProcessorPriority | EndOfInterrupt
| RemoteRead | LogicalDestination | DestinationFormat | SpuriousInterruptVector | ErrorStatus
| LvtCorrectedMachineCheckInterrupt | InterruptCommand1 | InterruptCommand2 | LvtTimer
| LvtLint0 | LvtLint1 | LvtError | InitialCount | CurrentCount | DivideConfiguration.

(** The discriminants: byte offsets in the register page. *)
Definition register_usize (r : LocalApicRegister) : Z :=
  match r with
  | Id => 0x020 | Version => 0x030
  | TaskPriority => 0x080 | ArbitrationPriority => 0x090 | ProcessorPriority => 0x0A0
  | EndOfInterrupt => 0x0B0 | RemoteRead => 0x0C0 | LogicalDestination => 0x0D0
  | DestinationFormat => 0x0E0 | SpuriousInterruptVector => 0x0F0
  | ErrorStatus => 0x280
  | LvtCorrectedMachineCheckInterrupt => 0x2F0
  | InterruptCommand1 => 0x300 | InterruptCommand2 => 0x310
  | LvtTimer => 0x320 | LvtLint0 => 0x350 | LvtLint1 => 0x360 | LvtError => 0x370
  | InitialCount => 0x380 | CurrentCount => 0x390
  | DivideConfiguration => 0x3E0
  end.

Definition permissions (self : LocalApicRegister) : ApicRegisterPermissions :=
  match self with
  | Id => ReadOnly
  | Version => ReadOnly
  | TaskPriority => ReadWrite
  | ArbitrationPriority => ReadOnly
  | ProcessorPriority => ReadOnly
  | EndOfInterrupt => WriteOnly
  | RemoteRead => ReadOnly
  | LogicalDestination => ReadWrite
  | DestinationFormat => ReadWrite
  | SpuriousInterruptVector => ReadWrite
  | ErrorStatus => ReadOnly
  | LvtCorrectedMachineCheckInterrupt => ReadWrite
  | InterruptCommand1 => ReadWrite
  | InterruptCommand2 => ReadWrite
  | LvtTimer => ReadWrite
  | LvtLint0 => ReadWrite
  | LvtLint1 => ReadWrite
  | LvtError => ReadWrite
  | InitialCount => ReadWrite
  | CurrentCount => ReadOnly
  | DivideConfiguration => ReadWrite
  end.

Definition is_readable (self : LocalApicRegister) : bool :=
  match permissions self with
  | ReadOnly => true | ReadWrite => true | PermNone => false | WriteOnly => false
  end.
Definition is_writable (self : LocalApicRegister) : bool :=
  match permissions self with
  | WriteOnly => true | ReadWrite => true | PermNone => false | ReadOnly => false
  end.

(** ** Local vector table registers *)

Inductive VectorDeliveryMode := Fixed | SMI | NMI | ExtInt.
Inductive VectorDeliverStatus := Idle | SendPending.
Inductive VectorTriggerMode := Edge | Level.
Inductive VectorTimerMode := OneShot | Periodic | TscDeadline.

Definition vector_delivery_mode_u8 (m : VectorDeliveryMode) : Z :=
  match m with Fixed => 0 | SMI => 2 | NMI => 4 | ExtInt => 3 end.
Definition vector_deliver_status_u8 (s : VectorDeliverStatus) : Z :=
  match s with Idle => 0 | SendPending => 1 end.
Definition vector_trigger_mode_u8 (t : VectorTriggerMode) : Z :=
  match t with Edge => 0 | Level => 1 end.
Definition vector_timer_mode_u8 (t : VectorTimerMode) : Z :=
  match t with OneShot => 0 | Periodic => 1 | TscDeadline => 2 end.

Record LocalVectorTableRegister := mk_lvt {
  vector : Z;
  delivery_mode : VectorDeliveryMode;
  delivery_status : VectorDeliverStatus;
  is_low_triggered : bool;
  is_remote_irr : bool;
  trigger_mode : VectorTriggerMode;
  is_masked : bool;
  timer_mode : VectorTimerMode;
}.

Definition new_timer (vector : Z) (status : VectorDeliverStatus) (is_masked : bool)
    (mode : VectorTimerMode) : LocalVectorTableRegister :=
  mk_lvt vector NMI status false false Edge is_masked mode.

Definition new_masked_timer : LocalVectorTableRegister := new_timer 0 Idle true Periodic.

Definition as_u32 (self : LocalVectorTableRegister) : Z :=
  let reserved := 0 in
  Z.lor (Z.lor (Z.lor (Z.lor (Z.lor (Z.lor (Z.lor (Z.lor
    (Z.land (vector self) 255)
    (Z.shiftl (Z.land (vector_delivery_mode_u8 (delivery_mode self)) 7) 8))
    (Z.shiftl (Z.land reserved 1) 11))
    (Z.shiftl (Z.land (vector_deliver_status_u8 (delivery_status self)) 1) 12))
    (Z.shiftl (Z.land (Z.b2z (is_low_triggered self)) 1) 13))
    (Z.shiftl (Z.land (Z.b2z (is_remote_irr self)) 1) 14))
    (Z.shiftl (Z.land (vector_trigger_mode_u8 (trigger_mode self)) 1) 15))
    (Z.shiftl (Z.land (Z.b2z (is_masked self)) 1) 16))
    (Z.shiftl (Z.land (vector_timer_mode_u8 (timer_mode self)) 3) 17).

(** ** The driver *)

Record LocalApic := mk_local { mapping : PhysicalMapping }.

Fixpoint find_override (entries : list MadtEntry) : option Z :=
  match entries with
  | [] => None
  | LocalApicAddressOverride addr :: _ => Some addr
  | _ :: entries => find_override entries
  end.

Section Driver.
Context `{!X86Addr} {M : Type} `{!Mapper M} {V : Type} `{!VolatileMem V}.

(** [msr] is the model-specific register IA32_APIC_BASE. *)
Definition find_local_apic_base (madt : option (list MadtEntry)) (msr : Z) : outcome Z :=
  match entries ← madt; find_override entries with
  | Some addr => phys_new addr
  | None => phys_new msr
  end.

Definition set_local_apic_base (msr addr : Z) : Z := addr.

(** Whether the address is in a known region; the code only warns if not. *)
Definition verify_in_correct_region (addr : Z) (regions : list MemoryRegion) : bool :=
  existsb (λ r, (mr_start r <=? addr) && (addr <=? mr_end r)) regions.

(** An index of the mapped [[u8; 0x800]], minus 0x900. *)
Definition offset_to_addr (self : LocalApic) (offset : Z) : outcome Z :=
  assert_that ((0 <=? offset) && (offset <? 0x800)) "index out of bounds";;
  sub_u usize (virtual_start (mapping self) + offset) 0x900.

Definition get_mapped_end (self : LocalApic) : outcome Z :=
  addr ← offset_to_addr self 0;
  add_u usize addr (mapped_length (mapping self)).

Definition ensure_safe_addr (self : LocalApic) (addr : Z) : outcome unit :=
  end_ ← get_mapped_end self;
  assert_that (addr <? end_) "assertion failed: addr < self.get_mapped_end()".

Definition register_to_addr (self : LocalApic) (register : LocalApicRegister) : outcome Z :=
  addr ← offset_to_addr self (register_usize register);
  ensure_safe_addr self addr;;
  mret addr.

Definition read (self : LocalApic) (v : V) (register : LocalApicRegister) : outcome (Z * V) :=
  assert_that (is_readable register) "Register is not readable";;
  addr ← register_to_addr self register;
  mret (read_volatile v addr).

Definition write (self : LocalApic) (v : V) (register : LocalApicRegister) (value : Z) : outcome V :=
  assert_that (is_writable register) "Register is not writable";;
  addr ← register_to_addr self register;
  mret (write_volatile v addr value).

Definition from_addr (k : Kmem M) (msr addr : Z) : outcome (LocalApic * Kmem M * Z) :=
  let msr := set_local_apic_base msr addr in
  '(mapping, k) ← map_physical_region k addr 0x800;
  let this := mk_local mapping in
  _ ← offset_to_addr this 0;
  _ ← get_mapped_end this;
  mret (this, k, msr).

Definition new (k : Kmem M) (madt : option (list MadtEntry)) (msr : Z) (regions : list MemoryRegion) :
    outcome (LocalApic * Kmem M * Z) :=
  addr ← find_local_apic_base madt msr;
  let _ := verify_in_correct_region addr regions in
  from_addr k msr addr.

Definition enable (self : LocalApic) (v : V) : outcome V :=
  let vector := 0xFF in
  write self v SpuriousInterruptVector vector.

Definition set_timer_divide (self : LocalApic) (v : V) (divide : Z) : outcome V :=
  write self v DivideConfiguration divide.
Definition set_timer_initial_counter (self : LocalApic) (v : V) (counter : Z) : outcome V :=
  write self v InitialCount counter.
Definition stop_timer (self : LocalApic) (v : V) : outcome V :=
  write self v LvtTimer (as_u32 new_masked_timer).
Definition current_count (self : LocalApic) (v : V) : outcome (Z * V) := read self v CurrentCount.
Definition id (self : LocalApic) (v : V) : outcome (Z * V) := read self v Id.
Definition version (self : LocalApic) (v : V) : outcome (Z * V) := read self v Version.

Definition initialize (self : LocalApic) (v : V) : outcome V :=
  v ← enable self v;
  v ← write self v LvtTimer PIC_1_OFFSET;
  v ← set_timer_initial_counter self v 0;
  '(_, v) ← current_count self v;
  mret v.

Definition do_test_stuff (self : LocalApic) (v : V) : outcome V :=
  '(_, v) ← read self v LvtTimer;
  '(_, v) ← read self v LvtLint0;
  '(_, v) ← read self v LvtLint1;
  mret v.

Definition publish (self : LocalApic) : option LocalApic := Some self.

(** ** kernel/src/interrupts/apic/mod.rs *)

Definition apic_init {D} `{!IoApicDevice D} (k : Kmem M) (d : D) (v : V) (msr : Z)
    (madt : option (list MadtEntry)) (regions : list MemoryRegion) :
    outcome (option IoApic.IOApic * option LocalApic * Kmem M * D * V * Z) :=
  '(local, k, msr) ← new k madt msr regions;
  v ← initialize local v;
  v ← do_test_stuff local v;
  '(_, v) ← id local v;
  '(_, v) ← version local v;
  eoi_addr ← offset_to_addr local 0xB0;
  '(io, k, d) ← IoApic.new k d madt eoi_addr;
  d ← IoApic.initialize io d;
  mret (IoApic.publish io, publish local, k, d, v, msr).
End Driver.

(** ** Proofs *)

Lemma register_bound r : 0 ≤ register_usize r ≤ 0x3E0.
Proof. destruct r; simpl; lia. Qed.

(** Where the registers are, for a mapping that starts above 0x900. *)
Lemma register_to_addr_run self r :
  0x900 ≤ virtual_start (mapping self) < 2 ^ 63 → 0x3E0 < mapped_length (mapping self) < 2 ^ 63 →
  register_to_addr self r = Ret (virtual_start (mapping self) + register_usize r - 0x900).
Proof.
  intros Hv Hm. pose proof (register_bound r). unfold register_to_addr, ensure_safe_addr, get_mapped_end.
  assert (∀ o, 0 ≤ o < 0x800 →
    offset_to_addr self o = Ret (virtual_start (mapping self) + o - 0x900)) as Hoff.
  { intros o Ho. unfold offset_to_addr.
    rewrite (proj2 (Z.leb_le 0 o)), (proj2 (Z.ltb_lt o 0x800)) by lia. simpl.
    apply sub_u_in. unfold_u. lia. }
  rewrite Hoff by lia. run_bind. rewrite Hoff by lia. run_bind.
  unfold_u. run_u. run_bind.
  by rewrite (proj2 (Z.ltb_lt _ _)) by lia.
Qed.

(** *** What the registers were given *)

#[local] Instance LocalApicRegister_eq_dec : EqDecision LocalApicRegister.
Proof. solve_decision. Defined.
Lemma register_usize_inj r r' : register_usize r = register_usize r' → r = r'.
Proof. by destruct r, r'. Qed.

Section Registers.
Context {V : Type} `{!VolatileMem V} {written : V → Z → Z} {vlaws : VolatileMemLaws V written}.

Definition register_value (self : LocalApic) (v : V) (r : LocalApicRegister) : Z :=
  written v (virtual_start (mapping self) + register_usize r - 0x900).

(** The vectors the local APIC raises itself: those of the unmasked entries of its vector
    table, when it is enabled in the spurious vector register. *)
Definition local_vector_table : list LocalApicRegister :=
  [LvtTimer; LvtLint0; LvtLint1; LvtError; LvtCorrectedMachineCheckInterrupt].
Definition raises (self : LocalApic) (v : V) (vector : Z) : Prop :=
  Z.testbit (register_value self v SpuriousInterruptVector) 8 = true ∧
  ∃ r, r ∈ local_vector_table ∧ Z.testbit (register_value self v r) 16 = false ∧
    vector = Z.land (register_value self v r) 0xFF.

Lemma read_run (self : LocalApic) (v : V) r :
  0x900 ≤ virtual_start (mapping self) < 2 ^ 63 → 0x3E0 < mapped_length (mapping self) < 2 ^ 63 →
  is_readable r = true →
  ∃ x v', read self v r = Ret (x, v') ∧ ∀ r', register_value self v' r' = register_value self v r'.
Proof using vlaws.
  intros Hv Hm Hr. unfold read. rewrite Hr, register_to_addr_run by done. cbn [assert_that mbind outcome_bind].
  pose proof (written_read v (virtual_start (mapping self) + register_usize r - 0x900)) as Hw.
  destruct (read_volatile v _) as [x v']. exists x, v'. split; [done|]. intros r'. apply Hw.
Qed.
Lemma write_run (self : LocalApic) (v : V) r x :
  0x900 ≤ virtual_start (mapping self) < 2 ^ 63 → 0x3E0 < mapped_length (mapping self) < 2 ^ 63 →
  is_writable r = true →
  ∃ v', write self v r x = Ret v' ∧
    ∀ r', register_value self v' r' = if decide (r' = r) then x else register_value self v r'.
Proof using vlaws.
  intros Hv Hm Hr. unfold write. rewrite Hr, register_to_addr_run by done. cbn [assert_that mbind outcome_bind].
  eexists. split; [done|]. intros r'. unfold register_value. destruct (decide (r' = r)) as [->|Hne].
  - apply written_write.
  - apply written_write_other. intros Heq. apply Hne, register_usize_inj. lia.
Qed.

(** [initialize], [do_test_stuff], [id] and [version], as [apic_init] runs them. *)
Lemma setup_run (self : LocalApic) (v : V) :
  0x900 ≤ virtual_start (mapping self) < 2 ^ 63 → 0x3E0 < mapped_length (mapping self) < 2 ^ 63 →
  ∃ v' x y, (v ← initialize self v; v ← do_test_stuff self v;
      '(x, v) ← id self v; '(y, v) ← version self v; mret (v, x, y)) = Ret (v', x, y) ∧
    register_value self v' SpuriousInterruptVector = 0xFF ∧
    register_value self v' LvtTimer = PIC_1_OFFSET ∧ register_value self v' InitialCount = 0.
Proof using vlaws.
  intros Hv Hm. unfold initialize, enable, set_timer_initial_counter, current_count, do_test_stuff, id, version.
  repeat (first
    [ match goal with |- context [write self ?v ?r ?x] =>
        let H := fresh "Hset" in destruct (write_run self v r x Hv Hm eq_refl) as (? & -> & H) end
    | match goal with |- context [read self ?v ?r] =>
        let H := fresh "Hset" in destruct (read_run self v r Hv Hm eq_refl) as (? & ? & -> & H) end ];
    cbn [mbind outcome_bind mret outcome_ret]).
  eexists _, _, _. split; [reflexivity|].
  split_and!; repeat match goal with H : ∀ r', register_value self ?v r' = _ |- context [register_value self ?v _] =>
    rewrite H; cbn [decide] end; done.
Qed.

Lemma disabled_raises_nothing (self : LocalApic) (v : V) vector :
  register_value self v SpuriousInterruptVector = 0xFF → ¬ raises self v vector.
Proof. intros Hs [He _]. rewrite Hs in He. discriminate He. Qed.
End Registers.

Section Proofs.
Context `{!X86Addr} {laws : X86AddrLaws} {M : Type} `{!Mapper M} {mlaws : MapperLaws M}.

Lemma from_addr_run limit (k : Kmem M) m fa msr addr :
  kmem_ok limit k m fa → request_fits limit k addr 0x800 →
  0x900 ≤ PAGE_ALLOCATOR k →
  ∃ m' k', from_addr k msr addr =
      Ret (mk_local (mk_mapping addr (PAGE_ALLOCATOR k + addr `mod` page_size) 0x800
             (page_size * region_pages addr 0x800)), k', addr) ∧
    MAPPER k' = Some m' ∧
    maps_run m m' (region_pages addr 0x800) (PAGE_ALLOCATOR k) (addr - addr `mod` page_size) device_flags ∧
    0 < region_pages addr 0x800 ≤ 2.
Proof using laws mlaws.
  intros Hok Hfits Hpa.
  destruct (map_physical_region_run limit k m fa addr 0x800 Hok Hfits) as (m' & fa' & k' & Hrun & Hk' & _ & _ & Hmaps).
  destruct Hok as [Hm Hf _ Hal Hcur Htop Hwin]. destruct Hfits as (H0 & _ & Hphys & Hroom & _).
  destruct (region_pages_bounds addr 0x800 H0 ltac:(done)) as (Hn & Hub & _ & _).
  pose proof (Z.mod_pos_bound addr page_size ltac:(done)) as Hmod.
  assert (region_pages addr 0x800 ≤ 2) by (unfold page_size in *; lia).
  exists m', k'. split; [|split; [by rewrite Hk'|split; [done|lia]]].
  unfold from_addr. rewrite Hrun. run_bind.
  unfold get_mapped_end, offset_to_addr. cbn [assert_that mbind outcome_bind andb].
  unfold HEAP_START, page_size in *.
  cbn [mapping virtual_start mapped_length Z.leb Z.ltb Z.compare andb assert_that mbind outcome_bind].
  run_u. run_bind. run_u. done.
Qed.
End Proofs.

(** ** Properties *)

(** On the boot processor the base register holds the page of the local APIC
    and the flags 0x900. Then [new] succeeds, leaves the base register as it was,
    and the address the driver computes for each register is mapped, uncached, to
    that register of the local APIC. *)
Theorem registers_reached `{!X86Addr} {M} `{!Mapper M} limit (k : Kmem M) m fa madt regions base
    (Hlaws : X86AddrLaws) (Hmlaws : MapperLaws M)
    (Hok : kmem_ok limit k m fa) (Hmadt : (entries ← madt; find_override entries) = None)
    (Hbase : (page_size | base)) (Hfits : request_fits limit k (base + 0x900) 0x800) :
  ∃ self k' m', new k madt (base + 0x900) regions = Ret (self, k', base + 0x900) ∧
    MAPPER k' = Some m' ∧
    ∀ r, ∃ va, register_to_addr self r = Ret va ∧
      ∀ i, 0 ≤ i < 4 → byte_maps m' (va + i) (base + register_usize r + i) device_flags.
Proof.
  assert (page_size ≤ PAGE_ALLOCATOR k) as Hpa.
  { destruct Hok as [_ _ _ [c Hc] Hcur _ _]. unfold page_size in *. lia. }
  destruct (from_addr_run limit k m fa (base + 0x900) (base + 0x900)) as (m' & k' & Hrun & Hm' & Hmaps & Hn);
    [done..|unfold page_size in *; lia|].
  destruct Hok as [_ _ _ Hal Hcur Htop _].
  assert ((base + 0x900) `mod` page_size = 0x900) as Hmod.
  { destruct Hbase as [b ->]. unfold page_size. zdm. }
  eexists _, k', m'. split; [|split; [done|]].
  - unfold new, find_local_apic_base. rewrite Hmadt, phys_new_ok; [exact Hrun|].
    destruct Hfits as (? & _ & ? & _ & _). unfold in_u, page_size in *. lia.
  - intros r. pose proof (register_bound r). eexists. split.
    { apply register_to_addr_run; cbn [mapping virtual_start mapped_length];
        rewrite ?Hmod; unfold HEAP_START, page_size in *; lia. }
    intros i Hi. cbn [mapping virtual_start]. rewrite Hmod. rewrite Hmod in Hmaps.
    destruct Hmaps as [Hin _]. specialize (Hin 0 ltac:(lia)).
    rewrite !Z.mul_0_r, !Z.add_0_r, Z.add_simpl_r in Hin. unfold byte_maps.
    assert ((PAGE_ALLOCATOR k + 0x900 + register_usize r - 0x900 + i) `mod` page_size =
      register_usize r + i) as ->.
    { destruct Hal as [c ->]. symmetry. apply (Z.mod_unique _ _ c); unfold page_size; lia. }
    assert ((base + register_usize r + i) `mod` page_size = register_usize r + i) as ->.
    { destruct Hbase as [c ->]. symmetry. apply (Z.mod_unique _ _ c); unfold page_size; lia. }
    split; [|done].
    replace (PAGE_ALLOCATOR k + 0x900 + register_usize r - 0x900 + i - (register_usize r + i))
      with (PAGE_ALLOCATOR k) by lia.
    by replace (base + register_usize r + i - (register_usize r + i)) with base by lia.
Qed.

(** When the MADT overrides the address, which then is the page of the local
    APIC without flags, every register address the driver computes lies before the
    start of the mapping, and the base register is overwritten with a value whose
    global enable bit 11 is clear. *)
Theorem override_misses_registers `{!X86Addr} {M} `{!Mapper M} limit (k : Kmem M) m fa madt regions base msr
    (Hlaws : X86AddrLaws) (Hmlaws : MapperLaws M)
    (Hok : kmem_ok limit k m fa) (Hmadt : (entries ← madt; find_override entries) = Some base)
    (Hbase : (page_size | base)) (Hfits : request_fits limit k base 0x800) :
  ∃ self k' msr', new k madt msr regions = Ret (self, k', msr') ∧
    physical_start (mapping self) = base ∧ Z.testbit msr' 11 = false ∧
    ∀ r, ∃ va, register_to_addr self r = Ret va ∧ va < virtual_start (mapping self).
Proof.
  assert (page_size ≤ PAGE_ALLOCATOR k) as Hpa.
  { destruct Hok as [_ _ _ [c Hc] Hcur _ _]. unfold page_size in *. lia. }
  destruct (from_addr_run limit k m fa msr base) as (m' & k' & Hrun & Hm' & Hmaps & Hn);
    [done..|unfold page_size in *; lia|].
  destruct Hok as [_ _ _ Hal Hcur Htop _].
  assert (base `mod` page_size = 0) as Hmod by by apply Z.mod_divide.
  eexists _, k', base. split; [|split].
  - unfold new, find_local_apic_base. rewrite Hmadt, phys_new_ok; [exact Hrun|].
    destruct Hfits as (? & _ & ? & _ & _). unfold in_u, page_size in *. lia.
  - done.
  - split.
    + destruct Hbase as [b ->]. change page_size with (2 ^ 12). by apply Z.mul_pow2_bits_low.
    + intros r. pose proof (register_bound r). eexists. split.
      { apply register_to_addr_run; cbn [mapping virtual_start mapped_length];
          rewrite ?Hmod; unfold HEAP_START, page_size in *; lia. }
      cbn [mapping virtual_start]. lia.
Qed.

Lemma lvt_bounds r :
  0 ≤ vector_delivery_mode_u8 (delivery_mode r) ≤ 7 ∧
  0 ≤ vector_deliver_status_u8 (delivery_status r) ≤ 1 ∧ 0 ≤ Z.b2z (is_low_triggered r) ≤ 1 ∧
  0 ≤ Z.b2z (is_remote_irr r) ≤ 1 ∧ 0 ≤ vector_trigger_mode_u8 (trigger_mode r) ≤ 1 ∧
  0 ≤ Z.b2z (is_masked r) ≤ 1 ∧ 0 ≤ vector_timer_mode_u8 (timer_mode r) ≤ 3.
Proof. destruct r as [v [] [] [] [] [] [] []]; simpl; lia. Qed.

Lemma as_u32_sum r : in_u 8 (vector r) →
  as_u32 r = vector r + vector_delivery_mode_u8 (delivery_mode r) * 2 ^ 8 +
    vector_deliver_status_u8 (delivery_status r) * 2 ^ 12 +
    Z.b2z (is_low_triggered r) * 2 ^ 13 + Z.b2z (is_remote_irr r) * 2 ^ 14 +
    vector_trigger_mode_u8 (trigger_mode r) * 2 ^ 15 + Z.b2z (is_masked r) * 2 ^ 16 +
    vector_timer_mode_u8 (timer_mode r) * 2 ^ 17.
Proof.
  intros Hv. unfold as_u32. destruct (lvt_bounds r) as (? & ? & ? & ? & ? & ? & ?).
  unfold_u. rewrite (land_mask_mod (vector r) 8 255) by done.
  rewrite (land_mask_mod _ 3 7), (land_mask_mod _ 2 3), !(land_mask_mod _ 1 1) by done.
  rewrite !Z.mod_small by (norm_pow; lia).
  rewrite (lor_shiftl_add _ _ 8), (lor_shiftl_add _ _ 11), (lor_shiftl_add _ _ 12),
    (lor_shiftl_add _ _ 13), (lor_shiftl_add _ _ 14), (lor_shiftl_add _ _ 15),
    (lor_shiftl_add _ _ 16), (lor_shiftl_add _ _ 17) by (norm_pow; lia).
  lia.
Qed.

(** The packed local vector table register has the layout the processor reads:
    vector in bits 0 to 7, delivery mode in 8 to 10, status, polarity, remote IRR,
    trigger mode and mask in bits 12 to 16, timer mode in 17 and 18, and every other
    bit zero. *)
Theorem lvt_layout (r : LocalVectorTableRegister) (Hv : in_u 8 (vector r)) :
  let x := as_u32 r in
  x `mod` 2 ^ 8 = vector r ∧
  x `div` 2 ^ 8 `mod` 2 ^ 4 = vector_delivery_mode_u8 (delivery_mode r) ∧
  x `div` 2 ^ 12 `mod` 2 = vector_deliver_status_u8 (delivery_status r) ∧
  x `div` 2 ^ 13 `mod` 2 = Z.b2z (is_low_triggered r) ∧
  x `div` 2 ^ 14 `mod` 2 = Z.b2z (is_remote_irr r) ∧
  x `div` 2 ^ 15 `mod` 2 = vector_trigger_mode_u8 (trigger_mode r) ∧
  x `div` 2 ^ 16 `mod` 2 = Z.b2z (is_masked r) ∧
  x `div` 2 ^ 17 = vector_timer_mode_u8 (timer_mode r).
Proof.
  intros x. unfold x. rewrite as_u32_sum by done.
  destruct (lvt_bounds r) as (? & ? & ? & ? & ? & ? & ?). unfold_u. norm_pow.
  split_and!; zdm.
Qed.

(** The volatile accesses of the driver, as a trace. *)
Inductive access := Read (addr : Z) | Write (addr value : Z).
#[local] Instance trace_mem : VolatileMem (list access) := {|
  read_volatile t a := (0, t ++ [Read a]);
  write_volatile t a v := t ++ [Write a v];
|}.

Definition trace_written (t : list access) (a : Z) : Z :=
  fold_left (λ y e, match e with Write b x => if b =? a then x else y | Read _ => y end) t 0.
Lemma trace_mem_laws : VolatileMemLaws (list access) trace_written.
Proof.
  split; intros; unfold trace_written; simpl; rewrite fold_left_app; simpl; [by rewrite Z.eqb_refl| |done].
  by rewrite (proj2 (Z.eqb_neq _ _)) by congruence.
Qed.

(** [initialize] performs exactly three register writes, in order: 0xFF to the
    spurious vector register, 32 to the timer's entry and 0 to its initial count.
    The spurious vector register is written without its enable bit 8, so the local
    APIC stays software-disabled although the function is called [enable]. *)
Theorem initialize_leaves_disabled (self : LocalApic)
    (Hv : 0x900 ≤ virtual_start (mapping self) < 2 ^ 63)
    (Hm : 0x3E0 < mapped_length (mapping self) < 2 ^ 63) :
  let at_ r := virtual_start (mapping self) + register_usize r - 0x900 in
  ∃ t, initialize self [] = Ret t ∧
    t = [Write (at_ SpuriousInterruptVector) 0xFF; Write (at_ LvtTimer) PIC_1_OFFSET;
         Write (at_ InitialCount) 0; Read (at_ CurrentCount)] ∧
    ∀ v, Write (at_ SpuriousInterruptVector) v ∈ t → Z.testbit v 8 = false.
Proof.
  intros at_. eexists. split; [|split; [reflexivity|]].
  - unfold initialize, enable, set_timer_initial_counter, current_count, write, read.
    cbn [is_writable is_readable permissions assert_that mbind outcome_bind].
    rewrite !register_to_addr_run by done. done.
  - intros v. rewrite !elem_of_cons, elem_of_nil. unfold at_. simpl. intros Hin.
    repeat destruct Hin as [Hin|Hin]; simplify_eq; (done || lia).
Qed.

(** ** Witnesses *)

#[local] Existing Instances addr_model map_model addr_model_laws map_model_laws.

Lemma registers_reached_witness :
  ∃ self k' m', new sample_kmem (Some [MadtOther]) 0xFEE00900 [] = Ret (self, k', 0xFEE00900) ∧
    MAPPER k' = Some m' ∧
    ∀ r, ∃ va, register_to_addr self r = Ret va ∧
      ∀ i, 0 ≤ i < 4 → byte_maps m' (va + i) (0xFEE00000 + register_usize r + i) device_flags.
Proof.
  refine (registers_reached sample_top sample_kmem _ _ (Some [MadtOther]) [] 0xFEE00000 addr_model_laws
    map_model_laws sample_kmem_ok eq_refl _ _).
  - by exists 0xFEE00.
  - by vm_compute.
Defined.

Lemma override_misses_registers_witness :
  ∃ self k' msr', new sample_kmem (Some [LocalApicAddressOverride 0xFEE00000]) 0xFEE00900 [] =
      Ret (self, k', msr') ∧
    physical_start (mapping self) = 0xFEE00000 ∧ Z.testbit msr' 11 = false ∧
    ∀ r, ∃ va, register_to_addr self r = Ret va ∧ va < virtual_start (mapping self).
Proof.
  refine (override_misses_registers sample_top sample_kmem _ _ (Some [LocalApicAddressOverride 0xFEE00000]) []
    0xFEE00000 0xFEE00900 addr_model_laws map_model_laws sample_kmem_ok eq_refl _ _).
  - by exists 0xFEE00.
  - by vm_compute.
Defined.

Lemma lvt_layout_witness :
  as_u32 new_masked_timer `div` 2 ^ 16 `mod` 2 = 1 ∧ as_u32 new_masked_timer `div` 2 ^ 17 = 1.
Proof.
  destruct (lvt_layout new_masked_timer) as (_ & _ & _ & _ & _ & _ & Hm & Ht); [done|].
  split; [exact Hm|exact Ht].
Defined.

Lemma initialize_leaves_disabled_witness :
  ∃ t, initialize (mk_local (mk_mapping 0xFEE00900 0x1000000900 0x800 0x2000)) [] = Ret t ∧
    t = [Write 0x10000000F0 0xFF; Write 0x1000000320 32; Write 0x1000000380 0; Read 0x1000000390] ∧
    ∀ v, Write 0x10000000F0 v ∈ t → Z.testbit v 8 = false.
Proof.
  by apply (initialize_leaves_disabled (mk_local (mk_mapping 0xFEE00900 0x1000000900 0x800 0x2000))).
Defined.

End LocalApic.
