(* ===== verification/Pit.v ===== *)
(** * The interval timer: kernel/src/device/pit.rs

    Programming the timer chip through its ports, and sleeping on the tick counter
    that the timer interrupt advances.  The chip is a [Ports] state with the laws of
    its data sheet. *)

From S2P Require Import Prelude X86.

Module Pit.

Definition BASE_FREQUENCY : Z := 1193182.
Definition CHANNEL0 : Z := 0x40.
Definition MODE_COMMAND : Z := 0x43.

Inductive Channel := Channel0.
Inductive AccessMode := LatchCountValue | LoByteOnly | HiByteOnly | LoAndHiByte.
Inductive OperatingMode :=
  InterruptOnTerminalCount | HardwareRetriggerableOneShot | RateGenerator | SquareWave
| SoftwareTriggeredStrobe | HardwareTriggeredStrobe | RateGenerator2 | SquareWave2.

Definition channel_u8 (c : Channel) : Z := match c with Channel0 => 0 end.
Definition access_mode_u8 (a : AccessMode) : Z :=
  match a with LatchCountValue => 0 | LoByteOnly => 1 | HiByteOnly => 2 | LoAndHiByte => 3 end.
Definition operating_mode_u8 (o : OperatingMode) : Z :=
  match o with
  | InterruptOnTerminalCount => 0 | HardwareRetriggerableOneShot => 1 | RateGenerator => 2
  | SquareWave => 3 | SoftwareTriggeredStrobe => 4 | HardwareTriggeredStrobe => 5
  | RateGenerator2 => 6 | SquareWave2 => 7
  end.

Section Chip.
Context {P : Type} `{!Ports P}.

Definition write_mode_command (p : P) (channel : Channel) (access_mode : AccessMode)
    (operating_mode : OperatingMode) (bcd : bool) : P :=
  let value := Z.lor (Z.lor (Z.lor (Z.shiftl (channel_u8 channel) 6)
    (Z.shiftl (access_mode_u8 access_mode) 4))
    (Z.shiftl (operating_mode_u8 operating_mode) 1)) (Z.b2z bcd) in
  port_write p 8 MODE_COMMAND value.

Definition write_reload_count (p : P) (count : Z) : P :=
  let lo := Z.land count 0xFF in
  let hi := Z.land (Z.shiftr count 8) 0xFF in
  let p := port_write p 8 CHANNEL0 lo in
  port_write p 8 CHANNEL0 hi.

Definition set_frequency (p : P) (frequency : Z) : outcome P :=
  assert_that (negb (frequency =? 0)) "attempt to divide by zero";;
  let frequency := BASE_FREQUENCY `div` frequency in
  assert_that (frequency <=? 0xFFFF) "invalid frequency";;
  mret (write_reload_count p (wrap 16 frequency)).

Definition init (p : P) : outcome P :=
  let p := write_mode_command p Channel0 LoAndHiByte SquareWave false in
  set_frequency p 1000.

Definition read_count (p : P) : Z * P :=
  let p := write_mode_command p Channel0 LatchCountValue InterruptOnTerminalCount false in
  let '(lo, p) := port_read p 8 CHANNEL0 in
  let '(hi, p) := port_read p 8 CHANNEL0 in
  (Z.lor lo (wrap 16 (Z.shiftl hi 8)), p).
End Chip.

(** ** Sleeping

    The loop of [sleep] over the tick counter.  [ticks i] is how many timer
    interrupts the [i]-th iteration (its trace output and its [hlt]) lets pass.  Out
    of fuel, the loop is still running. *)
Fixpoint sleep_loop (fuel : nat) (ticks : nat → Z) (i : nat) (uptime end_ : Z) : option Z :=
  match fuel with
  | O => None
  | S fuel =>
      if negb (end_ =? uptime) then sleep_loop fuel ticks (S i) (uptime + ticks i) end_
      else Some uptime
  end.

(** [Duration::as_millis] of seconds and nanoseconds, cast to [usize]. *)
Definition as_millis (secs nanos : Z) : Z := secs * 1000 + nanos `div` 1000000.

(** The uptime at which [sleep] returns, [None] while it has not returned. *)
Definition sleep (fuel : nat) (ticks : nat → Z) (uptime secs nanos : Z) : outcome (option Z) :=
  let ms := wrap usize (as_millis secs nanos) in
  if ms =? 0 then mret (Some uptime)
  else
    end_ ← add_u usize uptime ms;
    mret (sleep_loop fuel ticks 0 uptime end_).

(** ** The chip's documented behaviour *)

(** [mode] is the last control word of channel 0, [reload] its reload value, [low]
    a low byte written and waiting for the high byte, [count] the running count and
    [latch] the latched bytes not read yet. *)
Class PitLaws (P : Type) `{!Ports P} (mode reload count : P → Z) (low : P → option Z)
    (latch : P → list Z) : Prop := {
  pit_control p v : in_u 8 v → v `div` 64 = 0 → v `div` 16 `mod` 4 ≠ 0 →
    let p' := port_write p 8 0x43 v in mode p' = v ∧ low p' = None;
  pit_low p v : mode p `div` 16 `mod` 4 = 3 → low p = None →
    let p' := port_write p 8 0x40 v in mode p' = mode p ∧ low p' = Some v ∧ reload p' = reload p;
  pit_high p v l : mode p `div` 16 `mod` 4 = 3 → low p = Some l →
    let p' := port_write p 8 0x40 v in mode p' = mode p ∧ low p' = None ∧ reload p' = l + 256 * v;
  pit_latch p v : in_u 8 v → v `div` 64 = 0 → v `div` 16 `mod` 4 = 0 →
    let p' := port_write p 8 0x43 v in
    mode p' = mode p ∧ reload p' = reload p ∧
    (latch p = [] → mode p `div` 16 `mod` 4 = 3 →
       latch p' = [count p `mod` 256; count p `div` 256]);
  pit_read p b bs : latch p = b :: bs →
    (port_read p 8 0x40).1 = b ∧ latch (port_read p 8 0x40).2 = bs ∧
    mode (port_read p 8 0x40).2 = mode p ∧ reload (port_read p 8 0x40).2 = reload p;
  pit_count_u16 p : in_u 16 (count p);
}.

(** ** Lemmas *)

Lemma write_reload_count_run {P} `{!Ports P} mode reload count low latch
    `{!PitLaws P mode reload count low latch} (p : P) c :
  in_u 16 c → mode p `div` 16 `mod` 4 = 3 → low p = None →
  let p' := write_reload_count p c in reload p' = c ∧ mode p' = mode p ∧ low p' = None.
Proof.
  intros Hc Hm Hl. unfold write_reload_count, CHANNEL0. simpl.
  destruct (pit_low p (Z.land c 255) Hm Hl) as (Hm1 & Hl1 & _). simpl in *.
  rewrite <-Hm1 in Hm.
  destruct (pit_high _ (Z.land (Z.shiftr c 8) 255) _ Hm Hl1) as (Hm2 & Hl2 & Hr2). simpl in *.
  rewrite Hr2, Hm2, Hl2. split; [|done].
  rewrite !(land_mask_mod _ 8 255), shiftr_div by done. unfold_u. norm_pow. zdm.
Qed.

Lemma sleep_loop_exact n : ∀ fuel ticks i uptime,
  (n < fuel)%nat → (∀ j, ticks j = 1) →
  sleep_loop fuel ticks i uptime (uptime + Z.of_nat n) = Some (uptime + Z.of_nat n).
Proof.
  induction n as [|n IH]; intros [|fuel] ticks i uptime Hf Ht; try lia; simpl sleep_loop.
  - by rewrite Z.add_0_r, Z.eqb_refl.
  - rewrite (proj2 (Z.eqb_neq _ _)) by lia. simpl. rewrite Ht.
    replace (uptime + Z.of_nat (S n)) with (uptime + 1 + Z.of_nat n) by lia.
    apply IH; [lia|done].
Qed.

(** Past its end the loop never stops. *)
Lemma sleep_loop_past fuel : ∀ ticks i uptime end_,
  (∀ j, 0 ≤ ticks j) → end_ < uptime → sleep_loop fuel ticks i uptime end_ = None.
Proof.
  induction fuel as [|fuel IH]; intros ticks i uptime end_ Ht Hlt; simpl; [done|].
  rewrite (proj2 (Z.eqb_neq _ _)) by lia. simpl. apply IH; [done|]. specialize (Ht i). lia.
Qed.

(** Without a tick it never stops either. *)
Lemma sleep_loop_stuck fuel : ∀ ticks i uptime end_,
  (∀ j, ticks j = 0) → end_ ≠ uptime → sleep_loop fuel ticks i uptime end_ = None.
Proof.
  induction fuel as [|fuel IH]; intros ticks i uptime end_ Ht Hne; simpl; [done|].
  rewrite (proj2 (Z.eqb_neq _ _)) by done. simpl. rewrite Ht, Z.add_0_r. by apply IH.
Qed.

(** A sleep of a second with one tick at a time. *)
Lemma sleep_second_exact fuel ticks uptime : (∀ j, ticks j = 1) → (1000 < fuel)%nat → 0 ≤ uptime < 2 ^ 63 →
  sleep fuel ticks uptime 1 0 = Ret (Some (uptime + 1000)).
Proof.
  intros Ht Hf Hup. unfold sleep. change (wrap usize (as_millis 1 0)) with 1000.
  unfold_u. run_u. cbn -[sleep_loop]. change 1000 with (Z.of_nat 1000). by rewrite sleep_loop_exact.
Qed.

(** A sleep of a second without ticks. *)
Lemma sleep_second_stuck fuel ticks uptime : (∀ j, ticks j = 0) → 0 ≤ uptime < 2 ^ 63 →
  sleep fuel ticks uptime 1 0 = Ret None.
Proof.
  intros Ht Hup. unfold sleep. change (wrap usize (as_millis 1 0)) with 1000.
  unfold_u. run_u. cbn -[sleep_loop]. by rewrite sleep_loop_stuck by (done || lia).
Qed.

(** The counter after the first [n] iterations. *)
Fixpoint uptime_after (ticks : nat → Z) (i n : nat) (uptime : Z) : Z :=
  match n with
  | O => uptime
  | S n => uptime_after ticks (S i) n (uptime + ticks i)
  end.

Lemma sleep_loop_skip n : ∀ fuel ticks i uptime end_,
  (∀ j, 0 ≤ ticks j) → (∀ k, (k ≤ n)%nat → uptime_after ticks i k uptime ≠ end_) →
  end_ < uptime_after ticks i n uptime → sleep_loop fuel ticks i uptime end_ = None.
Proof.
  induction n as [|n IH]; intros fuel ticks i uptime end_ Ht Hne Hlt.
  { by apply sleep_loop_past. }
  destruct fuel as [|fuel]; [done|]. simpl sleep_loop.
  rewrite (proj2 (Z.eqb_neq _ _)) by (specialize (Hne 0%nat ltac:(lia)); simpl in Hne; lia). simpl.
  apply IH; [done| |done]. intros k Hk. apply (Hne (S k)). lia.
Qed.

(** ** Properties *)

(** C36: [init] programs channel 0 as a binary square-wave generator loaded low byte
    first, with the reload value 1193, which is a tick rate within one hertz of the
    1000 per second that [sleep] counts in. *)
Theorem init_ticks_per_ms {P} `{!Ports P} mode reload count low latch (p : P)
    (Hlaws : PitLaws P mode reload count low latch) :
  ∃ p', init p = Ret p' ∧ mode p' = 0x36 ∧ reload p' = 1193 ∧ low p' = None ∧
    1000 ≤ BASE_FREQUENCY `div` reload p' < 1001.
Proof.
  unfold init, set_frequency, write_mode_command, MODE_COMMAND. simpl mbind.
  destruct (pit_control p 0x36) as [Hm Hl]; [done..|].
  change (Z.lor _ _) with 0x36. set (p1 := port_write p 8 0x43 0x36) in *.
  assert (mode p1 `div` 16 `mod` 4 = 3) as Hacc by by rewrite Hm.
  destruct (write_reload_count_run mode reload count low latch p1 1193 ltac:(done) Hacc Hl)
    as (Hr & Hm2 & Hl2).
  exists (write_reload_count p1 1193). split; [done|]. rewrite Hm2, Hr. by rewrite Hl2.
Qed.

(** [set_frequency] programs the reload value that gives the requested rate for
    every rate the 16-bit counter can reach, from 19 Hz on, and panics below that,
    at 0 as well. *)
Theorem set_frequency_range {P} `{!Ports P} mode reload count low latch (p : P) f
    (Hlaws : PitLaws P mode reload count low latch)
    (Hmode : mode p `div` 16 `mod` 4 = 3) (Hlow : low p = None) (Hf : 0 ≤ f) :
  if decide (19 ≤ f)
  then ∃ p', set_frequency p f = Ret p' ∧ reload p' = BASE_FREQUENCY `div` f
  else ∃ msg, set_frequency p f = Panic msg.
Proof.
  unfold set_frequency. destruct (decide (19 ≤ f)) as [Hge|Hlt].
  - rewrite (proj2 (Z.eqb_neq f 0)) by lia. simpl mbind.
    assert (0 ≤ BASE_FREQUENCY `div` f ≤ 62799) as Hb.
    { split; [apply Z.div_pos; [done|lia]|].
      change 62799 with (BASE_FREQUENCY `div` 19). by apply Z.div_le_compat_l. }
    rewrite (proj2 (Z.leb_le _ _)) by lia. simpl mbind.
    rewrite wrap_small by (unfold_u; lia).
    destruct (write_reload_count_run mode reload count low latch p (BASE_FREQUENCY `div` f))
      as (Hr & _); [unfold_u; lia|done..|]. eauto.
  - destruct (Z.eqb_spec f 0) as [->|Hne]; simpl; [by eauto|].
    rewrite (proj2 (Z.leb_gt _ _)); [by eauto|].
    assert (66287 ≤ BASE_FREQUENCY `div` f); [|lia].
    change 66287 with (BASE_FREQUENCY `div` 18). apply Z.div_le_compat_l; [done|lia].
Qed.

(** [read_count] returns the running count of the chip, both of its bytes from
    one latched value, and leaves the programmed mode and reload value alone. *)
Theorem read_count_latches {P} `{!Ports P} mode reload count low latch (p : P)
    (Hlaws : PitLaws P mode reload count low latch)
    (Hmode : mode p `div` 16 `mod` 4 = 3) (Hlatch : latch p = []) :
  (read_count p).1 = count p ∧ mode (read_count p).2 = mode p ∧
    reload (read_count p).2 = reload p ∧ latch (read_count p).2 = [].
Proof.
  unfold read_count, write_mode_command, MODE_COMMAND, CHANNEL0.
  change (Z.lor (Z.lor (Z.lor (Z.shiftl (channel_u8 Channel0) 6) _) _) _) with 0.
  destruct (pit_latch p 0) as (Hm & Hr & Hlat); [done..|]. specialize (Hlat Hlatch Hmode).
  destruct (pit_read _ _ _ Hlat) as (H1 & Hl1 & Hm1 & Hr1).
  destruct (pit_read _ _ _ Hl1) as (H2 & Hl2 & Hm2 & Hr2).
  destruct (port_read (port_write p 8 67 0) 8 64) as [b1 p1]. cbn [fst snd] in *.
  destruct (port_read p1 8 64) as [b2 p2]. cbn [fst snd] in *. subst.
  split; [|split; [congruence|split; [congruence|done]]].
  pose proof (pit_count_u16 p) as Hc. unfold_u. unfold wrap.
  rewrite (Z.mod_small (Z.shiftl _ _)) by (rewrite Z.shiftl_mul_pow2 by done; norm_pow; zdm).
  rewrite lor_shiftl_add by (norm_pow; zdm). norm_pow. zdm.
Qed.

(** When every iteration of [sleep] sees exactly one tick, [sleep] returns, and
    it returns exactly the requested number of milliseconds later. *)
Theorem sleep_returns_on_time (ticks : nat → Z) (uptime secs nanos : Z) (fuel : nat)
    (Hticks : ∀ j, ticks j = 1) (Hup : 0 ≤ uptime) (Hs : 0 ≤ secs) (Hn : 0 ≤ nanos)
    (Hmax : uptime + as_millis secs nanos < 2 ^ 64)
    (Hfuel : (Z.to_nat (as_millis secs nanos) < fuel)%nat) :
  sleep fuel ticks uptime secs nanos = Ret (Some (uptime + as_millis secs nanos)).
Proof.
  assert (0 ≤ as_millis secs nanos) as H0.
  { unfold as_millis. pose proof (Z.div_pos nanos 1000000 Hn). lia. }
  unfold sleep. rewrite wrap_small by (unfold_u; lia).
  destruct (Z.eqb_spec (as_millis secs nanos) 0) as [->|Hne]; [by rewrite Z.add_0_r|].
  run_u. run_bind.
  rewrite <-(Z2Nat.id (as_millis secs nanos)) by done.
  by rewrite sleep_loop_exact by done.
Qed.

(** [sleep] compares the tick counter with its end for equality, so when some
    iteration lets more than one tick pass and the counter steps over the end,
    [sleep] never returns. *)
Theorem sleep_overrun_never_returns (ticks : nat → Z) (uptime secs nanos : Z) (fuel n : nat)
    (Hticks : ∀ j, 0 ≤ ticks j) (Hms : 0 < as_millis secs nanos < 2 ^ 64) (Hup : 0 ≤ uptime)
    (Hmax : uptime + as_millis secs nanos < 2 ^ 64)
    (Hskip : ∀ k, (k ≤ n)%nat → uptime_after ticks 0 k uptime ≠ uptime + as_millis secs nanos)
    (Hpast : uptime + as_millis secs nanos < uptime_after ticks 0 n uptime) :
  sleep fuel ticks uptime secs nanos = Ret None.
Proof.
  unfold sleep. rewrite wrap_small by (unfold_u; lia).
  rewrite (proj2 (Z.eqb_neq _ _)) by lia. run_u.
  run_bind. by rewrite (sleep_loop_skip n).
Qed.

(** ** Witnesses: a chip as a record *)

Record chip := mk_chip {
  c_mode : Z; c_reload : Z; c_low : option Z; c_count : Z; c_latch : list Z;
}.
Definition chip_count (c : chip) : Z := wrap 16 (c_count c).

#[local] Instance chip_ports : Ports chip := {|
  port_read c w port :=
    match c_latch c with
    | b :: bs => (b, mk_chip (c_mode c) (c_reload c) (c_low c) (c_count c) bs)
    | [] => (0, c)
    end;
  port_write c w port v :=
    if port =? 0x43 then
      if v `div` 16 `mod` 4 =? 0 then
        mk_chip (c_mode c) (c_reload c) (c_low c) (c_count c)
          (match c_latch c with [] => [chip_count c `mod` 256; chip_count c `div` 256] | l => l end)
      else mk_chip v (c_reload c) None (c_count c) []
    else
      match c_low c with
      | None => mk_chip (c_mode c) (c_reload c) (Some v) (c_count c) (c_latch c)
      | Some l => mk_chip (c_mode c) (l + 256 * v) None (c_count c) (c_latch c)
      end;
|}.

Lemma pit_chip_laws : PitLaws chip c_mode c_reload chip_count c_low c_latch.
Proof.
  split; simpl.
  - intros p v _ _ Hv. by rewrite (proj2 (Z.eqb_neq _ _)).
  - intros p v _ Hl. by rewrite Hl.
  - intros p v l _ Hl. by rewrite Hl.
  - intros p v _ _ ->. simpl. split; [done|]. split; [done|]. by intros ->.
  - intros p b bs Hl. by rewrite Hl.
  - intros p. by apply wrap_in.
Qed.

Definition sample_chip : chip := mk_chip 0x36 1193 None 0x1234 [].

Lemma init_ticks_per_ms_witness :
  ∃ p', init (mk_chip 0 0 None 0 []) = Ret p' ∧ c_mode p' = 0x36 ∧ c_reload p' = 1193 ∧
    c_low p' = None ∧ 1000 ≤ BASE_FREQUENCY `div` c_reload p' < 1001.
Proof.
  exact (init_ticks_per_ms c_mode c_reload chip_count c_low c_latch (mk_chip 0 0 None 0 []) pit_chip_laws).
Defined.

Lemma set_frequency_range_witness :
  ∃ p', set_frequency sample_chip 100 = Ret p' ∧ c_reload p' = 11931.
Proof.
  exact (set_frequency_range c_mode c_reload chip_count c_low c_latch sample_chip 100 pit_chip_laws
    eq_refl eq_refl ltac:(done)).
Defined.

Lemma read_count_latches_witness :
  (read_count sample_chip).1 = 0x1234 ∧ c_mode (read_count sample_chip).2 = 0x36 ∧
    c_reload (read_count sample_chip).2 = 1193 ∧ c_latch (read_count sample_chip).2 = [].
Proof.
  exact (read_count_latches c_mode c_reload chip_count c_low c_latch sample_chip pit_chip_laws
    eq_refl eq_refl).
Defined.

Lemma sleep_returns_on_time_witness : sleep 11 (λ _, 1) 7 0 10999999 = Ret (Some 17).
Proof.
  refine (sleep_returns_on_time (λ _, 1) 7 0 10999999 11 _ _ _ _ _ _); try done.
  vm_compute. lia.
Defined.

Lemma sleep_overrun_never_returns_witness : sleep 1000 (λ _, 2) 0 0 5000000 = Ret None.
Proof.
  apply (sleep_overrun_never_returns (λ _, 2) 0 0 5000000 1000 3); try done.
  intros k Hk. assert (k = 0 ∨ k = 1 ∨ k = 2 ∨ k = 3)%nat as [-> | [-> | [-> | ->]]] by lia; done.
Defined.

End Pit.
