(* ===== verification/Symbols.v ===== *)
(** * Symbols and backtraces: kernel/src/meta/symbols.rs

    Walking the chain of saved frame pointers, and looking an address up in the
    symbol table of the kernel's ELF file.  Parsing the file is the crate elf's: its
    symbol and string tables are parameters. *)

From S2P Require Import Prelude X86.

(** A symbol of the crate elf, and the string table's [get]. *)
Record Symbol := mk_symbol { st_name : Z; st_value : Z; st_size : Z }.
Record SymbolTables := mk_tables_of { symbols : list Symbol; get_string : Z → option string }.

Module Symbols.

(** ** Backtraces *)

Section Walk.
(** The 64-bit word at an address; reading where nothing is mapped is undefined behaviour. *)
Context (mem : Z → option Z).

Record BacktraceIterator := mk_iterator { iter_ptr : Z }.
Record BacktraceFrame := mk_frame { frame_ptr : Z }.

Definition capture (rbp : Z) : BacktraceIterator := mk_iterator rbp.
Definition capture_from (ptr : Z) : BacktraceIterator := mk_iterator ptr.

Definition next (self : BacktraceIterator) : outcome (option BacktraceFrame * BacktraceIterator) :=
  if iter_ptr self =? 0 then mret (None, self)
  else
    let ptr := iter_ptr self in
    match mem ptr with
    | Some next => mret (Some (mk_frame ptr), mk_iterator next)
    | None => Undef "access to an unmapped page"
    end.

(** A [for] loop over the iterator; [None] is a loop that has not ended in [fuel] steps. *)
Fixpoint frames (fuel : nat) (self : BacktraceIterator) : outcome (option (list BacktraceFrame)) :=
  match fuel with
  | O => mret None
  | S fuel =>
      '(r, self) ← next self;
      match r with
      | None => mret (Some [])
      | Some frame => rest ← frames fuel self; mret (cons frame <$> rest)
      end
  end.
End Walk.

(** ** Symbols *)

Fixpoint resolve_in (offset : Z) (syms : list Symbol) (strs : Z → option string) :
    outcome (option string) :=
  match syms with
  | [] => mret None
  | sym :: syms =>
      if st_value sym <? offset then resolve_in offset syms strs
      else
        past ← add_u 64 (st_value sym) (st_size sym);
        if offset <? past then resolve_in offset syms strs
        else if st_name sym =? 0 then mret None
        else mret (strs (st_name sym))
  end.

(** [ELF] is set once, with the parsed file; [symbol_table] may find no table. *)
Definition resolve (ELF : option (option (option SymbolTables))) (offset : Z) : outcome (option string) :=
  match ELF with
  | Some (Some (Some tables)) => resolve_in offset (symbols tables) (get_string tables)
  | _ => mret None
  end.

(** The bytes given to the parser, as the address of the first and their number. *)
Definition get_elf_slice (kernel_image_offset kernel_len : Z) : Z * Z :=
  (kernel_image_offset, wrap usize kernel_len).

Definition init {F Err} (ELF : option (option F)) (minimal_parse : Z → Z → result Err F)
    (kernel_image_offset kernel_len : Z) : option (option F) :=
  let '(data, len) := get_elf_slice kernel_image_offset kernel_len in
  match minimal_parse data len with
  | Err _ => ELF
  | Ok data => match ELF with None => Some (Some data) | Some _ => ELF end
  end.

Definition pointer (self : BacktraceFrame) : Z := frame_ptr self.

Definition frame_symbol (ELF : option (option (option SymbolTables))) (self : BacktraceFrame) :
    outcome (option string) :=
  resolve ELF (frame_ptr self).

(** ** Properties *)

(** The saved frame pointers from [ptr] on are [chain], ended by a null pointer. *)
Fixpoint linked (mem : Z → option Z) (ptr : Z) (chain : list Z) : Prop :=
  match chain with
  | [] => ptr = 0
  | f :: chain => ptr = f ∧ f ≠ 0 ∧ ∃ next, mem f = Some next ∧ linked mem next chain
  end.

(** A backtrace over a well-formed stack ends and yields the frame pointers of the
    chain in order, innermost first, without the null that ends it. *)
Theorem backtrace_walks_chain (mem : Z → option Z) (ptr : Z) (chain : list Z) (fuel : nat)
    (Hchain : linked mem ptr chain) (Hfuel : (length chain < fuel)%nat) :
  frames mem fuel (capture_from ptr) = Ret (Some (mk_frame <$> chain)).
Proof.
  revert ptr fuel Hchain Hfuel. induction chain as [|f chain IH]; intros ptr [|fuel] Hchain Hfuel;
    simpl in *; try lia.
  - subst. done.
  - destruct Hchain as (-> & Hnz & nxt & Hmem & Hchain). unfold next. simpl.
    rewrite (proj2 (Z.eqb_neq f 0)), Hmem by done. simpl.
    pose proof (IH nxt fuel Hchain ltac:(lia)) as Hrest. unfold capture_from in Hrest.
    rewrite Hrest. done.
Qed.

Definition sym_wf (sym : Symbol) : Prop := in_u 64 (st_value sym) ∧ in_u 64 (st_size sym) ∧
  in_u 64 (st_value sym + st_size sym).

(** C38: A lookup only ever finds a symbol of size zero that starts at the address: both
    comparisons are the wrong way round, so an address inside a function, its first
    byte included, is never given that function's name. *)
Theorem resolve_finds_only_empty_symbols (tables : SymbolTables) (offset : Z)
    (Hwf : Forall sym_wf (symbols tables)) :
  resolve (Some (Some (Some tables))) offset =
    Ret (sym ← head (filter (λ sym, st_value sym = offset ∧ st_size sym = 0) (symbols tables));
         if st_name sym =? 0 then None else get_string tables (st_name sym)) ∧
  (Forall (λ sym, 0 < st_size sym) (symbols tables) →
   resolve (Some (Some (Some tables))) offset = Ret None).
Proof.
  assert (resolve (Some (Some (Some tables))) offset =
    Ret (sym ← head (filter (λ sym, st_value sym = offset ∧ st_size sym = 0) (symbols tables));
         if st_name sym =? 0 then None else get_string tables (st_name sym))) as Hrun.
  { simpl. induction Hwf as [|sym syms (Hv & Hs & Hp) Hsyms IH]; [done|].
    cbn [resolve_in]. rewrite filter_cons, (add_u_in _ _ _ Hp). unfold in_u in *.
    destruct (Z.ltb_spec (st_value sym) offset); [by rewrite decide_False by lia|].
    run_bind.
    destruct (Z.ltb_spec offset (st_value sym + st_size sym)); [by rewrite decide_False by lia|].
    rewrite decide_True by lia. simpl. by destruct (st_name sym =? 0). }
  split; [done|]. intros Hpos. rewrite Hrun. do 2 f_equal.
  replace (filter _ (symbols tables)) with ([] : list Symbol); [done|]. clear Hwf Hrun.
  induction Hpos as [|sym syms Hp Hsyms IH]; [done|]. rewrite filter_cons, decide_False by lia. done.
Qed.

(** ** Witnesses *)

Lemma backtrace_walks_chain_witness :
  frames (λ a, if a =? 0x1000 then Some 0x1040 else if a =? 0x1040 then Some 0 else None) 3
    (capture_from 0x1000) = Ret (Some [mk_frame 0x1000; mk_frame 0x1040]).
Proof.
  refine (backtrace_walks_chain _ 0x1000 [0x1000; 0x1040] 3 _ _); [|simpl; lia].
  simpl. split; [done|]. split; [done|]. exists 0x1040. split; [done|].
  split; [done|]. split; [done|]. exists 0. by split.
Defined.

(** A function of 16 bytes at 0x100. *)
Definition sample_tables : SymbolTables :=
  mk_tables_of [mk_symbol 1 0x100 16; mk_symbol 2 0x200 32] (λ _, Some "kernel_main"%string).

Lemma resolve_finds_only_empty_symbols_witness :
  resolve (Some (Some (Some sample_tables))) 0x108 = Ret None.
Proof.
  refine (proj2 (resolve_finds_only_empty_symbols sample_tables 0x108 _) _);
    repeat constructor; simpl; (lia || by vm_compute).
Defined.

End Symbols.
