(* ===== verification/Interrupts.v ===== *)
(** * Interrupt handling: kernel/src/interrupts.rs

    The interrupt descriptor table, what each handler does, and the tick counter with
    its lock.  The last part puts the timer, the I/O APIC
    and the handlers together. *)

From Stdlib Require Import Ascii.
From S2P Require Import Prelude X86 Memory Paging Vga Format IoApic LocalApic Pit Symbols.

Module Interrupts.

(** ** The descriptor table *)

(** The handler functions. *)
Inductive Handler :=
  generic_handler (index : Z)
| division_error_handler | debug_handler | non_maskable_interrupt_handler | breakpoint_handler
| overflow_handler | bound_range_exceeded_handler | invalid_opcode_handler
| device_not_available_handler | double_fault_handler | invalid_tss_handler
| segment_not_present_handler | stack_segment_fault_handler | general_protection_fault_handler
| page_fault_handler | alignment_check_handler | machine_check_handler
| simd_floating_point_exception_handler | virtualization_exception_handler
| control_protection_exception_handler | hypervisor_injection_exception
| vmm_communication_exception_handler | security_exception_handler
| timer_interrupt_handler | keyboard_interrupt_handler
| spurious_local_apic_interrupt_handler | spurious_io_apic_interrupt_handler.
#[global] Instance Handler_eq_dec : EqDecision Handler.
Proof. solve_decision. Defined.

(** An entry of the table: its handler, and the stack of the TSS to switch to.
    [set_handler_fn] leaves the entry without one. *)
Record Gate := mk_gate { gate_handler : Handler; stack_index : option nat }.
Definition set_handler_fn (idt : gmap Z Gate) (vector : Z) (h : Handler) : gmap Z Gate :=
  <[vector := mk_gate h None]> idt.

(** [IDT], filled in the order of the code: first the generic handler, at the vectors
    [filled] that crate x86_64's [set_general_handler!] covers, then the exceptions,
    at the vectors of their fields of [InterruptDescriptorTable], then the hardware
    interrupts. *)
Definition general_handlers (filled : Z → bool) : gmap Z Gate :=
  list_to_map ((λ i, (i, mk_gate (generic_handler i) None)) <$> List.filter filled (seqZ 0 256)).
Definition exception_handlers (idt : gmap Z Gate) : gmap Z Gate :=
  let idt := set_handler_fn idt 0 division_error_handler in
  let idt := set_handler_fn idt 1 debug_handler in
  let idt := set_handler_fn idt 2 non_maskable_interrupt_handler in
  let idt := set_handler_fn idt 3 breakpoint_handler in
  let idt := set_handler_fn idt 4 overflow_handler in
  let idt := set_handler_fn idt 5 bound_range_exceeded_handler in
  let idt := set_handler_fn idt 6 invalid_opcode_handler in
  let idt := set_handler_fn idt 7 device_not_available_handler in
  let idt := set_handler_fn idt 8 double_fault_handler in
  let idt := set_handler_fn idt 10 invalid_tss_handler in
  let idt := set_handler_fn idt 11 segment_not_present_handler in
  let idt := set_handler_fn idt 12 stack_segment_fault_handler in
  let idt := set_handler_fn idt 13 general_protection_fault_handler in
  let idt := set_handler_fn idt 14 page_fault_handler in
  let idt := set_handler_fn idt 17 alignment_check_handler in
  let idt := set_handler_fn idt 18 machine_check_handler in
  let idt := set_handler_fn idt 19 simd_floating_point_exception_handler in
  let idt := set_handler_fn idt 20 virtualization_exception_handler in
  let idt := set_handler_fn idt 21 control_protection_exception_handler in
  let idt := set_handler_fn idt 28 hypervisor_injection_exception in
  let idt := set_handler_fn idt 29 vmm_communication_exception_handler in
  set_handler_fn idt 30 security_exception_handler.
Definition IDT (filled : Z → bool) : gmap Z Gate :=
  let idt := exception_handlers (general_handlers filled) in
  let idt := set_handler_fn idt (interrupt_as_u8 Timer) timer_interrupt_handler in
  let idt := set_handler_fn idt (interrupt_as_u8 Keyboard) keyboard_interrupt_handler in
  let idt := set_handler_fn idt (interrupt_as_u8 SpuriousLocalApic) spurious_local_apic_interrupt_handler in
  set_handler_fn idt (interrupt_as_u8 SpuriousIoApic) spurious_io_apic_interrupt_handler.

(** ** The handlers *)

(** The keyboard task, as the keyboard's handler sees it: [add_scancode] of
    kernel/src/task/keyboard.rs, which may panic. *)
Class ScancodeSink (KT : Type) := { add_scancode : KT → Z → outcome KT }.
#[global] Hint Mode ScancodeSink ! : typeclass_instances.

(** What the handlers reach: the tick counter, the keyboard task that gets the scancodes,
    the vectors acknowledged at the PICs, whether the console lock was forced
    open, the ports, the published I/O APIC, its registers and the local APIC; the
    parsed kernel image; and the lines reported over the serial line. *)
Record World (P D V KT : Type) := mk_world {
  TIMER : Z;
  keyboard : KT;
  pic_eois : list Z;
  writer_unlocked : bool;
  ports : P;
  io_apic : option IoApic.IOApic;
  io_regs : D;
  local_mem : V;
  ELF : option (option (option SymbolTables));
  reported : list string;
}.
Arguments mk_world {P D V KT} _ _ _ _ _ _ _ _ _ _.
Arguments TIMER {P D V KT} _.
Arguments keyboard {P D V KT} _.
Arguments pic_eois {P D V KT} _.
Arguments writer_unlocked {P D V KT} _.
Arguments ports {P D V KT} _.
Arguments io_apic {P D V KT} _.
Arguments io_regs {P D V KT} _.
Arguments local_mem {P D V KT} _.
Arguments ELF {P D V KT} _.
Arguments reported {P D V KT} _.

(** What the processor gives a handler: the stack frame, as [{:#?}] prints it, with its stack
    pointer, the error code where there is one, and what [{:?}] prints for the address in CR2
    and for the error code of a page fault. The texts are those of crate x86_64. *)
Record Pushed := mk_pushed {
  frame_fmt : string;
  stack_pointer : Z;
  error_code : Z;
  cr2_fmt : string;
  page_fault_fmt : string;
}.
Definition nl : string := String "010" EmptyString.

(** A handler returns to the interrupted code, or halts for ever ([hlt_loop]). *)
Inductive Outcome (W : Type) := Returns (w : W) | Halts (w : W).
Arguments Returns {W} _.
Arguments Halts {W} _.

Section Handlers.
Context {P D V KT : Type} `{!Ports P} `{!IoApicDevice D} `{!VolatileMem V} `{!ScancodeSink KT}.
Local Abbreviation World := (World P D V KT).

(** [interrupt_println!], which does not use the console nor its lock. *)
Definition interrupt_println (w : World) (msg : string) : World :=
  mk_world (TIMER w) (keyboard w) (pic_eois w) (writer_unlocked w) (ports w) (io_apic w) (io_regs w)
    (local_mem w) (ELF w) (reported w ++ [msg]).

Definition interrupt_begin (w : World) : World :=
  let w := interrupt_println w "Interrupt Begin" in
  mk_world (TIMER w) (keyboard w) (pic_eois w) true (ports w) (io_apic w) (io_regs w) (local_mem w)
    (ELF w) (reported w).

Definition notify_end_of_interrupt (w : World) (vector : Z) : World :=
  mk_world (TIMER w) (keyboard w) (pic_eois w ++ [vector]) (writer_unlocked w) (ports w) (io_apic w)
    (io_regs w) (local_mem w) (ELF w) (reported w).

Definition keyboard_interrupt (w : World) : outcome World :=
  let w := interrupt_begin w in
  let '(scancode, p) := port_read (ports w) 8 0x60 in
  s ← add_scancode (keyboard w) scancode;
  let w := mk_world (TIMER w) s (pic_eois w) (writer_unlocked w) p
             (io_apic w) (io_regs w) (local_mem w) (ELF w) (reported w) in
  mret (notify_end_of_interrupt w (interrupt_as_u8 Keyboard)).

Definition timer_interrupt (w : World) : outcome World :=
  let previous_value := TIMER w in
  t ← add_u usize previous_value 1;
  let w := mk_world t (keyboard w) (pic_eois w) (writer_unlocked w) (ports w) (io_apic w) (io_regs w)
             (local_mem w) (ELF w) (reported w) in
  mret (notify_end_of_interrupt w (interrupt_as_u8 Timer)).

(** [breakpoint] logs and stops in a Bochs debugger; neither changes the state. *)
Definition breakpoint (w : World) : World := w.

(** A trace goes to the serial port of crate::serial; nothing else happens. *)
Definition spurious_local_apic_interrupt (w : World) : World := w.

Definition spurious_io_apic_interrupt (w : World) : outcome World :=
  let w := breakpoint w in
  '(d, l) ← IoApic.end_of_interrupt write_volatile (io_apic w) (io_regs w) (local_mem w);
  mret (mk_world (TIMER w) (keyboard w) (pic_eois w) (writer_unlocked w) (ports w) (io_apic w) d l
          (ELF w) (reported w)).

(** [todo!]. *)
Definition unhandled (index : Z) : outcome (Outcome World) :=
  Panic ("not yet implemented: handle irq " +:+ Format.text (Format.display index)).

(** The exceptions: most are reported, with the error code where there is one, and
    returned from. *)
Definition report (msg : string) (p : Pushed) (w : World) : World :=
  interrupt_println (interrupt_begin w) (msg +:+ nl +:+ frame_fmt p).
Definition report_code (msg after : string) (p : Pushed) (w : World) : World :=
  report (msg +:+ " (" +:+ Format.text (Format.display (error_code p)) +:+ ")" +:+ after) p w.
Local Abbreviation handler := (Pushed → World → outcome (Outcome World)).
Definition reported_only (msg : string) : handler := λ p w, mret (Returns (report msg p w)).
Definition reported_code (msg after : string) : handler := λ p w, mret (Returns (report_code msg after p w)).

Definition breakpoint_exception : handler := reported_only "EXCEPTION: BREAKPOINT".
Definition division_error : handler := reported_only "EXCEPTION: DIVISION ERROR".
Definition non_maskable_interrupt : handler := reported_only "EXCEPTION: NMI".
Definition debug_exception : handler := reported_only "EXCEPTION: DEBUG".
Definition overflow : handler := reported_only "EXCEPTION: OVERFLOW".
Definition bound_range_exceeded : handler := reported_only "EXCEPTION: BOUND RANGE EXCEEDED".
Definition invalid_opcode : handler := reported_only "EXCEPTION: INVALID OPCODE".
Definition device_not_available : handler := reported_only "EXCEPTION: DEVICE NOT AVAILABLE".
Definition invalid_tss : handler := reported_code "EXCEPTION: INVALID TSS" " ".
Definition segment_not_present : handler := reported_code "EXCEPTION: SEGMENT NOT PRESENT" " ".
Definition stack_segment_fault : handler := reported_code "EXCEPTION: STACK SEGMENT FAULT" " ".
Definition alignment_check : handler := reported_code "EXCEPTION: ALIGNMENT CHECK" " ".
Definition simd_floating_point_exception : handler :=
  reported_only "EXCEPTION: SIMD FLOATING POINT EXCEPTION".
Definition control_protection_exception : handler :=
  reported_code "EXCEPTION: CONTROL PROTECTION EXCEPTION" EmptyString.
Definition virtualization_exception : handler := reported_only "EXCEPTION: VIRTUALIZATION EXCEPTION)".
Definition hypervisor_injection : handler := reported_only "EXCEPTION: HYPERVISOR INJECTION EXCEPTION".
Definition vmm_communication_exception : handler :=
  reported_code "EXCEPTION: VMM COMMUNICATION EXCEPTION" EmptyString.
Definition security_exception : handler := reported_code "EXCEPTION: SECURITY EXCEPTION" EmptyString.

Definition general_protection_fault : handler := λ p w,
  mret (Halts (report_code "EXCEPTION: GENERAL PROTECTION FAULT" " " p w)).
Definition page_fault : handler := λ p w,
  let w := interrupt_println (interrupt_begin w) "EXCEPTION: PAGE FAULT" in
  let w := interrupt_println w ("Accessed Address: " +:+ cr2_fmt p) in
  let w := interrupt_println w ("Error Code: " +:+ page_fault_fmt p) in
  name ← Symbols.resolve (ELF w) (stack_pointer p);
  let w := interrupt_println w ("Function: " +:+ Format.text (Format.debug_option_str name)) in
  let w := interrupt_println w (frame_fmt p) in
  mret (Halts w).
Definition double_fault : handler := λ p w,
  let _ := interrupt_begin w in
  Panic ("EXCEPTION: DOUBLE FAULT (" +:+ Format.text (Format.upper_hex (error_code p)) +:+ ")" +:+ nl +:+ frame_fmt p).
Definition machine_check : handler := λ p w,
  let _ := report "EXCEPTION: MACHINE CHECK" p w in Panic "MACHINE CHECK".

Definition run_handler (h : Handler) (p : Pushed) (w : World) : outcome (Outcome World) :=
  match h with
  | generic_handler index => unhandled index
  | division_error_handler => division_error p w
  | debug_handler => debug_exception p w
  | non_maskable_interrupt_handler => non_maskable_interrupt p w
  | breakpoint_handler => breakpoint_exception p w
  | overflow_handler => overflow p w
  | bound_range_exceeded_handler => bound_range_exceeded p w
  | invalid_opcode_handler => invalid_opcode p w
  | device_not_available_handler => device_not_available p w
  | double_fault_handler => double_fault p w
  | invalid_tss_handler => invalid_tss p w
  | segment_not_present_handler => segment_not_present p w
  | stack_segment_fault_handler => stack_segment_fault p w
  | general_protection_fault_handler => general_protection_fault p w
  | page_fault_handler => page_fault p w
  | alignment_check_handler => alignment_check p w
  | machine_check_handler => machine_check p w
  | simd_floating_point_exception_handler => simd_floating_point_exception p w
  | virtualization_exception_handler => virtualization_exception p w
  | control_protection_exception_handler => control_protection_exception p w
  | hypervisor_injection_exception => hypervisor_injection p w
  | vmm_communication_exception_handler => vmm_communication_exception p w
  | security_exception_handler => security_exception p w
  | timer_interrupt_handler => w ← timer_interrupt w; mret (Returns w)
  | keyboard_interrupt_handler => w ← keyboard_interrupt w; mret (Returns w)
  | spurious_local_apic_interrupt_handler => mret (Returns (spurious_local_apic_interrupt w))
  | spurious_io_apic_interrupt_handler => w ← spurious_io_apic_interrupt w; mret (Returns w)
  end.

(** The processor delivers a vector through the table. *)
Definition deliver (filled : Z → bool) (p : Pushed) (vector : Z) (w : World) : outcome (Outcome World) :=
  match IDT filled !! vector with
  | Some g => run_handler (gate_handler g) p w
  | None => Undef "vector without a gate"
  end.

(** A sequence of interrupts, each with what the processor pushes for it. *)
Fixpoint deliver_all (filled : Z → bool) (vs : list (Z * Pushed)) (w : World) : outcome (Outcome World) :=
  match vs with
  | [] => mret (Returns w)
  | (v, p) :: vs =>
      r ← deliver filled p v w;
      match r with
      | Halts w => mret (Halts w)
      | Returns w => deliver_all filled vs w
      end
  end.
End Handlers.

(** ** The lock of the tick counter

    One processor: [get_pit_uptime] (kernel/src/device/pit.rs) and the timer handler
    both take the spin lock around [TIMER].  The handler runs on top of the main
    program, which only continues when the handler has returned. *)

Inductive main_pc := MainStart | MainHolding | MainDone (uptime : Z).
Inductive irq_pc := NoIrq | IrqSpinning | IrqHolding.
Record lock_state := mk_lock_state {
  locked : bool; timer : Z; main : main_pc; irq : irq_pc; fired : Z;
}.

Inductive lock_step : lock_state → lock_state → Prop :=
| main_lock t n :
    lock_step (mk_lock_state false t MainStart NoIrq n) (mk_lock_state true t MainHolding NoIrq n)
| main_read l t n :
    lock_step (mk_lock_state l t MainHolding NoIrq n) (mk_lock_state false t (MainDone t) NoIrq n)
| irq_arrives l t m n :
    lock_step (mk_lock_state l t m NoIrq n) (mk_lock_state l t m IrqSpinning (n + 1))
| irq_spins t m n :
    lock_step (mk_lock_state true t m IrqSpinning n) (mk_lock_state true t m IrqSpinning n)
| irq_locks t m n :
    lock_step (mk_lock_state false t m IrqSpinning n) (mk_lock_state true t m IrqHolding n)
| irq_returns l t m n :
    lock_step (mk_lock_state l t m IrqHolding n) (mk_lock_state false (t + 1) m NoIrq n).

Definition lock_init (t : Z) : lock_state := mk_lock_state false t MainStart NoIrq 0.

(** ** Lemmas *)

(** The vectors with a handler of their own. *)
Definition own_handlers : list (Z * Handler) :=
  [(0, division_error_handler); (1, debug_handler); (2, non_maskable_interrupt_handler);
   (3, breakpoint_handler); (4, overflow_handler); (5, bound_range_exceeded_handler);
   (6, invalid_opcode_handler); (7, device_not_available_handler); (8, double_fault_handler);
   (10, invalid_tss_handler); (11, segment_not_present_handler); (12, stack_segment_fault_handler);
   (13, general_protection_fault_handler); (14, page_fault_handler); (17, alignment_check_handler);
   (18, machine_check_handler); (19, simd_floating_point_exception_handler);
   (20, virtualization_exception_handler); (21, control_protection_exception_handler);
   (28, hypervisor_injection_exception); (29, vmm_communication_exception_handler);
   (30, security_exception_handler); (32, timer_interrupt_handler); (33, keyboard_interrupt_handler);
   (39, spurious_io_apic_interrupt_handler); (40, spurious_local_apic_interrupt_handler)].

Lemma IDT_own filled v h : (v, h) ∈ own_handlers → IDT filled !! v = Some (mk_gate h None).
Proof.
  intros Hin. unfold own_handlers in Hin.
  repeat (apply elem_of_cons in Hin as [Heq|Hin]; [injection Heq as -> ->|]);
    [..|by apply elem_of_nil in Hin];
    unfold IDT, exception_handlers, set_handler_fn; cbn [interrupt_as_u8];
    repeat (rewrite lookup_insert_ne by done); by rewrite lookup_insert_eq.
Qed.

Lemma IDT_other filled v : 0 ≤ v < 256 → v ∉ own_handlers.*1 →
  IDT filled !! v = if filled v then Some (mk_gate (generic_handler v) None) else None.
Proof.
  intros Hv Hno. unfold IDT, exception_handlers, set_handler_fn; cbn [interrupt_as_u8].
  cbn in Hno. rewrite !not_elem_of_cons in Hno. destruct_and! Hno.
  repeat (rewrite lookup_insert_ne by done). unfold general_handlers.
  assert (NoDup ((λ i, (i, mk_gate (generic_handler i) None)) <$> List.filter filled (seqZ 0 256)).*1) as Hnd.
  { rewrite <-list_fmap_compose. cbn. rewrite list_fmap_id.
    apply NoDup_ListNoDup, List.NoDup_filter, NoDup_ListNoDup, NoDup_seqZ. }
  destruct (filled v) eqn:Hf.
  - apply elem_of_list_to_map_1; [done|]. apply list_elem_of_fmap. exists v. split; [done|].
    apply list_elem_of_In, filter_In. split; [|done]. apply list_elem_of_In, elem_of_seqZ. lia.
  - apply not_elem_of_list_to_map_1. rewrite <-list_fmap_compose. cbn. rewrite list_fmap_id.
    intros Hin%list_elem_of_In%filter_In. destruct Hin as [_ Hin]. congruence.
Qed.

Lemma IDT_timer filled : IDT filled !! 32 = Some (mk_gate timer_interrupt_handler None).
Proof. apply IDT_own. unfold own_handlers. set_solver. Qed.
Lemma IDT_keyboard filled : IDT filled !! 33 = Some (mk_gate keyboard_interrupt_handler None).
Proof. apply IDT_own. unfold own_handlers. set_solver. Qed.
Lemma IDT_spurious_io filled : IDT filled !! 39 = Some (mk_gate spurious_io_apic_interrupt_handler None).
Proof. apply IDT_own. unfold own_handlers. set_solver. Qed.
Lemma IDT_spurious_local filled : IDT filled !! 40 = Some (mk_gate spurious_local_apic_interrupt_handler None).
Proof. apply IDT_own. unfold own_handlers. set_solver. Qed.

(** No other vector leads to a handler. *)
Definition only_at (h0 : Handler) (v0 : Z) (idt : gmap Z Gate) : Prop :=
  ∀ v g, idt !! v = Some g → gate_handler g = h0 → v = v0.
Lemma set_handler_only h0 v0 idt v h : only_at h0 v0 idt → (h = h0 → v = v0) →
  only_at h0 v0 (set_handler_fn idt v h).
Proof.
  intros Hidt Hv v' g Hg Hh. unfold set_handler_fn in Hg. destruct (decide (v = v')) as [<-|Hne].
  - rewrite lookup_insert_eq in Hg. injection Hg as <-. by apply Hv.
  - rewrite lookup_insert_ne in Hg by done. by eapply Hidt.
Qed.
Lemma general_handlers_only h0 v0 filled : (∀ i, h0 ≠ generic_handler i) → only_at h0 v0 (general_handlers filled).
Proof.
  intros Hh. unfold general_handlers. generalize (List.filter filled (seqZ 0 256)). intros l v g Hg Hg0.
  apply (elem_of_list_to_map_2 (M := gmap Z)), list_elem_of_fmap in Hg as (i & Heq & _).
  injection Heq as _ ->. by destruct (Hh i).
Qed.
Ltac solve_only_at :=
  unfold IDT, exception_handlers; cbv zeta; cbn [interrupt_as_u8];
  repeat (apply set_handler_only; [|first [discriminate | intros _; reflexivity]]);
  by apply general_handlers_only.
Lemma IDT_timer_only filled : only_at timer_interrupt_handler 32 (IDT filled).
Proof. solve_only_at. Qed.
Lemma IDT_keyboard_only filled : only_at keyboard_interrupt_handler 33 (IDT filled).
Proof. solve_only_at. Qed.

#[local] Arguments IDT : simpl never.
#[local] Opaque IDT.

(** The invariant of the lock. *)
Definition lock_inv (t : Z) (s : lock_state) : Prop :=
  timer s = t + fired s - (match irq s with NoIrq => 0 | _ => 1 end) ∧ 0 ≤ fired s ∧
  (match main s with
   | MainHolding => locked s = true ∧ irq s ≠ IrqHolding
   | MainStart => locked s = (match irq s with IrqHolding => true | _ => false end)
   | MainDone u => t ≤ u ≤ timer s ∧ locked s = (match irq s with IrqHolding => true | _ => false end)
   end) ∧ (irq s ≠ NoIrq → 1 ≤ fired s).

Lemma lock_inv_step t s s' : lock_inv t s → lock_step s s' → lock_inv t s'.
Proof.
  intros (Ht & Hf & Hm & Hi) Hstep. unfold lock_inv.
  destruct Hstep; simpl in *; try (destruct m; simpl in *); destruct_and?; split_and!; try done; try lia;
    try (intros _; lia); intros _; by apply Hi.
Qed.

Lemma lock_inv_reachable t s : rtc lock_step (lock_init t) s → lock_inv t s.
Proof.
  apply rtc_invariant; [|intros; by eapply lock_inv_step].
  unfold lock_inv, lock_init. simpl. split_and!; (done || lia).
Qed.

(** *** Exceptions *)

Section Exceptions.
Context {P D V KT : Type} `{!Ports P} `{!IoApicDevice D} `{!VolatileMem V} `{!ScancodeSink KT}.

(** What a handler of an exception leaves. *)
Record exception_reported (p : Pushed) (w w' : World P D V KT) : Prop := {
  ex_same : (TIMER w', keyboard w', pic_eois w', ports w', io_apic w', io_regs w', local_mem w', ELF w') =
            (TIMER w, keyboard w, pic_eois w, ports w, io_apic w, io_regs w, local_mem w, ELF w);
  ex_unlocked : writer_unlocked w' = true;
  ex_lines : ∃ lines text, reported w' = reported w ++ ["Interrupt Begin"] ++ lines ++ [text +:+ frame_fmt p];
}.

Lemma append_assoc (a b c : string) : a +:+ b +:+ c = (a +:+ b) +:+ c.
Proof. induction a as [|x a IH]; [done|]. change (String x (a +:+ b +:+ c) = String x ((a +:+ b) +:+ c)). by rewrite IH. Qed.

Lemma report_reported msg p (w : World P D V KT) : exception_reported p w (report msg p w).
Proof.
  split; [done..|]. exists [], (msg +:+ nl). simpl. by rewrite <-app_assoc, append_assoc.
Qed.

Definition halting (h : Handler) : bool :=
  match h with general_protection_fault_handler | page_fault_handler => true | _ => false end.
Definition final {W} (r : Outcome W) : W := match r with Returns w | Halts w => w end.
Definition halted {W} (r : Outcome W) : bool := match r with Returns _ => false | Halts _ => true end.

Lemma page_fault_reported p (w : World P D V KT) r : page_fault p w = Ret r →
  exception_reported p w (final r) ∧ halted r = true.
Proof.
  unfold page_fault. intros Hrun. inv_outcome. split; [|done]. split; [done..|].
  eexists [_; _; _; _], EmptyString. simpl. by rewrite <-!app_assoc.
Qed.

(** The handlers below vector 32. *)
Lemma exception_run v h p (w : World P D V KT) r : (v, h) ∈ own_handlers → v < 32 → run_handler h p w = Ret r →
  exception_reported p w (final r) ∧ halted r = halting h.
Proof.
  intros Hin Hv Hrun. destruct (decide (h = page_fault_handler)) as [-> | Hpf]; [by apply page_fault_reported|].
  unfold own_handlers in Hin.
  repeat (apply elem_of_cons in Hin as [Heq|Hin]; [injection Heq as -> ->|]); [..|by apply elem_of_nil in Hin];
    first [lia | done | injection Hrun as <-; split; [apply report_reported|done]].
Qed.

Lemma halting_vectors v h : (v, h) ∈ own_handlers → halting h = true ↔ v = 13 ∨ v = 14.
Proof.
  intros Hin. unfold own_handlers in Hin.
  repeat (apply elem_of_cons in Hin as [Heq|Hin]; [injection Heq as -> ->|]); [..|by apply elem_of_nil in Hin];
    simpl; split; intros; (done || lia).
Qed.
End Exceptions.

Section Delivery.
Context {P D V KT : Type} `{!Ports P} `{!IoApicDevice D} `{!VolatileMem V} `{!ScancodeSink KT}.

(** The interrupts of the PICs that the kernel expects. *)
Definition pic_vector (v : Z) : Prop := v = 32 ∨ v = 33 ∨ v = 40.

Definition count_vector (v : Z) (vs : list Z) : Z := Z.of_nat (length (List.filter (Z.eqb v) vs)).

(** The bytes that [n] reads of the data port give, in order. *)
Fixpoint read_scancodes (n : nat) (p : P) : list Z * P :=
  match n with
  | O => ([], p)
  | S n =>
      let '(c, p) := port_read p 8 0x60 in
      let '(cs, p) := read_scancodes n p in (c :: cs, p)
  end.
(** The keyboard task gets scancodes one after the other. *)
Fixpoint add_scancodes (s : KT) (codes : list Z) : outcome KT :=
  match codes with
  | [] => mret s
  | c :: codes => s ← add_scancode s c; add_scancodes s codes
  end.
Definition keyboard_count (vs : list Z) : nat := length (List.filter (Z.eqb 33) vs).

(** What a sequence of interrupts of the PICs comes to. *)
Definition delivered_all (filled : Z → bool) (vs : list (Z * Pushed)) (w : World P D V KT) : Prop :=
  let '(codes, p) := read_scancodes (keyboard_count vs.*1) (ports w) in
  match add_scancodes (keyboard w) codes with
  | Ret s => ∃ w', deliver_all filled vs w = Ret (Returns w') ∧
      TIMER w' = TIMER w + count_vector 32 vs.*1 ∧
      pic_eois w' = pic_eois w ++ List.filter (λ v, negb (40 =? v)) vs.*1 ∧
      keyboard w' = s ∧ ports w' = p
  | Panic m => deliver_all filled vs w = Panic m
  | Undef m => deliver_all filled vs w = Undef m
  end.

Lemma deliver_keyboard filled p (w : World P D V KT) :
  deliver filled p 33 w = (w ← keyboard_interrupt w; mret (Returns w)).
Proof. unfold deliver. by rewrite IDT_keyboard. Qed.

(** An interrupt that leaves the keyboard alone. *)
Lemma delivered_other filled v p vs (w w1 : World P D V KT) : deliver filled p v w = Ret (Returns w1) →
  33 =? v = false → TIMER w1 = TIMER w + (if 32 =? v then 1 else 0) →
  pic_eois w1 = pic_eois w ++ (if negb (40 =? v) then [v] else []) →
  keyboard w1 = keyboard w → ports w1 = ports w →
  delivered_all filled vs w1 → delivered_all filled ((v, p) :: vs) w.
Proof.
  intros Hrun Hv Ht He Hk Hp. unfold delivered_all, keyboard_count, count_vector.
  cbn [fmap list_fmap fst List.filter deliver_all]. rewrite Hv, Hrun, Hk, Hp. run_bind.
  destruct (read_scancodes _ _) as [codes q]. destruct (add_scancodes (keyboard w) codes); [|done..].
  intros (w' & Hall & Ht' & He' & Hrest). exists w'. split; [done|]. split_and!; [| |apply Hrest..].
  - rewrite Ht', Ht. destruct (32 =? v); cbn [length]; lia.
  - rewrite He', He. destruct (negb (40 =? v)); rewrite <-?app_assoc; done.
Qed.

(** A keyboard interrupt. *)
Lemma delivered_keyboard filled p vs (w : World P D V KT) :
  (∀ w1, keyboard_interrupt w = Ret w1 → delivered_all filled vs w1) → delivered_all filled ((33, p) :: vs) w.
Proof.
  unfold delivered_all, keyboard_count, count_vector. cbn [fmap list_fmap fst List.filter deliver_all].
  cbn [Z.eqb Pos.eqb length read_scancodes negb]. rewrite deliver_keyboard. unfold keyboard_interrupt.
  cbn [interrupt_begin interrupt_println ports keyboard]. destruct (port_read (ports w) 8 0x60) as [c q].
  destruct (add_scancode (keyboard w) c) as [s|m|m] eqn:Hadd; intros IH.
  2,3: destruct (read_scancodes _ q) as [codes q']; cbn [add_scancodes mbind outcome_bind]; by rewrite Hadd.
  specialize (IH _ eq_refl). cbn [notify_end_of_interrupt ports keyboard TIMER pic_eois] in IH.
  destruct (read_scancodes _ q) as [codes q']. cbn [add_scancodes mbind outcome_bind]. rewrite Hadd. run_bind.
  destruct (add_scancodes s codes); [|done..].
  destruct IH as (w' & Hall & Ht & He & Hrest). exists w'. split; [done|]. split_and!; [done| |apply Hrest..].
  by rewrite He, <-app_assoc.
Qed.

Lemma deliver_all_run filled vs : ∀ (w : World P D V KT),
  Forall pic_vector vs.*1 → 0 ≤ TIMER w → TIMER w + Z.of_nat (length vs) < 2 ^ 64 → delivered_all filled vs w.
Proof.
  induction vs as [|[v p] vs IH]; intros w Hvs H0 Hmax.
  { exists w. split; [done|]. rewrite app_nil_r. unfold count_vector. simpl. split_and!; lia || done. }
  cbn [fmap list_fmap fst] in Hvs. apply Forall_cons in Hvs as [Hv Hvs]. simpl length in Hmax. unfold_u.
  destruct Hv as [-> | [-> | ->]].
  - eapply delivered_other; [unfold deliver; rewrite IDT_timer; simpl; unfold timer_interrupt; run_u; reflexivity|
      done..|]. apply IH; simpl; (done || unfold_u; lia).
  - apply delivered_keyboard. intros w1 Hrun. unfold keyboard_interrupt in Hrun.
    destruct (port_read _ _ _) as [c q]. apply bind_Ret in Hrun as (s & _ & Heq). injection Heq as <-.
    apply IH; simpl; (done || unfold_u; lia).
  - eapply (delivered_other _ _ _ _ _ w); [unfold deliver; by rewrite IDT_spurious_local|done| | |done..|].
    + simpl. lia.
    + simpl. by rewrite app_nil_r.
    + apply IH; (done || unfold_u; lia).
Qed.

Lemma spurious_io_timer (w w' : World P D V KT) :
  spurious_io_apic_interrupt w = Ret w' → TIMER w' = TIMER w.
Proof.
  unfold spurious_io_apic_interrupt. intros ([d l] & _ & Heq)%bind_Ret. by injection Heq as <-.
Qed.

(** Only vector 32 advances the tick counter. *)
Lemma deliver_other_timer filled p v (w w' : World P D V KT) : v ≠ 32 →
  deliver filled p v w = Ret (Returns w') → TIMER w' = TIMER w.
Proof.
  unfold deliver. intros Hv. destruct (IDT filled !! v) as [g|] eqn:Hg; [|done].
  destruct (decide (gate_handler g = timer_interrupt_handler)) as [Ht|Ht]; [destruct Hv; exact (IDT_timer_only filled v g Hg Ht)|].
  intros Hrun. destruct (gate_handler g); simpl in Hrun; try discriminate Hrun; try done;
    try (injection Hrun as <-; done).
  - apply bind_Ret in Hrun as (x & _ & Heq). discriminate Heq.
  - apply bind_Ret in Hrun as (x & Hrun & Heq). injection Heq as <-. unfold keyboard_interrupt in Hrun.
    destruct (port_read _ _ _) as [c q]. apply bind_Ret in Hrun as (s & _ & Heq). by injection Heq as <-.
  - apply bind_Ret in Hrun as (x & Hrun & Heq). injection Heq as <-. by apply spurious_io_timer.
Qed.

Lemma deliver_all_timer filled vs : ∀ (w w' : World P D V KT),
  Forall (λ v, v ≠ 32) vs.*1 → deliver_all filled vs w = Ret (Returns w') → TIMER w' = TIMER w.
Proof.
  induction vs as [|[v p] vs IH]; intros w w' Hvs Hrun; cbn [deliver_all] in Hrun; [by injection Hrun as <-|].
  cbn [fmap list_fmap fst] in Hvs. apply Forall_cons in Hvs as [Hv Hvs].
  apply bind_Ret in Hrun as ([w1|w1] & Hd & Hrun); [|discriminate Hrun].
  rewrite (IH _ _ Hvs Hrun). by eapply deliver_other_timer.
Qed.
End Delivery.

(** ** Properties *)

(** Each of the 26 handlers is installed at its own vector: the hardware vectors
    32, 33, 39 and 40 replace no exception and no vector is set twice; every other
    vector has the generic handler, which panics. *)
Theorem idt_dispatch {P D V KT} `{!Ports P} `{!IoApicDevice D} `{!VolatileMem V} `{!ScancodeSink KT} (filled : Z → bool)
    (p : Pushed) (w : World P D V KT) :
  NoDup own_handlers.*1 ∧ NoDup own_handlers.*2 ∧
  (∀ v h, (v, h) ∈ own_handlers → deliver filled p v w = run_handler h p w) ∧
  ∀ v, 0 ≤ v < 256 → v ∉ own_handlers.*1 → filled v = true →
    deliver filled p v w = unhandled v.
Proof.
  split; [|split; [|split]].
  - apply (bool_decide_unpack _). by vm_compute.
  - apply (bool_decide_unpack _). by vm_compute.
  - intros v h Hin. unfold deliver. by rewrite (IDT_own _ v h).
  - intros v Hv Hno Hf. unfold deliver. by rewrite IDT_other, Hf by done.
Qed.

(** C35: An exception is only ever reported: whichever of the first 32 vectors is delivered, a
    handler that does not panic changes no device, counter or queue; it forces the lock of
    the console open and sends the stack frame, at the end of its last line; it returns, except
    for general protection and page faults, which halt for ever. *)
Theorem exceptions_only_report {P D V KT} `{!Ports P} `{!IoApicDevice D} `{!VolatileMem V} `{!ScancodeSink KT}
    (filled : Z → bool) (p : Pushed) (v : Z) (w : World P D V KT) (r : Outcome (World P D V KT))
    (Hv : 0 ≤ v < 32) (Hrun : deliver filled p v w = Ret r) :
  exception_reported p w (final r) ∧ (halted r = true ↔ v = 13 ∨ v = 14).
Proof.
  unfold deliver in Hrun. destruct (decide (v ∈ own_handlers.*1)) as [Hin|Hno].
  - apply list_elem_of_fmap in Hin as ([v' h] & -> & Hin). simpl in *.
    rewrite (IDT_own _ _ _ Hin) in Hrun. simpl in Hrun.
    destruct (exception_run _ _ _ _ _ Hin ltac:(lia) Hrun) as [Hex ->]. split; [done|].
    by apply halting_vectors.
  - rewrite IDT_other in Hrun by (done || lia). by destruct (filled v).
Qed.

(** C34: For every sequence of timer, keyboard and local spurious interrupts: each keyboard
    interrupt reads one byte from the data port and hands it to [add_scancode] of the
    keyboard task, in order; if none of these calls panics, all handlers return, the
    keyboard task is in the state it is in after all of them, the tick counter has advanced
    once per timer interrupt, and each interrupt of the PICs was acknowledged once, in order;
    otherwise the first call that panics ends the sequence with its panic. *)
Theorem interrupts_counted {P D V KT} `{!Ports P} `{!IoApicDevice D} `{!VolatileMem V} `{!ScancodeSink KT}
    (filled : Z → bool) (vs : list (Z * Pushed)) (w : World P D V KT)
    (Hvs : Forall pic_vector vs.*1) (H0 : 0 ≤ TIMER w)
    (Hmax : TIMER w + Z.of_nat (length vs) < 2 ^ 64) :
  let '(codes, p) := read_scancodes (keyboard_count vs.*1) (ports w) in
  match add_scancodes (keyboard w) codes with
  | Ret s => ∃ w', deliver_all filled vs w = Ret (Returns w') ∧
      TIMER w' = TIMER w + count_vector 32 vs.*1 ∧
      pic_eois w' = pic_eois w ++ List.filter (λ v, negb (40 =? v)) vs.*1 ∧
      keyboard w' = s ∧ ports w' = p
  | Panic m => deliver_all filled vs w = Panic m
  | Undef m => deliver_all filled vs w = Undef m
  end.
Proof. by apply (deliver_all_run filled vs w). Qed.

(** After the I/O APIC is initialised, no interrupt it raises on any line
    advances the tick counter, and without ticks [sleep] does not return: with the
    PICs disabled, as the kernel does next, the first [sleep] of [kernel_main] waits
    for ever. *)
Theorem ioapic_lines_never_tick {P D V KT} `{!Ports P} `{!IoApicDevice D} `{!VolatileMem V} `{!ScancodeSink KT} sel reg
    (filled : Z → bool) (self : IoApic.IOApic) (d : D) (Hlaws : IoApicLaws D sel reg)
    (Hc : 3 ≤ IoApic.redirection_entry_count self ≤ 120)
    (Hvalid : ∀ j, 0 ≤ j < IoApic.redirection_entry_count self →
      ∃ e, IoApic.entry_at (reg := reg) d j = Ret e) :
  ∃ d', IoApic.initialize self d = Ret d' ∧
    (∀ (vs : list (Z * Pushed)) (w w' : World P D V KT),
      Forall (λ v, ∃ j e, 0 ≤ j < IoApic.redirection_entry_count self ∧
        IoApic.entry_at (reg := reg) d' j = Ret e ∧ v = IoApic.vector e) vs.*1 →
      deliver_all filled vs w = Ret (Returns w') → TIMER w' = TIMER w) ∧
    ∀ fuel uptime, 0 ≤ uptime < 2 ^ 63 → Pit.sleep fuel (λ _, 0) uptime 1 0 = Ret None.
Proof.
  destruct (IoApic.initialize_run sel reg self d Hlaws Hc Hvalid) as (d' & Hrun & Hroute & _).
  exists d'. split; [done|]. split.
  - intros vs w w' Hvs. apply deliver_all_timer. eapply Forall_impl; [exact Hvs|].
    simpl. intros v (j & e & Hj & He & ->). destruct (Hvalid j Hj) as [e0 He0].
    rewrite (Hroute j e0 Hj He0) in He. by injection He as <-.
  - intros fuel uptime Hup. by apply Pit.sleep_second_stuck.
Qed.

(** The main program and the handler are never both inside the lock of the tick
    counter, no tick is lost, and what [get_pit_uptime] returned is a value the
    counter had. *)
Theorem timer_lock_safe (t : Z) (s : lock_state) (Hr : rtc lock_step (lock_init t) s) :
  ¬ (main s = MainHolding ∧ irq s = IrqHolding) ∧
  timer s = t + fired s - (match irq s with NoIrq => 0 | _ => 1 end) ∧
  ∀ u, main s = MainDone u → t ≤ u ≤ timer s.
Proof.
  destruct (lock_inv_reachable t s Hr) as (Ht & _ & Hm & _). split; [|split].
  - intros [Hmain Hirq]. rewrite Hmain in Hm. by destruct Hm.
  - done.
  - intros u Hu. rewrite Hu in Hm. apply Hm.
Qed.

(** [get_pit_uptime] takes the lock with interrupts enabled: when the timer fires
    while it holds the lock, the handler spins and the main program never continues,
    whatever happens after. *)
Theorem timer_lock_deadlocks (t : Z) :
  ∃ s, rtc lock_step (lock_init t) s ∧ main s = MainHolding ∧
    ∀ s', rtc lock_step s s' → s' = s.
Proof.
  exists (mk_lock_state true t MainHolding IrqSpinning 1). split; [|split; [done|]].
  - eapply rtc_l; [apply main_lock|]. eapply rtc_l; [apply irq_arrives|]. apply rtc_refl.
  - intros s'. apply (rtc_invariant lock_step (λ x, x = _)); [done|].
    intros x y -> Hstep. by inversion Hstep.
Qed.

(** ** Witnesses *)

#[local] Existing Instances LocalApic.trace_mem IoApic.chip_device.
(** A keyboard controller with a queue of scancodes. *)
#[local] Instance queue_ports : Ports (list Z) := {|
  port_read q w port := match q with [] => (0, []) | c :: q => (c, q) end;
  port_write q w port v := q;
|}.

(** A keyboard task with room for two scancodes, which panics on scancode 0. *)
#[local] Instance small_sink : ScancodeSink (list Z) := {|
  add_scancode s c :=
    if c =? 0 then Panic "task_queue full" else mret (if decide (length s < 2)%nat then s ++ [c] else s);
|}.

Definition sample_world : World (list Z) IoApic.chip (list LocalApic.access) (list Z) :=
  mk_world 7 [] [] false [0x1E; 0x9E; 0x30] None IoApic.sample_chip [] None [].
(** A processor that pushes an empty frame. *)
Definition sample_pushed : Pushed := mk_pushed EmptyString 0 0 EmptyString EmptyString.
Definition sample_interrupts : list (Z * Pushed) := (λ v, (v, sample_pushed)) <$> [32; 33; 40; 33; 33; 32].

Lemma interrupts_counted_witness :
  ∃ w', deliver_all (λ _, true) sample_interrupts sample_world = Ret (Returns w') ∧
    TIMER w' = 9 ∧ pic_eois w' = [32; 33; 33; 33; 32] ∧ keyboard w' = [0x1E; 0x9E] ∧ ports w' = [].
Proof.
  refine (interrupts_counted (λ _, true) sample_interrupts sample_world _ _ _); [|done..].
  change (Forall pic_vector [32; 33; 40; 33; 33; 32]).
  repeat (apply Forall_cons; split; [unfold pic_vector; lia|]). apply Forall_nil. done.
Defined.

Lemma exceptions_only_report_witness :
  match deliver (λ _, true) sample_pushed 14 sample_world with
  | Ret r => exception_reported sample_pushed sample_world (final r) ∧ (halted r = true ↔ 14 = 13 ∨ 14 = 14)
  | _ => False
  end.
Proof.
  destruct (deliver (λ _, true) sample_pushed 14 sample_world) as [r|m|m] eqn:Hrun.
  - apply (exceptions_only_report (λ _, true) sample_pushed 14 sample_world r); [lia|exact Hrun].
  - unfold deliver in Hrun. rewrite (IDT_own _ 14 page_fault_handler) in Hrun; [discriminate Hrun|].
    unfold own_handlers. set_solver.
  - unfold deliver in Hrun. rewrite (IDT_own _ 14 page_fault_handler) in Hrun; [discriminate Hrun|].
    unfold own_handlers. set_solver.
Defined.

Lemma ioapic_lines_never_tick_witness :
  ∃ d', IoApic.initialize IoApic.sample_ioapic IoApic.sample_chip = Ret d' ∧
    (∀ (vs : list (Z * Pushed)) (w w' : World (list Z) IoApic.chip (list LocalApic.access) (list Z)),
      Forall (λ v, ∃ j e, 0 ≤ j < 3 ∧
        IoApic.entry_at (reg := IoApic.chip_reg) d' j = Ret e ∧ v = IoApic.vector e) vs.*1 →
      deliver_all (λ _, true) vs w = Ret (Returns w') → TIMER w' = TIMER w) ∧
    ∀ fuel uptime, 0 ≤ uptime < 2 ^ 63 → Pit.sleep fuel (λ _, 0) uptime 1 0 = Ret None.
Proof.
  refine (ioapic_lines_never_tick IoApic.chip_sel IoApic.chip_reg (λ _, true) IoApic.sample_ioapic
    IoApic.sample_chip IoApic.chip_laws _ _); [done|].
  simpl. intros j Hj. assert (j = 0 ∨ j = 1 ∨ j = 2) as [-> | [-> | ->]] by lia;
    eexists; by vm_compute.
Defined.

Definition sample_lock_state : lock_state := mk_lock_state false 6 (MainDone 5) NoIrq 1.

Lemma timer_lock_safe_witness :
  ¬ (main sample_lock_state = MainHolding ∧ irq sample_lock_state = IrqHolding) ∧
  timer sample_lock_state = 5 + fired sample_lock_state - 0 ∧
  ∀ u, main sample_lock_state = MainDone u → 5 ≤ u ≤ timer sample_lock_state.
Proof.
  refine (timer_lock_safe 5 sample_lock_state _).
  eapply rtc_l; [apply main_lock|]. eapply rtc_l; [apply main_read|].
  eapply rtc_l; [apply irq_arrives|]. eapply rtc_l; [apply irq_locks|].
  eapply rtc_l; [apply irq_returns|]. apply rtc_refl.
Defined.

End Interrupts.
