(* ===== verification/Locks.v ===== *)
(** * Spin locks and interrupts

    The kernel runs on one processor: a lock that the main program holds when an interrupt
    arrives stays held until the handler returns, so a handler that waits for it waits for
    ever.  The machine here runs the lock operations of the main program, of the
    interrupt handlers and of the exceptions.  A discipline on the main program, checked statement by statement,
    is enough for mutual exclusion and against deadlock; the kernel's functions are
    listed with their lock operations, and all but two follow the discipline. *)

From S2P Require Import Prelude Vga Logging.

Module Locks.

(** ** Locks and lock operations *)

(** The statics that hold a [spin::Mutex]. *)
Inductive lock :=
| TIMER | PICS                              (* interrupts.rs *)
| WRITER                                    (* vga_text_buffer.rs *)
| SERIAL1                                   (* serial.rs *)
| IO_APIC | LOCAL_APIC                      (* [INSTANCE] of interrupts/apic *)
| HEAP | PAGES                              (* [ALLOCATOR] of allocator.rs and allocator/page.rs *)
| MAPPER | FRAME_ALLOCATOR                  (* memory.rs *)
| ACPI_DATA                                 (* device/acpi/mod.rs *)
| CHANNEL0 | MODE_COMMAND                   (* device/pit.rs *)
| IO_PORTS.                                 (* device/pci/config.rs *)
#[global] Instance lock_eq_dec : EqDecision lock.
Proof. solve_decision. Defined.

(** [Disable] and [Restore] are the two ends of crate x86_64's [without_interrupts]: interrupts
    are off in between, and as they were before afterwards. *)
Inductive instr := Lock (l : lock) | Unlock (l : lock) | ForceUnlock (l : lock) | Disable | Restore.

(** ** The machine *)

(** A context of execution: what it still has to do, the saved interrupt flags, and the
    guards it has. *)
Record context := mk_context { code : list instr; saved : list bool; guards : list lock }.
Record machine := mk_machine {
  locked : list lock; interrupts_on : bool; main : context; irq : option context; exceptions : list context;
}.

Definition without (l : lock) (ls : list lock) : list lock := filter (λ x, x ≠ l) ls.

(** One operation; [None] while a lock is waited for. *)
Definition exec (ls : list lock) (on : bool) (c : context) : option (list lock * bool * context) :=
  match code c with
  | [] => None
  | Lock l :: p =>
      if decide (l ∈ ls) then None else Some (l :: ls, on, mk_context p (saved c) (l :: guards c))
  | Unlock l :: p => Some (without l ls, on, mk_context p (saved c) (without l (guards c)))
  | ForceUnlock l :: p => Some (without l ls, on, mk_context p (saved c) (guards c))
  | Disable :: p => Some (ls, false, mk_context p (on :: saved c) (guards c))
  | Restore :: p =>
      match saved c with
      | b :: s => Some (ls, b, mk_context p s (guards c))
      | [] => None
      end
  end.

(** An interrupt arrives when interrupts are on, and turns them off until its handler
    returns.  Exceptions, and the interrupt that cannot be masked, do not heed that: they
    arrive at any time, in a handler too and one inside another, and what was interrupted
    continues when their handler has returned. *)
Inductive quiet_step : machine → machine → Prop :=
| main_step ls on m ls' on' m' :
    exec ls on m = Some (ls', on', m') →
    quiet_step (mk_machine ls on m None []) (mk_machine ls' on' m' None [])
| irq_step ls on m h ls' on' h' :
    exec ls on h = Some (ls', on', h') →
    quiet_step (mk_machine ls on m (Some h) []) (mk_machine ls' on' m (Some h') [])
| irq_return ls on m s gs :
    quiet_step (mk_machine ls on m (Some (mk_context [] s gs)) []) (mk_machine ls true m None [])
| exception_step ls on m i e es ls' on' e' :
    exec ls on e = Some (ls', on', e') →
    quiet_step (mk_machine ls on m i (e :: es)) (mk_machine ls' on' m i (e' :: es))
| exception_return ls on m i s gs es :
    quiet_step (mk_machine ls on m i (mk_context [] s gs :: es)) (mk_machine ls on m i es).

Inductive step (handlers faults : list (list instr)) : machine → machine → Prop :=
| step_quiet s s' : quiet_step s s' → step handlers faults s s'
| step_arrives ls m h :
    h ∈ handlers →
    step handlers faults (mk_machine ls true m None [])
      (mk_machine ls false m (Some (mk_context h [] [])) [])
| step_exception ls on m i es e :
    e ∈ faults →
    step handlers faults (mk_machine ls on m i es) (mk_machine ls on m i (mk_context e [] [] :: es)).

Definition started (p : list instr) : machine := mk_machine [] true (mk_context p [] []) None [].
Definition finished (s : machine) : Prop :=
  code (main s) = [] ∧ irq s = None ∧ exceptions s = [] ∧ locked s = [].

(** ** The discipline *)

(** [H] are the locks that handlers use. The main program may have a guard of such a lock
    only while interrupts are off. [check] runs a program on the interrupt flag, the saved
    flags and the guards. [F] are the locks that exceptions force open. *)
Section Discipline.
Context (H F : list lock).

Definition apart (gs : list lock) : bool := forallb (λ l, bool_decide (l ∉ H)) gs.

Definition state : Type := bool * list bool * list lock.
Definition check_instr (st : state) (i : instr) : option state :=
  let '(on, sv, gs) := st in
  match i with
  | Lock l =>
      if bool_decide (l ∉ gs) && (negb on || bool_decide (l ∉ H)) then Some (on, sv, l :: gs) else None
  | Unlock l => if bool_decide (l ∈ gs) then Some (on, sv, without l gs) else None
  | ForceUnlock l => if bool_decide (l ∉ gs) then Some (on, sv, gs) else None
  | Disable => Some (false, on :: sv, gs)
  | Restore =>
      match sv with
      | b :: sv => if negb b || apart gs then Some (b, sv, gs) else None
      | [] => None
      end
  end.
Fixpoint check (st : state) (p : list instr) : option state :=
  match p with
  | [] => Some st
  | i :: p => st ← check_instr st i; check st p
  end.

Definition disciplined (p : list instr) : bool := bool_decide (check (true, [], []) p = Some (true, [], [])).

(** A handler starts with interrupts off and uses only the locks of [H]. *)
Definition uses (i : instr) : list lock :=
  match i with Lock l | Unlock l | ForceUnlock l => [l] | _ => [] end.
Definition handler_ok (h : list instr) : bool :=
  bool_decide (check (false, [], []) h = Some (false, [], [])) &&
  forallb (λ i, forallb (λ l, bool_decide (l ∈ H)) (uses i)) h.

(** The handler of an exception only forces locks of [F] open. *)
Definition forces (i : instr) : bool :=
  match i with ForceUnlock l => bool_decide (l ∈ F) | _ => false end.

Lemma check_app st p q : check st (p ++ q) = (st' ← check st p; check st' q).
Proof.
  revert st. induction p as [|i p IH]; intros st; simpl; [done|].
  destruct (check_instr st i); simpl; [apply IH|done].
Qed.

Lemma disciplined_concat ps : forallb disciplined ps = true → disciplined (concat ps) = true.
Proof.
  intros Hps. apply bool_decide_eq_true. induction ps as [|p ps IH]; simpl in *; [done|].
  apply andb_prop in Hps as [Hp%bool_decide_eq_true Hps]. rewrite check_app, Hp. simpl. auto.
Qed.

Lemma elem_of_without l x ls : x ∈ without l ls ↔ x ≠ l ∧ x ∈ ls.
Proof. unfold without. by rewrite list_elem_of_filter. Qed.

Lemma apart_spec gs : apart gs = true ↔ ∀ l, l ∈ gs → l ∉ H.
Proof.
  unfold apart. rewrite forallb_forall. setoid_rewrite bool_decide_eq_true. split; intros Ha l Hl.
  - apply Ha. by apply list_elem_of_In.
  - apply Ha. by apply list_elem_of_In.
Qed.

(** *** The invariant *)

(** Every lock that is taken has a guard in [gs]; a guard without its lock taken is one that
    an exception has forced open. *)
Definition tracks (ls gs : list lock) : Prop :=
  (∀ l, l ∈ ls → l ∈ gs) ∧ ∀ l, l ∈ gs → l ∈ ls ∨ l ∈ F.

Lemma tracks_without l ls gs gs' : tracks ls gs → (∀ x, x ∈ gs' ↔ x ∈ gs ∧ x ≠ l) → tracks (without l ls) gs'.
Proof.
  intros [H1 H2] Hgs. split; intros x.
  - rewrite elem_of_without, Hgs. naive_solver.
  - rewrite elem_of_without, Hgs. naive_solver.
Qed.
Lemma tracks_forced l ls gs : tracks ls gs → l ∈ F → tracks (without l ls) gs.
Proof.
  intros [H1 H2] Hl. split; intros x.
  - rewrite elem_of_without. naive_solver.
  - rewrite elem_of_without. destruct (decide (x = l)) as [->|]; naive_solver.
Qed.

(** A context that follows [check] is never blocked, as long as the locks it does not have
    itself, [others], are not those it uses. *)
Lemma exec_check ls on c (others : list lock) fin :
  check (on, saved c, guards c) (code c) = Some fin → code c ≠ [] →
  tracks ls (others ++ guards c) →
  (∀ i l, head (code c) = Some i → l ∈ uses i → l ∉ others) →
  ∃ ls' on' c', exec ls on c = Some (ls', on', c') ∧ code c' = tail (code c) ∧
    check (on', saved c', guards c') (code c') = Some fin ∧
    tracks ls' (others ++ guards c') ∧
    ∃ i, head (code c) = Some i ∧
      check_instr (on, saved c, guards c) i = Some (on', saved c', guards c').
Proof.
  destruct c as [[|i p] sv gs]; cbn [check code saved guards head tail]; [done|]. intros Hc _ Hls Huse.
  destruct (check_instr (on, sv, gs) i) as [st|] eqn:Hi; simpl in Hc; [|done].
  specialize (λ l, Huse i l eq_refl). pose proof Hi as Hi'. unfold exec. simpl. destruct i as [l|l|l| |]; simpl in Hi, Huse.
  - destruct (bool_decide_reflect (l ∉ gs)) as [Hl|]; [|done]. simpl in Hi.
    destruct (negb on || bool_decide (l ∉ H)) eqn:Hon; [|done]. injection Hi as <-.
    rewrite decide_False; [|intros [?|?]%(proj1 Hls)%elem_of_app; [by apply (Huse l); [left|]|done]].
    eexists _, _, _. split; [done|]. split; [done|]. split; [done|]. split; [|by eauto].
    destruct Hls as [H1 H2]. split; intros x; simpl; set_solver.
  - destruct (bool_decide_reflect (l ∈ gs)) as [Hl|]; [|done]. injection Hi as <-.
    eexists _, _, _. split; [done|]. split; [done|]. split; [done|]. split; [|by eauto].
    apply (tracks_without l _ (others ++ gs)); [done|]. intros x. simpl. rewrite !elem_of_app, elem_of_without.
    specialize (Huse l ltac:(by left)). destruct (decide (x = l)) as [->|]; naive_solver.
  - destruct (bool_decide_reflect (l ∉ gs)) as [Hl|]; [|done]. injection Hi as <-.
    eexists _, _, _. split; [done|]. split; [done|]. split; [done|]. split; [|by eauto].
    apply (tracks_without l _ (others ++ gs)); [done|]. intros x. simpl. rewrite !elem_of_app.
    specialize (Huse l ltac:(by left)). destruct (decide (x = l)) as [->|]; naive_solver.
  - injection Hi as <-. eexists _, _, _. split; [done|]. split; [done|]. split; [done|]. split; [done|]. by eauto.
  - destruct sv as [|b sv]; [done|]. destruct (negb b || apart gs) eqn:Hb; [|done]. injection Hi as <-.
    eexists _, _, _. split; [done|]. split; [done|]. split; [done|]. split; [done|]. by eauto.
Qed.

Definition main_ok (on : bool) (c : context) : Prop :=
  check (on, saved c, guards c) (code c) = Some (true, [], []) ∧ (on = true → apart (guards c) = true).

Definition irq_ok (c : context) : Prop :=
  check (false, saved c, guards c) (code c) = Some (false, [], []) ∧ Forall (eq false) (saved c) ∧
  Forall (λ i, ∀ l, l ∈ uses i → l ∈ H) (code c) ∧ ∀ l, l ∈ guards c → l ∈ H.

Definition exception_ok (c : context) : Prop := forallb forces (code c) = true ∧ guards c = [].

Definition held (s : machine) : list lock :=
  guards (main s) ++ from_option guards [] (irq s).

Definition inv (s : machine) : Prop :=
  Forall exception_ok (exceptions s) ∧ tracks (locked s) (held s) ∧
  match irq s with
  | None => main_ok (interrupts_on s) (main s)
  | Some h => main_ok true (main s) ∧ interrupts_on s = false ∧ irq_ok h
  end.

(** Taking or giving back a guard keeps the guards apart from [H] while interrupts are on. *)
Lemma check_apart on sv gs i on' sv' gs' :
  check_instr (on, sv, gs) i = Some (on', sv', gs') → (on = true → apart gs = true) →
  (on' = true → apart gs' = true).
Proof.
  intros Hi Hap ->. destruct i as [l|l|l| |]; simpl in Hi.
  - destruct (bool_decide (l ∉ gs)); [|done]. simpl in Hi.
    destruct on; simpl in Hi; [|done]. destruct (bool_decide_reflect (l ∉ H)) as [Hl|]; [|done].
    injection Hi as <- <-. unfold apart in *. simpl. by rewrite bool_decide_eq_true_2, Hap.
  - destruct (bool_decide (l ∈ gs)); [|done]. injection Hi as -> <- <-. specialize (Hap eq_refl).
    rewrite apart_spec in Hap |- *. intros x [_ Hx]%elem_of_without. by apply Hap.
  - destruct (bool_decide (l ∉ gs)); [|done]. injection Hi as -> <- <-. auto.
  - done.
  - destruct sv as [|b sv]; [done|]. destruct (negb b || apart gs) eqn:Hb; [|done]. by injection Hi as -> <- <-.
Qed.

(** A handler never turns interrupts on, and its guards stay among [H]. *)
Lemma check_handler sv gs i on' sv' gs' :
  check_instr (false, sv, gs) i = Some (on', sv', gs') → Forall (eq false) sv →
  (∀ l, l ∈ uses i → l ∈ H) → (∀ l, l ∈ gs → l ∈ H) →
  on' = false ∧ Forall (eq false) sv' ∧ ∀ l, l ∈ gs' → l ∈ H.
Proof.
  intros Hi Hsv Hu Hgs. destruct i as [l|l|l| |]; simpl in Hi, Hu.
  - destruct (_ && _); [|done]. injection Hi as <- <- <-. split; [done|]. split; [done|].
    intros x [->|Hx]%elem_of_cons; [apply Hu; by left|auto].
  - destruct (bool_decide _); [|done]. injection Hi as <- <- <-. split; [done|]. split; [done|].
    intros x [_ Hx]%elem_of_without. auto.
  - destruct (bool_decide _); [|done]. by injection Hi as <- <- <-.
  - injection Hi as <- <- <-. split; [done|]. split; [by constructor|done].
  - destruct sv as [|b sv]; [done|]. apply Forall_cons in Hsv as [<- Hsv]. simpl in Hi. by injection Hi as <- <- <-.
Qed.

Lemma main_exec on m ls : main_ok on m → code m ≠ [] → tracks ls (guards m ++ []) →
  ∃ ls' on' m', exec ls on m = Some (ls', on', m') ∧ length (code m) = S (length (code m')) ∧
    main_ok on' m' ∧ tracks ls' (guards m' ++ []).
Proof.
  intros [Hc Hap] Hne Hls. rewrite app_nil_r in Hls.
  destruct (exec_check ls on m [] _ Hc Hne Hls) as (ls' & on' & m' & Hex & Htl & Hc' & Hls' & i & _ & Hi); [set_solver|].
  exists ls', on', m'. rewrite app_nil_r. split; [done|]. split; [rewrite Htl; by destruct (code m)|].
  split; [|done]. split; [done|]. by eapply check_apart.
Qed.

Lemma irq_exec m h ls : main_ok true m → irq_ok h → code h ≠ [] → tracks ls (guards m ++ guards h) →
  ∃ ls' h', exec ls false h = Some (ls', false, h') ∧ length (code h) = S (length (code h')) ∧
    irq_ok h' ∧ tracks ls' (guards m ++ guards h').
Proof.
  intros [_ Hap] (Hc & Hsv & Hu & Hgs) Hne Hls. specialize (Hap eq_refl). rewrite apart_spec in Hap.
  assert (∀ i, head (code h) = Some i → ∀ l, l ∈ uses i → l ∈ H) as Hhead.
  { intros i Hi. destruct (code h) as [|j p]; [done|]. injection Hi as ->. by apply Forall_cons in Hu as [? _]. }
  destruct (exec_check ls false h (guards m) _ Hc Hne Hls) as (ls' & on' & h' & Hex & Htl & Hc' & Hls' & i & Hd & Hi).
  { intros i l Hi Hl Hg. eapply Hap; [exact Hg|]. by eapply Hhead. }
  destruct (check_handler _ _ _ _ _ _ Hi Hsv (Hhead i Hd) Hgs) as (-> & Hsv' & Hgs').
  exists ls', h'. split; [done|]. split; [rewrite Htl; by destruct (code h)|]. split; [|done].
  split_and!; try done. rewrite Htl. destruct (code h); [done|]. by apply Forall_cons in Hu as [_ ?].
Qed.

Lemma exception_exec ls on e gs : exception_ok e → code e ≠ [] → tracks ls gs →
  ∃ ls' e', exec ls on e = Some (ls', on, e') ∧ length (code e) = S (length (code e')) ∧
    exception_ok e' ∧ tracks ls' gs.
Proof.
  destruct e as [[|i p] sv g]; [done|]. intros [Hf Hg] _ Hls. simpl in *. apply andb_prop in Hf as [Hi Hf].
  destruct i as [l|l|l| |]; try done. apply bool_decide_eq_true in Hi.
  eexists _, _. split; [done|]. split; [done|]. split; [done|]. by apply tracks_forced.
Qed.

(** The code that is left, the return from a handler counted. *)
Definition remaining (s : machine) : nat :=
  length (code (main s)) + match irq s with None => 0 | Some h => S (length (code h)) end +
  sum_list_with (λ e, S (length (code e))) (exceptions s).

(** A state of the invariant that is not finished makes progress on its own. *)
Lemma inv_progress s : inv s → finished s ∨ ∃ s', quiet_step s s' ∧ inv s' ∧ (remaining s' < remaining s)%nat.
Proof.
  destruct s as [ls on m i [|e es]]; unfold inv, remaining, held; cbn [irq main interrupts_on locked exceptions];
    intros (Hes & Hls & Hok).
  2: { apply Forall_cons in Hes as [He Hes]. right. destruct (code e) as [|j p] eqn:Hcode.
    - destruct e as [c sv gs]. simpl in *. subst. eexists. split; [apply exception_return|]. simpl. split; [done|lia].
    - destruct (exception_exec ls on e _ He ltac:(by rewrite Hcode) Hls) as (ls' & e' & Hex & Hlen & He' & Hls').
      eexists. split; [by apply exception_step|]. simpl in *. split; [|lia].
      split; [by constructor|]. by split. }
  destruct i as [h|]; simpl in Hls.
  - destruct Hok as (Hm & -> & Hh). right. destruct (code h) as [|j p] eqn:Hcode.
    + destruct h as [c sv gs]. simpl in *. subst. destruct Hh as (Hc & _). simpl in Hc. injection Hc as -> ->.
      eexists. split; [apply irq_return|]. simpl. split; [by split_and!|lia].
    + destruct (irq_exec m h ls Hm Hh) as (ls' & h' & Hex & Hlen & Hh' & Hls'); [by rewrite Hcode|done|].
      rewrite Hcode in Hlen. eexists. split; [by apply irq_step|]. simpl in *. split; [by split_and!|lia].
  - destruct (code m) as [|j p] eqn:Hcode.
    + left. destruct m as [c sv gs]. simpl in *. subst. destruct Hok as [Hc _]. simpl in Hc. injection Hc as -> -> ->.
      split_and!; try done. simpl. destruct ls as [|l ls]; [done|]. exfalso.
      apply (not_elem_of_nil l), (proj1 Hls). by left.
    + right. destruct (main_exec on m ls Hok) as (ls' & on' & m' & Hex & Hlen & Hm' & Hls'); [by rewrite Hcode|done|].
      rewrite Hcode in Hlen. eexists. split; [by apply main_step|]. simpl in *. split; [by split_and!|lia].
Qed.

Lemma quiet_step_deterministic s s1 s2 : quiet_step s s1 → quiet_step s s2 → s1 = s2.
Proof.
  intros H1 H2. inversion H1; subst; inversion H2; subst; simplify_eq; try done; by unfold exec in *; simplify_eq.
Qed.

Lemma finished_quiet s s' : finished s → ¬ quiet_step s s'.
Proof.
  intros (Hc & Hi & He & _) Hs. inversion Hs as [? ? m ? ? ? Hex| | | |]; subst; simpl in *; [|done..].
  unfold exec in Hex. by rewrite Hc in Hex.
Qed.

Context (handlers faults : list (list instr)) (Hhandlers : forallb handler_ok handlers = true).
Context (Hfaults : forallb (forallb forces) faults = true).

Lemma inv_step s s' : inv s → step handlers faults s s' → inv s'.
Proof using Hhandlers Hfaults.
  intros Hinv Hs. destruct Hs as [s s' Hs|ls m h Hh|ls on m i es e He].
  - destruct (inv_progress s Hinv) as [Hf|(s1 & Hs1 & Hinv1 & _)]; [by apply finished_quiet in Hs|].
    by rewrite (quiet_step_deterministic s s' s1 Hs Hs1).
  - destruct Hinv as (_ & Hls & Hm). simpl in *. rewrite forallb_forall in Hhandlers.
    apply list_elem_of_In, Hhandlers, andb_prop in Hh as [Hc%bool_decide_eq_true Hu].
    split; [done|]. split; [done|]. split; [done|]. split; [done|]. split; [done|]. split; [done|]. split; simpl.
    + apply Forall_forall. intros i Hi l Hl. rewrite forallb_forall in Hu.
      apply list_elem_of_In, Hu in Hi. rewrite forallb_forall in Hi.
      apply list_elem_of_In, Hi in Hl. by apply bool_decide_eq_true in Hl.
    + set_solver.
  - destruct Hinv as (Hes & Hls & Hok). split; [|done]. simpl. constructor; [|done]. split; [|done]. simpl.
    rewrite forallb_forall in Hfaults. by apply Hfaults, list_elem_of_In.
Qed.

Lemma inv_reachable p s : disciplined p = true → rtc (step handlers faults) (started p) s → inv s.
Proof using Hhandlers Hfaults.
  intros Hp%bool_decide_eq_true. apply rtc_invariant; [|intros; by eapply inv_step].
  split; [done|]. split; [split; set_solver|]. by split.
Qed.

(** Left alone, it finishes. *)
Lemma inv_finishes s : inv s → ∃ s', rtc quiet_step s s' ∧ finished s'.
Proof.
  remember (remaining s) as n eqn:Hn. revert s Hn.
  induction (lt_wf n) as [n _ IH]. intros s -> Hinv.
  destruct (inv_progress s Hinv) as [Hf|(s1 & Hs1 & Hinv1 & Hlt)]; [by exists s|].
  destruct (IH _ Hlt s1 eq_refl Hinv1) as (s' & Hr & Hf). exists s'. split; [by eapply rtc_l|done].
Qed.
End Discipline.

(** ** The kernel's functions *)

Definition without_interrupts (p : list instr) : list instr := Disable :: p ++ [Restore].

(** *** Printing and logging *)

Definition vga_print : list instr := without_interrupts [Lock WRITER; Unlock WRITER].
Definition serial_print : list instr := without_interrupts [ForceUnlock SERIAL1; Lock SERIAL1; Unlock SERIAL1].
Definition log_record (level : Logging.Level) : list instr :=
  serial_print ++ (if bool_decide (level ≠ Logging.Trace) then vga_print else []).
Definition trace : list instr := log_record Logging.Trace.

Definition backspace : list instr := [Lock WRITER; Unlock WRITER].

(** *** Memory *)

(** [oom]: the request ends in [fallback_allocator_oom]. *)
Definition alloc (oom : bool) : list instr := Lock HEAP :: (if oom then serial_print else []) ++ [Unlock HEAP].
Definition dealloc : list instr := [Lock HEAP; Unlock HEAP].
Definition allocate_n : list instr := [Lock PAGES; Unlock PAGES].
Definition with_mapper (p : list instr) : list instr := Lock MAPPER :: p ++ [Unlock MAPPER].
Definition with_frame_allocator (p : list instr) : list instr := Lock FRAME_ALLOCATOR :: p ++ [Unlock FRAME_ALLOCATOR].
Definition do_map_region (pages : nat) : list instr :=
  concat (replicate pages (with_mapper (with_frame_allocator []))).
Definition map_physical_region (pages : nat) : list instr := allocate_n ++ do_map_region pages.
Definition unmap_physical_region (pages : nat) : list instr := concat (replicate pages (with_mapper [])).

(** *** Devices *)

Definition get_pit_uptime : list instr := [Lock TIMER; Unlock TIMER].
Definition write_mode_command : list instr := trace ++ [Lock MODE_COMMAND; Unlock MODE_COMMAND].
Definition read_count : list instr :=
  without_interrupts (write_mode_command ++ [Lock CHANNEL0; Unlock CHANNEL0]).
Definition write_reload_count : list instr := without_interrupts [Lock CHANNEL0; Unlock CHANNEL0].
Definition read_dword : list instr := [Lock IO_PORTS; Unlock IO_PORTS].
Definition write_word : list instr := [Lock IO_PORTS; Unlock IO_PORTS].

(** What a method of the firmware does through the AML interpreter: memory, by the number of
    pages mapped for the access, ports, PCI registers, and the interpreter's own requests to the heap. *)
Inductive aml_access := AmlMemory (pages : nat) | AmlPort | AmlPci | AmlAlloc (oom : bool) | AmlDealloc.
Definition aml_memory (pages : nat) : list instr :=
  trace ++ map_physical_region pages ++ unmap_physical_region pages.
Definition aml_port : list instr := trace.
Definition aml_pci : list instr := trace.
Definition run_access (a : aml_access) : list instr :=
  match a with
  | AmlMemory pages => aml_memory pages
  | AmlPort => aml_port
  | AmlPci => aml_pci
  | AmlAlloc oom => alloc oom
  | AmlDealloc => dealloc
  end.
Definition invoke_method (accesses : list aml_access) : list instr := concat (run_access <$> accesses).

(** [accesses] are those of [_PTS], and of [_WAK]; [failed] is an early return with an error;
    [aml] is whether there is an AML context. *)
Definition before_acpi_shutdown (accesses : list aml_access) (failed : bool) : list instr :=
  Lock ACPI_DATA :: invoke_method accesses ++ (if failed then [] else trace) ++ [Unlock ACPI_DATA].
Definition do_shutdown_using_acpi (error : bool) : list instr :=
  Lock ACPI_DATA :: (if error then log_record Logging.Error else []) ++ [Unlock ACPI_DATA].
(** Both callers of [recover_acpi_shutdown] have dropped their guard, so that [try_lock] finds
    the lock free. *)
Definition recover_acpi_shutdown (aml : bool) (accesses : list aml_access) : list instr :=
  Lock ACPI_DATA :: (if aml then trace ++ invoke_method accesses else []) ++ [Unlock ACPI_DATA].

(** [published]: [publish] has been called. *)
Definition io_with (published : bool) (p : list instr) : list instr :=
  Lock IO_APIC :: (if published then p else []) ++ [Unlock IO_APIC].
Definition offset_to_addr : list instr := trace.
Definition select_register : list instr := offset_to_addr.
Definition read_u32 : list instr := select_register ++ offset_to_addr ++ trace.
Definition read_entry : list instr := read_u32 ++ read_u32.
Definition dump_debug_info (published : bool) : list instr := io_with published (read_entry ++ trace).
Definition end_of_interrupt (published : bool) : list instr :=
  dump_debug_info published ++ io_with published [] ++ dump_debug_info published.

(** *** The handlers *)

Definition interrupt_begin : list instr := [ForceUnlock WRITER].
(** [dropped]: the scancode is dropped with a warning. *)
Definition keyboard_interrupt_handler (dropped : bool) : list instr :=
  interrupt_begin ++ (if dropped then log_record Logging.Warn else []) ++ [Lock PICS; Unlock PICS].
Definition timer_interrupt_handler : list instr := [Lock TIMER; Lock PICS; Unlock PICS; Unlock TIMER].
Definition spurious_local_apic_interrupt_handler : list instr := trace.
Definition breakpoint : list instr := trace.
Definition spurious_io_apic_interrupt_handler (published : bool) : list instr :=
  trace ++ breakpoint ++ end_of_interrupt published.
(** The exceptions that return: what they report goes straight to the serial port. *)
Definition exception_handler : list instr := interrupt_begin.

Definition kernel_handlers : list (list instr) :=
  [keyboard_interrupt_handler false; keyboard_interrupt_handler true; timer_interrupt_handler;
   spurious_local_apic_interrupt_handler; spurious_io_apic_interrupt_handler false;
   spurious_io_apic_interrupt_handler true].
Definition kernel_exceptions : list (list instr) := [exception_handler].
Definition handler_locks : list lock := [TIMER; PICS; WRITER; SERIAL1; IO_APIC].

Definition forced_locks : list lock := [WRITER].

Lemma kernel_handlers_ok : forallb (handler_ok handler_locks) kernel_handlers = true.
Proof. by vm_compute. Qed.
Lemma kernel_exceptions_ok : forallb (forallb (forces forced_locks)) kernel_exceptions = true.
Proof. by vm_compute. Qed.

(** *** What the main program does with interrupts on *)

Inductive operation :=
| OpLog (level : Logging.Level)
| OpPrint | OpBackspace
| OpAlloc (oom : bool) | OpDealloc
| OpMap (pages : nat) | OpUnmap (pages : nat)
| OpUptime | OpReadCount | OpReloadCount | OpModeCommand
| OpPciRead | OpPciWrite
| OpBeforeShutdown (accesses : list aml_access) (failed : bool) | OpShutdown (error : bool)
| OpRecover (aml : bool) (accesses : list aml_access).

Definition program (o : operation) : list instr :=
  match o with
  | OpLog level => log_record level
  | OpPrint => vga_print
  | OpBackspace => backspace
  | OpAlloc oom => alloc oom
  | OpDealloc => dealloc
  | OpMap n => map_physical_region n
  | OpUnmap n => unmap_physical_region n
  | OpUptime => get_pit_uptime
  | OpReadCount => read_count
  | OpReloadCount => write_reload_count
  | OpModeCommand => write_mode_command
  | OpPciRead => read_dword
  | OpPciWrite => write_word
  | OpBeforeShutdown accesses failed => before_acpi_shutdown accesses failed
  | OpShutdown error => do_shutdown_using_acpi error
  | OpRecover aml accesses => recover_acpi_shutdown aml accesses
  end.

(** The two operations that take a lock of the handlers with interrupts on. *)
Definition unguarded (o : operation) : bool :=
  match o with OpBackspace | OpUptime => true | _ => false end.

(** Programs that leave any state of the discipline as they found it, while only the locks
    of [gs] are held. *)
Definition neutral (gs : list lock) (p : list instr) : Prop :=
  check handler_locks (true, [], gs) p = Some (true, [], gs).

Lemma neutral_app gs p q : neutral gs p → neutral gs q → neutral gs (p ++ q).
Proof. unfold neutral. intros Hp Hq. by rewrite check_app, Hp. Qed.
Lemma neutral_concat gs ps : Forall (neutral gs) ps → neutral gs (concat ps).
Proof. induction 1; simpl; [done|by apply neutral_app]. Qed.
Lemma neutral_replicate gs n p : neutral gs p → neutral gs (concat (replicate n p)).
Proof. intros Hp. apply neutral_concat. by apply Forall_replicate. Qed.

Lemma neutral_map gs n : gs = [] ∨ gs = [ACPI_DATA] →
  neutral gs (map_physical_region n) ∧ neutral gs (unmap_physical_region n).
Proof.
  intros Hgs. split; [apply neutral_app|]; [|apply neutral_replicate..]; by destruct Hgs as [-> | ->]; vm_compute.
Qed.

Lemma neutral_aml accesses : neutral [ACPI_DATA] (invoke_method accesses).
Proof.
  apply neutral_concat, Forall_fmap, Forall_true. intros [n| | |[]|]; simpl; try (by vm_compute).
  destruct (neutral_map [ACPI_DATA] n) as [? ?]; [by right|]. apply neutral_app; [by vm_compute|by apply neutral_app].
Qed.

Lemma neutral_acpi p : neutral [ACPI_DATA] p → neutral [] (Lock ACPI_DATA :: p ++ [Unlock ACPI_DATA]).
Proof.
  intros Hp. change (check handler_locks (true, [], [ACPI_DATA]) (p ++ [Unlock ACPI_DATA]) = Some (true, [], [])).
  by rewrite check_app, Hp.
Qed.

(** Every other operation follows the discipline. *)
Lemma program_disciplined o : disciplined handler_locks (program o) = negb (unguarded o).
Proof.
  destruct (unguarded o) eqn:Ho; [by destruct o|].
  apply bool_decide_eq_true. change (neutral [] (program o)).
  assert (neutral [ACPI_DATA] trace) as Ht by by vm_compute.
  destruct o as [[]| | |[]| |n|n| | | | | | |l b|[]|b l]; cbn [program]; try done; try (by vm_compute).
  - apply neutral_map. by left.
  - apply neutral_map. by left.
  - unfold before_acpi_shutdown. rewrite app_assoc. apply neutral_acpi, neutral_app; [apply neutral_aml|].
    by destruct b.
  - unfold recover_acpi_shutdown. apply neutral_acpi. destruct b; [|done]. apply neutral_app; [done|apply neutral_aml].
Qed.

(** ** Properties *)

(** C7: Whatever the main program logs, prints, allocates, maps, or asks of the devices and of the
    firmware, in any order and with interrupts on, whichever interrupts arrive in between, and
    whichever exceptions that return arrive at any time, in handlers too: no lock is ever
    held by the main program and by a handler at once; a lock that is taken has its guard
    in one of them, and a guard whose lock is not taken is the console's, which exceptions
    force open; and from every point on the handlers and then the main program run to their
    ends, without waiting for a lock.  This leaves out the two operations of the main
    program that take a lock of the handlers with interrupts on, [get_pit_uptime] and
    [Console::backspace]. *)
Theorem kernel_locks_safe (ops : list operation) (s : machine)
    (Hops : Forall (λ o, o ≠ OpUptime ∧ o ≠ OpBackspace) ops)
    (Hr : rtc (step kernel_handlers kernel_exceptions) (started (concat (program <$> ops))) s) :
  (∀ l h, irq s = Some h → l ∈ guards (main s) → l ∉ guards h) ∧
  (∀ l, l ∈ locked s → l ∈ guards (main s) ∨ ∃ h, irq s = Some h ∧ l ∈ guards h) ∧
  (∀ l, (l ∈ guards (main s) ∨ ∃ h, irq s = Some h ∧ l ∈ guards h) → l ∈ locked s ∨ l = WRITER) ∧
  ∃ s', rtc quiet_step s s' ∧ finished s'.
Proof.
  assert (inv handler_locks forced_locks s) as Hinv.
  { eapply inv_reachable; [exact kernel_handlers_ok|exact kernel_exceptions_ok| |exact Hr]. apply disciplined_concat.
    apply forallb_forall. intros p (o & -> & Ho)%list_elem_of_In%list_elem_of_fmap. rewrite program_disciplined.
    rewrite Forall_forall in Hops. specialize (Hops o Ho). destruct o; naive_solver. }
  split; [|split; [|split; [|by eapply inv_finishes]]]; destruct Hinv as (_ & [H1 H2] & Hok); unfold held in *.
  - intros l h Hh Hm Hg. rewrite Hh in Hok. destruct Hok as ([_ Hap] & _ & (_ & _ & _ & HH)).
    specialize (Hap eq_refl). rewrite apart_spec in Hap. by apply (Hap l Hm), HH.
  - intros l Hl. apply H1, elem_of_app in Hl as [Hl|Hl]; [by left|right].
    destruct (irq s) as [h|]; [by exists h|by apply elem_of_nil in Hl].
  - intros l Hl. rewrite <-(list_elem_of_singleton l WRITER). apply H2, elem_of_app.
    destruct Hl as [Hl|(h & -> & Hl)]; [by left|by right].
Qed.

(** A program that waits for a lock which the interrupted program has stays as it is: only
    exceptions come and go. *)
Definition waits (m h : context) (s : machine) : Prop :=
  main s = m ∧ irq s = Some h ∧ locked s = [TIMER] ∧ Forall (λ e, Forall (eq (ForceUnlock WRITER)) (code e)) (exceptions s).

Lemma waits_step m h p s s' : code h = Lock TIMER :: p → waits m h s →
  step kernel_handlers kernel_exceptions s s' → waits m h s'.
Proof.
  intros Hh (Hm & Hi & Hl & He) Hs. destruct Hs as [s s' Hs| |ls on m0 i es e Hin]; simpl in *; [|done|].
  - destruct Hs as [| ls on m0 h0 ls' on' h' Hex| |ls on m0 i e es ls' on' e' Hex|]; simpl in *; simplify_eq.
    + unfold exec in Hex. rewrite Hh in Hex. by rewrite decide_True in Hex by (by left).
    + apply Forall_cons in He as [He Hes]. destruct e as [[|j q] sv gs]; [done|]. simpl in He.
      apply Forall_cons in He as [<- He]. simpl in Hex. injection Hex as <- <- <-.
      split_and!; try done. simpl. by constructor.
    + apply Forall_cons in He as [_ He]. by split_and!.
  - split_and!; try done. simpl. constructor; [|done]. apply list_elem_of_singleton in Hin as ->. by repeat constructor.
Qed.

(** C40: [get_pit_uptime] takes [TIMER] with interrupts on: when the timer interrupt arrives while
    it has the guard, the machine stops for ever: nothing but an exception can happen any
    more, and whichever exceptions come and go, neither the handler nor the main
    program ever continues. *)
Theorem uptime_deadlocks :
  ∃ s, rtc (step kernel_handlers []) (started get_pit_uptime) s ∧ TIMER ∈ guards (main s) ∧ ¬ finished s ∧
    (∀ s', ¬ step kernel_handlers [] s s') ∧
    ∀ s', rtc (step kernel_handlers kernel_exceptions) s s' → main s' = main s ∧ irq s' = irq s ∧ ¬ finished s'.
Proof.
  set (m := mk_context [Unlock TIMER] [] [TIMER]). set (h := mk_context timer_interrupt_handler [] []).
  exists (mk_machine [TIMER] false m (Some h) []).
  split; [|split; [by left|split; [by intros (? & _)|split]]].
  - eapply rtc_l; [apply step_quiet, main_step; reflexivity|].
    eapply rtc_l; [|apply rtc_refl]. apply step_arrives. unfold kernel_handlers. set_solver.
  - intros s' Hs. inversion Hs as [? ? Hq| |? ? ? ? ? ? He]; subst; [by inversion Hq|by apply elem_of_nil in He].
  - intros s' Hs. assert (waits m h s') as (Hm & Hi & _ & _);
      [|split_and!; [done..|intros (_ & Hn & _); by rewrite Hi in Hn]].
    revert Hs. apply rtc_invariant; [by split_and!; [..|constructor]|]. intros x y Hx Hxy. by eapply waits_step.
Qed.

(** [Console::backspace] takes [WRITER] with interrupts on, and every handler forces that
    lock open: a keyboard interrupt whose scancode is dropped prints its warning while the
    backspace is still drawing, both with a guard of the same console. *)
Theorem backspace_two_writers :
  ∃ s h, rtc (step kernel_handlers []) (started backspace) s ∧ irq s = Some h ∧
    WRITER ∈ guards (main s) ∧ WRITER ∈ guards h.
Proof.
  set (h0 := keyboard_interrupt_handler true).
  eexists (mk_machine _ _ _ (Some _) _), _. split; [|split; [reflexivity|]].
  - eapply rtc_l; [apply step_quiet, main_step; reflexivity|].
    eapply rtc_l; [apply (step_arrives _ _ _ _ h0); unfold kernel_handlers; set_solver|].
    do 8 (eapply rtc_l; [apply step_quiet, irq_step; reflexivity|]). apply rtc_refl.
  - split; simpl; by left.
Qed.

(** ** Witnesses *)

Definition sample_operations : list operation :=
  [OpLog Logging.Info; OpAlloc true; OpMap 2; OpBeforeShutdown [AmlMemory 1; AmlPort] false].

(** The first record is being written to the serial port, with interrupts off, when the
    interrupt that cannot be masked arrives. *)
Definition sample_interrupted : machine :=
  mk_machine [] false (mk_context (tail (concat (program <$> sample_operations))) [true] [])
    None [mk_context exception_handler [] []].

Lemma kernel_locks_safe_witness :
  (∀ l h, irq sample_interrupted = Some h → l ∈ guards (main sample_interrupted) → l ∉ guards h) ∧
  (∀ l, l ∈ locked sample_interrupted → l ∈ guards (main sample_interrupted) ∨
     ∃ h, irq sample_interrupted = Some h ∧ l ∈ guards h) ∧
  (∀ l, (l ∈ guards (main sample_interrupted) ∨ ∃ h, irq sample_interrupted = Some h ∧ l ∈ guards h) →
     l ∈ locked sample_interrupted ∨ l = WRITER) ∧
  ∃ s', rtc quiet_step sample_interrupted s' ∧ finished s'.
Proof.
  refine (kernel_locks_safe sample_operations sample_interrupted _ _).
  - repeat (constructor; [by split|]). constructor.
  - eapply rtc_l; [apply step_quiet, main_step; reflexivity|].
    eapply rtc_l; [|apply rtc_refl]. apply step_exception. unfold kernel_exceptions. set_solver.
Defined.

End Locks.
