(* ===== verification/Gdt.v ===== *)
(** * Descriptor tables: kernel/src/gdt.rs and [init_idt] of kernel/src/interrupts.rs

    The task state segment, the global descriptor table and what loading them and
    the interrupt descriptor table leaves in the processor.  The table type is crate
    x86_64's [GlobalDescriptorTable], the class [DescriptorTable]. *)

From S2P Require Import Prelude X86 Memory Paging IoApic LocalApic Pit Interrupts.

Inductive Descriptor :=
| kernel_code_segment
| kernel_data_segment
| tss_segment (interrupt_stack_table : list Z).

(** [append] gives the selector of the new entry, or panics when the table is full. *)
Class DescriptorTable (G : Type) := {
  gdt_new : G;
  gdt_append : G → Descriptor → outcome (Z * G);
}.
#[global] Hint Mode DescriptorTable ! : typeclass_instances.

(** A new table has used the null entry of its eight; a segment of the kernel takes one
    entry and a task state segment two. *)
Definition descriptor_size (d : Descriptor) : nat := match d with tss_segment _ => 2 | _ => 1 end.

Class DescriptorTableLaws (G : Type) `{!DescriptorTable G} (used : G → nat)
    (entry : G → Z → option Descriptor) : Prop := {
  gdt_new_used : used gdt_new = 1%nat;
  gdt_append_ok g d : (used g + descriptor_size d ≤ 8)%nat →
    ∃ sel g', gdt_append g d = Ret (sel, g') ∧ used g' = (used g + descriptor_size d)%nat ∧
      entry g' sel = Some d ∧ ∀ s d', entry g s = Some d' → entry g' s = Some d';
}.

Module Gdt.

Definition DOUBLE_FAULT_IST_INDEX : nat := 0.
Definition STACK_SIZE : Z := 4096 * 10.

(** The interrupt stack table of [TSS], with the double fault stack whose array is at
    [stack_start]. *)
Definition TSS `{!X86Addr} (stack_start : Z) : outcome (list Z) :=
  stack_start ← virt_new stack_start;
  stack_end ← virt_add stack_start STACK_SIZE;
  mret (<[DOUBLE_FAULT_IST_INDEX := stack_end]> (replicate 7 0)).

Record Selectors := mk_selectors { code_selector : Z; data_selector : Z; tss_selector : Z }.

(** The registers of the processor that the tables are loaded into, and its
    interrupt flag. *)
Record Cpu (G : Type) := mk_cpu {
  gdtr : option G; cs : Z; tr : Z; idtr : option (gmap Z Interrupts.Gate); interrupt_flag : bool;
}.
Arguments mk_cpu {G} _ _ _ _ _.
Arguments gdtr {G} _.
Arguments cs {G} _.
Arguments tr {G} _.
Arguments idtr {G} _.
Arguments interrupt_flag {G} _.

Section Load.
Context `{!X86Addr} {G : Type} `{!DescriptorTable G}.

Definition GDT (stack_start : Z) : outcome (G * Selectors) :=
  tss ← TSS stack_start;
  let gdt := gdt_new in
  '(code_selector, gdt) ← gdt_append gdt kernel_code_segment;
  '(data_selector, gdt) ← gdt_append gdt kernel_data_segment;
  '(tss_selector, gdt) ← gdt_append gdt (tss_segment tss);
  mret (gdt, mk_selectors code_selector data_selector tss_selector).

(** [load], [CS::set_reg] and [load_tss]. *)
Definition init (cpu : Cpu G) (stack_start : Z) : outcome (Cpu G) :=
  '(gdt, selectors) ← GDT stack_start;
  mret (mk_cpu (Some gdt) (code_selector selectors) (tss_selector selectors) (idtr cpu)
          (interrupt_flag cpu)).

Definition init_idt (cpu : Cpu G) (filled : Z → bool) : Cpu G :=
  mk_cpu (gdtr cpu) (cs cpu) (tr cpu) (Some (Interrupts.IDT filled)) (interrupt_flag cpu).

(** The stack a handler runs on, for an interrupt that does not change the privilege
    level: the one the gate selects in the task state segment, or the one in use. *)
Definition handler_stack (entry : G → Z → option Descriptor) (cpu : Cpu G) (vector rsp : Z) : option Z :=
  idt ← idtr cpu;
  gate ← idt !! vector;
  match Interrupts.stack_index gate with
  | None => Some rsp
  | Some i =>
      gdt ← gdtr cpu;
      match entry gdt (tr cpu) with
      | Some (tss_segment ist) => ist !! i
      | _ => None
      end
  end.
End Load.

Lemma TSS_run `{!X86Addr} `{!X86AddrLaws} stack_start :
  canonical stack_start → canonical (stack_start + STACK_SIZE) →
  TSS stack_start = Ret [stack_start + STACK_SIZE; 0; 0; 0; 0; 0; 0].
Proof.
  intros H1 H2. unfold TSS. rewrite virt_new_ok by done. simpl. by rewrite virt_add_ok.
Qed.

Lemma gdt_init_run `{!X86Addr} `{!X86AddrLaws} {G} `{!DescriptorTable G} used entry
    `{!DescriptorTableLaws G used entry} (cpu : Cpu G) stack_start :
  canonical stack_start → canonical (stack_start + STACK_SIZE) →
  ∃ gdt selectors, init cpu stack_start =
      Ret (mk_cpu (Some gdt) (code_selector selectors) (tss_selector selectors) (idtr cpu) (interrupt_flag cpu)) ∧
    entry gdt (code_selector selectors) = Some kernel_code_segment ∧
    entry gdt (data_selector selectors) = Some kernel_data_segment ∧
    entry gdt (tss_selector selectors) = Some (tss_segment [stack_start + STACK_SIZE; 0; 0; 0; 0; 0; 0]).
Proof.
  intros H1 H2. unfold init, GDT. rewrite TSS_run by done. run_bind.
  destruct (gdt_append_ok gdt_new kernel_code_segment) as (s1 & g1 & -> & Hu1 & He1 & _);
    rewrite gdt_new_used in *; [simpl; lia|]. run_bind. simpl in Hu1.
  destruct (gdt_append_ok g1 kernel_data_segment) as (s2 & g2 & -> & Hu2 & He2 & Hk2);
    [rewrite Hu1; simpl; lia|]. run_bind. rewrite Hu1 in Hu2. simpl in Hu2.
  destruct (gdt_append_ok g2 (tss_segment [stack_start + STACK_SIZE; 0; 0; 0; 0; 0; 0]))
    as (s3 & g3 & -> & _ & He3 & Hk3); [rewrite Hu2; simpl; lia|].
  exists g3, (mk_selectors s1 s2 s3). split; [done|]. simpl. split_and!; auto.
Qed.

(** Every gate of the table is without a stack index. *)
Lemma IDT_stack_index filled v g : 0 ≤ v < 256 →
  Interrupts.IDT filled !! v = Some g → Interrupts.stack_index g = None.
Proof.
  intros Hv Hg. destruct (decide (v ∈ Interrupts.own_handlers.*1)) as [Hin|Hno].
  - apply list_elem_of_fmap in Hin as ([v' h] & -> & Hin). simpl in *.
    rewrite (Interrupts.IDT_own _ _ h Hin) in Hg. by injection Hg as <-.
  - rewrite Interrupts.IDT_other in Hg by done. destruct (filled v); by simplify_eq/=.
Qed.

Lemma handler_stack_idt {G} (entry : G → Z → option Descriptor) (cpu : Cpu G) idt v rsp :
  idtr cpu = Some idt →
  handler_stack entry cpu v rsp =
    gate ← idt !! v;
    match Interrupts.stack_index gate with
    | None => Some rsp
    | Some i => gdt ← gdtr cpu; match entry gdt (tr cpu) with Some (tss_segment ist) => ist !! i | _ => None end
    end.
Proof. intros Hidt. unfold handler_stack. by rewrite Hidt. Qed.

Lemma handler_stack_in_use {G} (entry : G → Z → option Descriptor) (cpu : Cpu G) filled v rsp s :
  0 ≤ v < 256 → handler_stack entry (init_idt cpu filled) v rsp = Some s → s = rsp.
Proof.
  intros Hv. rewrite (handler_stack_idt entry _ (Interrupts.IDT filled)) by done.
  destruct (Interrupts.IDT filled !! v) as [g|] eqn:Hg; [|done]. cbn [mbind option_bind].
  rewrite (IDT_stack_index filled v g Hv Hg). by intros [= ->].
Qed.

Lemma double_fault_stack {G} (entry : G → Z → option Descriptor) (cpu : Cpu G) filled rsp :
  handler_stack entry (init_idt cpu filled) 8 rsp = Some rsp.
Proof.
  rewrite (handler_stack_idt entry _ (Interrupts.IDT filled)) by done.
  rewrite (Interrupts.IDT_own filled 8 Interrupts.double_fault_handler); [done|].
  unfold Interrupts.own_handlers. set_solver.
Qed.

(** ** Properties *)

(** Loading the tables selects the kernel's code segment and a task state segment whose
    first interrupt stack is the 40 KiB array for double faults; but no gate of the
    interrupt table asks for it: every handler, the one for double faults included,
    runs on the stack that was in use, which after a stack overflow is the one that
    overflowed. *)
Theorem double_fault_stack_unused `{!X86Addr} {G} `{!DescriptorTable G} used entry (cpu cpu' : Cpu G)
    (filled : Z → bool) (stack_start rsp : Z)
    (Hlaws : X86AddrLaws) (Hgdt : DescriptorTableLaws G used entry)
    (Hstart : canonical stack_start) (Hend : canonical (stack_start + STACK_SIZE))
    (Hinit : init cpu stack_start = Ret cpu') :
  (∃ gdt, gdtr cpu' = Some gdt ∧ entry gdt (cs cpu') = Some kernel_code_segment ∧
     ∃ ist, entry gdt (tr cpu') = Some (tss_segment ist) ∧
       ist !! DOUBLE_FAULT_IST_INDEX = Some (stack_start + STACK_SIZE)) ∧
  handler_stack entry (init_idt cpu' filled) 8 rsp = Some rsp ∧
  ∀ v s, 0 ≤ v < 256 → handler_stack entry (init_idt cpu' filled) v rsp = Some s → s = rsp.
Proof.
  destruct (gdt_init_run used entry cpu stack_start Hstart Hend) as (gdt & sel & Hrun & Hc & _ & Ht).
  rewrite Hrun in Hinit. injection Hinit as <-. split; [|split].
  - exists gdt. split; [done|]. split; [done|]. eexists. by split.
  - apply double_fault_stack.
  - intros v s Hv. by apply handler_stack_in_use.
Qed.

(** ** Witness *)

#[local] Existing Instances addr_model addr_model_laws.

(** A table as the entries used and the list of its descriptors; the selector is the
    index. *)
#[local] Instance list_gdt : DescriptorTable (nat * list Descriptor) := {|
  gdt_new := (1%nat, []);
  gdt_append g d := Ret (Z.of_nat (length g.2), ((g.1 + descriptor_size d)%nat, g.2 ++ [d]));
|}.
Definition list_gdt_entry (g : nat * list Descriptor) (s : Z) : option Descriptor :=
  if 0 <=? s then g.2 !! Z.to_nat s else None.

Lemma list_gdt_laws : DescriptorTableLaws (nat * list Descriptor) fst list_gdt_entry.
Proof.
  split; [done|]. intros g d _. eexists _, _. split; [done|]. split; [done|].
  unfold list_gdt_entry. simpl. split.
  - rewrite (proj2 (Z.leb_le _ _)), Nat2Z.id by lia. by rewrite lookup_app_r, Nat.sub_diag by done.
  - intros s d'. destruct (0 <=? s); [|done]. apply lookup_app_l_Some.
Qed.

Definition sample_cpu : Cpu (nat * list Descriptor) := mk_cpu None 0 0 None false.
Definition loaded_cpu : Cpu (nat * list Descriptor) :=
  mk_cpu (Some (5%nat, [kernel_code_segment; kernel_data_segment;
    tss_segment [0x20A000; 0; 0; 0; 0; 0; 0]])) 0 2 None false.

Lemma double_fault_stack_unused_witness :
  (∃ gdt, gdtr loaded_cpu = Some gdt ∧ list_gdt_entry gdt 0 = Some kernel_code_segment ∧
     ∃ ist, list_gdt_entry gdt 2 = Some (tss_segment ist) ∧ ist !! 0%nat = Some 0x20A000) ∧
  handler_stack list_gdt_entry (init_idt loaded_cpu (λ _, true)) 8 0x7000 = Some 0x7000 ∧
  ∀ v s, 0 ≤ v < 256 →
    handler_stack list_gdt_entry (init_idt loaded_cpu (λ _, true)) v 0x7000 = Some s → s = 0x7000.
Proof.
  refine (double_fault_stack_unused fst list_gdt_entry sample_cpu loaded_cpu (λ _, true) 0x200000 0x7000
    addr_model_laws list_gdt_laws _ _ eq_refl); left; done.
Defined.

End Gdt.
