(* ===== verification/PciTypes.v ===== *)
(** * PCI identifiers: kernel/src/device/pci/types.rs

    Addresses of PCI functions, base address registers, class codes, header types
    and the tables of names. *)

From S2P Require Import Prelude.

(** ** Addresses *)

Record PciAddress := mk_pci_address {
  pci_segment : Z; pci_bus : Z; pci_device : Z; pci_function : Z;
}.
#[global] Instance PciAddress_eq_dec : EqDecision PciAddress.
Proof. solve_decision. Defined.

Definition create_local_bus_address (self : PciAddress) (offset : Z) (enabled : bool) : Z :=
  let enabled := if enabled then 0x80000000 else 0 in
  Z.lor (Z.lor (Z.lor (Z.lor (wrap 32 (Z.shiftl (pci_bus self) 16))
    (wrap 32 (Z.shiftl (pci_device self) 11)))
    (wrap 32 (Z.shiftl (pci_function self) 8)))
    (Z.land offset 0xFC))
    enabled.

(** The declared types of the fields: a segment of 16 bits and three bytes. *)
Definition address_typed (a : PciAddress) : Prop :=
  in_u 16 (pci_segment a) ∧ in_u 8 (pci_bus a) ∧ in_u 8 (pci_device a) ∧ in_u 8 (pci_function a).

(** ** Base addresses *)

Inductive PciBaseAddressType := MemorySpace | IOSpace.

Module BaseAddress.
Definition kind (self : Z) : PciBaseAddressType :=
  if Z.land self 1 =? 1 then IOSpace else MemorySpace.
Definition actual_address (self : Z) : Z :=
  match kind self with
  | MemorySpace => Z.land self 0xFFF0
  | IOSpace => Z.land self 0xFFFFFFF0
  end.
End BaseAddress.

(** ** Class codes *)

Inductive PciClassCode :=
  Unclassified | MassStorageController | NetworkController | DisplayController
| MultimediaController | MemoryController | Bridge | SimpleCommunicationController
| BaseSystemPeripheral | InputDeviceController | DockingStation | Processor
| SerialBusController | WirelessController | IntelligentController
| SatelliteCommunicationController | EncryptionController | SignalProcessingController
| ProcessingAccelerator | NonEssentialInstrumentation | Coprocessor | Unassigned
| Reserved (id : Z).

Module ClassCode.
Definition new (id : Z) : PciClassCode :=
  match id with
  | 0x0 => Unclassified
  | 0x1 => MassStorageController
  | 0x2 => NetworkController
  | 0x3 => DisplayController
  | 0x4 => MultimediaController
  | 0x5 => MemoryController
  | 0x6 => Bridge
  | 0x7 => SimpleCommunicationController
  | 0x8 => BaseSystemPeripheral
  | 0x9 => InputDeviceController
  | 0xA => DockingStation
  | 0xB => Processor
  | 0xC => SerialBusController
  | 0xD => WirelessController
  | 0xE => IntelligentController
  | 0xF => SatelliteCommunicationController
  | 0x10 => EncryptionController
  | 0x11 => SignalProcessingController
  | 0x12 => ProcessingAccelerator
  | 0x13 => NonEssentialInstrumentation
  | 0x40 => Coprocessor
  | 0xFF => Unassigned
  | _ => Reserved id
  end.

Definition value (self : PciClassCode) : Z :=
  match self with
  | Unclassified => 0x0
  | MassStorageController => 0x1
  | NetworkController => 0x2
  | DisplayController => 0x3
  | MultimediaController => 0x4
  | MemoryController => 0x5
  | Bridge => 0x6
  | SimpleCommunicationController => 0x7
  | BaseSystemPeripheral => 0x8
  | InputDeviceController => 0x9
  | DockingStation => 0xA
  | Processor => 0xB
  | SerialBusController => 0xC
  | WirelessController => 0xD
  | IntelligentController => 0xE
  | SatelliteCommunicationController => 0xF
  | EncryptionController => 0x10
  | SignalProcessingController => 0x11
  | ProcessingAccelerator => 0x12
  | NonEssentialInstrumentation => 0x13
  | Coprocessor => 0x40
  | Unassigned => 0xFF
  | Reserved id => id
  end.
End ClassCode.

(** ** Header types *)

Inductive PciHeaderType := Normal | PciToPciBridge | CardBusBridge | Unknown (id : Z).

Module HeaderType.
Definition new (id : Z) : PciHeaderType :=
  match id with
  | 0x0 => Normal
  | 0x1 => PciToPciBridge
  | 0x2 => CardBusBridge
  | _ => Unknown id
  end.
Definition bar_count (self : PciHeaderType) : Z :=
  match self with
  | Normal => 6
  | PciToPciBridge => 2
  | CardBusBridge => 0
  | Unknown _ => 0
  end.
End HeaderType.

(** ** Names *)

Definition VENDOR_INVALID : Z := 0xFFFF.
Definition VENDOR_BOCHS : Z := 0x1234.
Definition VENDOR_INTEL_CORPORATION : Z := 0x8086.

Definition vendor_name (self : Z) : option string :=
  if self =? VENDOR_BOCHS then Some "Bochs"
  else if self =? VENDOR_INTEL_CORPORATION then Some "Intel Corporation"
  else if self =? VENDOR_INVALID then Some "INVALID"
  else None.

Definition get_bochs (id : Z) : option string :=
  if id =? 0x1111 then Some "Graphics Adapter" else None.
Definition get_intel (id : Z) : option string :=
  if id =? 0x1237 then Some "440FX - 82441FX PMC [Natoma]"
  else if id =? 0x100e then Some "82540EM Gigabit Ethernet Controller"
  else if id =? 0x7000 then Some "Propolis Virtual PIIX3 ISA Controller"
  else None.

Definition device_name (self vendor_id : Z) : option string :=
  if vendor_id =? VENDOR_BOCHS then get_bochs self
  else if vendor_id =? VENDOR_INTEL_CORPORATION then get_intel self
  else None.

Definition subclass_name (self : Z) (class_code : PciClassCode) : option string :=
  match class_code, self with
  | Unassigned, 0x0 => Some "Non-VGA-Compatible"
  | Unassigned, 0x1 => Some "VGA-Compatible"
  | Unassigned, 0x80 => None
  | MassStorageController, 0x0 => Some "SCSI Bus Controller"
  | MassStorageController, 0x1 => Some "IDE Controller"
  | MassStorageController, 0x2 => Some "Floppy Disk Controller"
  | MassStorageController, 0x3 => Some "IPI Bus Controller"
  | MassStorageController, 0x4 => Some "RAID Controller"
  | MassStorageController, 0x5 => Some "ATA Controller"
  | MassStorageController, 0x6 => Some "Serial ATA Controller"
  | MassStorageController, 0x7 => Some "Serial Attached SCSI Controller"
  | MassStorageController, 0x8 => Some "Non-Volatile Memory Controller"
  | NetworkController, 0x0 => Some "Ethernet Controller"
  | NetworkController, 0x1 => Some "Token Ring Controller"
  | NetworkController, 0x2 => Some "FDDI Controller"
  | NetworkController, 0x3 => Some "ATM Controller"
  | NetworkController, 0x4 => Some "ISDN Controller"
  | NetworkController, 0x5 => Some "WorldFlip Controller"
  | NetworkController, 0x6 => Some "PICMG 2.14 Multi Computing Controller"
  | NetworkController, 0x7 => Some "InfiniBand Controller"
  | NetworkController, 0x8 => Some "Fabric Controller"
  | DisplayController, 0x0 => Some "VGA Compatible Controller"
  | DisplayController, 0x1 => Some "XGA Compatible Controller"
  | DisplayController, 0x2 => Some "3D Controller (Not VGA Compatible)"
  | MultimediaController, 0x0 => Some "Video Controller"
  | MultimediaController, 0x1 => Some "Audio Controller"
  | MultimediaController, 0x2 => Some "Computer Telephony Device"
  | MultimediaController, 0x3 => Some "Audio Device"
  | MemoryController, 0x0 => Some "RAM Controller"
  | MemoryController, 0x1 => Some "Flash Controller"
  | Bridge, 0x0 => Some "Host Bridge"
  | Bridge, 0x1 => Some "ISA Bridge"
  | Bridge, 0x2 => Some "EISA Bridge"
  | Bridge, 0x3 => Some "MCA Bridge"
  | Bridge, 0x4 => Some "PCI-to-PCI Bridge"
  | Bridge, 0x5 => Some "PCMCIA Bridge"
  | Bridge, 0x6 => Some "NuBus Bridge"
  | Bridge, 0x7 => Some "CardBus Bridge"
  | Bridge, 0x8 => Some "RACEway Bridge"
  | Bridge, 0x9 => Some "PCI-to-PCI Bridge (2)"
  | Bridge, 0xA => Some "InfiniBand-to-PCI Bridge"
  | SimpleCommunicationController, 0x0 => Some "Serial Controller"
  | SimpleCommunicationController, 0x1 => Some "Parallel Controller"
  | SimpleCommunicationController, 0x2 => Some "Multiport Serial Controller"
  | SimpleCommunicationController, 0x3 => Some "Modem"
  | SimpleCommunicationController, 0x4 => Some "IEEE 488.1/2 (GPIB) Controller"
  | SimpleCommunicationController, 0x5 => Some "Smart Card Controller"
  | BaseSystemPeripheral, 0x0 => Some "PIC"
  | BaseSystemPeripheral, 0x1 => Some "DMA Controller"
  | BaseSystemPeripheral, 0x2 => Some "Timer"
  | BaseSystemPeripheral, 0x3 => Some "RTC Controller"
  | BaseSystemPeripheral, 0x4 => Some "PCI Hot-Plug Controller"
  | BaseSystemPeripheral, 0x5 => Some "SD Host Controller"
  | BaseSystemPeripheral, 0x6 => Some "IOMMU"
  | InputDeviceController, 0x0 => Some "Keyboard Controller"
  | InputDeviceController, 0x1 => Some "Digitizer Pen"
  | InputDeviceController, 0x2 => Some "Mouse Controller"
  | InputDeviceController, 0x3 => Some "Scanner Controller"
  | InputDeviceController, 0x4 => Some "Gameport Controller"
  | DockingStation, 0x0 => Some "Generic"
  | Processor, 0x0 => Some "i386"
  | Processor, 0x1 => Some "i486"
  | Processor, 0x2 => Some "Pentium"
  | Processor, 0x3 => Some "Pentium Pro"
  | Processor, 0x10 => Some "Alpha"
  | Processor, 0x20 => Some "PowerPC"
  | Processor, 0x30 => Some "MIPS"
  | Processor, 0x40 => Some "Co-Processor"
  | SerialBusController, 0x0 => Some "FireWire (IEEE 1394)"
  | SerialBusController, 0x1 => Some "ACCESS Bus"
  | SerialBusController, 0x2 => Some "SSA"
  | SerialBusController, 0x3 => Some "USB Controller"
  | SerialBusController, 0x4 => Some "Fibre Channel"
  | SerialBusController, 0x5 => Some "SMBus"
  | SerialBusController, 0x6 => Some "InfiniBand"
  | SerialBusController, 0x7 => Some "IPMI Interface"
  | SerialBusController, 0x8 => Some "SERCOS Interface (IEC 61491)"
  | SerialBusController, 0x9 => Some "CANbus Controller"
  | WirelessController, 0x0 => Some "iRDA Compatible"
  | WirelessController, 0x1 => Some "Consumer IR"
  | WirelessController, 0x10 => Some "RF"
  | WirelessController, 0x11 => Some "Bluetooth"
  | WirelessController, 0x12 => Some "Broadband"
  | WirelessController, 0x20 => Some "Ethernet (802.1a)"
  | WirelessController, 0x21 => Some "Ethernet (802.1b)"
  | IntelligentController, 0x0 => Some "I2O"
  | IntelligentController, 0x80 => None
  | SatelliteCommunicationController, 0x0 => Some "TV Controller"
  | SatelliteCommunicationController, 0x1 => Some "Audio Controller"
  | SatelliteCommunicationController, 0x2 => Some "Video Controller"
  | SatelliteCommunicationController, 0x3 => Some "Voice Controller"
  | SatelliteCommunicationController, 0x4 => Some "Data Controller"
  | SatelliteCommunicationController, 0x80 => None
  | EncryptionController, 0x0 => Some "Network and Computing Encrpytion/Decryption"
  | EncryptionController, 0x1 => Some "Entertainment Encryption/Decryption"
  | SignalProcessingController, 0x0 => Some "DPIO Modules"
  | SignalProcessingController, 0x1 => Some "Performance Counters"
  | SignalProcessingController, 0x10 => Some "Communication Synchronizer"
  | SignalProcessingController, 0x20 => Some "Signal Processing Management"
  | _, 0x80 => Some "Other"
  | _, _ => None
  end.

(** ** Properties *)

Lemma byte_cases (P : Z → bool) : forallb P (seqZ 0 256) = true → ∀ x, in_u 8 x → P x = true.
Proof.
  rewrite forallb_forall. intros HP x Hx. apply HP, list_elem_of_In, elem_of_seqZ. unfold_u. lia.
Qed.

Lemma class_code_typed id : in_u 8 id →
  match ClassCode.new id with Reserved c => in_u 8 c | _ => True end.
Proof. intros Hid. unfold ClassCode.new. by repeat case_match; simplify_eq. Qed.

(** A class code byte survives the conversion to [PciClassCode] and back, for all
    256 values, so no two bytes are confused. *)
Theorem class_code_roundtrip (id : Z) (Hid : in_u 8 id) : ClassCode.value (ClassCode.new id) = id.
Proof.
  apply Z.eqb_eq. apply (byte_cases (λ id, ClassCode.value (ClassCode.new id) =? id)); [|done].
  by vm_compute.
Qed.

Lemma class_code_roundtrip_witness : ClassCode.value (ClassCode.new 0x14) = 0x14.
Proof. by apply class_code_roundtrip. Defined.

(** The fields of a configuration address, as the host bridge reads them. *)
Definition config_enable (a : Z) : bool := Z.testbit a 31.
Definition config_bus (a : Z) : Z := a `div` 2 ^ 16 `mod` 256.
Definition config_device (a : Z) : Z := a `div` 2 ^ 11 `mod` 32.
Definition config_function (a : Z) : Z := a `div` 2 ^ 8 `mod` 8.
Definition config_register (a : Z) : Z := a `mod` 256.

Definition address_wf (a : PciAddress) : Prop :=
  0 ≤ pci_bus a < 256 ∧ 0 ≤ pci_device a < 32 ∧ 0 ≤ pci_function a < 8.

Lemma land_fc offset : 0 ≤ offset < 256 → Z.land offset 0xFC = offset - offset `mod` 4.
Proof.
  intros Ho. apply Z.eqb_eq.
  apply (byte_cases (λ o, Z.land o 0xFC =? o - o `mod` 4)); [by vm_compute|done].
Qed.

Lemma create_local_bus_address_sum a offset enabled :
  address_wf a → 0 ≤ offset < 256 →
  create_local_bus_address a offset enabled =
    (offset - offset `mod` 4) + pci_function a * 2 ^ 8 + pci_device a * 2 ^ 11 +
    pci_bus a * 2 ^ 16 + (if enabled then 1 else 0) * 2 ^ 31.
Proof.
  intros (Hb & Hd & Hf) Ho. unfold create_local_bus_address, wrap.
  rewrite land_fc by done. set (o := offset - offset `mod` 4).
  assert (0 ≤ o < 256) as Hob by (unfold o; zdm). clearbody o.
  rewrite !Z.mod_small by (rewrite Z.shiftl_mul_pow2 by done; norm_pow; lia).
  replace (if enabled then 0x80000000 else 0) with (Z.shiftl (if enabled then 1 else 0) 31)
    by by destruct enabled.
  rewrite !Z.shiftl_mul_pow2 by done.
  rewrite (lor_disjoint_add (pci_device a * 2 ^ 11) _ 16) by (norm_pow; zdm).
  rewrite (lor_disjoint_add (pci_function a * 2 ^ 8) _ 11) by (norm_pow; zdm).
  rewrite (lor_disjoint_add o _ 8) by (norm_pow; zdm).
  rewrite <-(Z.shiftl_mul_pow2 (if enabled then 1 else 0)) by done.
  rewrite lor_shiftl_add by (norm_pow; destruct enabled; lia).
  rewrite Z.shiftl_mul_pow2 by done. lia.
Qed.

Lemma config_address_run a offset enabled :
  address_wf a → 0 ≤ offset < 256 →
  let addr := create_local_bus_address a offset enabled in
  config_bus addr = pci_bus a ∧ config_device addr = pci_device a ∧
  config_function addr = pci_function a ∧ config_register addr = offset - offset `mod` 4 ∧
  config_enable addr = enabled ∧ in_u 32 addr.
Proof.
  intros Hwf Ho addr. unfold addr. rewrite create_local_bus_address_sum by done.
  destruct Hwf as (Hb & Hd & Hf).
  unfold config_bus, config_device, config_function, config_register, config_enable.
  rewrite Z.testbit_eqb by done. unfold_u. norm_pow. split_and!; [destruct enabled; zdm..| | |].
  - destruct enabled; [apply Z.eqb_eq|apply Z.eqb_neq]; zdm.
  - destruct enabled; zdm.
  - destruct enabled; zdm.
Qed.

Lemma create_local_bus_address_typed a offset enabled :
  address_typed a → in_u 16 offset → in_u 32 (create_local_bus_address a offset enabled).
Proof.
  intros _ [Ho _]. unfold create_local_bus_address.
  repeat (apply in_u_lor; [done| |]); try (by apply wrap_in).
  - by apply in_u_land.
  - by destruct enabled.
Qed.

(** The configuration address of a well-formed PCI function decodes, in the host
    bridge, to that bus, device and function and to the dword of the offset, with the
    enable bit as asked; so two different functions never share an address. *)
Theorem config_address_decodes (a : PciAddress) (offset : Z) (enabled : bool)
    (Ha : address_wf a) (Ho : 0 ≤ offset < 256) :
  let addr := create_local_bus_address a offset enabled in
  config_bus addr = pci_bus a ∧ config_device addr = pci_device a ∧
  config_function addr = pci_function a ∧ config_register addr = offset - offset `mod` 4 ∧
  config_enable addr = enabled ∧ in_u 32 addr.
Proof. by apply config_address_run. Qed.

Lemma config_address_decodes_witness :
  let addr := create_local_bus_address (mk_pci_address 0 2 31 7) 0x3E true in
  config_bus addr = 2 ∧ config_device addr = 31 ∧ config_function addr = 7 ∧
  config_register addr = 0x3C ∧ config_enable addr = true ∧ in_u 32 addr.
Proof.
  by apply (config_address_decodes (mk_pci_address 0 2 31 7) 0x3E true).
Defined.

(** The address of a memory base address register loses its upper 16 bits: above
    64 KiB, where device memory is, [actual_address] is not the address in the
    register. *)
Theorem memory_bar_truncated (base : Z) (Hb : in_u 32 base) (Hal : (16 | base)) :
  BaseAddress.kind base = MemorySpace ∧
  BaseAddress.actual_address base = base `mod` 65536 ∧
  (65536 ≤ base → BaseAddress.actual_address base ≠ base).
Proof.
  assert (BaseAddress.kind base = MemorySpace) as Hk.
  { unfold BaseAddress.kind. rewrite (land_mask_mod _ 1) by done. destruct Hal as [c ->].
    by replace (c * 16) with (c * 8 * 2) by lia; rewrite Z.mod_mul. }
  assert (BaseAddress.actual_address base = base `mod` 65536) as Heq.
  { unfold BaseAddress.actual_address. rewrite Hk.
    change 65536 with (2 ^ 16). rewrite <-(land_ones_mod base 16) by done. change (2 ^ 16 - 1) with (Z.lor 0xFFF0 15).
    rewrite Z.land_lor_distr_r, (land_mask_mod base 4 15) by done.
    destruct Hal as [c ->]. change (2 ^ 4) with 16. rewrite Z.mod_mul by done. by rewrite Z.lor_0_r. }
  split; [done|]. split; [done|]. intros Hge. rewrite Heq.
  pose proof (Z.mod_pos_bound base 65536 ltac:(done)). lia.
Qed.

Lemma memory_bar_truncated_witness :
  BaseAddress.kind 0xFEB80000 = MemorySpace ∧
  BaseAddress.actual_address 0xFEB80000 = 0xFEB80000 `mod` 65536 ∧
  (65536 ≤ 0xFEB80000 → BaseAddress.actual_address 0xFEB80000 ≠ 0xFEB80000).
Proof. apply (memory_bar_truncated 0xFEB80000); [done|by exists 0xFEB8000]. Defined.
