(* ===== verification/Pci.v ===== *)
(** * PCI configuration space: kernel/src/device/pci/config.rs, kernel/src/device/pci/mod.rs,
      kernel/src/device/net

    The trait [ConfigurationSpaceMechanism] with its provided methods, its
    implementation over the two configuration ports, the device enumerator and the
    network device.  The provided methods and the enumerator are proved against the
    interface [ConfigReads], which the port mechanism implements over a host bridge
    with the documented behaviour [PciHost]. *)

From S2P Require Import Prelude X86 PciTypes.

(** ** The trait *)

Class ConfigurationSpaceMechanism (P : Type) := {
  read_word : P → PciAddress → Z → Z * P;
  read_dword : P → PciAddress → Z → Z * P;
  write_word : P → PciAddress → Z → Z → P;
}.
#[global] Hint Mode ConfigurationSpaceMechanism ! : typeclass_instances.

Module Pci.

Definition CONFIG_ADDRESS : Z := 0xCF8.
Definition CONFIG_DATA : Z := 0xCFC.

Section Provided.
Context {P : Type} `{!ConfigurationSpaceMechanism P}.

Definition vendor_id (p : P) (addr : PciAddress) : Z * P := read_word p addr 0x0.
Definition device_id (p : P) (addr : PciAddress) : Z * P := read_word p addr 0x2.
Definition command (p : P) (addr : PciAddress) : Z * P := read_word p addr 0x4.
Definition write_command (p : P) (addr : PciAddress) (value : Z) : P := write_word p addr 0x4 value.
Definition status (p : P) (addr : PciAddress) : Z * P := read_word p addr 0x6.
Definition revision_id (p : P) (addr : PciAddress) : Z * P :=
  let '(w, p) := read_word p addr 0x8 in (Z.land w 0xFF, p).
Definition prog_if (p : P) (addr : PciAddress) : Z * P :=
  let '(w, p) := read_word p addr 0x8 in (wrap 8 (Z.shiftr w 8), p).
Definition subclass (p : P) (addr : PciAddress) : Z * P :=
  let '(w, p) := read_word p addr 0xA in (Z.land w 0xFF, p).
Definition class_code (p : P) (addr : PciAddress) : PciClassCode * P :=
  let '(w, p) := read_word p addr 0xA in (ClassCode.new (wrap 8 (Z.shiftr w 8)), p).

Definition enable_bus_mastering (p : P) (addr : PciAddress) : P :=
  let '(command, p) := command p addr in
  write_command p addr (Z.lor command (Z.shiftl 1 2)).

Definition header_type (p : P) (addr : PciAddress) : PciHeaderType * P :=
  let '(w, p) := read_word p addr 0xE in (HeaderType.new (wrap 8 w), p).

Definition base_address (p : P) (addr : PciAddress) (idx : Z) : outcome (option Z * P) :=
  let '(ty, p) := header_type p addr in
  if HeaderType.bar_count ty >? idx then
    idx ← mul_u usize idx 4;
    off ← add_u 16 0x10 (wrap 16 idx);
    let '(v, p) := read_dword p addr off in
    mret (Some v, p)
  else mret (None, p).

(** ** The enumerator *)

Record DeviceEnumerator := mk_enum { bus : Z; device : Z }.

Definition enumerate : DeviceEnumerator := mk_enum 0 0.

(** The inner loop of [next]; at most 32 iterations. *)
Fixpoint next_device (fuel : nat) (p : P) (self : DeviceEnumerator) :
    outcome (option (PciAddress * Z * Z) * DeviceEnumerator * P) :=
  match fuel with
  | O => Undef "device loop does not end"
  | S fuel =>
      if device self <? 32 then
        let addr := mk_pci_address 0 (wrap 8 (bus self)) (device self) 0 in
        next ← add_u 8 (device self) 1;
        let self := mk_enum (bus self) next in
        let '(vid, p) := vendor_id p addr in
        if negb (vid =? VENDOR_INVALID) then
          let '(did, p) := device_id p addr in
          mret (Some (addr, vid, did), self, p)
        else next_device fuel p self
      else mret (None, self, p)
  end.

(** The outer loop; at most 256 iterations. *)
Fixpoint next_bus (fuel : nat) (p : P) (self : DeviceEnumerator) :
    outcome (option (PciAddress * Z * Z) * DeviceEnumerator * P) :=
  match fuel with
  | O => Undef "bus loop does not end"
  | S fuel =>
      if bus self <? 256 then
        '(r, self, p) ← next_device 33 p self;
        match r with
        | Some item => mret (Some item, self, p)
        | None =>
            b ← add_u 16 (bus self) 1;
            next_bus fuel p (mk_enum b (device self))
        end
      else mret (None, self, p)
  end.

Definition next (p : P) (self : DeviceEnumerator) := next_bus 257 p self.

(** ** [pci::init]: what it logs for each device *)

Record DeviceInfo := mk_info {
  info_addr : PciAddress; info_vendor : Z; info_device : Z;
  info_class : PciClassCode; info_subclass : Z; info_subclass_name : string;
  info_name : option (string * string);
}.

Definition describe (p : P) (addr : PciAddress) (vid did : Z) : DeviceInfo * P :=
  let '(class, p) := class_code p addr in
  let '(sub, p) := subclass p addr in
  (mk_info addr vid did class sub (default EmptyString (subclass_name sub class))
     (match vendor_name vid with
      | Some vendor_name => Some (vendor_name, default EmptyString (device_name did vid))
      | None => None
      end), p).

(** The loop of [init] over the enumerator. *)
Fixpoint init_loop (fuel : nat) (p : P) (e : DeviceEnumerator) (devices : Z) :
    outcome (list DeviceInfo * Z * P) :=
  match fuel with
  | O => Undef "enumeration does not end"
  | S fuel =>
      '(r, e, p) ← next p e;
      match r with
      | None => mret ([], devices, p)
      | Some (addr, vid, did) =>
          devices ← add_u 31 devices 1;
          let '(i, p) := describe p addr vid did in
          '(rest, devices, p) ← init_loop fuel p e devices;
          mret (i :: rest, devices, p)
      end
  end.

Definition init (p : P) : outcome (list DeviceInfo * Z * P) := init_loop 33 p enumerate 0.

(** ** kernel/src/device/net/intel_8254x.rs *)

Definition intel_8254x_initialize (p : P) (pci_addr : PciAddress) : outcome P :=
  let p := enable_bus_mastering p pci_addr in
  '(r, p) ← base_address p pci_addr 0;
  _ ← expect "Should have BAR0" r;
  mret p.
End Provided.

(** ** The port mechanism *)

Section LocalBus.
Context {P : Type} `{!Ports P}.

Definition local_read_dword (p : P) (addr : PciAddress) (offset : Z) : Z * P :=
  let address := create_local_bus_address addr offset true in
  let p := port_write p 32 CONFIG_ADDRESS address in
  port_read p 32 CONFIG_DATA.

Definition local_read_word (p : P) (addr : PciAddress) (offset : Z) : Z * P :=
  let '(data, p) := local_read_dword p addr offset in
  let data := Z.land (Z.shiftr data (Z.land offset 2 * 8)) 0xFFFF in
  (data, p).

Definition local_write_word (p : P) (addr : PciAddress) (offset value : Z) : P :=
  let address := create_local_bus_address addr offset false in
  let p := port_write p 32 CONFIG_ADDRESS address in
  let '(data, p) := port_read p 32 CONFIG_DATA in
  let data :=
    if Z.land offset 2 =? 0 then Z.lor value (Z.land data 0xFFFF0000)
    else Z.lor (wrap 32 (Z.shiftl value 16)) (Z.land data 0xFFFF) in
  port_write p 32 CONFIG_DATA data.

#[global] Instance PciLocalBusConfigurationSpace : ConfigurationSpaceMechanism P := {|
  read_word := local_read_word;
  read_dword := local_read_dword;
  write_word := local_write_word;
|}.
End LocalBus.

(** ** The contract of a mechanism, and of the host bridge *)

(** [conf p a o] is the dword at offset [o] (a multiple of four) of function [a]. *)
Class ConfigReads (P : Type) `{!ConfigurationSpaceMechanism P}
    (conf : P → PciAddress → Z → Z) : Prop := {
  cr_dword p a o : address_wf a → pci_segment a = 0 → 0 ≤ o < 256 → o `mod` 4 = 0 →
    (read_dword p a o).1 = conf p a o;
  cr_dword_conf p a o a' o' : conf (read_dword p a o).2 a' o' = conf p a' o';
  cr_word p a o : address_wf a → pci_segment a = 0 → 0 ≤ o < 256 → o `mod` 2 = 0 →
    (read_word p a o).1 = conf p a (o - o `mod` 4) `div` 2 ^ (8 * (o `mod` 4)) `mod` 65536;
  cr_word_conf p a o a' o' : conf (read_word p a o).2 a' o' = conf p a' o';
  cr_u32 p a o : in_u 32 (conf p a o);
}.

(** The function a configuration address selects. *)
Definition config_target (a : Z) : PciAddress :=
  mk_pci_address 0 (config_bus a) (config_device a) (config_function a).

(** The host bridge latches the address written to port 0xCF8, where it can be read
    back; an access to port
    0xCFC reaches configuration space when the latched address has its enable bit
    set, and does not change it otherwise. *)
Class PciHost (P : Type) `{!Ports P} (latched : P → Z) (conf : P → PciAddress → Z → Z) : Prop := {
  host_address p v : in_u 32 v → latched (port_write p 32 0xCF8 v) = v;
  host_address_read p : (port_read p 32 0xCF8).1 = latched p;
  host_address_conf p v a o : conf (port_write p 32 0xCF8 v) a o = conf p a o;
  host_read p : config_enable (latched p) = true →
    (port_read p 32 0xCFC).1 = conf p (config_target (latched p)) (config_register (latched p));
  host_read_latched p : latched (port_read p 32 0xCFC).2 = latched p;
  host_read_conf p a o : conf (port_read p 32 0xCFC).2 a o = conf p a o;
  host_write_disabled p v a o : config_enable (latched p) = false →
    conf (port_write p 32 0xCFC v) a o = conf p a o;
  host_u32 p a o : in_u 32 (conf p a o);
}.

Lemma config_target_address a offset enabled : address_wf a → pci_segment a = 0 → 0 ≤ offset < 256 →
  config_target (create_local_bus_address a offset enabled) = a.
Proof.
  intros Ha Hs Ho. destruct (config_address_run a offset enabled Ha Ho) as (Hb & Hd & Hf & _).
  unfold config_target. rewrite Hb, Hd, Hf. destruct a; simpl in *. by subst.
Qed.

Section LocalBusReads.
Context {P : Type} `{!Ports P} {latched : P → Z} {conf : P → PciAddress → Z → Z}.
Context {host : PciHost P latched conf}.

Lemma local_read_dword_run p a o : address_wf a → pci_segment a = 0 → 0 ≤ o < 256 →
  (local_read_dword p a o).1 = conf p a (o - o `mod` 4).
Proof using host.
  intros Ha Hs Ho. destruct (config_address_run a o true Ha Ho) as (_ & _ & _ & Hr & He & Hu).
  unfold local_read_dword, CONFIG_ADDRESS, CONFIG_DATA.
  rewrite host_read by by rewrite host_address. rewrite host_address, host_address_conf by done.
  by rewrite config_target_address, Hr.
Qed.

Lemma local_read_dword_conf p a o a' o' : conf (local_read_dword p a o).2 a' o' = conf p a' o'.
Proof using host.
  unfold local_read_dword, CONFIG_ADDRESS, CONFIG_DATA. by rewrite host_read_conf, host_address_conf.
Qed.

Lemma land_2 o : o `mod` 2 = 0 → Z.land o 2 = o `mod` 4.
Proof.
  intros He. change 4 with (2 ^ 2). rewrite <-(land_mask_mod o 2 3) by done. change 3 with (Z.lor 2 1).
  rewrite Z.land_lor_distr_r, (land_mask_mod o 1 1) by done. change (2 ^ 1) with 2.
  by rewrite He, Z.lor_0_r.
Qed.

#[local] Instance local_bus_config_reads : ConfigReads P conf.
Proof using host.
  split.
  - intros p a o Ha Hs Ho Hm. simpl. rewrite local_read_dword_run by done.
    by rewrite Hm, Z.sub_0_r.
  - intros. apply local_read_dword_conf.
  - intros p a o Ha Hs Ho Hm. simpl. unfold local_read_word.
    destruct (local_read_dword p a o) as [v p'] eqn:Hrd.
    assert (v = conf p a (o - o `mod` 4)) as -> by by rewrite <-(local_read_dword_run p a o), Hrd.
    simpl. rewrite land_2 by done. rewrite (land_mask_mod _ 16 65535) by done.
    rewrite shiftr_div by (zdm). do 2 f_equal. f_equal. lia.
  - intros p a o a' o'. simpl. unfold local_read_word.
    pose proof (local_read_dword_conf p a o a' o') as Hc. by destruct (local_read_dword p a o).
  - intros. apply host_u32.
Qed.
End LocalBusReads.

(** ** Enumeration *)

Section Enumeration.
Context {P : Type} `{!ConfigurationSpaceMechanism P} {conf : P → PciAddress → Z → Z}.
Context {reads : ConfigReads P conf}.

Definition same_conf (p p' : P) : Prop := ∀ a o, conf p' a o = conf p a o.

(** Function 0 of device [d] on bus [b]. *)
Definition slot (b d : Z) : PciAddress := mk_pci_address 0 b d 0.
Definition slot_vendor (p : P) (b d : Z) : Z := conf p (slot b d) 0 `mod` 65536.
Definition slot_device (p : P) (b d : Z) : Z := conf p (slot b d) 0 `div` 65536 `mod` 65536.

(** The occupied slots of bus [b] among the [n] from [d] on, in order. *)
Definition occupied (p : P) (b : Z) (ds : list Z) : list (PciAddress * Z * Z) :=
  (λ d, (slot b d, slot_vendor p b d, slot_device p b d)) <$>
    List.filter (λ d, negb (slot_vendor p b d =? VENDOR_INVALID)) ds.

Lemma occupied_same p p' b ds : same_conf p p' → occupied p' b ds = occupied p b ds.
Proof.
  intros Hs. unfold occupied.
  assert (∀ d, slot_vendor p' b d = slot_vendor p b d) as Hv by (intros d; unfold slot_vendor; by rewrite Hs).
  induction ds as [|d ds IH]; [done|]. cbn [List.filter]. rewrite Hv.
  destruct (negb _); [|done]. rewrite !fmap_cons, IH, Hv. unfold slot_device. by rewrite Hs.
Qed.

Lemma vendor_id_run p a : address_wf a → pci_segment a = 0 →
  ∃ p', vendor_id p a = (conf p a 0 `mod` 65536, p') ∧ same_conf p p'.
Proof using reads.
  intros Ha Hs. unfold vendor_id. exists (read_word p a 0).2. split.
  - rewrite (surjective_pairing (read_word p a 0)) at 1. rewrite cr_word by done.
    by rewrite Z.div_1_r.
  - intros a' o'. apply cr_word_conf.
Qed.

Lemma device_id_run p a : address_wf a → pci_segment a = 0 →
  ∃ p', device_id p a = (conf p a 0 `div` 65536 `mod` 65536, p') ∧ same_conf p p'.
Proof using reads.
  intros Ha Hs. unfold device_id. exists (read_word p a 2).2. split.
  - rewrite (surjective_pairing (read_word p a 2)) at 1. by rewrite cr_word.
  - intros a' o'. apply cr_word_conf.
Qed.

Lemma next_device_run n : ∀ fuel p b d,
  (n < fuel)%nat → d + Z.of_nat n = 32 → 0 ≤ d → 0 ≤ b < 256 →
  ∃ p' d', same_conf p p' ∧ d ≤ d' ≤ 32 ∧
    match occupied p b (seqZ d (Z.of_nat n)) with
    | [] => next_device fuel p (mk_enum b d) = Ret (None, mk_enum b 32, p')
    | item :: rest => next_device fuel p (mk_enum b d) = Ret (Some item, mk_enum b d', p') ∧
        rest = occupied p b (seqZ d' (32 - d')) ∧ d < d'
    end.
Proof using reads.
  induction n as [|n IH]; intros [|fuel] p b d Hf Hn Hd Hb; try lia; cbn [next_device device bus].
  { exists p, 32. assert (d = 32) as -> by lia. split; [done|]. split; [lia|]. done. }
  rewrite (proj2 (Z.ltb_lt d 32)) by lia. rewrite (wrap_small 8 b) by done.
  run_u. run_bind.
  assert (address_wf (slot b d)) as Hwf by (unfold address_wf; simpl; lia).
  change (mk_pci_address 0 b d 0) with (slot b d).
  destruct (vendor_id_run p (slot b d) Hwf eq_refl) as (p1 & -> & H1). cbn iota.
  rewrite seqZ_cons by lia. replace (Z.succ d) with (d + 1) by lia.
  replace (Z.pred (Z.of_nat (S n))) with (Z.of_nat n) by lia.
  unfold occupied at 1. cbn [List.filter]. fold (slot_vendor p b d).
  destruct (slot_vendor p b d =? VENDOR_INVALID) eqn:Hv; cbn [negb].
  - fold (occupied p b (seqZ (d + 1) (Z.of_nat n))).
    destruct (IH fuel p1 b (d + 1)) as (p2 & d' & H2 & Hd' & Hres); [lia..|].
    exists p2, d'. split; [intros a o; by rewrite H2, H1|]. split; [lia|].
    rewrite (occupied_same p p1) in Hres by done. destruct (occupied p b _) as [|item rest]; [done|].
    destruct Hres as (Hrun & -> & Hlt). rewrite (occupied_same p p1) by done. split; [done|]. split; [done|lia].
  - destruct (device_id_run p1 (slot b d) Hwf eq_refl) as (p2 & -> & H2). cbn [fmap list_fmap].
    exists p2, (d + 1). split; [intros a o; by rewrite H2, H1|]. split; [lia|]. split; [|split; [|lia]].
    + cbn iota. rewrite H1. done.
    + replace (32 - (d + 1)) with (Z.of_nat n) by lia. done.
Qed.

(** Once the device number is past the last slot, every further bus is skipped. *)
Lemma next_bus_exhausted fuel : ∀ (p : P) b,
  (Z.to_nat (256 - b) < fuel)%nat → 0 ≤ b ≤ 256 →
  next_bus fuel p (mk_enum b 32) = Ret (None, mk_enum 256 32, p).
Proof.
  induction fuel as [|fuel IH]; intros p b Hf Hb; [lia|]. cbn [next_bus bus].
  destruct (Z.ltb_spec b 256).
  - change (next_device 33 p (mk_enum b 32)) with (Ret (@None (PciAddress * Z * Z), mk_enum b 32, p)).
    cbn [mbind outcome_bind bus device]. run_u.
    run_bind. apply IH; lia.
  - by assert (b = 256) as -> by lia.
Qed.

(** The enumerator on bus 0. *)
Lemma next_bus_zero f p d : (256 ≤ f)%nat → 0 ≤ d ≤ 32 →
  ∃ p' d', same_conf p p' ∧ d ≤ d' ≤ 32 ∧
    match occupied p 0 (seqZ d (32 - d)) with
    | [] => next_bus (S f) p (mk_enum 0 d) = Ret (None, mk_enum 256 32, p')
    | item :: rest => next_bus (S f) p (mk_enum 0 d) = Ret (Some item, mk_enum 0 d', p') ∧
        rest = occupied p 0 (seqZ d' (32 - d')) ∧ d < d'
    end.
Proof using reads.
  intros Hf Hd. destruct (next_device_run (Z.to_nat (32 - d)) 33 p 0 d) as (p' & d' & Hs & Hd' & Hres); [lia..|].
  exists p', d'. split; [done|]. split; [done|]. rewrite Z2Nat.id in Hres by lia.
  cbn [next_bus bus]. rewrite (proj2 (Z.ltb_lt 0 256)) by done.
  destruct (occupied p 0 _) as [|item rest].
  - rewrite Hres. run_bind. rewrite add_u_in by done. cbn [mbind outcome_bind device bus].
    apply next_bus_exhausted; lia.
  - destruct Hres as (-> & Hrest & Hlt). done.
Qed.

Lemma next_run p d : 0 ≤ d ≤ 32 →
  ∃ p' d', same_conf p p' ∧ d ≤ d' ≤ 32 ∧
    match occupied p 0 (seqZ d (32 - d)) with
    | [] => next p (mk_enum 0 d) = Ret (None, mk_enum 256 32, p')
    | item :: rest => next p (mk_enum 0 d) = Ret (Some item, mk_enum 0 d', p') ∧
        rest = occupied p 0 (seqZ d' (32 - d')) ∧ d < d'
    end.
Proof using reads. by apply next_bus_zero. Qed.

(** What [describe] reports, from the configuration space. *)
Definition info_of (p : P) (addr : PciAddress) (vid did : Z) : DeviceInfo :=
  let class := ClassCode.new (conf p addr 8 `div` 2 ^ 24) in
  let sub := conf p addr 8 `div` 2 ^ 16 `mod` 256 in
  mk_info addr vid did class sub (default EmptyString (subclass_name sub class))
    (match vendor_name vid with
     | Some vendor_name => Some (vendor_name, default EmptyString (device_name did vid))
     | None => None
     end).

(** A 16-bit register of the header, and the state after reading it. *)
Lemma read_word_run p a o : address_wf a → pci_segment a = 0 → 0 ≤ o < 256 → o `mod` 2 = 0 →
  ∃ p', read_word p a o =
      (conf p a (o - o `mod` 4) `div` 2 ^ (8 * (o `mod` 4)) `mod` 65536, p') ∧ same_conf p p'.
Proof using reads.
  intros Ha Hs Ho Hm. exists (read_word p a o).2. split; [|intros a' o'; apply cr_word_conf].
  rewrite (surjective_pairing (read_word p a o)) at 1. by rewrite cr_word.
Qed.

Lemma class_code_run p a : address_wf a → pci_segment a = 0 →
  ∃ p', class_code p a = (ClassCode.new (conf p a 8 `div` 2 ^ 24), p') ∧ same_conf p p'.
Proof using reads.
  intros Ha Hs. unfold class_code. destruct (read_word_run p a 0xA) as (p' & -> & Hc); [done..|].
  exists p'. split; [|done]. do 2 f_equal. unfold wrap. rewrite shiftr_div by done.
  pose proof (cr_u32 p a 8). change (10 - 10 `mod` 4) with 8. unfold_u.
  change (2 ^ (8 * (10 `mod` 4))) with 65536. norm_pow. zdm.
Qed.

Lemma subclass_run p a : address_wf a → pci_segment a = 0 →
  ∃ p', subclass p a = (conf p a 8 `div` 2 ^ 16 `mod` 256, p') ∧ same_conf p p'.
Proof using reads.
  intros Ha Hs. unfold subclass. destruct (read_word_run p a 0xA) as (p' & -> & Hc); [done..|].
  exists p'. split; [|done]. f_equal. rewrite (land_mask_mod _ 8 255) by done.
  pose proof (cr_u32 p a 8). change (10 - 10 `mod` 4) with 8. unfold_u.
  change (2 ^ (8 * (10 `mod` 4))) with 65536. norm_pow. zdm.
Qed.

Lemma header_type_run p a : address_wf a → pci_segment a = 0 →
  ∃ p', header_type p a = (HeaderType.new (conf p a 0xC `div` 2 ^ 16 `mod` 256), p') ∧ same_conf p p'.
Proof using reads.
  intros Ha Hs. unfold header_type. destruct (read_word_run p a 0xE) as (p' & -> & Hc); [done..|].
  exists p'. split; [|done]. do 2 f_equal. unfold wrap.
  pose proof (cr_u32 p a 12). change (14 - 14 `mod` 4) with 12. unfold_u.
  change (2 ^ (8 * (14 `mod` 4))) with 65536. norm_pow. zdm.
Qed.

Lemma describe_run p a v d : address_wf a → pci_segment a = 0 →
  ∃ p', describe p a v d = (info_of p a v d, p') ∧ same_conf p p'.
Proof using reads.
  intros Ha Hs. unfold describe, info_of.
  destruct (class_code_run p a Ha Hs) as (p1 & -> & H1).
  destruct (subclass_run p1 a Ha Hs) as (p2 & -> & H2).
  exists p2. rewrite H1. split; [done|]. intros a' o'. by rewrite H2, H1.
Qed.

Lemma info_of_same p p' a v d : same_conf p p' → info_of p' a v d = info_of p a v d.
Proof. intros Hs. unfold info_of. by rewrite Hs. Qed.

Lemma occupied_wf p ds item : (∀ d, d ∈ ds → 0 ≤ d < 32) → item ∈ occupied p 0 ds →
  address_wf item.1.1 ∧ pci_segment item.1.1 = 0 ∧ pci_bus item.1.1 = 0.
Proof.
  intros Hds (d & -> & Hd)%list_elem_of_fmap.
  apply list_elem_of_In, filter_In in Hd as [Hd%list_elem_of_In _]. specialize (Hds d Hd).
  split; [|done]. unfold address_wf. simpl. lia.
Qed.

Lemma init_loop_run fuel : ∀ p d n,
  (Z.to_nat (32 - d) < fuel)%nat → 0 ≤ d ≤ 32 → 0 ≤ n ≤ d →
  ∃ p', init_loop fuel p (mk_enum 0 d) n =
      Ret ((λ '(a, v, i), info_of p a v i) <$> occupied p 0 (seqZ d (32 - d)),
           n + Z.of_nat (length (occupied p 0 (seqZ d (32 - d)))), p') ∧ same_conf p p'.
Proof using reads.
  induction fuel as [|fuel IH]; intros p d n Hf Hd Hn; [lia|]. cbn [init_loop].
  destruct (next_run p d Hd) as (p1 & d' & H1 & Hd' & Hres).
  destruct (occupied p 0 (seqZ d (32 - d))) as [|[[a v] i] rest] eqn:Hocc.
  { rewrite Hres. exists p1. split; [|done]. cbn [mbind outcome_bind length]. by rewrite Z.add_0_r. }
  destruct Hres as (-> & -> & Hlt). run_bind.
  rewrite add_u_in by (unfold_u; norm_pow; lia). run_bind.
  destruct (occupied_wf p (seqZ d (32 - d)) (a, v, i)) as (Ha & Hs & _).
  { intros x Hx%elem_of_seqZ. lia. }
  { rewrite Hocc. by left. }
  destruct (describe_run p1 a v i Ha Hs) as (p2 & -> & H2).
  destruct (IH p2 d' (n + 1)) as (p3 & -> & H3); [lia..|].
  assert (same_conf p p2) as H12 by (intros a' o'; by rewrite H2, H1).
  exists p3. split; [|intros a' o'; by rewrite H3, H12]. cbn [mbind outcome_bind mret outcome_ret].
  rewrite (info_of_same p p1), (occupied_same p p2) by done.
  rewrite fmap_cons. cbn [length]. do 3 f_equal; [|lia].
  f_equal. apply list_fmap_ext. intros k [[a' v'] i'] _. by apply info_of_same.
Qed.
End Enumeration.

(** ** Properties *)

(** Over a host bridge with the documented behaviour, the port mechanism reads
    configuration space as the trait's users expect: the dword or the aligned word of
    the function and offset asked for, whatever was accessed before, and reading
    changes nothing. *)
Theorem local_bus_reads {P} `{!Ports P} latched conf (p : P) a o
    (Hhost : PciHost P latched conf) (Ha : address_wf a) (Hs : pci_segment a = 0)
    (Ho : 0 ≤ o < 256) (He : o `mod` 2 = 0) :
  (read_word p a o).1 = conf p a (o - o `mod` 4) `div` 2 ^ (8 * (o `mod` 4)) `mod` 65536 ∧
  (read_dword p a o).1 = conf p a (o - o `mod` 4) ∧
  ∀ a' o', conf (read_word p a o).2 a' o' = conf p a' o' ∧
    conf (read_dword p a o).2 a' o' = conf p a' o'.
Proof.
  pose proof (local_bus_config_reads (host := Hhost)) as Hcr. split; [by apply cr_word|].
  split; [by apply (local_read_dword_run (host := Hhost))|].
  intros a' o'. split; [apply cr_word_conf|apply cr_dword_conf].
Qed.

(** Every accessor of the header reads the field the PCI specification places
    there: identifiers, command and status, revision, programming interface, class
    and subclass, and header type. *)
Theorem header_fields {P} `{!ConfigurationSpaceMechanism P} conf (p : P) a
    (Hreads : ConfigReads P conf) (Ha : address_wf a) (Hs : pci_segment a = 0) :
  (vendor_id p a).1 = conf p a 0 `mod` 2 ^ 16 ∧ (device_id p a).1 = conf p a 0 `div` 2 ^ 16 ∧
  (command p a).1 = conf p a 4 `mod` 2 ^ 16 ∧ (status p a).1 = conf p a 4 `div` 2 ^ 16 ∧
  (revision_id p a).1 = conf p a 8 `mod` 2 ^ 8 ∧
  (prog_if p a).1 = conf p a 8 `div` 2 ^ 8 `mod` 2 ^ 8 ∧
  (subclass p a).1 = conf p a 8 `div` 2 ^ 16 `mod` 2 ^ 8 ∧
  (class_code p a).1 = ClassCode.new (conf p a 8 `div` 2 ^ 24) ∧
  (header_type p a).1 = HeaderType.new (conf p a 12 `div` 2 ^ 16 `mod` 2 ^ 8).
Proof.
  assert (∀ o, 0 ≤ o < 256 → o `mod` 2 = 0 → (read_word p a o).1 =
    conf p a (o - o `mod` 4) `div` 2 ^ (8 * (o `mod` 4)) `mod` 65536) as Hw.
  { intros o Ho He. by apply cr_word. }
  destruct (class_code_run p a Ha Hs) as (p1 & -> & _).
  destruct (subclass_run p a Ha Hs) as (p2 & -> & _).
  destruct (header_type_run p a Ha Hs) as (p3 & -> & _).
  pose proof (cr_u32 p a 0). pose proof (cr_u32 p a 4). pose proof (cr_u32 p a 8).
  unfold vendor_id, device_id, command, status, revision_id, prog_if. rewrite !Hw by done.
  destruct (read_word_run p a 8) as (p4 & -> & _); [done..|]. cbn [fst].
  change (0 - 0 `mod` 4) with 0. change (2 - 2 `mod` 4) with 0. change (4 - 4 `mod` 4) with 4.
  change (6 - 6 `mod` 4) with 4. change (8 - 8 `mod` 4) with 8.
  change (2 ^ (8 * (0 `mod` 4))) with 1. change (2 ^ (8 * (2 `mod` 4))) with 65536.
  change (2 ^ (8 * (4 `mod` 4))) with 1. change (2 ^ (8 * (6 `mod` 4))) with 65536.
  change (2 ^ (8 * (8 `mod` 4))) with 1. unfold wrap.
  rewrite (land_mask_mod _ 8 255), shiftr_div by done. unfold_u. norm_pow. rewrite !Z.div_1_r.
  split_and!; (done || zdm).
Qed.

(** C27: [init] ends and lists exactly the occupied slots of bus 0, in order, with
    their identifiers and class: the device number is never reset, so the other 255
    buses the loop goes through are not searched and no device on them is found. *)
Theorem init_lists_only_bus_zero {P} `{!ConfigurationSpaceMechanism P} conf (p : P)
    (Hreads : ConfigReads P conf) :
  ∃ p', init p =
      Ret ((λ '(a, v, i), info_of (conf := conf) p a v i) <$> occupied (conf := conf) p 0 (seqZ 0 32),
           Z.of_nat (length (occupied (conf := conf) p 0 (seqZ 0 32))), p') ∧
    ∀ item, item ∈ occupied (conf := conf) p 0 (seqZ 0 32) → pci_bus item.1.1 = 0.
Proof.
  unfold init, enumerate. destruct (init_loop_run 33 p 0 0) as (p' & -> & _); [lia..|].
  exists p'. split; [done|]. intros item Hitem.
  apply (occupied_wf (conf := conf) p (seqZ 0 32) item); [|done]. intros d Hd%elem_of_seqZ. lia.
Qed.

Lemma local_write_word_conf {P} `{!Ports P} latched conf `{!PciHost P latched conf} (p : P) a o v a' o' :
  address_wf a → 0 ≤ o < 256 → conf (local_write_word p a o v) a' o' = conf p a' o'.
Proof.
  intros Ha Ho. destruct (config_address_run a o false Ha Ho) as (_ & _ & _ & _ & He & Hu).
  unfold local_write_word, CONFIG_ADDRESS, CONFIG_DATA.
  destruct (port_read _ 32 3324) as [data p'] eqn:Hrd.
  assert (p' = (port_read (port_write p 32 0xCF8 (create_local_bus_address a o false)) 32 0xCFC).2)
    as Hp' by by rewrite Hrd.
  rewrite host_write_disabled by by rewrite Hp', host_read_latched, host_address.
  by rewrite Hp', host_read_conf, host_address_conf.
Qed.

(** C39: [write_word] selects its register with the enable bit clear, so it never
    changes configuration space: [enable_bus_mastering] leaves the device's command
    register, and every other register, as it was. *)
Theorem bus_mastering_not_enabled {P} `{!Ports P} latched conf (p : P) a
    (Hhost : PciHost P latched conf) (Ha : address_wf a) :
  ∀ a' o', conf (enable_bus_mastering p a) a' o' = conf p a' o'.
Proof.
  intros a' o'. unfold enable_bus_mastering, write_command, command.
  pose proof (local_bus_config_reads (host := Hhost)) as Hcr.
  pose proof (cr_word_conf p a 4 a' o') as Hc. destruct (read_word p a 4) as [w p1]. simpl in *.
  by rewrite (local_write_word_conf latched conf).
Qed.

Lemma base_address_run {P} `{!ConfigurationSpaceMechanism P} conf `{!ConfigReads P conf} (p : P) a idx :
  address_wf a → pci_segment a = 0 → 0 ≤ idx →
  let bars := HeaderType.bar_count (HeaderType.new (conf p a 12 `div` 2 ^ 16 `mod` 256)) in
  ∃ p', base_address p a idx =
    Ret (if idx <? bars then Some (conf p a (0x10 + 4 * idx)) else None, p').
Proof.
  intros Ha Hs Hi bars. unfold base_address.
  destruct (header_type_run p a Ha Hs) as (p1 & -> & H1). fold bars.
  rewrite Z.gtb_ltb. destruct (Z.ltb_spec idx bars) as [Hlt|Hge]; [|by exists p1].
  assert (bars ≤ 6) by (unfold bars, HeaderType.bar_count; case_match; lia).
  run_u. run_bind.
  rewrite wrap_small by (unfold_u; lia). run_u.
  run_bind. replace (0x10 + idx * 4) with (0x10 + 4 * idx) by lia.
  destruct (read_dword p1 a (0x10 + 4 * idx)) as [v p2] eqn:Hrd.
  assert (v = conf p1 a (0x10 + 4 * idx)) as ->.
  { rewrite <-cr_dword; [by rewrite Hrd|done..|lia|]. zdm. }
  exists p2. by rewrite H1.
Qed.

(** For a header of a known type [base_address] reads the base address register
    asked for, and [None] beyond the type's count; but for a multi-function device,
    whose header type has bit 7 set, it always returns [None], and the network
    driver's [initialize] panics. *)
Theorem multifunction_has_no_bars {P} `{!Ports P} latched conf (p : P) a
    (Hhost : PciHost P latched conf) (Ha : address_wf a) (Hs : pci_segment a = 0) :
  let ty := conf p a 12 `div` 2 ^ 16 `mod` 256 in
  (ty = 0 → ∀ idx, 0 ≤ idx → ∃ p', base_address p a idx =
     Ret (if idx <? 6 then Some (conf p a (0x10 + 4 * idx)) else None, p')) ∧
  (128 ≤ ty → (∀ idx, 0 ≤ idx → ∃ p', base_address p a idx = Ret (None, p')) ∧
     intel_8254x_initialize p a = Panic "Should have BAR0").
Proof.
  intros ty. pose proof (local_bus_config_reads (host := Hhost)) as Hcr.
  assert (∀ p0, conf p0 a 12 = conf p a 12 → 128 ≤ ty → ∀ idx, 0 ≤ idx →
    ∃ p', base_address p0 a idx = Ret (None, p')) as Hnone.
  { intros p0 Hp0 Hty idx Hi. destruct (base_address_run conf p0 a idx Ha Hs Hi) as (p' & ->).
    rewrite Hp0. fold ty.
    assert (HeaderType.new ty = Unknown ty) as ->.
    { unfold HeaderType.new. repeat case_match; (done || lia). }
    simpl. rewrite (proj2 (Z.ltb_ge idx 0)) by done. by eauto. }
  split.
  - intros Hty idx Hi. destruct (base_address_run conf p a idx Ha Hs Hi) as (p' & ->).
    fold ty. rewrite Hty. by eauto.
  - intros Hty. split; [by apply Hnone|]. unfold intel_8254x_initialize.
    destruct (Hnone (enable_bus_mastering p a)) with (idx := 0) as (p' & ->); [|done..].
    unfold enable_bus_mastering, write_command, command.
    pose proof (cr_word_conf p a 4 a 12) as Hc. destruct (read_word p a 4) as [w p1]. simpl in *.
    by rewrite (local_write_word_conf latched conf).
Qed.

(** ** Types

    The integers of the model are unbounded; these lemmas show that each stays in the
    type the source gives it. *)

Class ConfigTyped (P : Type) `{!ConfigurationSpaceMechanism P} (ok : P → Prop) : Prop := {
  ct_word p a o : ok p → address_typed a → in_u 16 o →
    in_u 16 (read_word p a o).1 ∧ ok (read_word p a o).2;
  ct_dword p a o : ok p → address_typed a → in_u 16 o →
    in_u 32 (read_dword p a o).1 ∧ ok (read_dword p a o).2;
  ct_write p a o v : ok p → address_typed a → in_u 16 o → in_u 16 v → ok (write_word p a o v);
}.

(** What [init] logs about a device, field by field. *)
Definition info_typed (i : DeviceInfo) : Prop :=
  address_typed (info_addr i) ∧ in_u 16 (info_vendor i) ∧ in_u 16 (info_device i) ∧
  in_u 8 (info_subclass i) ∧ match info_class i with Reserved c => in_u 8 c | _ => True end.

Section LocalBusTyped.
Context {P : Type} `{!Ports P} {ok : P → Prop} {typed : PortsTyped P ok}.

Lemma local_read_dword_typed p a o : ok p → address_typed a → in_u 16 o →
  in_u 32 (local_read_dword p a o).1 ∧ ok (local_read_dword p a o).2.
Proof using typed.
  intros Hp Ha Ho. apply typed_read; [done|]. apply typed_write; [done|].
  by apply create_local_bus_address_typed.
Qed.

#[local] Instance local_bus_typed : ConfigTyped P ok.
Proof using typed.
  split; simpl.
  - intros p a o Hp Ha Ho. unfold local_read_word.
    destruct (local_read_dword_typed p a o) as [Hv Hok]; [done..|].
    destruct (local_read_dword p a o) as [v p']. simpl in *. split; [|done].
    apply in_u_land; [done| |done]. apply Z.shiftr_nonneg, Hv.
  - intros. by apply local_read_dword_typed.
  - intros p a o v Hp Ha Ho Hv. unfold local_write_word.
    destruct (typed_read (port_write p 32 CONFIG_ADDRESS (create_local_bus_address a o false))
      32 CONFIG_DATA) as [Hd Hok]; [done| |].
    { apply typed_write; [done|]. by apply create_local_bus_address_typed. }
    destruct (port_read _ _ _) as [data p']. simpl in *. apply typed_write; [done|].
    case_match; apply in_u_lor; try (by apply wrap_in); try done.
    + by apply (in_u_weaken 16).
    + apply in_u_land; [done|apply Hd|done].
    + apply in_u_land; [done|apply Hd|done].
Qed.
End LocalBusTyped.

Section ProvidedTyped.
Context {P : Type} `{!ConfigurationSpaceMechanism P} {ok : P → Prop} {typed : ConfigTyped P ok}.

Definition enum_typed (e : DeviceEnumerator) : Prop := 0 ≤ bus e ≤ 256 ∧ 0 ≤ device e ≤ 32.

Definition item_typed (item : PciAddress * Z * Z) : Prop :=
  address_typed item.1.1 ∧ in_u 16 item.1.2 ∧ in_u 16 item.2.

Lemma next_device_typed fuel p e : ok p → enum_typed e → 33 ≤ Z.of_nat fuel + device e →
  ∃ r e' p', next_device fuel p e = Ret (r, e', p') ∧ ok p' ∧ enum_typed e' ∧ bus e' = bus e ∧
    match r with Some item => item_typed item ∧ device e < device e' | None => device e' = 32 end.
Proof using typed.
  revert p e. induction fuel as [|fuel IH]; intros p e Hp [Hb Hd] Hf; [lia|]. simpl.
  destruct (Z.ltb_spec (device e) 32) as [Hlt|]; cycle 1.
  { exists None, e, p. unfold enum_typed. split_and!; (done || lia). }
  rewrite (add_u_in 8) by (unfold_u; lia). run_bind.
  assert (address_typed (mk_pci_address 0 (wrap 8 (bus e)) (device e) 0)) as Ha
    by (split_and!; simpl; try (by apply wrap_in); (unfold_u; lia)).
  destruct (ct_word p _ 0 Hp Ha) as [Hv Hp1]; [done|]. unfold vendor_id, device_id.
  destruct (read_word p _ 0) as [vid p1]. simpl in *. case_match; cycle 1.
  - destruct (IH p1 (mk_enum (bus e) (device e + 1))) as (r & e' & p' & -> & ? & ? & ? & Hr);
      [done|unfold enum_typed; simpl; lia|simpl; lia|].
    exists r, e', p'. split_and!; try done. destruct r; [|done]. simpl in *. destruct Hr; split; [done|lia].
  - destruct (ct_word p1 _ 2 Hp1 Ha) as [Hv2 Hp2]; [done|].
    destruct (read_word p1 _ 2) as [did p2]. simpl in *. eexists _, _, _. split; [done|].
    unfold enum_typed, item_typed. simpl. split_and!; (done || lia).
Qed.

Lemma next_bus_typed fuel p e : ok p → enum_typed e → 257 ≤ Z.of_nat fuel + bus e →
  ∃ r e' p', next_bus fuel p e = Ret (r, e', p') ∧ ok p' ∧ enum_typed e' ∧
    match r with Some item => item_typed item ∧ device e < device e' | None => True end.
Proof using typed.
  revert p e. induction fuel as [|fuel IH]; intros p e Hp He Hf; [destruct He; lia|]. cbn [next_bus].
  destruct (Z.ltb_spec (bus e) 256) as [Hlt|]; [|by exists None, e, p].
  destruct (next_device_typed 33 p e Hp He) as (r & e1 & p1 & -> & Hp1 & He1 & Hb & Hr);
    [destruct He; lia|]. run_bind. destruct r as [item|]; [by exists (Some item), e1, p1|].
  destruct He, He1. rewrite (add_u_in 16) by (unfold_u; lia). run_bind.
  destruct (IH p1 (mk_enum (bus e1 + 1) (device e1))) as (r & e' & p' & -> & ? & He' & Hr');
    [done|unfold enum_typed; simpl; lia|simpl; lia|].
  exists r, e', p'. split_and!; try done. destruct r; [|done]. simpl in *. split; [apply Hr'|lia].
Qed.

Lemma describe_typed p item : ok p → item_typed item →
  info_typed (describe p item.1.1 item.1.2 item.2).1 ∧ ok (describe p item.1.1 item.1.2 item.2).2.
Proof using typed.
  destruct item as [[a vid] did]. intros Hp (Ha & Hv & Hd). unfold describe, class_code, subclass.
  simpl in *. destruct (ct_word p a 0xA Hp Ha) as [Hw Hp1]; [done|].
  destruct (read_word p a 0xA) as [w p1]. simpl in *.
  destruct (ct_word p1 a 0xA Hp1 Ha) as [Hw2 Hp2]; [done|].
  destruct (read_word p1 a 0xA) as [w2 p2]. simpl in *. split; [|done].
  unfold info_typed. simpl. split_and!; try done.
  - apply in_u_land; [done|apply Hw2|done].
  - by apply class_code_typed, wrap_in.
Qed.

Lemma init_loop_typed fuel p e devices : ok p → enum_typed e → 33 ≤ Z.of_nat fuel + device e →
  0 ≤ devices → devices + (32 - device e) < 2 ^ 31 →
  ∃ l p', init_loop fuel p e devices = Ret (l, devices + Z.of_nat (length l), p') ∧ ok p' ∧
    Forall info_typed l ∧ Z.of_nat (length l) ≤ 32 - device e.
Proof using typed.
  revert p e devices. induction fuel as [|fuel IH]; intros p e n Hp He Hf Hn Hmax;
    [destruct He; lia|]. cbn [init_loop]. unfold next.
  destruct (next_bus_typed 257 p e Hp He) as (r & e1 & p1 & -> & Hp1 & He1 & Hr);
    [destruct He; lia|]. run_bind. destruct r as [[[a vid] did]|]; cycle 1.
  { exists [], p1. destruct He. simpl. rewrite Z.add_0_r. split_and!; (done || lia). }
  destruct Hr as [Hi Hlt], He, (id He1). rewrite (add_u_in 31) by (unfold_u; lia). run_bind.
  destruct (describe_typed p1 (a, vid, did) Hp1 Hi) as [Hinfo Hp2]. simpl in Hinfo, Hp2.
  destruct (describe p1 a vid did) as [i p2].
  destruct (IH p2 e1 (n + 1)) as (l & p' & -> & ? & ? & ?); [done|done|lia|lia|lia|]. run_bind.
  exists (i :: l), p'. simpl length. split_and!; [|done|by constructor|lia].
  do 3 f_equal. lia.
Qed.
End ProvidedTyped.

(** C28: [pci::init] is well typed over the two configuration ports: from a typed device
    state it returns, what it writes to the ports fits the ports' 32 bits (the state
    stays typed), every field of every device it lists is in the range of its Rust
    type, and the count is the length of the list, at most 32. *)
Theorem init_typed {P : Type} `{!Ports P} (ok : P → Prop) (p : P)
    (Htyped : PortsTyped P ok) (Hp : ok p) :
  ∃ l p', init p = Ret (l, Z.of_nat (length l), p') ∧ ok p' ∧ Forall info_typed l ∧
    (length l ≤ 32)%nat.
Proof.
  destruct (init_loop_typed (typed := local_bus_typed (typed := Htyped)) 33 p enumerate 0)
    as (l & p' & Hrun & Hok & Hl & Hlen); try (unfold enum_typed; simpl; lia); [done|].
  exists l, p'. simpl in Hlen. split_and!; [exact Hrun|done|done|lia].
Qed.

(** ** Witnesses: a host bridge with four functions *)

Record bridge := mk_bridge { b_latched : Z; b_conf : PciAddress → Z → Z }.
Definition bridge_conf (b : bridge) (a : PciAddress) (o : Z) : Z := wrap 32 (b_conf b a o).

#[local] Instance bridge_ports : Ports bridge := {|
  port_read b w port :=
    (if port =? 0xCF8 then b_latched b
     else if config_enable (b_latched b)
     then bridge_conf b (config_target (b_latched b)) (config_register (b_latched b))
     else 0xFFFFFFFF, b);
  port_write b w port v :=
    if port =? 0xCF8 then mk_bridge v (b_conf b)
    else if config_enable (b_latched b) then
      mk_bridge (b_latched b) (λ a o,
        if bool_decide (a = config_target (b_latched b)) && (o =? config_register (b_latched b))
        then v else b_conf b a o)
    else b;
|}.

Lemma bridge_host : PciHost bridge b_latched bridge_conf.
Proof.
  split; simpl; try done.
  - intros b He. by rewrite He.
  - intros b v a o He. by rewrite He.
  - intros b a o. by apply wrap_in.
Qed.

(** A host bridge at 0:0, a network card at 0:3, a multi-function bridge at 0:1 and a
    disk controller on bus 1. *)
Definition sample_bridge : bridge := mk_bridge 0 (λ a o,
  match pci_bus a, pci_device a, o with
  | 0, 0, 0 => 0x12378086
  | 0, 0, 8 => 0x06000002
  | 0, 1, 0 => 0x70008086
  | 0, 1, 8 => 0x06010000
  | 0, 1, 12 => 0x00800000
  | 0, 3, 0 => 0x100E8086
  | 0, 3, 8 => 0x02000003
  | 1, 4, 0 => 0x29228086
  | _, _, 0 => 0xFFFFFFFF
  | _, _, _ => 0
  end).

Lemma local_bus_reads_witness :
  (read_word sample_bridge (slot 0 3) 2).1 = 0x100E ∧
  (read_dword sample_bridge (slot 0 3) 2).1 = 0x100E8086 ∧
  ∀ a' o', bridge_conf (read_word sample_bridge (slot 0 3) 2).2 a' o' = bridge_conf sample_bridge a' o' ∧
    bridge_conf (read_dword sample_bridge (slot 0 3) 2).2 a' o' = bridge_conf sample_bridge a' o'.
Proof.
  refine (local_bus_reads b_latched bridge_conf sample_bridge (slot 0 3) 2 bridge_host _ _ _ _);
    (done || by vm_compute).
Defined.

Lemma header_fields_witness :
  (class_code sample_bridge (slot 0 3)).1 = NetworkController ∧
  (revision_id sample_bridge (slot 0 3)).1 = 3.
Proof.
  destruct (header_fields bridge_conf sample_bridge (slot 0 3)
    (local_bus_config_reads (host := bridge_host)) ltac:(by vm_compute) eq_refl)
    as (_ & _ & _ & _ & Hr & _ & _ & Hc & _).
  split; [exact Hc|exact Hr].
Defined.

Lemma init_lists_only_bus_zero_witness :
  ∃ p', init sample_bridge =
      Ret ((λ '(a, v, i), info_of (conf := bridge_conf) sample_bridge a v i) <$>
             [(slot 0 0, 0x8086, 0x1237); (slot 0 1, 0x8086, 0x7000); (slot 0 3, 0x8086, 0x100E)],
           3, p') ∧
    ∀ item, item ∈ occupied (conf := bridge_conf) sample_bridge 0 (seqZ 0 32) → pci_bus item.1.1 = 0.
Proof.
  destruct (init_lists_only_bus_zero bridge_conf sample_bridge
    (local_bus_config_reads (host := bridge_host))) as (p' & Hrun & Hbus).
  exists p'. split; [|exact Hbus]. rewrite Hrun.
  assert (occupied (conf := bridge_conf) sample_bridge 0 (seqZ 0 32) =
    [(slot 0 0, 0x8086, 0x1237); (slot 0 1, 0x8086, 0x7000); (slot 0 3, 0x8086, 0x100E)]) as ->
    by by vm_compute.
  done.
Defined.

Lemma bus_mastering_not_enabled_witness :
  bridge_conf (enable_bus_mastering sample_bridge (slot 0 3)) (slot 0 3) 4 = 0.
Proof.
  refine (bus_mastering_not_enabled b_latched bridge_conf sample_bridge (slot 0 3) bridge_host _
    (slot 0 3) 4). by vm_compute.
Defined.

Lemma multifunction_has_no_bars_witness :
  intel_8254x_initialize sample_bridge (slot 0 1) = Panic "Should have BAR0".
Proof.
  refine (proj2 (proj2 (multifunction_has_no_bars b_latched bridge_conf sample_bridge (slot 0 1)
    bridge_host _ _) _)); (done || by vm_compute).
Defined.

(** The same bridge behind ports that cut what is read to the width of the read, and
    that keep the values written with their widths. *)
Record narrow := mk_narrow { n_bridge : bridge; n_written : list (Z * Z) }.

#[local] Instance narrow_ports : Ports narrow := {|
  port_read n w port := (wrap w (port_read (n_bridge n) w port).1, n);
  port_write n w port v := mk_narrow (port_write (n_bridge n) w port v) ((w, v) :: n_written n);
|}.

Definition narrow_ok (n : narrow) : Prop := Forall (λ '(w, v), in_u w v) (n_written n).

Lemma narrow_typed : PortsTyped narrow narrow_ok.
Proof.
  split; [|by constructor]. intros p w port Hw Hp. split; [by apply wrap_in|done].
Qed.

Lemma init_typed_witness :
  ∃ l p', init (mk_narrow sample_bridge []) = Ret (l, Z.of_nat (length l), p') ∧ narrow_ok p' ∧
    Forall info_typed l.
Proof.
  destruct (init_typed narrow_ok (mk_narrow sample_bridge []) narrow_typed (Forall_nil_2 _))
    as (l & p' & Hrun & Hok & Hl & _).
  exact (ex_intro _ l (ex_intro _ p' (conj Hrun (conj Hok Hl)))).
Defined.

End Pci.
