(* ===== verification/Report.v ===== *)
(** * Log records of the devices: the [info!] lines of kernel/src/device/pci/mod.rs

    The derived [Debug] texts the kernel uses, and with them the lines [pci::init] logs
    for a device. *)

From Stdlib Require Import Ascii.
From S2P Require Import Prelude Vga Format PciTypes Pci.

Module Report.
Import Format.

(** ** [Debug] *)

(** Derived for [PciAddress]. *)
Definition debug_address (a : PciAddress) : list Z :=
  chars "PciAddress { segment: " ++ display (pci_segment a) ++ chars ", bus: " ++ display (pci_bus a) ++
  chars ", device: " ++ display (pci_device a) ++ chars ", function: " ++ display (pci_function a) ++
  chars " }".

(** Derived for [PciClassCode]. *)
Definition debug_class (c : PciClassCode) : list Z :=
  match c with
  | Unclassified => chars "Unclassified"
  | MassStorageController => chars "MassStorageController"
  | NetworkController => chars "NetworkController"
  | DisplayController => chars "DisplayController"
  | MultimediaController => chars "MultimediaController"
  | MemoryController => chars "MemoryController"
  | Bridge => chars "Bridge"
  | SimpleCommunicationController => chars "SimpleCommunicationController"
  | BaseSystemPeripheral => chars "BaseSystemPeripheral"
  | InputDeviceController => chars "InputDeviceController"
  | DockingStation => chars "DockingStation"
  | Processor => chars "Processor"
  | SerialBusController => chars "SerialBusController"
  | WirelessController => chars "WirelessController"
  | IntelligentController => chars "IntelligentController"
  | SatelliteCommunicationController => chars "SatelliteCommunicationController"
  | EncryptionController => chars "EncryptionController"
  | SignalProcessingController => chars "SignalProcessingController"
  | ProcessingAccelerator => chars "ProcessingAccelerator"
  | NonEssentialInstrumentation => chars "NonEssentialInstrumentation"
  | Coprocessor => chars "Coprocessor"
  | Unassigned => chars "Unassigned"
  | Reserved id => chars "Reserved(" ++ display id ++ chars ")"
  end.

(** ** The lines *)

Definition device_line (addr : PciAddress) (vid did : Z) : list Z :=
  chars "Device vendor=" ++ lower_hex vid ++ chars " device=" ++ lower_hex did ++
  chars " addr=" ++ debug_address addr.

Definition class_line (i : Pci.DeviceInfo) : list Z :=
  chars "  Class: " ++ debug_class (Pci.info_class i) ++ chars ", subclass 0x" ++
  lower_hex (Pci.info_subclass i) ++ chars " " ++ chars (Pci.info_subclass_name i).

(** Only for a vendor with a name. *)
Definition name_line (i : Pci.DeviceInfo) : option (list Z) :=
  (λ '(vendor_name, device_name),
     chars "  Name: " ++ chars vendor_name ++ chars "     " ++ chars device_name) <$> Pci.info_name i.

Definition found_line (devices : Z) : list Z :=
  chars "Found " ++ display devices ++ chars " PCI devices".

(** ** Lengths *)

Lemma length_device_line a vid did : (length (device_line a vid did) ≤ 300)%nat.
Proof.
  unfold device_line, debug_address. rewrite !length_app.
  pose proof (length_lower_hex vid). pose proof (length_lower_hex did).
  pose proof (length_display (pci_segment a)). pose proof (length_display (pci_bus a)).
  pose proof (length_display (pci_device a)). pose proof (length_display (pci_function a)).
  cbn [chars length]. lia.
Qed.
Lemma length_found_line n : (length (found_line n) ≤ 300)%nat.
Proof.
  unfold found_line. rewrite !length_app. pose proof (length_display n). cbn [chars length]. lia.
Qed.

Lemma length_debug_class c : (length (debug_class c) ≤ 40)%nat.
Proof.
  destruct c as [ | | | | | | | | | | | | | | | | | | | | | |n]; cbn [debug_class];
    [cbn [chars length]; lia..|].
  rewrite !length_app. pose proof (length_display n). cbn [chars length]. lia.
Qed.

(** The names of the tables are short. *)
Lemma subclass_name_short sub class : (length (chars (default EmptyString (subclass_name sub class))) ≤ 100)%nat.
Proof. unfold subclass_name. repeat case_match; cbn; lia. Qed.
Lemma vendor_name_short vid name : vendor_name vid = Some name → (length (chars name) ≤ 100)%nat.
Proof. unfold vendor_name. repeat case_match; intros; simplify_eq; cbn; lia. Qed.
Lemma device_name_short did vid : (length (chars (default EmptyString (device_name did vid))) ≤ 100)%nat.
Proof. unfold device_name, get_bochs, get_intel. repeat case_match; cbn; lia. Qed.

Lemma length_describe_lines {P} `{!ConfigurationSpaceMechanism P} (p : P) a vid did :
  let i := (Pci.describe p a vid did).1 in
  (length (class_line i) ≤ 300)%nat ∧ ∀ l, name_line i = Some l → (length l ≤ 300)%nat.
Proof.
  unfold Pci.describe. destruct (Pci.class_code p a) as [c p1], (Pci.subclass p1 a) as [sub p2]. split.
  - unfold class_line. cbn [Pci.info_class Pci.info_subclass Pci.info_subclass_name fst]. rewrite !length_app.
    pose proof (length_debug_class c). pose proof (length_lower_hex sub). pose proof (subclass_name_short sub c).
    change (length (chars "  Class: ")) with 9%nat. change (length (chars ", subclass 0x")) with 13%nat.
    change (length (chars " ")) with 1%nat. lia.
  - unfold name_line. cbn [Pci.info_name fst]. intros l.
    destruct (vendor_name vid) as [vn|] eqn:Hv; [|done]. cbn [fmap option_fmap option_map]. intros Hl. apply (inj Some) in Hl as <-.
    rewrite !length_app. apply vendor_name_short in Hv. pose proof (device_name_short did vid).
    change (length (chars "  Name: ")) with 8%nat. change (length (chars "     ")) with 5%nat. lia.
Qed.
End Report.
