(* ===== verification/Task.v ===== *)
(** * Tasks and executors: kernel/src/task/mod.rs, kernel/src/task/executor.rs,
      kernel/src/task/simple_executor.rs

    A future is polled with the waker of its task; a poll may call wakers, which push
    task numbers on the executor's queue.  The queue is crossbeam's [ArrayQueue], the
    class [ArrayQueue]; the maps of the executor are finite maps. *)

From S2P Require Import Prelude.

(** ** The bounded queue of crate crossbeam *)

Class ArrayQueue (Q T : Type) := {
  queue_new : nat → Q;
  queue_push : Q → T → option Q;       (* [None]: the queue is full *)
  queue_pop : Q → option (T * Q);
  queue_is_empty : Q → bool;
}.
#[global] Hint Mode ArrayQueue ! - : typeclass_instances.

(** First in, first out, up to the capacity. *)
Class ArrayQueueLaws (Q T : Type) `{!ArrayQueue Q T} (contents : Q → list T) (capacity : Q → nat) :
    Prop := {
  queue_new_contents n : contents (queue_new n) = [];
  queue_new_capacity n : capacity (queue_new n) = n;
  queue_push_room q x : (length (contents q) < capacity q)%nat →
    ∃ q', queue_push q x = Some q' ∧ contents q' = contents q ++ [x] ∧ capacity q' = capacity q;
  queue_push_full q x : (capacity q ≤ length (contents q))%nat → queue_push q x = None;
  queue_pop_nil q : contents q = [] → queue_pop q = None;
  queue_pop_cons q x xs : contents q = x :: xs →
    ∃ q', queue_pop q = Some (x, q') ∧ contents q' = xs ∧ capacity q' = capacity q;
  queue_is_empty_spec q : queue_is_empty q = true ↔ contents q = [];
}.

Lemma queue_push_Some {Q T} `{!ArrayQueue Q T} {contents : Q → list T} {capacity : Q → nat}
    {laws : ArrayQueueLaws Q T contents capacity} (q : Q) (x : T) q' :
  queue_push q x = Some q' →
  contents q' = contents q ++ [x] ∧ capacity q' = capacity q ∧ (length (contents q) < capacity q)%nat.
Proof.
  intros Hpush. destruct (decide (length (contents q) < capacity q)%nat) as [Hroom|Hfull].
  - destruct (queue_push_room q x Hroom) as (q1 & Hpush1 & Hc & Hcap). by simplify_eq.
  - by rewrite queue_push_full in Hpush by lia.
Qed.

(** ** Futures *)

Inductive Poll := Ready | Pending.

(** Polling with a waker gives the result, the next state of the future and the
    wakers it called, as the numbers of their tasks. *)
Class Future (F : Type) := { poll : F → Z → Poll * F * list Z }.
#[global] Hint Mode Future ! : typeclass_instances.

Record Task (F : Type) := mk_task { task_id : Z; future : F }.
Arguments mk_task {F} _ _.
Arguments task_id {F} _.
Arguments future {F} _.

(** [TaskId::new]: the counter wraps around. *)
Definition task_id_new (NEXT_ID : Z) : Z * Z := (NEXT_ID, wrap 64 (NEXT_ID + 1)).

Definition task_new {F} (NEXT_ID : Z) (future : F) : Task F * Z :=
  let '(id, NEXT_ID) := task_id_new NEXT_ID in (mk_task id future, NEXT_ID).

Definition task_poll {F} `{!Future F} (self : Task F) (waker : Z) : Poll * Task F * list Z :=
  let '(r, f, wakes) := poll (future self) waker in (r, mk_task (task_id self) f, wakes).

Module Executor.
Section Executor.
Context {F Q : Type} `{!Future F} `{!ArrayQueue Q Z}.

(** A cached waker is the number of the task it wakes. *)
Record Executor := mk_executor {
  tasks : gmap Z (Task F);
  task_queue : Q;
  waker_cache : gmap Z Z;
}.

Definition new : Executor := mk_executor ∅ (queue_new 100) ∅.

Definition wake_task (queue : Q) (id : Z) : outcome Q :=
  expect "task_queue full" (queue_push queue id).

Fixpoint wake_all (queue : Q) (ids : list Z) : outcome Q :=
  match ids with
  | [] => mret queue
  | id :: ids => queue ← wake_task queue id; wake_all queue ids
  end.

Definition spawn (self : Executor) (task : Task F) : outcome Executor :=
  let id := task_id task in
  assert_that (negb (bool_decide (is_Some (tasks self !! id)))) "task with same ID already in tasks";;
  queue ← expect "queue full" (queue_push (task_queue self) id);
  mret (mk_executor (<[id := task]> (tasks self)) queue (waker_cache self)).

(** One iteration of [run_ready_tasks], with the popped number. *)
Definition run_task (self : Executor) (id : Z) : outcome Executor :=
  match tasks self !! id with
  | None => mret self
  | Some task =>
      let waker := default id (waker_cache self !! id) in
      let waker_cache := <[id := waker]> (waker_cache self) in
      let '(r, task, wakes) := task_poll task waker in
      queue ← wake_all (task_queue self) wakes;
      match r with
      | Ready => mret (mk_executor (delete id (tasks self)) queue (delete id waker_cache))
      | Pending => mret (mk_executor (<[id := task]> (tasks self)) queue waker_cache)
      end
  end.

Fixpoint run_ready_tasks (fuel : nat) (self : Executor) : outcome Executor :=
  match fuel with
  | O => Undef "tasks still ready"
  | S fuel =>
      match queue_pop (task_queue self) with
      | None => mret self
      | Some (id, queue) =>
          self ← run_task (mk_executor (tasks self) queue (waker_cache self)) id;
          run_ready_tasks fuel self
      end
  end.
End Executor.
Arguments Executor : clear implicits.

(** ** [run] and [sleep_if_idle] beside interrupts

    The executor loop as a transition system, one instruction that matters at a time: the
    pop of the next task; [interrupts::disable]; the look at the queue; then
    [enable_and_hlt], which enables interrupts and halts in one step, or
    [interrupts::enable].  A task that runs may wake tasks, and interrupts come between any
    two steps while they are enabled, wherever the program is. *)

Inductive executor_pc := Running | Idle | Checking | Halting | Enabling | Halted.
Record idle_state := mk_idle { pc : executor_pc; interrupts : bool; ready : list Z }.

(** One step of the main program, [None] while it is halted. *)
Definition idle_main (s : idle_state) : option idle_state :=
  match pc s with
  | Running =>
      match ready s with
      | [] => Some (mk_idle Idle (interrupts s) [])
      | _ :: q => Some (mk_idle Running (interrupts s) q)
      end
  | Idle => Some (mk_idle Checking false (ready s))
  | Checking =>
      Some (mk_idle (match ready s with [] => Halting | _ => Enabling end) (interrupts s) (ready s))
  | Halting => Some (mk_idle Halted true (ready s))
  | Enabling => Some (mk_idle Running true (ready s))
  | Halted => None
  end.

Inductive idle_step : idle_state → idle_state → Prop :=
| idle_main_step s s' : idle_main s = Some s' → idle_step s s'
| idle_task_wakes s id : pc s = Running →
    idle_step s (mk_idle Running (interrupts s) (ready s ++ [id]))
| idle_interrupt s woken : interrupts s = true →
    idle_step s (mk_idle (match pc s with Halted => Running | p => p end) true (ready s ++ woken)).

(** The main program alone, for at most [n] steps. *)
Fixpoint idle_run (n : nat) (s : idle_state) : idle_state :=
  match n with
  | O => s
  | S n => match idle_main s with Some s => idle_run n s | None => s end
  end.

Definition idle_init (q : list Z) : idle_state := mk_idle Running true q.

(** ** Proofs *)

Section Proofs.
Context {F Q : Type} `{!Future F} `{!ArrayQueue Q Z} {contents : Q → list Z} {capacity : Q → nat}.
Context {laws : ArrayQueueLaws Q Z contents capacity}.
Local Abbreviation Executor := (Executor F Q).

(** Every task is stored under its number and every cached waker wakes a task that
    still exists. *)
Record executor_ok (ex : Executor) : Prop := {
  eo_tasks id t : tasks ex !! id = Some t → task_id t = id;
  eo_wakers id w : waker_cache ex !! id = Some w → w = id ∧ is_Some (tasks ex !! id);
}.

Lemma wake_all_run ids : ∀ q, (length (contents q) + length ids ≤ capacity q)%nat →
  ∃ q', wake_all q ids = Ret q' ∧ contents q' = contents q ++ ids ∧ capacity q' = capacity q.
Proof using laws.
  induction ids as [|id ids IH]; intros q Hroom; simpl in *.
  { exists q. by rewrite app_nil_r. }
  destruct (queue_push_room q id) as (q1 & Hpush & Hc1 & Hcap1); [lia|].
  unfold wake_task. rewrite Hpush. simpl.
  destruct (IH q1) as (q2 & Hrun & Hc2 & Hcap2).
  { rewrite Hc1, length_app, Hcap1. simpl. lia. }
  exists q2. rewrite Hrun, Hc2, Hc1, Hcap2, Hcap1, <-app_assoc. done.
Qed.

(** Futures that call wakers finitely often: [pot] bounds the calls to come. *)
Definition bounded_wakes (pot : F → nat) : Prop :=
  ∀ f w r f' wakes, poll f w = (r, f', wakes) →
    (length wakes + match r with Ready => 0 | Pending => pot f' end ≤ pot f)%nat.

Definition total (pot : F → nat) (m : gmap Z (Task F)) : nat :=
  map_fold (λ _ t n, (pot (future t) + n)%nat) 0%nat m.
Definition work (pot : F → nat) (ex : Executor) : nat :=
  (length (contents (task_queue ex)) + total pot (tasks ex))%nat.

Lemma total_delete pot (m : gmap Z (Task F)) id t :
  m !! id = Some t → total pot m = (pot (future t) + total pot (delete id m))%nat.
Proof.
  intros Hid. unfold total.
  apply (map_fold_delete_L (λ _ t n, (pot (future t) + n)%nat) 0%nat id t m); [|done].
  intros. lia.
Qed.

Lemma total_insert pot (m : gmap Z (Task F)) id t :
  total pot (<[id := t]> m) = (pot (future t) + total pot (delete id m))%nat.
Proof.
  rewrite (total_delete pot (<[id := t]> m) id t) by apply lookup_insert_eq.
  by rewrite delete_insert_eq.
Qed.

Lemma run_task_run pot ex id :
  bounded_wakes pot → executor_ok ex → (work pot ex ≤ capacity (task_queue ex))%nat →
  ∃ ex', run_task ex id = Ret ex' ∧ executor_ok ex' ∧ (work pot ex' ≤ work pot ex)%nat ∧
    capacity (task_queue ex') = capacity (task_queue ex) ∧
    (∃ ids, contents (task_queue ex') = contents (task_queue ex) ++ ids) ∧
    dom (tasks ex') ⊆ dom (tasks ex) ∧
    (∀ j, j ≠ id → tasks ex' !! j = tasks ex !! j) ∧
    (∀ t, tasks ex !! id = Some t → (poll (future t) id).1.1 = Ready → tasks ex' !! id = None).
Proof using laws.
  intros Hb [Htasks Hwakers] Hroom. unfold run_task.
  destruct (tasks ex !! id) as [t|] eqn:Hid.
  2: { exists ex. split; [done|]. split; [by split|]. split; [done|]. split; [done|].
       split; [exists []; by rewrite app_nil_r|]. done. }
  assert (default id (waker_cache ex !! id) = id) as ->.
  { destruct (waker_cache ex !! id) as [w|] eqn:Hw; [|done]. by apply Hwakers in Hw as [-> _]. }
  unfold task_poll. destruct (poll (future t) id) as [[r f'] wakes] eqn:Hpoll.
  pose proof (Hb _ _ _ _ _ Hpoll) as Hpot. pose proof (total_delete pot _ _ _ Hid) as Htot.
  unfold work in Hroom.
  destruct (wake_all_run wakes (task_queue ex)) as (q' & -> & Hc & Hcap); [destruct r; lia|].
  run_bind. destruct r; (eexists; split; [done|]); cbn [tasks task_queue waker_cache].
  - split; [split|].
    + intros j u. cbn. rewrite lookup_delete_Some. intros [_ Hj]. by apply Htasks.
    + intros j w. cbn. rewrite lookup_delete_Some. intros [Hne Hj].
      rewrite lookup_insert_ne in Hj by done. rewrite lookup_delete_ne by done. by apply Hwakers.
    + split; [unfold work; cbn; rewrite Hc, length_app; lia|]. split; [done|]. split; [by eauto|].
      split; [set_solver|]. split; [intros j Hj; by apply lookup_delete_ne|].
      intros u _ _. apply lookup_delete_eq.
  - split; [split|].
    + intros j u. cbn. rewrite lookup_insert_Some. intros [[<- <-]|[_ Hj]]; [|by apply Htasks].
      simpl. by apply Htasks.
    + intros j w. cbn. rewrite lookup_insert_Some. intros [[<- <-]|[Hne Hj]].
      * rewrite lookup_insert_eq. eauto.
      * rewrite lookup_insert_ne by done. by apply Hwakers.
    + split; [unfold work; cbn; rewrite Hc, length_app, total_insert; cbn; lia|].
      split; [done|]. split; [by eauto|].
      split; [rewrite dom_insert_L; apply elem_of_dom_2 in Hid; set_solver|].
      split; [intros j Hj; by apply lookup_insert_ne|].
      intros u Hu Hready. simplify_eq. by rewrite Hpoll in Hready.
Qed.

Lemma run_ready_tasks_run pot fuel : ∀ ex,
  bounded_wakes pot → executor_ok ex → (work pot ex ≤ capacity (task_queue ex))%nat →
  (work pot ex < fuel)%nat →
  ∃ ex', run_ready_tasks fuel ex = Ret ex' ∧ executor_ok ex' ∧ contents (task_queue ex') = [] ∧
    dom (tasks ex') ⊆ dom (tasks ex) ∧
    ∀ id t, id ∈ contents (task_queue ex) → tasks ex !! id = Some t →
      (poll (future t) id).1.1 = Ready → tasks ex' !! id = None.
Proof using laws.
  induction fuel as [|fuel IH]; intros ex Hb Hok Hroom Hfuel; [lia|]. cbn [run_ready_tasks].
  destruct (contents (task_queue ex)) as [|id ids] eqn:Hq.
  { rewrite queue_pop_nil by done. exists ex. split; [done|]. split; [done|]. split; [done|].
    split; [done|]. intros j t Hj. by apply elem_of_nil in Hj. }
  destruct (queue_pop_cons _ _ _ Hq) as (q' & -> & Hc' & Hcap').
  set (ex1 := mk_executor (tasks ex) q' (waker_cache ex)).
  assert (work pot ex = S (work pot ex1)) as Hwork by (unfold work; cbn; rewrite Hq, Hc'; done).
  destruct (run_task_run pot ex1 id) as (ex2 & -> & Hok2 & Hw2 & Hcap2 & [more Hc2] & Hdom2 & Hoth & Hdone).
  { done. }
  { by destruct Hok; split. }
  { cbn. lia. }
  run_bind. cbn [task_queue ex1] in Hcap2, Hc2.
  destruct (IH ex2) as (ex3 & Hrun & Hok3 & Hc3 & Hdom3 & Hdone3); [done|done|cbn in *; lia|lia|].
  exists ex3. split; [done|]. split; [done|]. split; [done|]. split; [set_solver|].
  intros j t Hj Ht Hready. destruct (decide (j = id)) as [->|Hne].
  - specialize (Hdone t Ht Hready). apply not_elem_of_dom. apply not_elem_of_dom in Hdone. set_solver.
  - apply elem_of_cons in Hj as [?|Hj]; [done|]. apply (Hdone3 j t); [|by rewrite Hoth|done].
    rewrite Hc2, Hc'. set_solver.
Qed.
End Proofs.

End Executor.

(** ** The simple executor *)

Module SimpleExecutor.
Section Simple.
Context {F : Type} `{!Future F}.

Record SimpleExecutor := mk_simple { task_queue : list (Task F) }.

Definition new : SimpleExecutor := mk_simple [].
Definition spawn (self : SimpleExecutor) (task : Task F) : SimpleExecutor :=
  mk_simple (task_queue self ++ [task]).

(** The dummy waker does nothing, so the wakes of a poll are lost; the result is the
    sequence of polls, by task number. *)
Fixpoint run (fuel : nat) (self : SimpleExecutor) : outcome (list Z) :=
  match fuel with
  | O => Undef "tasks still pending"
  | S fuel =>
      match task_queue self with
      | [] => mret []
      | task :: rest =>
          let '(r, task', _) := task_poll task 0 in
          polls ← run fuel (mk_simple (match r with Ready => rest | Pending => rest ++ [task'] end));
          mret (task_id task :: polls)
      end
  end.
End Simple.
Arguments SimpleExecutor : clear implicits.
End SimpleExecutor.

(** ** Properties of the executor *)

(** C13: [run_ready_tasks] returns when the futures call wakers finitely often and the
    queue can hold the calls: it empties the queue, completes every ready task whose
    next poll finishes it, drops the wakers of completed tasks, and never panics. *)
Theorem run_ready_tasks_drains {F Q} `{!Future F} `{!ArrayQueue Q Z} contents capacity pot
    (ex : Executor.Executor F Q) (fuel : nat) (Hlaws : ArrayQueueLaws Q Z contents capacity)
    (Hb : Executor.bounded_wakes pot) (Hok : Executor.executor_ok ex)
    (Hroom : (Executor.work (contents := contents) pot ex ≤ capacity (Executor.task_queue ex))%nat)
    (Hfuel : (Executor.work (contents := contents) pot ex < fuel)%nat) :
  ∃ ex', Executor.run_ready_tasks fuel ex = Ret ex' ∧ Executor.executor_ok ex' ∧
    contents (Executor.task_queue ex') = [] ∧
    dom (Executor.tasks ex') ⊆ dom (Executor.tasks ex) ∧
    ∀ id t, id ∈ contents (Executor.task_queue ex) → Executor.tasks ex !! id = Some t →
      (poll (future t) id).1.1 = Ready → Executor.tasks ex' !! id = None.
Proof. by apply (Executor.run_ready_tasks_run pot). Qed.

(** [spawn] stores a task of a fresh number and makes it ready; a number in use
    and a full queue panic. *)
Theorem spawn_makes_ready {F Q} `{!Future F} `{!ArrayQueue Q Z} contents capacity
    (ex : Executor.Executor F Q) (t : Task F) (Hlaws : ArrayQueueLaws Q Z contents capacity)
    (Hok : Executor.executor_ok ex) :
  let q := Executor.task_queue ex in
  match Executor.tasks ex !! task_id t with
  | Some _ => Executor.spawn ex t = Panic "task with same ID already in tasks"
  | None =>
      if decide (length (contents q) < capacity q)%nat
      then ∃ ex', Executor.spawn ex t = Ret ex' ∧ Executor.executor_ok ex' ∧
        Executor.tasks ex' = <[task_id t := t]> (Executor.tasks ex) ∧
        contents (Executor.task_queue ex') = contents q ++ [task_id t]
      else Executor.spawn ex t = Panic "queue full"
  end.
Proof.
  intros q. unfold Executor.spawn. fold q.
  destruct (Executor.tasks ex !! task_id t) as [u|] eqn:Hid.
  { rewrite bool_decide_eq_true_2 by eauto. done. }
  rewrite bool_decide_eq_false_2 by (intros [? [=]]). simpl.
  destruct (decide _) as [Hroom|Hfull].
  - destruct (queue_push_room q (task_id t) Hroom) as (q' & -> & Hc & Hcap). eexists.
    split; [done|]. split; [|done]. destruct Hok as [Ht Hw]. split; simpl.
    + intros id v. rewrite lookup_insert_Some. intros [[<- <-]|[_ Hv]]; [done|by apply Ht].
    + intros id w Hv. apply Hw in Hv as [-> Hs]. split; [done|].
      rewrite lookup_insert_is_Some'. by right.
  - rewrite queue_push_full by lia. done.
Qed.

(** The numbers of [n] tasks created one after the other. *)
Fixpoint new_task_ids (n : nat) (NEXT_ID : Z) : list Z :=
  match n with
  | O => []
  | S n => let '(id, NEXT_ID) := task_id_new NEXT_ID in id :: new_task_ids n NEXT_ID
  end.

Lemma new_task_ids_range n : ∀ start, 0 ≤ start → start + Z.of_nat n ≤ 2 ^ 64 →
  new_task_ids n start = seqZ start (Z.of_nat n).
Proof.
  induction n as [|n IH]; intros start H0 Hn; [done|]. cbn [new_task_ids task_id_new].
  rewrite seqZ_cons by lia. f_equal. replace (Z.pred (Z.of_nat (S n))) with (Z.of_nat n) by lia.
  destruct n as [|n]; [done|]. unfold_u. rewrite wrap_small by (unfold_u; lia).
  apply IH; unfold_u; lia.
Qed.

(** Task numbers are unique: the first [2^64] tasks created have different
    numbers, so [spawn]'s check for a number in use cannot fail for them. *)
Theorem task_ids_unique (n : nat) (Hn : Z.of_nat n ≤ 2 ^ 64) : NoDup (new_task_ids n 0).
Proof. rewrite new_task_ids_range by lia. apply NoDup_seqZ. Qed.

(** Interrupts are off exactly from [disable] to the instruction that enables them; the
    queue that was found empty stays so until the halt. *)
Definition idle_inv (s : Executor.idle_state) : Prop :=
  match Executor.pc s with
  | Executor.Running | Executor.Idle => Executor.interrupts s = true
  | Executor.Checking => Executor.interrupts s = false
  | Executor.Halting => Executor.interrupts s = false ∧ Executor.ready s = []
  | Executor.Enabling => Executor.interrupts s = false ∧ Executor.ready s ≠ []
  | Executor.Halted => Executor.interrupts s = true ∧ Executor.ready s = []
  end.

Lemma idle_reachable q s : rtc Executor.idle_step (Executor.idle_init q) s → idle_inv s.
Proof.
  apply (rtc_invariant _ idle_inv); [done|].
  intros x y Hx Hstep. unfold idle_inv in *. destruct Hstep as [[p i r] y Hs|[p i r] id Hp|[p i r] woken Hi]; simpl in *.
  - unfold Executor.idle_main in Hs. destruct p; simpl in *; [destruct r| |destruct r|..]; simplify_eq; naive_solver.
  - by subst.
  - destruct p; naive_solver.
Qed.

(** C14: The executor never halts with a ready task: whatever interrupts arrive, between any
    two instructions of [run] and [sleep_if_idle] that run with interrupts enabled, and
    whichever tasks they wake, in every state in which the processor is halted the queue is
    empty and interrupts are enabled, so that the next interrupt ends the halt with the
    tasks that it woke in the queue; and from every state with a ready task the main
    program is back at the queue, with that task in it, within three steps, without a halt in between. *)
Theorem no_lost_wakeup_when_halting (q : list Z) (s : Executor.idle_state)
    (Hr : rtc Executor.idle_step (Executor.idle_init q) s) :
  (Executor.pc s = Executor.Halted → Executor.ready s = [] ∧ Executor.interrupts s = true ∧
     ∀ s', Executor.idle_step s s' → Executor.pc s' = Executor.Running) ∧
  (Executor.ready s ≠ [] → ∃ n, (n ≤ 3)%nat ∧
     Executor.idle_run n s = Executor.mk_idle Executor.Running true (Executor.ready s)).
Proof.
  apply idle_reachable in Hr. destruct s as [p i r]. unfold idle_inv in Hr. simpl in *. split.
  - intros ->. destruct Hr as [-> ->]. split_and!; [done..|]. intros s' Hs.
    inversion Hs as [? ? Hm|? ? Hp|]; simplify_eq; done.
  - intros Hne. destruct p; [exists 0%nat|exists 3%nat|exists 2%nat| |exists 1%nat|];
      destruct r; simpl in *; naive_solver lia.
Qed.

(** ** Properties of the simple executor *)

(** The future is ready at its [n]-th poll. *)
Inductive finishes_in {F} `{!Future F} : F → nat → Prop :=
| finishes_now f f' ws : poll f 0 = (Ready, f', ws) → finishes_in f 1
| finishes_later f f' ws n : poll f 0 = (Pending, f', ws) → finishes_in f' n → finishes_in f (S n).

Lemma simple_run {F} `{!Future F} total : ∀ fuel (ts : list (Task F)) ns,
  sum_list ns = total → (total < fuel)%nat → Forall2 (λ t n, finishes_in (future t) n) ts ns →
  ∃ polls, SimpleExecutor.run fuel (SimpleExecutor.mk_simple ts) = Ret polls ∧
    length polls = total ∧ ∀ t, t ∈ ts → task_id t ∈ polls.
Proof.
  induction total as [total IH] using lt_wf_ind. intros [|fuel] ts ns Hsum Hfuel Hfin; [lia|].
  destruct Hfin as [|t n ts ns Ht Hfin]; cbn [SimpleExecutor.run SimpleExecutor.task_queue].
  { exists []. simpl in Hsum. split; [done|]. split; [done|]. set_solver. }
  simpl in Hsum. unfold task_poll.
  assert (∃ ts', (let '(r, f, ws) := poll (future t) 0 in
      match r with Ready => ts | Pending => ts ++ [mk_task (task_id t) f] end) = ts' ∧
    ∃ ns', sum_list ns' = (total - 1)%nat ∧ (0 < total)%nat ∧ ts ⊆ ts' ∧
      Forall2 (λ t n, finishes_in (future t) n) ts' ns') as (ts' & Hts' & ns' & Hs' & Hpos & Hsub & Hf').
  { inversion Ht as [f f' ws Hp|f f' ws m Hp Hm]; subst; rewrite Hp.
    - exists ts. split; [done|]. exists ns. split; [lia|]. split; [lia|]. done.
    - eexists. split; [done|]. exists (ns ++ [m]). split; [rewrite sum_list_with_app; simpl; lia|].
      split; [lia|]. split; [set_solver|]. apply Forall2_app; [done|]. by constructor. }
  destruct (IH (total - 1)%nat ltac:(lia) fuel ts' ns' Hs' ltac:(lia) Hf') as (polls & Hrun & Hlen & Hin).
  destruct (poll (future t) 0) as [[r f] ws]. subst ts'. exists (task_id t :: polls).
  rewrite Hrun. split; [done|]. split; [simpl; lia|].
  intros u [->|Hu]%elem_of_cons; [by left|]. right. apply Hin. set_solver.
Qed.

(** The simple executor completes: when each task is ready after some number of
    polls, [run] returns after exactly that many polls in total, having polled every
    task. *)
Theorem simple_executor_completes {F} `{!Future F} (ts : list (Task F)) (ns : list nat) (fuel : nat)
    (Hfin : Forall2 (λ t n, finishes_in (future t) n) ts ns) (Hfuel : (sum_list ns < fuel)%nat) :
  ∃ polls, SimpleExecutor.run fuel (SimpleExecutor.mk_simple ts) = Ret polls ∧
    length polls = sum_list ns ∧ ∀ t, t ∈ ts → task_id t ∈ polls.
Proof. by apply (simple_run (sum_list ns) fuel ts ns). Qed.

(** ** Witnesses: a queue as a list, a future that counts down and wakes itself *)

#[local] Instance list_queue {T} : ArrayQueue (nat * list T) T := {|
  queue_new n := (n, []);
  queue_push q x := if decide (length q.2 < q.1)%nat then Some (q.1, q.2 ++ [x]) else None;
  queue_pop q := match q.2 with [] => None | x :: xs => Some (x, (q.1, xs)) end;
  queue_is_empty q := match q.2 with [] => true | _ => false end;
|}.

Lemma list_queue_laws {T} : ArrayQueueLaws (nat * list T) T snd fst.
Proof.
  split; simpl; try done.
  - intros q x Hlt. rewrite decide_True by done. eauto.
  - intros q x Hge. by rewrite decide_False by lia.
  - intros [n l] Hl. simpl in *. by rewrite Hl.
  - intros [n l] x xs Hl. simpl in *. rewrite Hl. eauto.
  - intros [n l]. simpl. by destruct l.
Qed.

#[local] Instance countdown : Future nat := {|
  poll n w := match n with O => (Ready, O, []) | S n => (Pending, n, [w]) end;
|}.

Definition sample_executor : Executor.Executor nat (nat * list Z) :=
  Executor.mk_executor {[ 0 := mk_task 0 0%nat; 1 := mk_task 1 3%nat ]} (100%nat, [0; 1]) ∅.

Lemma sample_executor_ok : Executor.executor_ok sample_executor.
Proof.
  split; simpl; [|done]. intros id t. rewrite lookup_insert_Some.
  intros [[<- <-]|[_ Ht]]; [done|]. by apply lookup_singleton_Some in Ht as [<- <-].
Qed.

Lemma countdown_bounded : Executor.bounded_wakes (λ n : nat, n).
Proof. intros [|n] w r f' wakes Hp; simpl in Hp; simplify_eq; simpl; lia. Qed.

Lemma run_ready_tasks_drains_witness :
  ∃ ex', Executor.run_ready_tasks 6 sample_executor = Ret ex' ∧ Executor.executor_ok ex' ∧
    (Executor.task_queue ex').2 = [] ∧
    dom (Executor.tasks ex') ⊆ dom (Executor.tasks sample_executor) ∧
    ∀ id t, id ∈ [0; 1] → Executor.tasks sample_executor !! id = Some t →
      (poll (future t) id).1.1 = Ready → Executor.tasks ex' !! id = None.
Proof.
  refine (run_ready_tasks_drains snd fst (λ n, n) sample_executor 6 list_queue_laws
    countdown_bounded sample_executor_ok _ _).
  - apply Nat.leb_le. by vm_compute.
  - apply Nat.ltb_lt. by vm_compute.
Defined.

Lemma spawn_makes_ready_witness :
  ∃ ex', Executor.spawn sample_executor (mk_task 2 5%nat) = Ret ex' ∧ Executor.executor_ok ex' ∧
    Executor.tasks ex' = <[2 := mk_task 2 5%nat]> (Executor.tasks sample_executor) ∧
    (Executor.task_queue ex').2 = [0; 1; 2].
Proof.
  exact (spawn_makes_ready snd fst sample_executor (mk_task 2 5%nat) list_queue_laws sample_executor_ok).
Defined.

Lemma task_ids_unique_witness : NoDup (new_task_ids 3 0).
Proof. by apply (task_ids_unique 3). Defined.

Lemma no_lost_wakeup_when_halting_witness :
  (Executor.Halted = Executor.Halted → @nil Z = [] ∧ true = true ∧
     ∀ s', Executor.idle_step (Executor.mk_idle Executor.Halted true []) s' → Executor.pc s' = Executor.Running) ∧
  (@nil Z ≠ [] → ∃ n, (n ≤ 3)%nat ∧ Executor.idle_run n (Executor.mk_idle Executor.Halted true []) =
     Executor.mk_idle Executor.Running true []).
Proof.
  refine (no_lost_wakeup_when_halting [7] (Executor.mk_idle Executor.Halted true []) _).
  do 5 (eapply rtc_l; [apply Executor.idle_main_step; reflexivity|]). apply rtc_refl.
Defined.

Lemma simple_executor_completes_witness :
  ∃ polls, SimpleExecutor.run 5 (SimpleExecutor.mk_simple [mk_task 0 2%nat; mk_task 1 0%nat]) = Ret polls ∧
    length polls = 4%nat ∧ ∀ t, t ∈ [mk_task 0 2%nat; mk_task 1 0%nat] → task_id t ∈ polls.
Proof.
  refine (simple_executor_completes [mk_task 0 2%nat; mk_task 1 0%nat] [3; 1]%nat 5 _ _); [|simpl; lia].
  constructor; [|constructor; [|constructor]]; simpl.
  - eapply finishes_later; [done|]. eapply finishes_later; [done|]. by eapply finishes_now.
  - by eapply finishes_now.
Defined.
