(* ===== verification/Keyboard.v ===== *)
(** * The keyboard: kernel/src/task/keyboard.rs

    The scancode stream between the keyboard interrupt and the task that prints
    keys.  The code runs on one processor: the interrupt handler's [add_scancode] runs
    between any two steps of [poll_next].  The queue is the [ArrayQueue] of [Task]; the
    stored waker is crate futures-util's [AtomicWaker], the class of that name. *)

From Stdlib Require Import Ascii.
From S2P Require Import Prelude Vga Task.

(** [AtomicWaker]: at most one waker is stored; waking takes it out and wakes it. *)
Class AtomicWaker (A : Type) := {
  waker_register : A → A;
  waker_wake : A → bool * A;     (* whether a waker was stored, and so woken *)
  waker_take : A → A;
}.
#[global] Hint Mode AtomicWaker ! : typeclass_instances.

Class AtomicWakerLaws (A : Type) `{!AtomicWaker A} (registered : A → bool) : Prop := {
  register_registered a : registered (waker_register a) = true;
  wake_result a : (waker_wake a).1 = registered a;
  wake_registered a : registered (waker_wake a).2 = false;
  take_registered a : registered (waker_take a) = false;
}.

Module Keyboard.

(** ** The stream *)

(** The steps of [poll_next]. *)
Inductive poll_pc :=
| PollStart                       (* the fast path's pop is next *)
| PollRegister                    (* [WAKER.register] is next *)
| PollSecond                      (* the second pop is next *)
| PollTake (scancode : Z)         (* [WAKER.take] is next *)
| PollReady (scancode : Z)        (* returned [Ready] *)
| PollPending.                    (* returned [Pending] *)

(** The scancode queue ([None] before [ScancodeStream::new]), the stored waker,
    whether the task has been made ready, the position in [poll_next]; and, for the
    specification, the scancodes accepted, delivered and dropped so far. *)
Record stream_state (Q A : Type) := mk_stream {
  SCANCODE_QUEUE : option Q;
  WAKER : A;
  woken : bool;
  pc : poll_pc;
  accepted : list Z;
  delivered : list Z;
  dropped : list Z;
}.
Arguments mk_stream {Q A} _ _ _ _ _ _ _.
Arguments SCANCODE_QUEUE {Q A} _.
Arguments WAKER {Q A} _.
Arguments woken {Q A} _.
Arguments pc {Q A} _.
Arguments accepted {Q A} _.
Arguments delivered {Q A} _.
Arguments dropped {Q A} _.

Section Stream.
Context {Q A : Type} `{!ArrayQueue Q Z} `{!AtomicWaker A}.
Local Abbreviation stream_state := (stream_state Q A).

Definition stream_new (s : stream_state) : outcome stream_state :=
  match SCANCODE_QUEUE s with
  | Some _ => Panic "ScancodeStream::new should only be called once"
  | None => mret (mk_stream (Some (queue_new 100)) (WAKER s) (woken s) (pc s) (accepted s) (delivered s)
              (dropped s))
  end.

(** The scancode is dropped, with a warning, when the queue is full or not there. *)
Definition drop_scancode (s : stream_state) (scancode : Z) : stream_state :=
  mk_stream (SCANCODE_QUEUE s) (WAKER s) (woken s) (pc s) (accepted s) (delivered s) (dropped s ++ [scancode]).

Definition add_scancode (s : stream_state) (scancode : Z) : stream_state :=
  match SCANCODE_QUEUE s with
  | Some queue =>
      match queue_push queue scancode with
      | None => drop_scancode s scancode
      | Some queue =>
          let '(woke, waker) := waker_wake (WAKER s) in
          mk_stream (Some queue) waker (woken s || woke) (pc s) (accepted s ++ [scancode]) (delivered s)
            (dropped s)
      end
  | None => drop_scancode s scancode
  end.

(** One step of [poll_next]; [None] when it has returned. *)
Definition poll_step (s : stream_state) : outcome (option stream_state) :=
  queue ← expect "scancode queue not initialized" (SCANCODE_QUEUE s);
  let set q w pc d := mk_stream (Some q) w (woken s) pc (accepted s) d (dropped s) in
  match pc s with
  | PollStart =>
      match queue_pop queue with
      | Some (c, queue) => mret (Some (set queue (WAKER s) (PollReady c) (delivered s ++ [c])))
      | None => mret (Some (set queue (WAKER s) PollRegister (delivered s)))
      end
  | PollRegister => mret (Some (set queue (waker_register (WAKER s)) PollSecond (delivered s)))
  | PollSecond =>
      match queue_pop queue with
      | Some (c, queue) => mret (Some (set queue (WAKER s) (PollTake c) (delivered s ++ [c])))
      | None => mret (Some (set queue (WAKER s) PollPending (delivered s)))
      end
  | PollTake c => mret (Some (set queue (waker_take (WAKER s)) (PollReady c) (delivered s)))
  | PollReady _ | PollPending => mret None
  end.

(** The system: the task steps through [poll_next], the executor polls again after
    [Ready] (the loop of [print_keypresses]) and after a wake-up, and interrupts come
    at any time. *)
Inductive stream_step : stream_state → stream_state → Prop :=
| step_poll s s' : poll_step s = Ret (Some s') → stream_step s s'
| step_next s c : pc s = PollReady c →
    stream_step s (mk_stream (SCANCODE_QUEUE s) (WAKER s) (woken s) PollStart (accepted s) (delivered s)
      (dropped s))
| step_wake s : pc s = PollPending → woken s = true →
    stream_step s (mk_stream (SCANCODE_QUEUE s) (WAKER s) false PollStart (accepted s) (delivered s)
      (dropped s))
| step_interrupt s c : stream_step s (add_scancode s c).

(** After [ScancodeStream::new]. *)
Definition stream_init (waker : A) : stream_state :=
  mk_stream (Some (queue_new 100)) waker false PollStart [] [] [].

(** ** The invariant *)

Context {contents : Q → list Z} {capacity : Q → nat} {qlaws : ArrayQueueLaws Q Z contents capacity}.
Context {registered : A → bool} {wlaws : AtomicWakerLaws A registered}.

(** A pending stream with a scancode has been woken; one without has its waker
    stored; and no accepted scancode is lost, repeated or reordered. *)
Definition stream_inv (s : stream_state) : Prop :=
  ∃ q, SCANCODE_QUEUE s = Some q ∧ accepted s = delivered s ++ contents q ∧
    capacity q = 100%nat ∧
    match pc s with
    | PollPending => (contents q ≠ [] → woken s = true) ∧ (registered (WAKER s) = true ∨ woken s = true)
    | PollSecond => (contents q ≠ [] → woken s = true ∨ registered (WAKER s) = true) ∧
        (registered (WAKER s) = true ∨ contents q ≠ [] ∧ woken s = true)
    | _ => True
    end.

Lemma add_scancode_inv s c : stream_inv s → stream_inv (add_scancode s c).
Proof using qlaws wlaws.
  intros (q & Hq & Hacc & Hcap & Hpc). unfold add_scancode. rewrite Hq.
  destruct (decide (length (contents q) < capacity q)%nat) as [Hroom|Hfull].
  2: { rewrite queue_push_full by lia. exists q. done. }
  destruct (queue_push_room q c Hroom) as (q' & -> & Hc & Hcap').
  pose proof (wake_result (WAKER s)) as Hw. pose proof (wake_registered (WAKER s)) as Hr.
  destruct (waker_wake (WAKER s)) as [woke a]. simpl in *. subst woke.
  exists q'. split; [done|]. simpl. split; [by rewrite Hacc, Hc, app_assoc|]. split; [congruence|].
  assert (contents q' ≠ []) as Hne by (rewrite Hc; by destruct (contents q)).
  destruct (pc s); try done.
  - destruct Hpc as [_ [Hreg|[Hne' Hwk]]].
    + rewrite Hreg, orb_true_r. split; [by left|]. by right.
    + rewrite Hwk. simpl. split; [by left|]. by right.
  - destruct Hpc as [_ [Hreg|Hwk]]; [rewrite Hreg, orb_true_r|rewrite Hwk]; split; by try right.
Qed.

Lemma poll_step_inv s s' : stream_inv s → poll_step s = Ret (Some s') → stream_inv s'.
Proof using qlaws wlaws.
  intros (q & Hq & Hacc & Hcap & Hpc) Hstep. unfold poll_step in Hstep. rewrite Hq in Hstep.
  cbn [expect mbind outcome_bind] in Hstep.
  destruct (contents q) as [|x xs] eqn:Hc.
  - pose proof (queue_pop_nil q Hc) as Hpop. rewrite ?Hpop in Hstep.
    destruct (pc s) eqn:Hp; inv_outcome; exists q; cbn; rewrite Hc, ?app_nil_r;
      (split; [done|]); (split; [by rewrite Hacc, ?app_nil_r|]); (split; [done|]); try done.
    + split; [done|]. left. apply register_registered.
    + split; [done|]. destruct Hpc as [_ [?|[? _]]]; [by left|done].
  - destruct (queue_pop_cons q x xs Hc) as (q' & Hpop & Hc' & Hcap'). rewrite ?Hpop in Hstep.
    destruct (pc s) eqn:Hp; inv_outcome.
    + exists q'. cbn. rewrite <-app_assoc. split; [done|]. split; [by rewrite Hacc|].
      split; [congruence|done].
    + exists q. cbn. split; [done|]. split; [by rewrite Hacc, Hc|]. split; [done|].
      rewrite register_registered. split; [by right|by left].
    + exists q'. cbn. rewrite <-app_assoc. split; [done|]. split; [by rewrite Hacc|].
      split; [congruence|done].
    + exists q. cbn. split; [done|]. split; [by rewrite Hacc, Hc|]. done.
Qed.

Lemma stream_inv_reachable waker s : rtc stream_step (stream_init waker) s → stream_inv s.
Proof using qlaws wlaws.
  apply rtc_invariant.
  - exists (queue_new 100). cbn. rewrite queue_new_contents. split; [done|]. split; [done|].
    split; [apply queue_new_capacity|done].
  - intros x y Hx Hstep. destruct Hstep as [s0 s1 Hrun|s0 c Hp|s0 Hp Hw|s0 c].
    + by eapply poll_step_inv.
    + destruct Hx as (q & ? & ? & ? & _). by exists q.
    + destruct Hx as (q & ? & ? & ? & _). by exists q.
    + by apply add_scancode_inv.
Qed.
End Stream.

(** ** Printing keys *)

(** What crate pc_keyboard decodes a scancode to. *)
Inductive DecodedKey := Unicode (character : Z) | RawKey (debug : list Z).

Section Print.
Context `{!Font} {K : Type} (add_byte : K → Z → K * option DecodedKey).

(** The arm of the [match] for the character U+0008. *)
Definition is_backspace (key : DecodedKey) : bool :=
  match key with Unicode character => character =? 8 | RawKey _ => false end.

Definition print_key (w : Vga.Writer) (key : DecodedKey) : outcome Vga.Writer :=
  match key with
  | Unicode character =>
      if character =? 8 then Vga.backspace w else Vga._print w [[character]]
  | RawKey debug => Vga._print w [debug]
  end.

Lemma print_key_backspace w key : is_backspace key = true → print_key w key = Vga.backspace w.
Proof. destruct key; simpl; [|done]. by intros ->. Qed.

(** The body of the loop, for one scancode; [add_byte] is the decoder's [add_byte]
    followed by [process_keyevent], [None] when either gives no key. *)
Definition print_keypress (st : K * Vga.Writer) (scancode : Z) : outcome (K * Vga.Writer) :=
  let '(k, w) := st in
  let '(k, key) := add_byte k scancode in
  match key with
  | Some key => w ← print_key w key; mret (k, w)
  | None => mret (k, w)
  end.

Fixpoint print_keypresses (st : K * Vga.Writer) (scancodes : list Z) : outcome (K * Vga.Writer) :=
  match scancodes with
  | [] => mret st
  | c :: scancodes => st ← print_keypress st c; print_keypresses st scancodes
  end.
End Print.

(** ** Properties *)

(** However interrupts fall between the steps of [poll_next], no scancode that
    fits the queue is lost, repeated or reordered, and a stream that has returned
    [Pending] while a scancode is queued has been woken, so that it will be polled
    again; with no scancode queued its waker is stored. *)
Theorem no_lost_scancodes {Q A} `{!ArrayQueue Q Z} `{!AtomicWaker A} contents capacity registered
    (waker : A) (s : stream_state Q A) (Hq : ArrayQueueLaws Q Z contents capacity)
    (Hw : AtomicWakerLaws A registered) (Hr : rtc stream_step (stream_init waker) s) :
  ∃ q, SCANCODE_QUEUE s = Some q ∧ accepted s = delivered s ++ contents q ∧
    (pc s = PollPending → contents q ≠ [] → woken s = true) ∧
    (pc s = PollPending → registered (WAKER s) = true ∨ woken s = true).
Proof.
  destruct (stream_inv_reachable waker s Hr) as (q & Hsq & Hacc & _ & Hpc).
  exists q. split; [done|]. split; [done|]. split; intros Hp; rewrite Hp in Hpc; apply Hpc.
Qed.

Lemma print_char `{!Font} w c : Vga._print w [[c]] = Vga.write_char w c.
Proof. simpl. by destruct (Vga.write_char w c). Qed.

(** Pressing Enter and then Backspace panics the kernel, from any state of the
    console in which a glyph wider than the border was the last one drawn: the
    line feed puts the cursor at the border and the backspace subtracts the glyph's
    width from it. *)
Theorem enter_backspace_panics `{!Font} (w : Vga.Writer) (Hlaws : FontLaws)
    (Hok : Vga.writer_ok w) (Hst : Vga.state w = Vga.Normal)
    (Hlast : Vga.BORDER_PADDING < Vga.last_width w)
    (Hy : Vga.y_pos w + 2 * Vga.line_height < 2 ^ 64) :
  (w ← print_key w (Unicode 10); print_key w (Unicode 8)) =
    Panic "attempt to subtract with overflow".
Proof.
  unfold print_key. simpl (10 =? 8). simpl (8 =? 8). cbn iota. rewrite print_char.
  unfold Vga.write_char. rewrite Hst. simpl.
  pose proof font_height. assert (Vga.line_height = CHAR_RASTER_HEIGHT + 2) by done. unfold_u.
  assert (∃ w', Vga.newline (Vga.with_state w Vga.Normal) = Ret w') as [w' Hw'].
  { eexists. apply Vga.newline_run; simpl; [apply Hok|unfold_u; lia]. }
  rewrite Hw'. simpl. eapply Vga.backspace_at_line_start_panics; [|exact Hw']. done.
Qed.

(** ** Witnesses *)

#[local] Existing Instances list_queue Vga.sample_font.
#[local] Instance bool_waker : AtomicWaker bool := {|
  waker_register _ := true; waker_wake b := (b, false); waker_take _ := false;
|}.
Lemma bool_waker_laws : AtomicWakerLaws bool (λ b, b).
Proof. by split. Qed.

(** A scancode arrives between the first pop and the registration, so the second pop
    finds it. *)
Definition sample_stream : stream_state (nat * list Z) bool :=
  mk_stream (Some (100%nat, [])) true false (PollTake 0x1E) [0x1E] [0x1E] [].

Lemma no_lost_scancodes_witness :
  ∃ q, SCANCODE_QUEUE sample_stream = Some q ∧ accepted sample_stream = [0x1E] ++ q.2 ∧
    (pc sample_stream = PollPending → q.2 ≠ [] → false = true) ∧
    (pc sample_stream = PollPending → true = true ∨ false = true).
Proof.
  refine (no_lost_scancodes snd fst (λ b, b) false sample_stream list_queue_laws bool_waker_laws _).
  eapply rtc_l; [by apply step_poll|]. eapply rtc_l; [apply (step_interrupt _ 0x1E)|].
  eapply rtc_l; [by apply step_poll|]. eapply rtc_l; [by apply step_poll|]. apply rtc_refl.
Defined.

Lemma enter_backspace_panics_witness :
  (w ← print_key Vga.sample_after_a (Unicode 10); print_key w (Unicode 8)) =
    Panic "attempt to subtract with overflow".
Proof.
  refine (enter_backspace_panics Vga.sample_after_a Vga.sample_font_laws _ _ _ _); try by vm_compute.
Defined.

End Keyboard.
