(* ===== verification/KeyboardTask.v ===== *)
(** * The running kernel: the executor, the keyboard task and the keyboard interrupt

    [kernel_main] ends in [Executor::run] with one task, [print_keypresses].  This
    file puts the executor's loop (kernel/src/task/executor.rs), the scancode stream
    and the printing of keys (kernel/src/task/keyboard.rs) together, one step of the
    main program at a time, with interrupts between any two steps that run with
    interrupts enabled.  The keyboard interrupt warns on the console about a scancode
    it drops.  Printing one record or key is one step, as [_print] runs with interrupts
    disabled; a backspace is not: [Console::backspace] (kernel/src/meta/console.rs) draws
    with interrupts enabled, and a warning in the middle of it, which the handler prints
    after it has forced the console's lock open, would be a second [&mut Writer]. *)

From Stdlib Require Import Ascii.
From S2P Require Import Prelude Vga Logging Task Keyboard.
Import Executor (Executor, mk_executor, tasks, task_queue, waker_cache, wake_task).
Import Keyboard (stream_state, mk_stream, SCANCODE_QUEUE, WAKER, woken, pc, accepted, delivered, dropped,
  PollStart, PollRegister, PollSecond, PollTake, PollReady, PollPending, DecodedKey).

Module KeyboardTask.

(** The [async] body of [print_keypresses]: not polled yet, or inside its loop. *)
Inductive keypress_future := Unresumed | Suspended.

(** Where the main program is: about to pop the next task in [run_ready_tasks], inside
    the poll of a task, inside [Console::backspace] in the poll of a task, about to disable
    interrupts in [sleep_if_idle], about to look at the queue, to halt or to enable
    interrupts there, or halted. *)
Inductive kernel_pc :=
| Dispatch | Polling (id : Z) | Erasing (id : Z) | Disabling | Checking | Halting | Enabling | Halted.

#[global] Instance kernel_pc_eq_dec : EqDecision kernel_pc.
Proof. solve_decision. Defined.

(** The executor; the stream with the position in [poll_next]; the key decoder and
    the console; whether interrupts are enabled. *)
Record system (Q A K : Type) := mk_system {
  executor : Executor keypress_future Q;
  stream : stream_state Q A;
  console : K * Vga.Writer;
  interrupts : bool;
  at_ : kernel_pc;
}.
Arguments mk_system {Q A K} _ _ _ _ _.
Arguments executor {Q A K} _.
Arguments stream {Q A K} _.
Arguments console {Q A K} _.
Arguments interrupts {Q A K} _.
Arguments at_ {Q A K} _.

Section System.
Context {Q A K : Type} `{!ArrayQueue Q Z} `{!AtomicWaker A} `{!Font}.
Context (add_byte : K → Z → K * option DecodedKey) (level_fmt : Logging.Level → list Z).
Local Abbreviation system := (system Q A K).
Local Abbreviation stream_state := (stream_state Q A).
Local Abbreviation Executor := (Executor keypress_future Q).

Definition with_pc (s : stream_state) p : stream_state :=
  mk_stream (SCANCODE_QUEUE s) (WAKER s) (woken s) p (accepted s) (delivered s) (dropped s).
Definition with_woken (s : stream_state) (b : bool) : stream_state :=
  mk_stream (SCANCODE_QUEUE s) (WAKER s) b (pc s) (accepted s) (delivered s) (dropped s).
Definition with_queue (ex : Executor) (q : Q) : Executor :=
  mk_executor (tasks ex) q (waker_cache ex).
Definition set_future (ex : Executor) (id : Z) (f : keypress_future) : Executor :=
  mk_executor (<[id := mk_task id f]> (tasks ex)) (task_queue ex) (waker_cache ex).
Definition cache_waker (ex : Executor) (id : Z) : Executor :=
  mk_executor (tasks ex) (task_queue ex) (<[id := default id (waker_cache ex !! id)]> (waker_cache ex)).

(** Enter the poll of task [id]: the first one makes the stream. *)
Definition enter_poll (ex : Executor) (s : system) (id : Z) (f : keypress_future) : outcome system :=
  st ← match f with
       | Unresumed => Keyboard.stream_new (stream s)
       | Suspended => mret (stream s)
       end;
  mret (mk_system (cache_waker ex id) (with_pc st PollStart) (console s) (interrupts s) (Polling id)).

(** One step of the loop of [run_ready_tasks]: the next task is popped. *)
Definition dispatch (s : system) : outcome system :=
  let ex := executor s in
  match queue_pop (T := Z) (task_queue ex) with
  | None => mret (mk_system ex (stream s) (console s) (interrupts s) Disabling)
  | Some (id, q) =>
      let ex := with_queue ex q in
      match tasks ex !! id with
      | None => mret (mk_system ex (stream s) (console s) (interrupts s) Dispatch)
      | Some task => enter_poll ex s id (future task)
      end
  end.

(** The body of the loop of [print_keypresses] up to the next look at the stream, or into
    [Console::backspace]. *)
Definition handle_scancode (s : system) (id scancode : Z) : outcome system :=
  let '(k, w) := console s in
  let '(k, key) := add_byte k scancode in
  let next w := mk_system (executor s) (with_pc (stream s) PollStart) (k, w) (interrupts s) (Polling id) in
  match key with
  | None => mret (next w)
  | Some key =>
      if Keyboard.is_backspace key
      then mret (mk_system (executor s) (stream s) (k, w) (interrupts s) (Erasing id))
      else w ← Keyboard.print_key w key; mret (next w)
  end.

(** The rest of [Console::backspace]. *)
Definition erase (s : system) (id : Z) : outcome system :=
  w ← Vga.backspace (console s).2;
  mret (mk_system (executor s) (with_pc (stream s) PollStart) ((console s).1, w) (interrupts s) (Polling id)).

(** One step inside the poll of task [id]. *)
Definition poll_task (s : system) (id : Z) : outcome system :=
  let ex := executor s in
  match pc (stream s) with
  | PollReady scancode => handle_scancode s id scancode
  | PollPending =>
      mret (mk_system (set_future ex id Suspended) (stream s) (console s) (interrupts s) Dispatch)
  | _ =>
      st ← Keyboard.poll_step (stream s);
      mret (mk_system ex (default (stream s) st) (console s) (interrupts s) (Polling id))
  end.

(** One step of the main program, [None] while it is halted. *)
Definition kernel_step (s : system) : outcome (option system) :=
  let ex := executor s in
  match at_ s with
  | Dispatch => Some <$> dispatch s
  | Polling id => Some <$> poll_task s id
  | Erasing id => Some <$> erase s id
  | Disabling => mret (Some (mk_system ex (stream s) (console s) false Checking))
  | Checking =>
      let next := if queue_is_empty (T := Z) (task_queue ex) then Halting else Enabling in
      mret (Some (mk_system ex (stream s) (console s) (interrupts s) next))
  | Halting => mret (Some (mk_system ex (stream s) (console s) true Halted))
  | Enabling => mret (Some (mk_system ex (stream s) (console s) true Dispatch))
  | Halted => mret None
  end.

(** After a handler returns, [hlt] is over and the loop of [run] begins again. *)
Definition resume (p : kernel_pc) : kernel_pc := match p with Halted => Dispatch | _ => p end.
Definition resumed (s : system) : system :=
  mk_system (executor s) (stream s) (console s) (interrupts s) (resume (at_ s)).

(** What [add_scancode] warns about. *)
Definition warning (st : stream_state) (scancode : Z) : option string :=
  match SCANCODE_QUEUE st with
  | None => Some "Scancode queue uninitialized"
  | Some queue =>
      match queue_push queue scancode with
      | None => Some "Scancode queue full; dropping keyboard input"
      | Some _ => None
      end
  end.

(** A warning on the console. *)
Definition warn (c : K * Vga.Writer) (msg : string) : outcome (K * Vga.Writer) :=
  let r := Logging.mk_record (chars "nocciolo_kernel::task::keyboard") Logging.Warn (chars msg) in
  w ← Vga._print c.2 (Logging.log_pieces level_fmt r ++ [[ch "010"]]);
  mret (c.1, w).

(** [add_scancode] in the handler, [id] being the task whose waker is stored: its
    [WAKER.wake] pushes that task. A warning while the main program has a reference to the
    console is undefined behaviour. *)
Definition add_scancode (id : Z) (s : system) (scancode : Z) : outcome system :=
  let st := Keyboard.add_scancode (with_woken (stream s) false) scancode in
  console ← match warning (stream s) scancode with
            | Some msg =>
                match at_ s with
                | Erasing _ => Undef "two references to the console"
                | _ => warn (console s) msg
                end
            | None => mret (console s)
            end;
  q ← (if woken st then wake_task (task_queue (executor s)) id else mret (task_queue (executor s)));
  mret (mk_system (with_queue (executor s) q) st console (interrupts s) (at_ s)).

(** The keyboard interrupt. *)
Definition keyboard_irq (id : Z) (s : system) (scancode : Z) : outcome system :=
  s ← add_scancode id s scancode; mret (resumed s).

Inductive system_step (id : Z) : system → system → Prop :=
| step_kernel s s' : kernel_step s = Ret (Some s') → system_step id s s'
| step_keyboard s scancode s' : interrupts s = true → keyboard_irq id s scancode = Ret s' →
    system_step id s s'
| step_other_irq s : interrupts s = true → system_step id s (resumed s).

(** [Executor::new], [spawn] of the new task, and [run]. *)
Definition start (NEXT_ID : Z) (waker : A) (console : K * Vga.Writer) : outcome system :=
  let '(task, _) := task_new NEXT_ID Unresumed in
  ex ← Executor.spawn Executor.new task;
  mret (mk_system ex (mk_stream None waker false PollStart [] [] []) console true Dispatch).

(** The main program alone, for at most [n] steps. *)
Fixpoint kernel_run (n : nat) (s : system) : outcome system :=
  match n with
  | O => mret s
  | S n =>
      r ← kernel_step s;
      match r with None => mret s | Some s => kernel_run n s end
  end.

(** ** The console as a history

    What was printed on the console since [start]. *)
Inductive event := Key (scancode : Z) | Warning (msg : string).

Definition replay_event (c : K * Vga.Writer) (e : event) : outcome (K * Vga.Writer) :=
  match e with
  | Key scancode => Keyboard.print_keypress add_byte c scancode
  | Warning msg => warn c msg
  end.
Fixpoint replay (c : K * Vga.Writer) (l : list event) : outcome (K * Vga.Writer) :=
  match l with
  | [] => mret c
  | e :: l => c ← replay_event c e; replay c l
  end.
Definition keys (l : list event) : list Z :=
  omap (λ e, match e with Key scancode => Some scancode | Warning _ => None end) l.
Definition warnings (l : list event) : list string :=
  omap (λ e, match e with Key _ => None | Warning msg => Some msg end) l.

Lemma replay_snoc l e : ∀ c c' c'', replay c l = Ret c' → replay_event c' e = Ret c'' →
  replay c (l ++ [e]) = Ret c''.
Proof.
  induction l as [|e' l IH]; intros c c' c'' Hl He; simpl in *.
  - inv_outcome. by rewrite He.
  - destruct (replay_event c e'); [|done..]. by eapply IH.
Qed.
Lemma keys_snoc l e : keys (l ++ [e]) = keys l ++ keys [e].
Proof. unfold keys. by rewrite omap_app. Qed.
Lemma warnings_snoc l e : warnings (l ++ [e]) = warnings l ++ warnings [e].
Proof. unfold warnings. by rewrite omap_app. Qed.

(** ** The invariant *)

Context {contents : Q → list Z} {capacity : Q → nat} {qlaws : ArrayQueueLaws Q Z contents capacity}.
Context {registered : A → bool} {wlaws : AtomicWakerLaws A registered}.
Local Abbreviation stream_inv := (Keyboard.stream_inv (contents := contents) (capacity := capacity)
  (registered := registered)).

Definition ready (s : system) : list Z := contents (task_queue (executor s)).
Definition is_nil (l : list Z) : bool := match l with [] => true | _ => false end.
Definition polling (p : kernel_pc) : bool := match p with Polling _ | Erasing _ => true | _ => false end.
(** Interrupts are off from [interrupts::disable] on. *)
Definition masked (p : kernel_pc) : bool := match p with Checking | Halting | Enabling => true | _ => false end.

(** The stream as [Keyboard] sees it: the task has been woken when it is in the
    executor's queue. *)
Definition view (s : system) : stream_state := with_woken (stream s) (negb (is_nil (ready s))).

(** The scancode that was taken from the queue and is not printed yet. *)
Definition in_flight (st : stream_state) : list Z :=
  match pc st with PollTake c | PollReady c => [c] | _ => [] end.

(** The console is what [history] comes to; inside a backspace the decoder is one key ahead. *)
Definition printed (st0 : K * Vga.Writer) (at_ : kernel_pc) (pc : Keyboard.poll_pc) (console : K * Vga.Writer)
    (history : list event) : Prop :=
  match at_ with
  | Erasing _ => ∃ k c key, pc = PollReady c ∧ replay st0 history = Ret (k, console.2) ∧
      add_byte k c = (console.1, Some key) ∧ Keyboard.is_backspace key = true
  | _ => replay st0 history = Ret console
  end.

Record started_inv (st0 : K * Vga.Writer) (f : keypress_future) (s : system) : Prop := {
  sv_stream : stream_inv (view s);
  sv_pending : polling (at_ s) = false → pc (stream s) = PollPending ∧ f = Suspended;
  sv_printed : ∃ history, delivered (stream s) = keys history ++ in_flight (stream s) ∧
    length (warnings history) = length (dropped (stream s)) ∧
    printed st0 (at_ s) (pc (stream s)) (console s) history;
}.
Record unstarted_inv (st0 : K * Vga.Writer) (f : keypress_future) (s : system) : Prop := {
  uv_queue : SCANCODE_QUEUE (stream s) = None;
  uv_lists : accepted (stream s) = [] ∧ delivered (stream s) = [] ∧ in_flight (stream s) = [];
  uv_ready : ready s ≠ [];
  uv_at : polling (at_ s) = false;
  uv_future : f = Unresumed;
  uv_console : ∃ history, keys history = [] ∧
    length (warnings history) = length (dropped (stream s)) ∧ replay st0 history = Ret (console s);
}.
Record system_inv (id : Z) (st0 : K * Vga.Writer) (s : system) : Prop := {
  si_tasks : ∃ f, tasks (executor s) = {[id := mk_task id f]} ∧
    (unstarted_inv st0 f s ∨ started_inv st0 f s);
  si_ids : Forall (λ i, i = id) (ready s);
  si_polling i : at_ s = Polling i ∨ at_ s = Erasing i → i = id;
  si_irq : interrupts s = negb (masked (at_ s));
  si_halted : at_ s = Halting ∨ at_ s = Halted → ready s = [];
}.

Lemma add_scancode_woken st b c :
  let st' := Keyboard.add_scancode (with_woken st false) c in
  Keyboard.add_scancode (with_woken st b) c = with_woken st' (b || woken st').
Proof.
  unfold Keyboard.add_scancode, with_woken. simpl.
  repeat (case_match; simpl); by rewrite ?orb_false_r.
Qed.

Lemma add_scancode_frame (st : stream_state) c :
  let st' := Keyboard.add_scancode st c in pc st' = pc st ∧ delivered st' = delivered st ∧
    (SCANCODE_QUEUE st = None → st' = Keyboard.drop_scancode st c).
Proof. unfold Keyboard.add_scancode. simpl. repeat (case_match; simpl); by split_and!. Qed.

(** A scancode is accepted without a warning, or dropped with one. *)
Lemma add_scancode_fate (st : stream_state) c :
  let st' := Keyboard.add_scancode st c in
  match warning st c with
  | None => accepted st' = accepted st ++ [c] ∧ dropped st' = dropped st
  | Some _ => accepted st' = accepted st ∧ dropped st' = dropped st ++ [c]
  end.
Proof. unfold warning, Keyboard.add_scancode. simpl. by repeat (case_match; simpl). Qed.

(** The warning joins the history, with no new key. *)
Lemma warning_history st0 l (s : system) c con' : printed st0 (at_ s) (pc (stream s)) (console s) l →
  length (warnings l) = length (dropped (stream s)) →
  match warning (stream s) c with
  | Some msg => match at_ s with Erasing _ => Undef "two references to the console" | _ => warn (console s) msg end
  | None => mret (console s)
  end = Ret con' →
  ∃ l', keys l' = keys l ∧
    length (warnings l') = length (dropped (Keyboard.add_scancode (with_woken (stream s) false) c)) ∧
    printed st0 (at_ s) (pc (stream s)) con' l'.
Proof.
  intros Hl Hlen Hw. pose proof (add_scancode_fate (with_woken (stream s) false) c) as Hfate. simpl in Hfate.
  change (warning (with_woken (stream s) false) c) with (warning (stream s) c) in Hfate.
  destruct (warning (stream s) c) as [msg|]; destruct Hfate as [_ ->]; [|inv_outcome; by exists l].
  exists (l ++ [Warning msg]). rewrite keys_snoc, warnings_snoc, !length_app, Hlen. simpl.
  rewrite app_nil_r. split_and!; [done..|].
  destruct (at_ s); try done; by eapply replay_snoc.
Qed.

Lemma resume_masked p : masked (resume p) = masked p.
Proof. by destruct p. Qed.
Lemma resume_polling p : polling (resume p) = polling p.
Proof. by destruct p. Qed.
Lemma resume_printed st0 p q con l : printed st0 (resume p) q con l ↔ printed st0 p q con l.
Proof. by destruct p. Qed.

Lemma keyboard_irq_inv id st0 s c s' : system_inv id st0 s → interrupts s = true →
  keyboard_irq id s c = Ret s' → system_inv id st0 s'.
Proof using qlaws wlaws.
  intros [(f & Htasks & Hcase) Hids Hpoll Hirq Hhalt] Hon Hrun. unfold keyboard_irq, add_scancode in Hrun.
  pose proof (add_scancode_woken (stream s) (negb (is_nil (ready s))) c) as Hview.
  pose proof (add_scancode_frame (with_woken (stream s) false) c) as (Hpc & Hdel & Hnone).
  pose proof (λ H, Keyboard.add_scancode_inv (view s) c H) as Hadd.
  simpl in *. set (st := Keyboard.add_scancode _ c) in *.
  apply bind_Ret in Hrun as (s1 & Hrun & Hs1). injection Hs1 as <-.
  apply bind_Ret in Hrun as (con & Hwarn & Hrun). apply bind_Ret in Hrun as (q & Hwake & Hrun). injection Hrun as <-.
  pose proof (λ l H H', warning_history st0 l s c con H H' Hwarn) as Hhist. fold st in Hhist.
  assert (contents q = ready s ++ (if woken st then [id] else [])) as Hq.
  { destruct (woken st); [|inv_outcome; by rewrite app_nil_r]. unfold wake_task in Hwake.
    apply expect_Ret, queue_push_Some in Hwake as (Hc & _). done. }
  split; simpl; unfold resumed; cbn [executor stream console interrupts at_].
  - exists f. split; [done|]. destruct Hcase as [[Hu1 Hu2 Hu3 Hu4 Hu5 Hu6]|[Hs1 Hs2 Hs3]]; [left|right].
    + rewrite Hnone by done. split; simpl; try done.
      * unfold ready in *. simpl. rewrite Hq. by destruct (contents _).
      * by rewrite resume_polling.
      * destruct Hu6 as (l & Hk & Hn & Hl). destruct (Hhist l) as (l' & Hk' & Hn' & Hl'); [by destruct (at_ s)|done|].
        exists l'. rewrite Hk'. split_and!; [done| |by destruct (at_ s)].
        by rewrite Hn'; subst st; rewrite Hnone.
    + split; simpl.
      * replace (view _) with (Keyboard.add_scancode (view s) c); [by apply Hadd|].
        unfold view at 1. rewrite Hview. unfold view. f_equal. simpl. unfold ready at 2. simpl. rewrite Hq.
        by destruct (ready s), (woken st).
      * rewrite Hpc, resume_polling. exact Hs2.
      * unfold in_flight. rewrite Hpc, Hdel. destruct Hs3 as (l & Hk & Hn & Hl).
        destruct (Hhist l Hl Hn) as (l' & Hk' & Hn' & Hl'). exists l'. rewrite Hk', resume_printed. by split_and!.
  - unfold ready in *. simpl. rewrite Hq. apply Forall_app. split; [done|].
    destruct (woken st); [by apply Forall_singleton|by apply Forall_nil].
  - intros i Hi. apply Hpoll. destruct (at_ s); naive_solver.
  - by rewrite resume_masked.
  - rewrite Hon in Hirq. by destruct (at_ s); intros [?|?].
Qed.

(** ** Steps of the main program

    The steps that are left until the main program halts, if no interrupt comes. *)
Definition poll_left (p : Keyboard.poll_pc) : nat :=
  match p with
  | PollTake _ => 11 | PollReady _ => 10 | PollStart => 8 | PollRegister => 7 | PollSecond => 6
  | PollPending => 5
  end.
Definition queued (s : system) : list Z := from_option contents [] (SCANCODE_QUEUE (stream s)).
Definition steps_left (s : system) : nat :=
  6 * length (queued s) + 5 * length (ready s) +
  match at_ s with
  | Polling _ => poll_left (pc (stream s))
  | Erasing _ => 9
  | Dispatch => 4
  | Disabling => if is_nil (ready s) then 3 else 7
  | Checking => if is_nil (ready s) then 2 else 6
  | Enabling => 5
  | Halting => 1
  | Halted => 0
  end.

(** The console when everything that has arrived so far is printed. *)
Definition print_pending (s : system) : outcome (K * Vga.Writer) :=
  match at_ s with
  | Erasing _ =>
      w ← Vga.backspace (console s).2;
      Keyboard.print_keypresses add_byte ((console s).1, w) (queued s)
  | _ => Keyboard.print_keypresses add_byte (console s) (in_flight (stream s) ++ queued s)
  end.

(** What every step of the main program ensures. *)
Definition step_ok (id : Z) (st0 : K * Vga.Writer) (s s' : system) : Prop :=
  system_inv id st0 s' ∧ (steps_left s' < steps_left s)%nat ∧ print_pending s' = print_pending s ∧
  accepted (stream s') = accepted (stream s) ∧ dropped (stream s') = dropped (stream s).

(** A step ends in a state like this, or panics as printing does. *)
Definition steps (id : Z) (st0 : K * Vga.Writer) (s : system) (r : outcome system) : Prop :=
  match r with
  | Ret s' => step_ok id st0 s s'
  | Panic m => print_pending s = Panic m
  | Undef m => print_pending s = Undef m
  end.

Lemma dispatch_ok id st0 s : system_inv id st0 s → at_ s = Dispatch → steps id st0 s (dispatch s).
Proof using qlaws.
  intros [(f & Htasks & Hcase) Hids Hpoll Hirq Hhalt] Hat. unfold dispatch.
  rewrite Hat in Hirq. simpl in Hirq.
  destruct (ready s) as [|i rest] eqn:Hr; unfold ready in Hr.
  - rewrite (queue_pop_nil _ Hr). split; [|split; [|by split; [unfold print_pending; by rewrite Hat|]]].
    + destruct Hcase as [[]|[Hs1 Hs2 Hs3]]; [done|]. rewrite Hat in Hs2, Hs3.
      split; simpl; [|by unfold ready; simpl; rewrite Hr|naive_solver|done|naive_solver].
      exists f. split; [done|]. right. by split.
    + unfold steps_left, ready, queued. simpl. rewrite Hat, Hr. simpl. lia.
  - destruct (queue_pop_cons _ i rest Hr) as (q & -> & Hq & _). simpl.
    apply Forall_cons in Hids as [-> Hids]. rewrite Htasks, lookup_singleton_eq. simpl. unfold enter_poll.
    destruct Hcase as [[Hu1 (Hu2 & Hu2' & Hu2'') Hu3 Hu4 -> Hu6]|[Hs1 Hs2 Hs3]].
    + unfold Keyboard.stream_new. rewrite Hu1. simpl. split; [|split; [|split; [|done]]].
      * split; simpl; [|by unfold ready; simpl; rewrite Hq|naive_solver|done|naive_solver].
        exists Unresumed. split; [done|]. right. split; simpl; [|done|].
        -- exists (queue_new 100). simpl. rewrite Hu2, Hu2', queue_new_contents, queue_new_capacity. done.
        -- destruct Hu6 as (l & Hk & Hn & Hl). exists l. simpl. by rewrite Hu2', Hk.
      * unfold steps_left, ready, queued. simpl. rewrite Hat, Hr, Hq, Hu1, queue_new_contents. simpl. lia.
      * unfold print_pending, queued. simpl. by rewrite Hat, Hu1, Hu2'', queue_new_contents.
    + rewrite Hat in Hs2, Hs3. destruct (Hs2 eq_refl) as [Hpc ->]. simpl. split; [|split; [|split; [|done]]].
      * split; simpl; [|by unfold ready; simpl; rewrite Hq|naive_solver|done|naive_solver].
        exists Suspended. split; [done|]. right. split; simpl; [|done|].
        -- destruct Hs1 as (q0 & ? & ? & ? & _). by exists q0.
        -- destruct Hs3 as (l & Hd & Hn & Hp). exists l. unfold in_flight in *. rewrite Hpc in Hd. by simpl.
      * unfold steps_left, ready, queued. simpl. rewrite Hat, Hr, Hq. simpl. lia.
      * unfold print_pending, queued, in_flight. simpl. by rewrite Hat, Hpc.
Qed.

Definition returned (p : Keyboard.poll_pc) : bool :=
  match p with PollReady _ | PollPending => true | _ => false end.

Lemma poll_step_ok (st : stream_state) q printed :
  SCANCODE_QUEUE st = Some q → returned (pc st) = false → delivered st = printed ++ in_flight st →
  ∃ st' q', Keyboard.poll_step st = Ret (Some st') ∧
    (∀ b, Keyboard.poll_step (with_woken st b) = Ret (Some (with_woken st' b))) ∧ SCANCODE_QUEUE st' = Some q' ∧
    delivered st' = printed ++ in_flight st' ∧ accepted st' = accepted st ∧ dropped st' = dropped st ∧
    in_flight st' ++ contents q' = in_flight st ++ contents q ∧
    (6 * length (contents q') + poll_left (pc st') < 6 * length (contents q) + poll_left (pc st))%nat.
Proof using qlaws.
  intros Hq Hret Hd. unfold Keyboard.poll_step, with_woken, in_flight in *. simpl.
  rewrite Hq. simpl. destruct (contents q) as [|c cs] eqn:Hc.
  - rewrite (queue_pop_nil q Hc). destruct (pc st) eqn:Hpc; try done;
      (eexists _, q; split; [done|split; [done|]]; simpl; rewrite ?Hpc, Hc; simpl;
       split_and!; try done; lia).
  - destruct (queue_pop_cons q c cs Hc) as (q1 & -> & Hq1 & _).
    destruct (pc st) eqn:Hpc; try done.
    1,3: (eexists _, q1; split; [done|split; [done|]]; simpl; rewrite Hd, app_nil_r, Hq1; simpl;
       split_and!; try done; lia).
    all: (eexists _, q; split; [done|split; [done|]]; simpl; rewrite Hc; simpl;
       split_and!; try done; lia).
Qed.

(** The key that was decoded joins the history. *)
Lemma key_printed id st0 s f l c k w con : tasks (executor s) = {[id := mk_task id f]} →
  Forall (λ i, i = id) (ready s) → interrupts s = true → stream_inv (view s) → pc (stream s) = PollReady c →
  delivered (stream s) = keys l ++ in_flight (stream s) → length (warnings l) = length (dropped (stream s)) →
  replay st0 l = Ret (k, w) → Keyboard.print_keypress add_byte (k, w) c = Ret con →
  system_inv id st0 (mk_system (executor s) (with_pc (stream s) PollStart) con (interrupts s) (Polling id)).
Proof.
  intros Htasks Hids Hi (q & Hq & Hacc & Hcap & _) Hpc Hd Hn Hl Hc.
  split; simpl; try done; [|naive_solver|naive_solver].
  exists f. split; [done|]. right. split; simpl; [by exists q|done|].
  exists (l ++ [Key c]). unfold in_flight in *. rewrite Hpc in Hd. simpl.
  rewrite keys_snoc, warnings_snoc, !app_nil_r. split_and!; [done..|]. by eapply replay_snoc.
Qed.

Lemma print_keypress_key k w c k' key : add_byte k c = (k', Some key) →
  Keyboard.print_keypress add_byte (k, w) c = (w ← Keyboard.print_key w key; mret (k', w)).
Proof. simpl. by intros ->. Qed.

Lemma handle_scancode_ok id st0 s c : system_inv id st0 s → at_ s = Polling id → pc (stream s) = PollReady c →
  steps id st0 s (handle_scancode s id c).
Proof using qlaws.
  intros [(f & Htasks & Hcase) Hids Hpoll Hirq Hhalt] Hat Hpc.
  destruct Hcase as [[_ _ _ Hp _ _]|[Hs1 _ (l & Hd & Hn & Hl)]]; [by rewrite Hat in Hp|].
  rewrite Hat in Hl, Hirq. simpl in Hl, Hirq.
  assert (print_pending s = (c1 ← Keyboard.print_keypress add_byte (console s) c;
    Keyboard.print_keypresses add_byte c1 (queued s))) as Hpend.
  { unfold print_pending, in_flight. by rewrite Hat, Hpc. }
  assert (∀ con, Keyboard.print_keypress add_byte (console s) c = Ret con → step_ok id st0 s
    (mk_system (executor s) (with_pc (stream s) PollStart) con (interrupts s) (Polling id))) as Hnext.
  { intros con Hc. destruct (console s) as [k w]. split; [by eapply key_printed|]. split; [|split; [|done]].
    - unfold steps_left, queued, ready. simpl. rewrite Hat, Hpc. simpl. lia.
    - rewrite Hpend, Hc. done. }
  unfold handle_scancode. destruct (console s) as [k w] eqn:Hcon.
  destruct (add_byte k c) as [k' [key|]] eqn:Hadd; [|apply Hnext; simpl; by rewrite Hadd].
  destruct (Keyboard.is_backspace key) eqn:Hb.
  - split; [|split; [|split; [|done]]].
    + split; simpl; try done; [|naive_solver|naive_solver].
      exists f. split; [done|]. right. split; simpl; [done|done|]. exists l. split_and!; [done..|].
      by exists k, c, key.
    + unfold steps_left, queued, ready. simpl. rewrite Hat, Hpc. simpl. lia.
    + rewrite Hpend, (print_keypress_key _ _ _ _ _ Hadd), (Keyboard.print_key_backspace _ _ Hb). simpl.
      unfold print_pending. simpl. by destruct (Vga.backspace w).
  - rewrite (print_keypress_key _ _ _ _ _ Hadd) in Hnext, Hpend.
    destruct (Keyboard.print_key w key) as [w'|m|m]; [by apply Hnext|exact Hpend..].
Qed.

Lemma erase_ok id st0 s : system_inv id st0 s → at_ s = Erasing id → steps id st0 s (erase s id).
Proof using qlaws.
  intros [(f & Htasks & Hcase) Hids Hpoll Hirq Hhalt] Hat.
  destruct Hcase as [[_ _ _ Hp _ _]|[Hs1 _ (l & Hd & Hn & Hl)]]; [by rewrite Hat in Hp|].
  rewrite Hat in Hl, Hirq. simpl in Hirq. destruct Hl as (k & c & key & Hpc & Hl & Hadd & Hb).
  unfold erase. destruct (Vga.backspace (console s).2) as [w|m|m] eqn:Hrun;
    [|simpl; unfold print_pending; by rewrite Hat, Hrun..].
  split; [|split; [|split; [|done]]].
  - eapply key_printed; [done..|]. rewrite (print_keypress_key _ _ _ _ _ Hadd), Keyboard.print_key_backspace by done.
    by rewrite Hrun.
  - unfold steps_left, queued, ready. simpl. rewrite Hat. lia.
  - unfold print_pending. by rewrite Hat, Hrun.
Qed.

Lemma poll_task_ok id st0 s : system_inv id st0 s → at_ s = Polling id → steps id st0 s (poll_task s id).
Proof using qlaws wlaws.
  intros Hinv Hat. pose proof Hinv as [(f & Htasks & Hcase) Hids Hpoll Hirq Hhalt].
  destruct Hcase as [[_ _ _ Hp _ _]|[Hs1 _ (l & Hd & Hn & Hl)]]; [by rewrite Hat in Hp|].
  rewrite Hat in Hirq, Hl. simpl in Hirq, Hl.
  pose proof Hs1 as (q & Hq & Hacc & Hcap & Hpcq). simpl in Hq.
  unfold poll_task. destruct (returned (pc (stream s))) eqn:Hret.
  - destruct (pc (stream s)) as [| | | |c|] eqn:Hpc; try done; [by apply handle_scancode_ok|].
    split; [|split; [|split; [|done]]].
    + split; simpl; try done; [|naive_solver|naive_solver].
      exists Suspended. rewrite Htasks, insert_singleton_eq. split; [done|]. right.
      split; simpl; [|done|by exists l]. by exists q.
    + unfold steps_left, queued, ready. simpl. rewrite Hat, Hpc. simpl. lia.
    + unfold print_pending. by rewrite Hat.
  - destruct (poll_step_ok (stream s) q (keys l) Hq Hret Hd) as
      (st' & q' & Hstep & Hview & Hq' & Hd' & Hacc' & Hdr' & Hfl & Hlt).
    assert (step_ok id st0 s (mk_system (executor s) st' (console s) (interrupts s) (Polling id))) as Hok.
    { split; [|split; [|split; [|done]]].
      - split; simpl; try done; [|naive_solver|naive_solver].
        exists f. split; [done|]. right. split; simpl; [|done|exists l; by rewrite Hdr'].
        eapply (Keyboard.poll_step_inv (view s)); [by exists q|apply Hview].
      - unfold steps_left, queued, ready. simpl. rewrite Hat, Hq, Hq'. simpl. lia.
      - unfold print_pending, queued. simpl. rewrite Hat, Hq, Hq'. simpl. by rewrite Hfl. }
    destruct (pc (stream s)); try done; rewrite Hstep; exact Hok.
Qed.

(** *** The steps of [sleep_if_idle] *)

(** Nothing changes but the position, and the interrupt flag with it. *)
Lemma move_inv id st0 s p : system_inv id st0 s → polling (at_ s) = false → polling p = false →
  (p = Halting ∨ p = Halted → ready s = []) →
  system_inv id st0 (mk_system (executor s) (stream s) (console s) (negb (masked p)) p).
Proof.
  intros [(f & Htasks & Hcase) Hids Hpoll Hirq Hhalt] Hat Hp Hh. split; simpl; try done.
  - exists f. split; [done|]. destruct Hcase as [[]|[Hs1 Hs2 (l & Hd & Hn & Hl)]]; [left|right]; split; simpl; try done.
    + intros _. by apply Hs2.
    + exists l. split_and!; [done..|]. destruct (at_ s); try done; by destruct p.
  - intros i [-> | ->]; done.
Qed.

Lemma move_pending s p i : polling (at_ s) = false → polling p = false →
  print_pending (mk_system (executor s) (stream s) (console s) i p) = print_pending s.
Proof. intros Hs Hp. unfold print_pending. simpl. destruct (at_ s); try done; by destruct p. Qed.

Lemma kernel_step_ok id st0 s : system_inv id st0 s → at_ s ≠ Halted →
  ∃ r, kernel_step s = Some <$> r ∧ steps id st0 s r.
Proof using qlaws wlaws.
  intros Hinv Hne. unfold kernel_step. destruct (at_ s) as [|i|i| | | | |] eqn:Hat; [..|done].
  - exists (dispatch s). split; [done|]. by apply dispatch_ok.
  - rewrite (si_polling _ _ _ Hinv i) by (by left). exists (poll_task s id). split; [done|]. apply poll_task_ok; [done|].
    by rewrite Hat, (si_polling _ _ _ Hinv i) by (by left).
  - rewrite (si_polling _ _ _ Hinv i) by (by right). exists (erase s id). split; [done|]. apply erase_ok; [done|].
    by rewrite Hat, (si_polling _ _ _ Hinv i) by (by right).
  - eexists (Ret _). split; [done|]. split; [|split; [|split; [|done]]].
    + apply (move_inv id st0 s Checking Hinv); [by rewrite Hat|done|naive_solver].
    + unfold steps_left, queued, ready. simpl. rewrite Hat. destruct (is_nil _); lia.
    + apply move_pending; [by rewrite Hat|done].
  - pose proof (queue_is_empty_spec (task_queue (executor s))) as He.
    pose proof (si_irq _ _ _ Hinv) as Hirq. rewrite Hat in Hirq. simpl in Hirq.
    set (p := if queue_is_empty (task_queue (executor s)) then Halting else Enabling).
    eexists (Ret _). split; [done|]. rewrite Hirq. split; [|split; [|split; [|done]]].
    + replace false with (negb (masked p)) by (subst p; by destruct (queue_is_empty _)).
      apply (move_inv id st0 s p Hinv); [by rewrite Hat|subst p; by destruct (queue_is_empty _)|].
      subst p. destruct (queue_is_empty _); [|naive_solver]. intros _. by apply He.
    + unfold steps_left, queued, ready. simpl. rewrite Hat. subst p.
      destruct (contents (task_queue (executor s))); simpl; destruct (queue_is_empty _); try lia.
      by destruct He as [_ He]; discriminate He.
    + apply move_pending; [by rewrite Hat|subst p; by destruct (queue_is_empty _)].
  - eexists (Ret _). split; [done|]. split; [|split; [|split; [|done]]].
    + apply (move_inv id st0 s Halted Hinv); [by rewrite Hat|done|]. intros _. apply (si_halted _ _ _ Hinv). by left.
    + unfold steps_left, queued, ready. simpl. rewrite Hat. lia.
    + apply move_pending; [by rewrite Hat|done].
  - eexists (Ret _). split; [done|]. split; [|split; [|split; [|done]]].
    + apply (move_inv id st0 s Dispatch Hinv); [by rewrite Hat|done|naive_solver].
    + unfold steps_left, queued, ready. simpl. rewrite Hat. lia.
    + apply move_pending; [by rewrite Hat|done].
Qed.

Lemma kernel_step_Some id st0 s s' : system_inv id st0 s → kernel_step s = Ret (Some s') → step_ok id st0 s s'.
Proof using qlaws wlaws.
  intros Hinv Hrun. destruct (kernel_step_ok id st0 s Hinv) as (r & Hr & Hok).
  { intros Hat. unfold kernel_step in Hrun. by rewrite Hat in Hrun. }
  rewrite Hrun in Hr. destruct r as [s1|m|m]; simpl in Hr; [|done..]. by injection Hr as <-.
Qed.

Lemma resume_inv id st0 s : system_inv id st0 s → system_inv id st0 (resumed s).
Proof.
  intros [(f & Htasks & Hcase) Hids Hpoll Hirq Hhalt]. split; simpl; try done.
  - exists f. split; [done|]. destruct Hcase as [[]|[Hs1 Hs2 (l & Hl)]]; [left|right]; split; simpl; try done.
    + by rewrite resume_polling.
    + by rewrite resume_polling.
    + exists l. by rewrite resume_printed.
  - intros i Hi. apply Hpoll. destruct (at_ s); naive_solver.
  - by rewrite resume_masked.
  - intros Hp. apply Hhalt. destruct (at_ s); naive_solver.
Qed.

Lemma start_inv NEXT_ID waker st0 s : start NEXT_ID waker st0 = Ret s → system_inv NEXT_ID st0 s.
Proof using qlaws.
  unfold start, Executor.spawn. simpl. intros Hrun. inv_outcome.
  match goal with H : queue_push _ _ = Some ?q |- _ =>
    apply queue_push_Some in H as (Hq & _); rewrite queue_new_contents in Hq end.
  split; simpl; try done; [| |naive_solver|naive_solver].
  - exists Unresumed. split; [done|]. left. split; simpl; try done; [|by exists []].
    unfold ready. simpl. by rewrite Hq.
  - unfold ready. simpl. rewrite Hq. by apply Forall_singleton.
Qed.

Lemma reachable_inv id waker st0 s0 s : start id waker st0 = Ret s0 →
  rtc (system_step id) s0 s → system_inv id st0 s.
Proof using qlaws wlaws.
  intros H0. apply (rtc_invariant (system_step id) (system_inv id st0)); [by eapply start_inv|].
  intros x y Hx Hstep. destruct Hstep as [x y Hrun|x c y Hi Hrun|x Hi].
  - by eapply kernel_step_Some in Hrun as [? _].
  - by eapply keyboard_irq_inv.
  - by apply resume_inv.
Qed.

(** In a halted system every scancode is printed. *)
Lemma halted_printed id st0 s : system_inv id st0 s → at_ s = Halted →
  ∃ q, SCANCODE_QUEUE (stream s) = Some q ∧ contents q = [] ∧ registered (WAKER (stream s)) = true ∧
    delivered (stream s) = accepted (stream s) ∧
    ∃ history, keys history = accepted (stream s) ∧
      length (warnings history) = length (dropped (stream s)) ∧ replay st0 history = Ret (console s).
Proof.
  intros [(f & Htasks & Hcase) Hids Hpoll Hirq Hhalt] Hat. specialize (Hhalt (or_intror Hat)).
  destruct Hcase as [[]|[Hs1 Hs2 (l & Hd & Hn & Hp)]]; [done|].
  rewrite Hat in Hs2, Hp. destruct (Hs2 eq_refl) as [Hpc _].
  destruct Hs1 as (q & Hq & Hacc & _ & Hm). simpl in *. rewrite Hpc, Hhalt in Hm. simpl in Hm.
  exists q. destruct Hm as [Hm1 Hm2].
  assert (contents q = []) as Hnil by (destruct (contents q); [done|]; discriminate Hm1; done).
  unfold in_flight in Hd. rewrite Hpc, app_nil_r in Hd. rewrite Hnil, app_nil_r in Hacc.
  split_and!; [done..|by destruct Hm2|done|]. exists l. split_and!; [congruence|done..].
Qed.

(** *** Progress *)

Lemma steps_left_0 s : (steps_left s ≤ 0)%nat → at_ s = Halted.
Proof.
  unfold steps_left. intros Hn. destruct (at_ s); try lia; [destruct (pc (stream s)); simpl in Hn; lia| | |done];
    destruct (is_nil (ready s)); lia.
Qed.
Lemma steps_left_bound s : (steps_left s ≤ 6 * length (queued s) + 5 * length (ready s) + 11)%nat.
Proof.
  unfold steps_left. destruct (at_ s); try lia; [destruct (pc (stream s)); simpl; lia| |]; destruct (is_nil _); lia.
Qed.

Lemma halted_pending id st0 s : system_inv id st0 s → at_ s = Halted → print_pending s = Ret (console s).
Proof.
  intros Hinv Hat. destruct (halted_printed id st0 s Hinv Hat) as (q & Hq & Hnil & _).
  unfold print_pending, queued, in_flight. rewrite Hat, Hq. simpl. rewrite Hnil.
  destruct Hinv as [(f & _ & [[_ (_ & _ & Hfl) _ _ _ _]|[_ Hs2 _]]) _ _ _ _].
  - unfold in_flight in Hfl. by rewrite Hfl.
  - rewrite Hat in Hs2. by destruct (Hs2 eq_refl) as [-> _].
Qed.

(** Printing a key panics or returns. *)
Lemma print_keypresses_defined l : ∀ st, defined (Keyboard.print_keypresses add_byte st l).
Proof.
  induction l as [|c l IH]; intros st; cbn [Keyboard.print_keypresses]; solve_defined.
  unfold Keyboard.print_keypress, Keyboard.print_key. solve_defined.
Qed.
Lemma print_pending_defined s : defined (print_pending s).
Proof. pose proof print_keypresses_defined. unfold print_pending. solve_defined. Qed.

(** The main program alone prints everything and halts, or panics where printing does. *)
Lemma kernel_run_prints id st0 n : ∀ s, system_inv id st0 s → (steps_left s ≤ n)%nat →
  match print_pending s with
  | Ret con => ∃ s', kernel_run n s = Ret s' ∧ at_ s' = Halted ∧ console s' = con ∧ system_inv id st0 s' ∧
      accepted (stream s') = accepted (stream s) ∧ dropped (stream s') = dropped (stream s)
  | Panic m => kernel_run n s = Panic m
  | Undef _ => False
  end.
Proof using qlaws wlaws.
  induction n as [|n IH]; intros s Hinv Hn.
  { rewrite (halted_pending id st0) by (done || by apply steps_left_0). exists s. by split_and!; try apply steps_left_0. }
  simpl. destruct (decide (at_ s = Halted)) as [Hat|Hat].
  { rewrite (halted_pending id st0) by done. exists s. unfold kernel_step. rewrite Hat. by split_and!. }
  pose proof (print_pending_defined s) as Hdef.
  destruct (kernel_step_ok id st0 s Hinv Hat) as (r & -> & Hr). destruct r as [s1|m|m]; simpl in *.
  - destruct Hr as (Hinv1 & Hlt & Hpend & Hacc & Hdr). specialize (IH s1 Hinv1 ltac:(lia)). rewrite Hpend in IH.
    destruct (print_pending s); [|done..]. rewrite <-Hacc, <-Hdr. exact IH.
  - by rewrite Hr.
  - by rewrite Hr in Hdef.
Qed.

(** *** Undefined behaviour

    A warning can meet a backspace only when the queue of scancodes is full. *)
Lemma add_scancode_defined id s c : (∀ i, at_ s ≠ Erasing i) ∨ warning (stream s) c = None →
  defined (add_scancode id s c).
Proof.
  intros Hs. unfold add_scancode, warn, wake_task.
  destruct Hs as [Hs| ->]; [|solve_defined]. destruct (at_ s); try (by edestruct Hs); solve_defined.
Qed.
Lemma add_scancode_undefined id st0 s c m : system_inv id st0 s → add_scancode id s c = Undef m →
  ∃ i q, at_ s = Erasing i ∧ SCANCODE_QUEUE (stream s) = Some q ∧ (100 ≤ length (contents q))%nat.
Proof using qlaws.
  intros [(f & _ & Hcase) _ _ _ _] Hrun. pose proof (add_scancode_defined id s c) as Hdef. rewrite Hrun in Hdef.
  destruct (warning (stream s) c) as [msg|] eqn:Hw; [|by destruct Hdef; right].
  destruct (at_ s) as [|i|i| | | | |] eqn:Hat; try (by destruct Hdef; left).
  destruct Hcase as [[_ _ _ Hp _ _]|[(q & Hq & _ & Hcap & _) _ _]]; [by rewrite Hat in Hp|]. simpl in *.
  exists i, q. split_and!; [done..|]. unfold warning in Hw. rewrite Hq in Hw.
  destruct (decide (length (contents q) < capacity q)%nat) as [Hlt|Hge]; [|lia].
  destruct (queue_push_room q c Hlt) as (q' & Hpush & _). by rewrite Hpush in Hw.
Qed.

(** *** Filling the ready queue *)

(** The task is being polled, the stream is at [p], no scancode is queued, and the
    executor's queue of 100 holds [n] entries. *)
Record filling (id : Z) (p : Keyboard.poll_pc) (n : nat) (s : system) : Prop := {
  fl_at : at_ s = Polling id;
  fl_irq : interrupts s = true;
  fl_pc : pc (stream s) = p;
  fl_queue : ∃ q, SCANCODE_QUEUE (stream s) = Some q ∧ contents q = [] ∧ capacity q = 100%nat;
  fl_ready : length (ready s) = n;
  fl_capacity : capacity (task_queue (executor s)) = 100%nat;
}.

(** The first pop finds nothing, and the waker is stored. *)
Lemma register_window id n s : filling id PollStart n s →
  ∃ s', rtc (system_step id) s s' ∧ filling id PollSecond n s' ∧ registered (WAKER (stream s')) = true.
Proof using qlaws wlaws.
  intros [Hat Hirq Hpc (q & Hq & Hqc & Hcap) Hr Hcap'].
  destruct s as [ex [sq w b p acc del] con irq at0]; simpl in *; subst.
  eexists. split; [|split].
  - eapply rtc_l; [apply step_kernel; unfold kernel_step, poll_task, Keyboard.poll_step; simpl;
      rewrite (queue_pop_nil q Hqc); reflexivity|].
    eapply rtc_l; [by apply step_kernel|]. apply rtc_refl.
  - split; try done. by exists q.
  - apply register_registered.
Qed.

(** A scancode that arrives then is taken by the second pop, and has woken the task. *)
Lemma wake_in_window id c n s : (∀ k, (add_byte k c).2 = None) → (n < 100)%nat →
  filling id PollSecond n s → registered (WAKER (stream s)) = true →
  ∃ s', rtc (system_step id) s s' ∧ filling id PollStart (S n) s'.
Proof using qlaws wlaws.
  intros Hc Hn [Hat Hirq Hpc (q & Hq & Hqc & Hcap) Hr Hcap'] Hreg.
  destruct s as [[T tq C] [sq w b p acc del] [k wr] irq at0]. unfold ready in Hr. simpl in *. subst.
  pose proof (wake_result w) as Hw. destruct (waker_wake w) as [woke w1] eqn:Hwake. simpl in Hw.
  rewrite Hreg in Hw. subst woke.
  destruct (queue_push_room q c) as (q1 & Hpush & Hq1 & Hcap1); [rewrite Hqc, Hcap; simpl; lia|].
  destruct (queue_push_room tq id) as (tq1 & Htpush & Htq1 & Htcap1); [lia|].
  rewrite Hqc in Hq1. destruct (queue_pop_cons q1 c [] Hq1) as (q2 & Hpop & Hq2 & Hcap2).
  specialize (Hc k). destruct (add_byte k c) as [k' key] eqn:Hadd. simpl in Hc. subst key.
  eexists. split.
  - eapply rtc_l.
    { eapply (step_keyboard id _ c); [done|]. unfold keyboard_irq, add_scancode, warning, Keyboard.add_scancode, wake_task.
      simpl. rewrite Hpush. simpl. rewrite Hwake. simpl. rewrite Htpush. reflexivity. }
    eapply rtc_l; [apply step_kernel; unfold kernel_step, poll_task, Keyboard.poll_step; simpl;
      rewrite Hpop; reflexivity|].
    eapply rtc_l; [by apply step_kernel|].
    eapply rtc_l; [apply step_kernel; unfold kernel_step, poll_task, handle_scancode; simpl;
      rewrite Hadd; reflexivity|]. apply rtc_refl.
  - split; simpl; try done; [exists q2; split_and!; congruence| |congruence].
    unfold ready. simpl. rewrite Htq1, length_app. simpl. lia.
Qed.

Lemma fill_ready id c s m : ∀ n, (∀ k, (add_byte k c).2 = None) → (n + m = 100)%nat →
  filling id PollStart n s → ∃ s', rtc (system_step id) s s' ∧ filling id PollStart 100 s'.
Proof using qlaws wlaws.
  revert s. induction m as [|m IH]; intros s n Hc Hm Hfill.
  { exists s. split; [done|]. by replace 100%nat with n by lia. }
  destruct (register_window id n s Hfill) as (s1 & Hs1 & Hf1 & Hreg).
  destruct (wake_in_window id c n s1) as (s2 & Hs2 & Hf2); [done|lia|done..|].
  destruct (IH s2 (S n)) as (s3 & Hs3 & Hf3); [done|lia|done|].
  exists s3. split; [|done]. by etrans; [|etrans].
Qed.

(** The first poll of the spawned task makes the stream. *)
Lemma start_runs id waker st0 : ∃ s0, start id waker st0 = Ret s0.
Proof using qlaws.
  destruct (queue_push_room (queue_new 100 : Q) id) as (tq & Hpush & _);
    [rewrite queue_new_contents, queue_new_capacity; simpl; lia|].
  eexists. unfold start, Executor.spawn. simpl. rewrite Hpush. reflexivity.
Qed.

Lemma fill_start id waker st0 : ∃ s0 s1, start id waker st0 = Ret s0 ∧
  rtc (system_step id) s0 s1 ∧ filling id PollStart 0 s1.
Proof using qlaws.
  destruct (queue_push_room (queue_new 100 : Q) id) as (tq & Hpush & Htq & Hcap);
    [rewrite queue_new_contents, queue_new_capacity; simpl; lia|].
  rewrite queue_new_contents in Htq. rewrite queue_new_capacity in Hcap.
  destruct (queue_pop_cons tq id [] Htq) as (tq' & Hpop & Htq' & Hcap').
  eexists _, _. split; [|split].
  - unfold start, Executor.spawn. simpl. rewrite Hpush. reflexivity.
  - eapply rtc_l; [|apply rtc_refl]. apply step_kernel. unfold kernel_step, dispatch. simpl.
    rewrite Hpop. simpl. rewrite lookup_insert_eq. reflexivity.
  - split; simpl; try done; [|unfold ready; simpl; by rewrite Htq'|congruence].
    eexists. split; [done|]. by rewrite queue_new_contents, queue_new_capacity.
Qed.
End System.

(** ** Properties *)

(** In every state the running kernel can reach, with interrupts between any two
    steps, a halted processor has nothing left to do: no scancode is queued, the
    task's waker is stored, and the console shows every scancode that was accepted,
    decoded and printed once and in order, with nothing between them but one warning
    for each scancode that was dropped. *)
Theorem halted_means_printed {Q A K} `{!ArrayQueue Q Z} `{!AtomicWaker A} `{!Font} contents capacity
    registered (add_byte : K → Z → K * option DecodedKey) level_fmt (id : Z) (waker : A) st0 (s0 s : system Q A K)
    (Hq : ArrayQueueLaws Q Z contents capacity) (Hw : AtomicWakerLaws A registered)
    (H0 : start id waker st0 = Ret s0) (Hr : rtc (system_step add_byte level_fmt id) s0 s) (Hh : at_ s = Halted) :
  ∃ q, SCANCODE_QUEUE (stream s) = Some q ∧ contents q = [] ∧ registered (WAKER (stream s)) = true ∧
    delivered (stream s) = accepted (stream s) ∧
    ∃ history, keys history = accepted (stream s) ∧ length (warnings history) = length (dropped (stream s)) ∧
      replay add_byte level_fmt st0 history = Ret (console s).
Proof. eapply halted_printed; [|done]. by eapply reachable_inv. Qed.

(** C15: From every state the running kernel can reach, if no further interrupt comes, the
    main program prints what has arrived and halts, after a number of steps that is linear
    in the queued scancodes and ready entries: then everything accepted so far is on the
    console, which is what the console becomes by decoding and printing the scancodes that
    were still waiting, in order.  It does not get there only when printing one of those
    keys panics, as a backspace at the start of a line does; then the main program panics
    with the same message. *)
Theorem accepted_keys_printed {Q A K} `{!ArrayQueue Q Z} `{!AtomicWaker A} `{!Font} contents capacity
    registered (add_byte : K → Z → K * option DecodedKey) level_fmt (id : Z) (waker : A) st0 (s0 s : system Q A K)
    (Hq : ArrayQueueLaws Q Z contents capacity) (Hw : AtomicWakerLaws A registered)
    (H0 : start id waker st0 = Ret s0) (Hr : rtc (system_step add_byte level_fmt id) s0 s) :
  let n := (6 * length (queued (contents := contents) s) + 5 * length (ready (contents := contents) s) + 11)%nat in
  match print_pending add_byte (contents := contents) s with
  | Ret con => ∃ s', kernel_run add_byte n s = Ret s' ∧ at_ s' = Halted ∧ console s' = con ∧
      accepted (stream s') = accepted (stream s) ∧
      ∃ history, keys history = accepted (stream s) ∧ length (warnings history) = length (dropped (stream s)) ∧
        replay add_byte level_fmt st0 history = Ret con
  | Panic m => kernel_run add_byte n s = Panic m
  | Undef _ => False
  end.
Proof.
  pose proof (reachable_inv add_byte level_fmt (registered := registered) id waker st0 s0 s H0 Hr) as Hinv.
  intros n. pose proof (kernel_run_prints add_byte level_fmt id st0 n s Hinv (steps_left_bound s)) as Hrun.
  destruct (print_pending add_byte s); [|done..].
  destruct Hrun as (s' & Hrun & Hh & <- & Hinv' & Hacc & Hdr). exists s'. split_and!; [done..|].
  rewrite <-Hacc, <-Hdr. by eapply halted_printed in Hinv' as (q & _ & _ & _ & _ & Hp).
Qed.

(** C37: The executor's queue is bounded but its wake-ups are not: when a scancode arrives
    in each of 101 consecutive windows between storing the waker and the second look at
    the queue, all within one poll of the task, the last wake-up finds the executor's
    queue full and panics in the interrupt handler. *)
Theorem wake_ups_overflow {Q A K} `{!ArrayQueue Q Z} `{!AtomicWaker A} `{!Font} contents capacity
    registered (add_byte : K → Z → K * option DecodedKey) level_fmt (id c : Z) (waker : A) st0
    (Hq : ArrayQueueLaws Q Z contents capacity) (Hw : AtomicWakerLaws A registered)
    (Hc : ∀ k, (add_byte k c).2 = None) :
  ∃ s0 s : system Q A K, start id waker st0 = Ret s0 ∧ rtc (system_step add_byte level_fmt id) s0 s ∧
    interrupts s = true ∧ keyboard_irq level_fmt id s c = Panic "task_queue full".
Proof.
  destruct (fill_start add_byte level_fmt id waker st0) as (s0 & s1 & H0 & Hs1 & Hf1).
  destruct (fill_ready add_byte level_fmt id c s1 100 0 Hc eq_refl Hf1) as (s2 & Hs2 & Hf2).
  destruct (register_window add_byte level_fmt id 100 s2 Hf2) as (s3 & Hs3 & Hf3 & Hreg).
  exists s0, s3. split; [done|]. split; [by etrans; [|etrans]|].
  destruct Hf3 as [_ Hirq _ (q & Hqs & Hqc & Hcap) Hr Hcap']. split; [done|].
  unfold keyboard_irq, add_scancode, warning, Keyboard.add_scancode. simpl. rewrite Hqs.
  destruct (queue_push_room q c) as (q1 & -> & _); [rewrite Hqc, Hcap; simpl; lia|]. simpl.
  pose proof (wake_result (WAKER (stream s3))) as Hwk. destruct (waker_wake _) as [woke w]. simpl in *.
  rewrite Hwk, Hreg. simpl. unfold wake_task, ready in *. by rewrite queue_push_full by lia.
Qed.

(** ** Witnesses *)

#[local] Existing Instances list_queue Vga.sample_font Keyboard.bool_waker.

(** A decoder that gives no key. *)
Definition mute (k : ()) (c : Z) : () * option DecodedKey := (k, None).
(** Scancode 0x0E is the backspace and 0x1C is Enter; releases are nothing, the rest are letters. *)
Definition sample_decoder (k : ()) (c : Z) : () * option DecodedKey :=
  (k, if 0x80 <=? c then None else Some (Keyboard.Unicode (if c =? 0x0E then 8 else if c =? 0x1C then 10 else c + 0x41))).
Definition sample_console : () * Vga.Writer := ((), Vga.sample_after_a).
Definition sample_start : system (nat * list Z) bool () :=
  mk_system (mk_executor {[1 := mk_task 1 Unresumed]} (100%nat, [1]) ∅)
    (mk_stream None false false PollStart [] [] []) sample_console true Dispatch.

(** A schedule: a step of the main program, or a scancode. *)
Fixpoint schedule (add_byte : () → Z → () * option DecodedKey) (l : list (option Z))
    (s : system (nat * list Z) bool ()) : outcome (system (nat * list Z) bool ()) :=
  match l with
  | [] => mret s
  | Some c :: l =>
      assert_that (interrupts s) "interrupts are disabled";;
      s ← keyboard_irq Logging.sample_level_fmt 1 s c; schedule add_byte l s
  | None :: l => s ← kernel_step add_byte s; s ← expect "halted" s; schedule add_byte l s
  end.

Lemma schedule_steps add_byte l : ∀ s s', schedule add_byte l s = Ret s' →
  rtc (system_step add_byte Logging.sample_level_fmt 1) s s'.
Proof.
  induction l as [|[c|] l IH]; intros s s' Hrun; simpl in Hrun; inv_outcome; [done|..].
  - eapply rtc_l; [by eapply step_keyboard|]. by apply IH.
  - eapply rtc_l; [by apply step_kernel|]. by apply IH.
Qed.

(** A key before the first poll is dropped with a warning; the first poll makes the
    stream and finds it empty, and the processor halts; a key then wakes the task,
    which prints it, and the processor halts again. *)
Definition first_poll : list (option Z) := replicate 9 None.
Definition one_key : list (option Z) := Some 0x2A :: first_poll ++ Some 0x1E :: replicate 11 None.

(** Two keys, the second while the first is being taken out of the queue. *)
Definition two_keys : list (option Z) := first_poll ++ [Some 0x1E; None; None; Some 0x9E; Some 0x0E].

Lemma halted_means_printed_witness :
  match schedule sample_decoder one_key sample_start with
  | Ret s => ∃ q, SCANCODE_QUEUE (stream s) = Some q ∧ q.2 = [] ∧ WAKER (stream s) = true ∧
      delivered (stream s) = accepted (stream s) ∧
      ∃ history, keys history = accepted (stream s) ∧
        length (warnings history) = length (dropped (stream s)) ∧ replay sample_decoder Logging.sample_level_fmt sample_console history = Ret (console s)
  | _ => False
  end.
Proof.
  assert (match schedule sample_decoder one_key sample_start with
          | Ret s => match at_ s with Halted => true | _ => false end | _ => false end = true) as Hat by by vm_compute.
  destruct (schedule sample_decoder one_key sample_start) as [s|m|m] eqn:Hrun; [|discriminate Hat..].
  refine (halted_means_printed snd fst (λ b, b) sample_decoder Logging.sample_level_fmt 1 false sample_console sample_start s list_queue_laws
    Keyboard.bool_waker_laws eq_refl (schedule_steps _ _ _ _ Hrun) _).
  by destruct (at_ s).
Defined.

Lemma accepted_keys_printed_witness :
  match schedule sample_decoder two_keys sample_start with
  | Ret s =>
      ∃ s', kernel_run sample_decoder 23 s = Ret s' ∧ at_ s' = Halted ∧
        print_pending sample_decoder (contents := snd) s = Ret (console s') ∧
        accepted (stream s') = accepted (stream s) ∧
        ∃ history, keys history = accepted (stream s) ∧
          length (warnings history) = length (dropped (stream s)) ∧
          replay sample_decoder Logging.sample_level_fmt sample_console history = Ret (console s')
  | _ => False
  end.
Proof.
  assert (match schedule sample_decoder two_keys sample_start with
          | Ret s => (6 * length (queued (contents := snd) s) + 5 * length (ready (contents := snd) s) + 11 =? 23)%nat &&
              is_ret (print_pending sample_decoder (contents := snd) s)
          | _ => false end = true) as H23 by by vm_compute.
  destruct (schedule sample_decoder two_keys sample_start) as [s|m|m] eqn:Hrun; [|discriminate H23..].
  apply andb_prop in H23 as [H23%Nat.eqb_eq Hret].
  pose proof (accepted_keys_printed snd fst (λ b, b) sample_decoder Logging.sample_level_fmt 1 false sample_console
    sample_start s list_queue_laws Keyboard.bool_waker_laws eq_refl (schedule_steps _ _ _ _ Hrun)) as Hthm.
  cbv zeta in Hthm. rewrite H23 in Hthm.
  destruct (print_pending sample_decoder s) as [con|m|m]; [|discriminate Hret..].
  destruct Hthm as (s' & Hs' & Hat & <- & Hrest). exists s'. exact (conj Hs' (conj Hat (conj eq_refl Hrest))).
Defined.

Lemma wake_ups_overflow_witness :
  ∃ s0 s : system (nat * list Z) bool (), start 1 false sample_console = Ret s0 ∧
    rtc (system_step mute Logging.sample_level_fmt 1) s0 s ∧ interrupts s = true ∧ keyboard_irq Logging.sample_level_fmt 1 s 0xE0 = Panic "task_queue full".
Proof.
  exact (wake_ups_overflow snd fst (λ b, b) mute Logging.sample_level_fmt 1 0xE0 false sample_console list_queue_laws
    Keyboard.bool_waker_laws (λ _, eq_refl)).
Defined.

End KeyboardTask.
