(* ===== verification/KeyboardPath.v ===== *)
(** * From the keyboard controller to the console

    The keyboard interrupt end to end: the bytes that the controller presents at port
    0x60 (kernel/src/interrupts.rs), the queue of kernel/src/task/keyboard.rs, the
    executor of kernel/src/task/executor.rs and the console.  [Interrupts] has the
    handlers, [KeyboardTask] the main program; here interrupts of every kind arrive
    between the main program's steps, through the descriptor table. *)

From S2P Require Import Prelude X86 Memory Paging Vga Logging IoApic LocalApic Pit Interrupts.
From S2P Require Import Task Keyboard KeyboardTask.

Module KeyboardPath.
#[local] Opaque Interrupts.IDT.
Import Interrupts (World, ports, keyboard, ScancodeSink, Outcome, Returns, Halts, deliver).
Import Keyboard (accepted, dropped, DecodedKey).
Import KeyboardTask (system, stream, console, interrupts, at_, Halted, Erasing, resumed, keys, warnings, replay).

Lemma sublist_same_length (l k : list Z) : l `sublist_of` k → length l = length k → l = k.
Proof.
  induction 1 as [|x l k Hs IH|x l k Hs IH]; simpl; intros Hlen; [done|f_equal; apply IH; lia|].
  apply sublist_length in Hs. lia.
Qed.
Lemma history_length (l : list KeyboardTask.event) : length l = (length (keys l) + length (warnings l))%nat.
Proof. unfold keys, warnings. induction l as [|[c|msg] l IH]; csimpl; lia. Qed.

Section Platform.
Context {P D V Q A K : Type} `{!Ports P} `{!IoApicDevice D} `{!VolatileMem V}.
Context `{!ArrayQueue Q Z} `{!AtomicWaker A} `{!Font}.
Context (add_byte : K → Z → K * option DecodedKey) (level_fmt : Logging.Level → list Z).
Context (filled : Z → bool) (id : Z).

(** The bytes that the keyboard has for the controller, the next to be read first. *)
Context (fed : P → list Z).

(** ** The processor, its devices and the kernel *)

(** The keyboard task behind the interface that the handlers use. *)
#[local] Instance task_sink : ScancodeSink (system Q A K) := {|
  Interrupts.add_scancode := KeyboardTask.add_scancode level_fmt id;
|}.

(** What the handlers reach, with the running kernel as the keyboard task. *)
Local Abbreviation platform := (World P D V (system Q A K)).
Definition set_keyboard (p : platform) (s : system Q A K) : platform :=
  Interrupts.mk_world (Interrupts.TIMER p) s (Interrupts.pic_eois p) (Interrupts.writer_unlocked p) (ports p)
    (Interrupts.io_apic p) (Interrupts.io_regs p) (Interrupts.local_mem p) (Interrupts.ELF p) (Interrupts.reported p).

(** An interrupt, through the descriptor table; then the interrupted program continues. *)
Definition interrupt (pushed : Interrupts.Pushed) (vector : Z) (p : platform) : outcome (Outcome platform) :=
  r ← deliver filled pushed vector p;
  match r with
  | Halts p => mret (Halts p)
  | Returns p => mret (Returns (set_keyboard p (resumed (keyboard p))))
  end.

(** The main program makes a step, or an interrupt comes, while interrupts are enabled; the
    keyboard's comes only when the controller has a byte.  Exceptions come at any time. *)
Inductive platform_step : platform → platform → Prop :=
| platform_kernel p s : KeyboardTask.kernel_step add_byte (keyboard p) = Ret (Some s) →
    platform_step p (set_keyboard p s)
| platform_interrupt p pushed vector p' : interrupts (keyboard p) = true ∨ 0 ≤ vector < 32 →
    (vector = interrupt_as_u8 Keyboard → fed (ports p) ≠ []) →
    interrupt pushed vector p = Ret (Returns p') → platform_step p p'.

(** ** What an interrupt changes *)

Lemma deliver_effect pushed vector (p p' : platform) : deliver filled pushed vector p = Ret (Returns p') →
  (vector = 33 ∧ ∃ c, port_read (ports p) 8 0x60 = (c, ports p') ∧
     KeyboardTask.add_scancode level_fmt id (keyboard p) c = Ret (keyboard p')) ∨
  (keyboard p' = keyboard p ∧ ports p' = ports p).
Proof.
  unfold deliver. destruct (Interrupts.IDT filled !! vector) as [g|] eqn:Hg; [|done].
  destruct (decide (Interrupts.gate_handler g = Interrupts.keyboard_interrupt_handler)) as [Hk|Hk].
  - rewrite Hk. simpl. unfold Interrupts.keyboard_interrupt. simpl.
    destruct (port_read (ports p) 8 0x60) as [c q] eqn:Hp. intros Hrun.
    apply bind_Ret in Hrun as (p1 & Hrun & Heq). injection Heq as <-.
    apply bind_Ret in Hrun as (s & Hs & Heq). injection Heq as <-. left.
    split; [by eapply Interrupts.IDT_keyboard_only|by exists c].
  - intros Hrun. right. destruct (Interrupts.gate_handler g); simpl in Hrun; try discriminate Hrun; try done;
      try (injection Hrun as <-; done).
    all: unfold Interrupts.page_fault, Interrupts.timer_interrupt, Interrupts.spurious_io_apic_interrupt in *.
    all: inv_outcome; try done.
    case_match. by inv_outcome.
Qed.

Lemma add_scancode_effect (s : system Q A K) c s' : KeyboardTask.add_scancode level_fmt id s c = Ret s' →
  (accepted (stream s') = accepted (stream s) ++ [c] ∧ dropped (stream s') = dropped (stream s)) ∨
  (accepted (stream s') = accepted (stream s) ∧ dropped (stream s') = dropped (stream s) ++ [c]).
Proof.
  unfold KeyboardTask.add_scancode. cbv zeta. intros Hrun.
  apply bind_Ret in Hrun as (con & _ & Hrun). apply bind_Ret in Hrun as (q & _ & Hrun). injection Hrun as <-.
  pose proof (KeyboardTask.add_scancode_fate (KeyboardTask.with_woken (stream s) false) c) as Hfate.
  simpl in Hfate. destruct (KeyboardTask.warning _ _); [right|left]; done.
Qed.

(** ** The invariant

    What was read so far, and where it went. *)
Definition path_inv (p0 p : platform) : Prop :=
  ∃ read, fed (ports p0) = read ++ fed (ports p) ∧
    read ≡ₚ accepted (stream (keyboard p)) ++ dropped (stream (keyboard p)) ∧
    accepted (stream (keyboard p)) `sublist_of` read.

(** The controller: reading the data port takes the next byte. *)
Definition controller_ok : Prop :=
  ∀ p c rest, fed p = c :: rest → ∃ p', port_read p 8 0x60 = (c, p') ∧ fed p' = rest.

Lemma interrupt_path p0 p pushed vector p' : controller_ok → path_inv p0 p →
  (vector = 33 → fed (ports p) ≠ []) → interrupt pushed vector p = Ret (Returns p') → path_inv p0 p'.
Proof.
  intros Hctl (read & Hfed & Hperm & Hsub) Hf Hrun. unfold interrupt in Hrun.
  apply bind_Ret in Hrun as (r & Hd & Hrun). destruct r as [p1|p1]; [|done]. injection Hrun as <-.
  destruct (deliver_effect _ _ _ _ Hd) as [(-> & c & Hport & Hadd)|[Hk Hport]].
  - destruct (fed (ports p)) as [|c' rest] eqn:Hrest; [by destruct (Hf eq_refl)|].
    destruct (Hctl _ _ _ Hrest) as (q & Hq & Hrest'). rewrite Hport in Hq. injection Hq as -> <-.
    exists (read ++ [c']). simpl. rewrite Hrest'. split; [by rewrite <-app_assoc|].
    apply add_scancode_effect in Hadd as [[-> ->]|[-> ->]]; split.
    + rewrite Hperm. solve_Permutation.
    + by apply sublist_app.
    + by rewrite Hperm, app_assoc.
    + by apply sublist_inserts_r.
  - exists read. simpl. by rewrite Hk, Hport.
Qed.

Context {contents : Q → list Z} {capacity : Q → nat} {qlaws : ArrayQueueLaws Q Z contents capacity}.
Context {registered : A → bool} {wlaws : AtomicWakerLaws A registered}.
Local Abbreviation system_inv := (KeyboardTask.system_inv add_byte level_fmt (contents := contents)
  (capacity := capacity) (registered := registered)).

Lemma interrupt_inv st0 p pushed vector p' : system_inv id st0 (keyboard p) →
  interrupts (keyboard p) = true ∨ 0 ≤ vector < 32 → interrupt pushed vector p = Ret (Returns p') →
  system_inv id st0 (keyboard p').
Proof using qlaws wlaws.
  intros Hinv Hon Hrun. unfold interrupt in Hrun. apply bind_Ret in Hrun as (r & Hd & Hrun).
  destruct r as [p1|p1]; [|done]. injection Hrun as <-. simpl.
  destruct (deliver_effect _ _ _ _ Hd) as [(-> & c & _ & Hadd)|[-> _]].
  - eapply (KeyboardTask.keyboard_irq_inv add_byte level_fmt id st0 _ c); [exact Hinv|destruct Hon; [done|lia]|].
    unfold KeyboardTask.keyboard_irq. by rewrite Hadd.
  - by apply KeyboardTask.resume_inv.
Qed.

Lemma platform_reachable (p0 : platform) waker st0 p : controller_ok →
  KeyboardTask.start id waker st0 = Ret (keyboard p0) → rtc platform_step p0 p →
  path_inv p0 p ∧ system_inv id st0 (keyboard p).
Proof using qlaws wlaws.
  intros Hctl H0. apply (rtc_invariant platform_step (λ p, path_inv p0 p ∧ system_inv id st0 (keyboard p))).
  - split; [|by eapply KeyboardTask.start_inv]. exists []. unfold KeyboardTask.start in H0.
    destruct (task_new _ _) as [task next]. apply bind_Ret in H0 as (ex & _ & H0). injection H0 as <-. done.
  - intros p1 p2 [Hpath Hinv] Hstep. destruct Hstep as [p1 s Hk|p1 pushed vector p2 Hi Hf Hrun].
    + destruct (KeyboardTask.kernel_step_Some add_byte level_fmt id st0 _ _ Hinv Hk) as (Hinv' & _ & _ & Hacc & Hdrop).
      split; [|done]. destruct Hpath as (read & Hpath). exists read. simpl. by rewrite Hacc, Hdrop.
    + split; [by eapply interrupt_path|by eapply interrupt_inv].
Qed.

Lemma bytes_shown_run (p0 : platform) waker st0 p : controller_ok →
  KeyboardTask.start id waker st0 = Ret (keyboard p0) → rtc platform_step p0 p → at_ (keyboard p) = Halted →
  ∃ read history, fed (ports p0) = read ++ fed (ports p) ∧
    replay add_byte level_fmt st0 history = Ret (console (keyboard p)) ∧
    length history = length read ∧ keys history `sublist_of` read ∧
    (warnings history = [] → keys history = read).
Proof using qlaws wlaws.
  intros Hctl H0 Hr Hh.
  destruct (platform_reachable p0 waker st0 p Hctl H0 Hr) as [(read & Hfed & Hperm & Hsub) Hinv].
  eapply KeyboardTask.halted_printed in Hinv as (q & _ & _ & _ & _ & history & Hk & Hn & Hrep); [|done].
  assert (length history = length read) as Hlen.
  { by rewrite history_length, Hk, Hn, Hperm, length_app. }
  exists read, history. split_and!; [done..|by rewrite Hk|].
  intros Hno. apply sublist_same_length; [by rewrite Hk|].
  rewrite <-Hlen, history_length, Hno. simpl. lia.
Qed.

(** The only undefined behaviour. *)
Lemma undefined_run (p0 : platform) waker st0 p c m : controller_ok →
  KeyboardTask.start id waker st0 = Ret (keyboard p0) → rtc platform_step p0 p →
  KeyboardTask.add_scancode level_fmt id (keyboard p) c = Undef m →
  ∃ i q, at_ (keyboard p) = Erasing i ∧ Keyboard.SCANCODE_QUEUE (stream (keyboard p)) = Some q ∧
    (100 ≤ length (contents q))%nat.
Proof using qlaws wlaws.
  intros Hctl H0 Hr. destruct (platform_reachable p0 waker st0 p Hctl H0 Hr) as [_ Hinv].
  intros Hu. by eapply (KeyboardTask.add_scancode_undefined add_byte level_fmt id st0 (keyboard p) c m).
Qed.
End Platform.

(** ** Properties *)

(** Whatever interrupts arrive between the steps of the main program, a halted
    processor has dealt with every byte that was read from the keyboard controller:
    the bytes were read in the order in which the keyboard sent them, none twice and none skipped;
    what is on the console is one event for each, the key decoded and printed, in
    order, or a warning that it was dropped; and with no warning every byte was
    printed. *)
Theorem bytes_read_are_shown {P D V Q A K} `{!Ports P} `{!IoApicDevice D} `{!VolatileMem V}
    `{!ArrayQueue Q Z} `{!AtomicWaker A} `{!Font} contents capacity registered
    (add_byte : K → Z → K * option DecodedKey) level_fmt filled (id : Z) (fed : P → list Z) (waker : A) st0
    (p0 p : World P D V (system Q A K))
    (Hq : ArrayQueueLaws Q Z contents capacity) (Hw : AtomicWakerLaws A registered)
    (Hctl : controller_ok fed) (H0 : KeyboardTask.start id waker st0 = Ret (keyboard p0))
    (Hr : rtc (platform_step add_byte level_fmt filled id fed) p0 p) (Hh : at_ (keyboard p) = Halted) :
  ∃ read history, fed (ports p0) = read ++ fed (ports p) ∧
    replay add_byte level_fmt st0 history = Ret (console (keyboard p)) ∧
    length history = length read ∧ keys history `sublist_of` read ∧
    (warnings history = [] → keys history = read).
Proof. by apply (bytes_shown_run add_byte level_fmt filled id fed (registered := registered) p0 waker st0). Qed.

(** ** Witness *)

#[local] Existing Instances list_queue Vga.sample_font Keyboard.bool_waker.
#[local] Existing Instances LocalApic.trace_mem IoApic.chip_device Interrupts.queue_ports.

Local Abbreviation sample_platform :=
  (World (list Z) IoApic.chip (list LocalApic.access) (system (nat * list Z) bool ())).

(** A schedule: a step of the main program ([None]) or an interrupt. *)
Fixpoint run_platform (add_byte : () → Z → () * option DecodedKey) (l : list (option Z)) (p : sample_platform) : outcome sample_platform :=
  match l with
  | [] => mret p
  | None :: l =>
      s ← KeyboardTask.kernel_step add_byte (keyboard p);
      s ← expect "halted" s;
      run_platform add_byte l (set_keyboard p s)
  | Some v :: l =>
      assert_that (bool_decide (interrupts (keyboard p) = true ∨ 0 ≤ v < 32)) "interrupts are disabled";;
      assert_that (bool_decide (v = 33 → ports p ≠ [])) "no byte";;
      r ← interrupt Logging.sample_level_fmt (λ _, true) 1 Interrupts.sample_pushed v p;
      match r with Returns p => run_platform add_byte l p | Halts _ => Panic "halted for ever" end
  end.

Lemma platform_schedule_steps add_byte l : ∀ p p', run_platform add_byte l p = Ret p' →
  rtc (platform_step add_byte Logging.sample_level_fmt (λ _, true) 1 (λ q, q)) p p'.
Proof.
  induction l as [|[v|] l IH]; intros p p' Hrun; cbn [run_platform] in Hrun; [by injection Hrun as ->|..].
  - apply bind_Ret in Hrun as ([] & Hi & Hrun). apply assert_that_Ret in Hi as [Hi%bool_decide_eq_true_1 _].
    apply bind_Ret in Hrun as ([] & Hf & Hrun). apply assert_that_Ret in Hf as [Hf%bool_decide_eq_true_1 _].
    apply bind_Ret in Hrun as ([p1|p1] & Hp1 & Hrun); [|discriminate Hrun].
    exact (rtc_l _ _ _ _ (platform_interrupt _ _ _ _ _ p _ v p1 Hi Hf Hp1) (IH _ _ Hrun)).
  - apply bind_Ret in Hrun as (s & Hs & Hrun). apply bind_Ret in Hrun as (s1 & Hs1%expect_Ret & Hrun). subst s.
    exact (rtc_l _ _ _ _ (platform_kernel _ _ _ _ _ p s1 Hs) (IH _ _ Hrun)).
Qed.

(** A key before the first poll is dropped; a timer tick; then, in the first of two keys and in
    the halt, an interrupt that cannot be masked. *)
Definition sample_schedule : list (option Z) :=
  Some 33 :: Some 32 :: replicate 7 None ++ Some 2 :: replicate 2 None ++ Some 33 :: Some 40 :: Some 33 :: replicate 13 None.
Definition sample_init : sample_platform :=
  Interrupts.mk_world 7 KeyboardTask.sample_start [] false [0x2A; 0x1E; 0x9E; 0x30] None IoApic.sample_chip [] None [].

Lemma bytes_read_are_shown_witness :
  match run_platform KeyboardTask.sample_decoder sample_schedule sample_init with
  | Ret p => ∃ read history, [0x2A; 0x1E; 0x9E; 0x30] = read ++ ports p ∧
      replay KeyboardTask.sample_decoder Logging.sample_level_fmt KeyboardTask.sample_console history =
        Ret (console (keyboard p)) ∧
      length history = length read ∧ keys history `sublist_of` read ∧
      (warnings history = [] → keys history = read)
  | _ => False
  end.
Proof.
  assert (match run_platform KeyboardTask.sample_decoder sample_schedule sample_init with
          | Ret p => match at_ (keyboard p) with Halted => true | _ => false end | _ => false end = true) as Hat
    by by vm_compute.
  destruct (run_platform KeyboardTask.sample_decoder sample_schedule sample_init) as [p|m|m] eqn:Hrun;
    [|discriminate Hat..].
  refine (bytes_read_are_shown snd fst (λ b, b) KeyboardTask.sample_decoder Logging.sample_level_fmt (λ _, true) 1
    (λ q, q) false KeyboardTask.sample_console sample_init p list_queue_laws
    Keyboard.bool_waker_laws _ eq_refl (platform_schedule_steps _ _ _ _ Hrun) _).
  - intros q c rest ->. exists rest. split; reflexivity.
  - destruct (at_ (keyboard p)); [discriminate Hat..|reflexivity].
Defined.

End KeyboardPath.
