(* ===== verification/TypedText.v ===== *)
(** * What is typed is on the screen

    The keyboard path of [KeyboardPath] and the terminal of [Terminal] together: from
    the bytes that the keyboard sends (kernel/src/interrupts.rs, kernel/src/task/) to the
    pixels of the framebuffer (kernel/src/vga_text_buffer.rs). *)

From Stdlib Require Import Ascii.
From S2P Require Import Prelude X86 Memory Paging Vga Terminal Logging IoApic LocalApic Pit Interrupts.
From S2P Require Import Task Keyboard KeyboardTask KeyboardPath.

Module TypedText.
#[local] Opaque Interrupts.IDT.
Import Interrupts (World, ports, keyboard).
Import Keyboard (DecodedKey, Unicode, RawKey).
Import KeyboardTask (system, stream, console, at_, Halted, Erasing, event, Key, Warning, keys, warnings, replay).
Import KeyboardPath (platform_step, controller_ok).
Import Terminal (terminal, edit, Text, Erase, term_edit, shows).

(** ** Keys as edits of the screen *)


Section Session.
Context `{!Font} {K : Type} (add_byte : K → Z → K * option DecodedKey) (level_fmt : Logging.Level → list Z).




Context {laws : FontLaws}.

End Session.

(** ** Properties *)


(** ** Witness *)

#[local] Existing Instances list_queue Vga.sample_font Keyboard.bool_waker.
#[local] Existing Instances LocalApic.trace_mem IoApic.chip_device Interrupts.queue_ports.



End TypedText.
