(* ===== verification/Acpi.v ===== *)
(** * ACPI: kernel/src/device/acpi/mod.rs, kernel/src/device/acpi/rsdp.rs, kernel/src/device/mod.rs

    Loading the tables, the memory, port and PCI accesses the AML interpreter asks
    for, and device errors.  The crates acpi and aml are parameters: what they find in
    the tables, and what parsing and running AML does.  Memory is read and written
    through the page tables of [Paging]. *)

From S2P Require Import Prelude X86 Memory Paging PciTypes Pci.
Import Pci.

Module Acpi.

(** ** kernel/src/device/mod.rs *)

Section Errors.
Context {AcpiError AmlError : Type}.

Inductive DeviceErrorKind := KindAcpi (e : AcpiError) | KindAml (e : AmlError).
Record DeviceError := mk_error { error_kind : DeviceErrorKind; error_region : string }.

Definition with_region (self : DeviceError) (region : string) : DeviceError :=
  mk_error (error_kind self) region.
Definition error_acpi (e : AcpiError) : DeviceError := mk_error (KindAcpi e) "(unknown)".
Definition error_aml (e : AmlError) : DeviceError := mk_error (KindAml e) "(unknown)".
End Errors.
Arguments DeviceErrorKind : clear implicits.
Arguments DeviceError : clear implicits.

(** ** Memory through the page tables *)

Fixpoint le_decode (bytes : list Z) : Z :=
  match bytes with
  | [] => 0
  | b :: bytes => b + 256 * le_decode bytes
  end.
Fixpoint le_encode (n : nat) (v : Z) : list Z :=
  match n with
  | O => []
  | S n => v `mod` 256 :: le_encode n (v `div` 256)
  end.

Section Memory.
Context `{!X86Addr} {M : Type} `{!Mapper M}.

(** The physical address behind a virtual one. *)
Definition virt_to_phys (m : M) (v : Z) : option Z :=
  '(f, _) ← mapping m (v - v `mod` page_size); Some (f + v `mod` page_size).

(** The bytes at [n] virtual addresses; an unmapped one is undefined behaviour. *)
Fixpoint load (m : M) (pm : Z → Z) (v : Z) (n : nat) : outcome (list Z) :=
  match n with
  | O => mret []
  | S n =>
      match virt_to_phys m v with
      | Some p => rest ← load m pm (v + 1) n; mret (pm p :: rest)
      | None => Undef "access to an unmapped page"
      end
  end.

Fixpoint store (m : M) (pm : Z → Z) (v : Z) (bytes : list Z) : outcome (Z → Z) :=
  match bytes with
  | [] => mret pm
  | b :: bytes =>
      match virt_to_phys m v with
      | Some p => store m (λ a, if a =? p then b else pm a) (v + 1) bytes
      | None => Undef "access to an unmapped page"
      end
  end.

(** [aml_read::<T>] for a type of [n] bytes, as its bytes in memory.  The mapping is
    dropped, and so unmapped, at the end; a misaligned dereference panics. *)
Definition aml_read (k : Kmem M) (pm : Z → Z) (address : Z) (n : nat) : outcome (list Z * Kmem M) :=
  '(region, k) ← map_physical_region k address (Z.of_nat n);
  assert_that (virtual_start region `mod` Z.of_nat n =? 0) "misaligned pointer dereference";;
  m ← unwrap (MAPPER k);
  bytes ← load m pm (virtual_start region) n;
  k ← unmap_physical_region k region;
  mret (bytes, k).

Definition aml_write (k : Kmem M) (pm : Z → Z) (address : Z) (bytes : list Z) :
    outcome ((Z → Z) * Kmem M) :=
  let n := length bytes in
  '(region, k) ← map_physical_region k address (Z.of_nat n);
  assert_that (virtual_start region `mod` Z.of_nat n =? 0) "misaligned pointer dereference";;
  m ← unwrap (MAPPER k);
  pm ← store m pm (virtual_start region) bytes;
  k ← unmap_physical_region k region;
  mret (pm, k).

(** The memory methods of the AML handler, for the width [w] in bytes. *)
Definition read_un (w : nat) (k : Kmem M) (pm : Z → Z) (address : Z) : outcome (Z * Kmem M) :=
  '(bytes, k) ← aml_read k pm address w; mret (le_decode bytes, k).
Definition write_un (w : nat) (k : Kmem M) (pm : Z → Z) (address value : Z) :
    outcome ((Z → Z) * Kmem M) :=
  aml_write k pm address (le_encode w value).
End Memory.

(** ** Ports and PCI *)

Section PortAccess.
Context {P : Type} `{!Ports P}.

Definition aml_read_port (p : P) (w port : Z) : Z * P := port_read p w port.
Definition aml_write_port (p : P) (w port value : Z) : P := port_write p w port value.

Record PciRequest := mk_request {
  req_segment : Z; req_bus : Z; req_device : Z; req_function : Z; req_offset : Z;
}.

Definition request_address (self : PciRequest) : Z :=
  Z.lor (Z.lor (Z.lor (Z.lor (wrap 32 (Z.shiftl (req_bus self) 16))
    (wrap 32 (Z.shiftl (req_device self) 11)))
    (wrap 32 (Z.shiftl (req_function self) 8)))
    (Z.land (req_offset self) 0xFC))
    0x80000000.

(** [aml_read_pci::<T>] for a type of [w] bits. *)
Definition aml_read_pci (p : P) (w : Z) (request : PciRequest) : Z * P :=
  let address := request_address request in
  let p := port_write p 32 0xCF8 address in
  port_read p w 0xCF8.

(** [aml_write_pci] only traces. *)
Definition aml_write_pci (p : P) (w : Z) (request : PciRequest) (value : Z) : P := p.

(** The methods of the handler for ports and configuration space, by their width. *)
Definition read_io (w : Z) (p : P) (port : Z) : Z * P := aml_read_port p w port.
Definition write_io (w : Z) (p : P) (port value : Z) : P := aml_write_port p w port value.
Definition read_pci (w : Z) (p : P) (segment bus device function offset : Z) : Z * P :=
  aml_read_pci p w (mk_request segment bus device function offset).
Definition write_pci (w : Z) (p : P) (segment bus device function offset value : Z) : P :=
  aml_write_pci p w (mk_request segment bus device function offset) value.
End PortAccess.

(** ** Loading the tables *)

Record AmlTable := mk_aml_table { table_address : Z; table_length : Z }.

Section Load.
Context `{!X86Addr} {M : Type} `{!Mapper M} {AcpiError AmlError C : Type}.
Local Abbreviation DeviceError := (DeviceError AcpiError AmlError).

(** [AmlContext::parse_table] on the bytes of a table. *)
Context (aml_parse : C → list Z → result AmlError unit * C).

Definition parse_table (k : Kmem M) (pm : Z → Z) (c : C) (table : AmlTable) :
    outcome (result DeviceError unit * C * Kmem M) :=
  '(region, k) ← map_physical_region k (table_address table) (table_length table);
  m ← unwrap (MAPPER k);
  data ← load m pm (virtual_start region) (Z.to_nat (region_length region));
  let '(r, c) := aml_parse c data in
  k ← unmap_physical_region k region;
  mret (match r with
        | Ok _ => Ok ()
        | Err x => Err (with_region (error_aml x) "parse_table")
        end, c, k).

Fixpoint parse_tables (k : Kmem M) (pm : Z → Z) (c : C) (tables : list AmlTable) :
    outcome (result DeviceError unit * C * Kmem M) :=
  match tables with
  | [] => mret (Ok (), c, k)
  | table :: tables =>
      '(r, c, k) ← parse_table k pm c table;
      match r with
      | Err e => mret (Err e, c, k)
      | Ok _ => parse_tables k pm c tables
      end
  end.

(** [load_acpi], with what the crate found as the DSDT and the SSDTs. *)
Definition load_acpi (k : Kmem M) (pm : Z → Z) (c : C) (dsdt : result AcpiError AmlTable)
    (ssdts : list AmlTable) : outcome (result DeviceError unit * C * Kmem M) :=
  match dsdt with
  | Err x => mret (Err (with_region (error_acpi x) "get dsdt"), c, k)
  | Ok dsdt =>
      '(r, c, k) ← parse_table k pm c dsdt;
      match r with
      | Err e => mret (Err e, c, k)
      | Ok _ => parse_tables k pm c ssdts
      end
  end.

(** ** [acpi::init]: what ends up in [ACPI_DATA] *)

Record AcpiData (Madt Fadt : Type) := mk_acpi_data {
  madt : option Madt; fadt : option Fadt; aml : option C;
}.
Arguments mk_acpi_data {Madt Fadt} _ _ _.
Arguments madt {Madt Fadt} _.
Arguments fadt {Madt Fadt} _.
Arguments aml {Madt Fadt} _.

(** The tables the crate finds behind a validated RSDP. *)
Record Tables (Madt Fadt : Type) := mk_tables {
  tables_fadt : option Fadt; tables_madt : option Madt;
  tables_dsdt : result AcpiError AmlTable; tables_ssdts : list AmlTable;
}.
Arguments tables_fadt {Madt Fadt} _.
Arguments tables_madt {Madt Fadt} _.
Arguments tables_dsdt {Madt Fadt} _.
Arguments tables_ssdts {Madt Fadt} _.

(** [find_rsdp]: at the address the bootloader gives (UEFI), or by the crate's search. *)
Definition find_rsdp (k : Kmem M) (rsdp_addr : option Z) (size_of_rsdp : Z)
    (search_on_bios : Kmem M → outcome (result AcpiError PhysicalMapping * Kmem M)) :
    outcome (option PhysicalMapping * Kmem M) :=
  match rsdp_addr with
  | Some addr => '(region, k) ← map_physical_region k addr size_of_rsdp; mret (Some region, k)
  | None =>
      '(r, k) ← search_on_bios k;
      mret (match r with Ok r => Some r | Err _ => None end, k)
  end.

Section Init.
Context {P Madt Fadt Regions : Type}.
(** The crates' part: whether an RSDP validates; the tables behind it, read through
    the handler's mappings; the PCI regions they list; a new interpreter; and its
    initialisation of objects, which may use memory and ports. *)
Context (validate : PhysicalMapping → bool)
  (from_validated_rsdp : Kmem M → PhysicalMapping →
     outcome (result AcpiError (Tables Madt Fadt) * Kmem M))
  (pci_config_regions : Tables Madt Fadt → option Regions)
  (aml_context_new : option Regions → C)
  (aml_initialize : C → Kmem M → P → outcome (result AmlError unit * C * Kmem M * P)).

(** [NoccioloAmlContext::new]. *)
Definition context_new (regions : option Regions) : C := aml_context_new regions.

Definition initialize_objects (c : C) (k : Kmem M) (p : P) :
    outcome (result DeviceError unit * C * Kmem M * P) :=
  '(r, c, k, p) ← aml_initialize c k p;
  mret (match r with
        | Ok _ => Ok ()
        | Err x => Err (with_region (error_aml x) "initialize_objects")
        end, c, k, p).

Definition init (k : Kmem M) (pm : Z → Z) (p : P) (data : AcpiData Madt Fadt)
    (rsdp_addr : option Z) (size_of_rsdp : Z)
    (search_on_bios : Kmem M → outcome (result AcpiError PhysicalMapping * Kmem M)) :
    outcome (AcpiData Madt Fadt * Kmem M * P) :=
  '(rsdp, k) ← find_rsdp k rsdp_addr size_of_rsdp search_on_bios;
  match rsdp with
  | None => mret (data, k, p)
  | Some rsdp =>
      if negb (validate rsdp) then k ← unmap_physical_region k rsdp; mret (data, k, p)
      else
        '(tables, k) ← from_validated_rsdp k rsdp;
        match tables with
        | Err _ => mret (data, k, p)
        | Ok tables =>
            let data := match tables_fadt tables with
                        | Some f => mk_acpi_data (madt data) (Some f) (aml data) | None => data end in
            let data := match tables_madt tables with
                        | Some m => mk_acpi_data (Some m) (fadt data) (aml data) | None => data end in
            let regions := pci_config_regions tables in
            let context := context_new regions in
            '(r, context, k) ← load_acpi k pm context (tables_dsdt tables) (tables_ssdts tables);
            match r with
            | Err _ => Panic "Failed to populate ACPI information"
            | Ok _ =>
                '(r, context, k, p) ← initialize_objects context k p;
                match r with
                | Err _ => Panic "Failed to initialize AML objects"
                | Ok _ => mret (mk_acpi_data (madt data) (fadt data) (Some context), k, p)
                end
            end
        end
  end.
End Init.
End Load.
Arguments AcpiData : clear implicits.
Arguments mk_acpi_data {C Madt Fadt} _ _ _.
Arguments madt {C Madt Fadt} _.
Arguments fadt {C Madt Fadt} _.
Arguments aml {C Madt Fadt} _.
Arguments Tables : clear implicits.
Arguments mk_tables {AcpiError Madt Fadt} _ _ _ _.
Arguments tables_fadt {AcpiError Madt Fadt} _.
Arguments tables_madt {AcpiError Madt Fadt} _.
Arguments tables_dsdt {AcpiError Madt Fadt} _.
Arguments tables_ssdts {AcpiError Madt Fadt} _.

(** ** The namespace dump *)

Section Debug.
(** The crate's namespace: its levels in order of traversal, each with its named
    values; looking a handle up; and which values are devices. *)
Context {Ns Name Level Seg Handle Value Er : Type}.
Context (traverse : Ns → result Er (list (Name * Level * list (Seg * Handle)))).
Context (ns_get : Ns → Handle → result Er Value) (is_device : Value → bool).

(** The lines logged. *)
Inductive debug_line :=
| TraverseKey (name : Name) (typ : Level)
| TraverseVal (name : Name) (seg : Seg) (value : result Er Value)
| AcpiDevice (name : Name) (seg : Seg).

Definition debug_data (levels : list (Name * Level * list (Seg * Handle))) :
    list (Name * Seg * Handle) :=
  mjoin ((λ '(name, _, values), (λ '(seg, val), (name, seg, val)) <$> values) <$> levels).

Definition debug (ns : Ns) : outcome (list debug_line) :=
  match traverse ns with
  | Err _ => Panic "Failed to traverse AML namespace"
  | Ok levels =>
      let data := debug_data levels in
      mret (((λ '(name, typ, _), TraverseKey name typ) <$> levels) ++
            ((λ '(name, seg, val), TraverseVal name seg (ns_get ns val)) <$> data) ++
            omap (λ '(name, seg, val),
              match ns_get ns val with
              | Ok value => if is_device value then Some (AcpiDevice name seg) else None
              | Err _ => None
              end) data)
  end.

(** A device line is logged exactly for the values of some level that are devices. *)
Lemma debug_devices ns levels lines name seg : traverse ns = Ok levels → debug ns = Ret lines →
  AcpiDevice name seg ∈ lines ↔
  ∃ typ values val value, (name, typ, values) ∈ levels ∧ (seg, val) ∈ values ∧
    ns_get ns val = Ok value ∧ is_device value = true.
Proof.
  intros Ht. unfold debug. rewrite Ht. intros [= <-]. rewrite !elem_of_app, !list_elem_of_fmap, list_elem_of_omap.
  assert (∀ n s v, (n, s, v) ∈ debug_data levels ↔
    ∃ typ values, (n, typ, values) ∈ levels ∧ (s, v) ∈ values) as Hdata.
  { intros n s v. unfold debug_data. rewrite list_elem_of_join. split.
    - intros (l & Hin & ([[n' t] vs] & -> & Hl)%list_elem_of_fmap).
      apply list_elem_of_fmap in Hin as ([s' v'] & [= -> -> ->] & Hin). eauto.
    - intros (t & vs & Hl & Hin). eexists. split; [|apply list_elem_of_fmap; by exists (n, t, vs)].
      apply list_elem_of_fmap. by exists (s, v). }
  split.
  - intros [([[n t] vs] & ? & _)|[([[n s] v] & ? & _)|([[n s] v] & (t & vs & Hl & Hin)%Hdata & Heq)]]; try done.
    destruct (ns_get ns v) as [|value] eqn:Hget; [done|]. destruct (is_device value) eqn:Hdev; [|done].
    simplify_eq. by exists t, vs, v, value.
  - intros (t & vs & v & value & Hl & Hin & Hget & Hdev). right; right. exists (name, seg, v).
    rewrite Hdata, Hget, Hdev. eauto.
Qed.
End Debug.

(** ** Proofs about memory accesses *)

Section MemoryProofs.
Context `{!X86Addr} {laws : X86AddrLaws} {M : Type} `{!Mapper M} {mlaws : MapperLaws M}.

Lemma byte_maps_phys (m : M) v p flags : byte_maps m v p flags → virt_to_phys m v = Some p.
Proof.
  intros [Hm Hmod]. unfold virt_to_phys. rewrite Hm. simpl. f_equal. lia.
Qed.

Lemma load_run n : ∀ (m : M) pm v p flags,
  (∀ i, 0 ≤ i < Z.of_nat n → byte_maps m (v + i) (p + i) flags) →
  load m pm v n = Ret (pm <$> seqZ p (Z.of_nat n)).
Proof.
  induction n as [|n IH]; intros m pm v p flags Hmaps; [done|]. cbn [load].
  pose proof (Hmaps 0 ltac:(lia)) as H0. rewrite !Z.add_0_r in H0.
  rewrite (byte_maps_phys _ _ _ _ H0).
  rewrite (IH m pm (v + 1) (p + 1) flags).
  - cbn [mbind outcome_bind mret outcome_ret]. rewrite (seqZ_cons p) by lia.
    replace (Z.pred (Z.of_nat (S n))) with (Z.of_nat n) by lia. done.
  - intros i Hi. replace (v + 1 + i) with (v + (i + 1)) by lia.
    replace (p + 1 + i) with (p + (i + 1)) by lia. apply Hmaps. lia.
Qed.

Lemma store_run bytes : ∀ (m : M) pm v p flags,
  (∀ i, 0 ≤ i < Z.of_nat (length bytes) → byte_maps m (v + i) (p + i) flags) →
  ∃ pm', store m pm v bytes = Ret pm' ∧
    (∀ i b, bytes !! i = Some b → pm' (p + Z.of_nat i) = b) ∧
    ∀ a, ¬ (p ≤ a < p + Z.of_nat (length bytes)) → pm' a = pm a.
Proof.
  induction bytes as [|b bytes IH]; intros m pm v p flags Hmaps; cbn [store].
  { exists pm. split; [done|]. split; [done|]. done. }
  pose proof (Hmaps 0 ltac:(simpl; lia)) as H0. rewrite !Z.add_0_r in H0.
  rewrite (byte_maps_phys _ _ _ _ H0).
  destruct (IH m (λ a, if a =? p then b else pm a) (v + 1) (p + 1) flags)
    as (pm' & Hrun & Hin & Hout).
  { intros i Hi. replace (v + 1 + i) with (v + (i + 1)) by lia.
    replace (p + 1 + i) with (p + (i + 1)) by lia. apply Hmaps. simpl. lia. }
  exists pm'. split; [done|]. split.
  - intros [|i] c Hc; simplify_eq/=.
    + rewrite Hout by lia. by rewrite Z.add_0_r, Z.eqb_refl.
    + replace (p + Z.of_nat (S i)) with (p + 1 + Z.of_nat i) by lia. by apply Hin.
  - intros a Ha. simpl in Ha. rewrite Hout by lia. by rewrite (proj2 (Z.eqb_neq a p)) by lia.
Qed.

(** A width of 1, 2, 4 or 8 bytes. *)
Definition access_width (n : nat) : Prop := (n = 1 ∨ n = 2 ∨ n = 4 ∨ n = 8)%nat.

Lemma aligned_start limit (k : Kmem M) m fa address n region :
  kmem_ok limit k m fa → access_width n → address `mod` Z.of_nat n = 0 →
  virtual_start region = PAGE_ALLOCATOR k + address `mod` page_size →
  virtual_start region `mod` Z.of_nat n = 0.
Proof.
  intros [_ _ _ [c Hc] _ _ _] Hw Ha ->. rewrite Hc. unfold page_size.
  destruct Hw as [-> | [-> | [-> | ->]]]; simpl Z.of_nat in *; [by rewrite Z.mod_1_r|zdm..].
Qed.

(** Mapping a region, using it and unmapping it: what every access shares. *)
Lemma region_run limit (k : Kmem M) m fa address size :
  kmem_ok limit k m fa → request_fits limit k address size →
  ∃ region k1 m1, map_physical_region k address size = Ret (region, k1) ∧
    virtual_start region = PAGE_ALLOCATOR k + address `mod` page_size ∧
    region_length region = size ∧ MAPPER k1 = Some m1 ∧
    (∀ i, 0 ≤ i < size → byte_maps m1 (virtual_start region + i) (address + i) device_flags) ∧
    ∃ k2 m2 fa2, unmap_physical_region k1 region = Ret k2 ∧ kmem_ok limit k2 m2 fa2 ∧
      same_space m m2 ∧
      PAGE_ALLOCATOR k2 = PAGE_ALLOCATOR k + page_size * region_pages address size ∧
      frames_used m m2 fa fa2 (Z.to_nat (3 * region_pages address size)).
Proof using laws mlaws.
  intros Hok Hfits.
  destruct (map_physical_region_run limit k m fa address _ Hok Hfits) as (m1 & fa1 & k1 & Hrun & Hk1 & Hok1 & _ & Hmaps).
  destruct (unmap_mapped_region limit k _ m fa address _ _ laws mlaws Hok Hfits Hrun)
    as (k2 & m2 & fa2 & Hun & Hok2 & Hsame & Hpa & Hfa & Hused).
  pose proof (ok_aligned _ _ _ _ Hok) as Hal.
  eexists _, k1, m1. split; [exact Hrun|]. split; [done|]. split; [done|]. split; [by rewrite Hk1|].
  split; [intros i Hi; by eapply maps_run_bytes|].
  exists k2, m2, fa2. split_and!; try done. rewrite Hpa, Hk1. done.
Qed.

Lemma le_roundtrip n : ∀ v, 0 ≤ v < 256 ^ Z.of_nat n → le_decode (le_encode n v) = v.
Proof.
  induction n as [|n IH]; intros v Hv; [simpl in *; lia|].
  cbn [le_encode le_decode]. rewrite Nat2Z.inj_succ, Z.pow_succ_r in Hv by lia.
  rewrite IH; [zdm|]. split; [apply Z.div_pos; lia|]. apply Z.div_lt_upper_bound; lia.
Qed.

Lemma le_encode_length n v : length (le_encode n v) = n.
Proof. revert v. induction n as [|n IH]; intros v; simpl; [done|]. by rewrite IH. Qed.

(** *** Parsing the tables in order *)

Context {AcpiError AmlError C : Type} (aml_parse : C → list Z → result AmlError unit * C).

(** The interpreter over the bytes of each table in turn, up to the first error. *)
Fixpoint parse_bytes (pm : Z → Z) (c : C) (tables : list AmlTable) :
    result (DeviceError AcpiError AmlError) unit * C :=
  match tables with
  | [] => (Ok (), c)
  | t :: tables =>
      match aml_parse c (pm <$> seqZ (table_address t) (table_length t)) with
      | (Ok _, c) => parse_bytes pm c tables
      | (Err x, c) => (Err (mk_error (KindAml x) "parse_table"), c)
      end
  end.

(** The tables lie in physical memory, the page allocator has room for them below [limit], with
    [frames] left for page tables. *)
Fixpoint tables_fit (limit cursor frames : Z) (tables : list AmlTable) : Prop :=
  match tables with
  | [] => True
  | t :: tables =>
      let pages := region_pages (table_address t) (table_length t) in
      let next := cursor + page_size * pages in
      0 ≤ table_address t ∧ 0 < table_length t ∧
      table_address t + table_length t + page_size < 2 ^ 52 ∧ next ≤ limit ∧
      3 * pages ≤ frames ∧ tables_fit limit next (frames - 3 * pages) tables
  end.

Lemma tables_fit_weaken limit tables : ∀ cursor frames frames',
  frames ≤ frames' → tables_fit limit cursor frames tables → tables_fit limit cursor frames' tables.
Proof.
  induction tables as [|t tables IH]; intros cursor frames frames' Hle; [done|]. cbn [tables_fit].
  intros (? & ? & ? & ? & ? & Hfit). split_and!; try done; [lia|]. eapply IH; [|exact Hfit]. lia.
Qed.

Lemma parse_table_run limit (k : Kmem M) m fa pm c t :
  kmem_ok limit k m fa → request_fits limit k (table_address t) (table_length t) →
  ∃ k' m' fa', parse_table (AcpiError := AcpiError) aml_parse k pm c t =
      Ret (parse_bytes pm c [t], k') ∧
    kmem_ok limit k' m' fa' ∧ same_space m m' ∧
    PAGE_ALLOCATOR k' =
      PAGE_ALLOCATOR k + page_size * region_pages (table_address t) (table_length t) ∧
    frames_used m m' fa fa' (Z.to_nat (3 * region_pages (table_address t) (table_length t))).
Proof using laws mlaws.
  intros Hok Hfits.
  destruct (region_run limit k m fa _ _ Hok Hfits)
    as (region & k1 & m1 & Hmap & _ & Hlen & Hm1 & Hbytes & k2 & m2 & fa2 & Hun & Hok2 & Hrest).
  exists k2, m2, fa2. split; [|done]. destruct Hfits as (_ & Hpos & _).
  unfold parse_table. rewrite Hmap. run_bind.
  rewrite Hm1, Hlen. cbn [unwrap expect mbind outcome_bind].
  rewrite (load_run _ m1 pm _ (table_address t) device_flags) by (rewrite Z2Nat.id by lia; done).
  rewrite Z2Nat.id by lia. cbn [mbind outcome_bind parse_bytes].
  destruct (aml_parse c _) as [[x|[]] c']; rewrite Hun; done.
Qed.

Lemma parse_tables_run tables : ∀ limit (k : Kmem M) m fa pm c,
  kmem_ok limit k m fa → tables_fit limit (PAGE_ALLOCATOR k) (frames_left k) tables →
  ∃ k' m' fa', parse_tables (AcpiError := AcpiError) aml_parse k pm c tables =
      Ret (parse_bytes pm c tables, k') ∧
    kmem_ok limit k' m' fa' ∧ same_space m m'.
Proof using laws mlaws.
  induction tables as [|t tables IH]; intros limit k m fa pm c Hok Hfits.
  { exists k, m, fa. by split_and!. }
  cbn [tables_fit] in Hfits. destruct Hfits as (Ha & Hl & Hphys & Hroom & Hleft & Hfits).
  destruct (parse_table_run limit k m fa pm c t Hok) as (k1 & m1 & fa1 & Hrun & Hok1 & Hsame1 & Hpa & Hused1);
    [done|].
  cbn [parse_tables]. rewrite Hrun. cbn [parse_bytes mbind outcome_bind].
  destruct (aml_parse c _) as [[x|[]] c1]; run_bind; [by exists k1, m1, fa1|].
  destruct (IH limit k1 m1 fa1 pm c1 Hok1) as (k2 & m2 & fa2 & Hrun2 & Hok2 & Hsame2).
  { rewrite Hpa. eapply tables_fit_weaken; [|exact Hfits].
    destruct (region_pages_bounds (table_address t) (table_length t) Ha Hl) as (Hn & _).
    pose proof (frames_left_used limit k k1 _ _ _ _ (3 * region_pages (table_address t) (table_length t)) Hok Hok1
      ltac:(lia) Hused1). lia. }
  exists k2, m2, fa2. split; [done|]. split; [done|]. by etransitivity.
Qed.
End MemoryProofs.

(** ** Properties *)

(** A memory read for the AML interpreter returns the bytes at the physical
    address, wherever it lies in its page, and leaves every page of the address space
    as it was; only the page allocator's cursor moves on. *)
Theorem aml_read_correct `{!X86Addr} {M} `{!Mapper M} limit (k : Kmem M) m fa pm address n
    (Hlaws : X86AddrLaws) (Hmlaws : MapperLaws M)
    (Hok : kmem_ok limit k m fa) (Hfits : request_fits limit k address (Z.of_nat n))
    (Hw : access_width n) (Hal : address `mod` Z.of_nat n = 0) :
  ∃ k' m' fa', aml_read k pm address n = Ret (pm <$> seqZ address (Z.of_nat n), k') ∧
    kmem_ok limit k' m' fa' ∧ same_space m m' ∧
    PAGE_ALLOCATOR k' = PAGE_ALLOCATOR k + page_size * region_pages address (Z.of_nat n).
Proof.
  destruct (region_run limit k m fa address _ Hok Hfits)
    as (region & k1 & m1 & Hmap & Hvs & _ & Hm1 & Hbytes & k2 & m2 & fa2 & Hun & Hok2 & Hsame & Hpa & _).
  exists k2, m2, fa2. split; [|done]. unfold aml_read. rewrite Hmap. run_bind.
  rewrite (aligned_start limit k m fa address n region Hok Hw Hal Hvs), Hm1. cbn [Z.eqb assert_that unwrap expect mbind outcome_bind].
  rewrite (load_run n m1 pm _ _ _ Hbytes). run_bind. by rewrite Hun.
Qed.

(** C29: Memory accesses of the AML interpreter round-trip: a value written at an
    aligned physical address is read back, no byte outside it changes, and the address
    space is as before. *)
Theorem aml_memory_roundtrip `{!X86Addr} {M} `{!Mapper M} limit (k : Kmem M) m fa pm address n value
    (Hlaws : X86AddrLaws) (Hmlaws : MapperLaws M)
    (Hok : kmem_ok limit k m fa) (Hw : access_width n) (Hal : address `mod` Z.of_nat n = 0)
    (Hfits : request_fits limit k address (2 * page_size)) (Hv : 0 ≤ value < 256 ^ Z.of_nat n) :
  ∃ pm1 k1 k2 m2 fa2, write_un n k pm address value = Ret (pm1, k1) ∧
    read_un n k1 pm1 address = Ret (value, k2) ∧ kmem_ok limit k2 m2 fa2 ∧
    same_space m m2 ∧
    ∀ a, ¬ (address ≤ a < address + Z.of_nat n) → pm1 a = pm a.
Proof.
  assert (1 ≤ Z.of_nat n ≤ 8) as Hn by (destruct Hw as [-> | [-> | [-> | ->]]]; lia).
  destruct Hfits as (Ha0 & _ & Hphys & Hroom & Hleft).
  assert (region_pages address (Z.of_nat n) = 1) as Hone.
  { unfold region_pages, page_size. destruct Hw as [-> | [-> | [-> | ->]]]; simpl Z.of_nat in *; zdm. }
  assert (2 ≤ region_pages address (2 * page_size)) as Htwo by (unfold region_pages, page_size; zdm).
  assert (request_fits limit k address (Z.of_nat n)) as Hf1.
  { split; [done|]. split; [lia|]. rewrite Hone. unfold page_size in *. lia. }
  destruct (region_run limit k m fa address _ Hok Hf1)
    as (region & k1 & m1 & Hmap & Hvs & _ & Hm1 & Hbytes & k2 & m2 & fa2 & Hun & Hok2 & Hsame & Hpa & Hleft2).
  rewrite Hone in Hpa, Hleft2. apply (frames_left_used limit k k2 _ _ _ _ 3 Hok Hok2 ltac:(lia)) in Hleft2.
  destruct (store_run (le_encode n value) m1 pm (virtual_start region) address device_flags)
    as (pm1 & Hstore & Hin & Hout); [by rewrite le_encode_length|].
  rewrite le_encode_length in Hout.
  assert (request_fits limit k2 address (Z.of_nat n)) as Hf2.
  { split; [done|]. split; [lia|]. rewrite Hone, Hpa. unfold page_size in *. lia. }
  destruct (region_run limit k2 m2 fa2 address _ Hok2 Hf2)
    as (region' & k3 & m3 & Hmap' & Hvs' & _ & Hm3 & Hbytes' & k4 & m4 & fa4 & Hun' & Hok4 & Hsame' & _).
  exists pm1, k2, k4, m4, fa4. split; [|split; [|split; [done|split; [|done]]]].
  - unfold write_un, aml_write. rewrite le_encode_length, Hmap. run_bind.
    rewrite (aligned_start limit k m fa address n region Hok Hw Hal Hvs), Hm1. cbn [Z.eqb assert_that unwrap expect mbind outcome_bind].
    rewrite Hstore. run_bind. by rewrite Hun.
  - unfold read_un, aml_read. rewrite Hmap'. run_bind.
    rewrite (aligned_start limit k2 m2 fa2 address n region' Hok2 Hw Hal Hvs'), Hm3. cbn [Z.eqb assert_that unwrap expect mbind outcome_bind].
    rewrite (load_run n m3 pm1 _ _ _ Hbytes'). run_bind. rewrite Hun'.
    cbn [mbind outcome_bind mret outcome_ret]. do 2 f_equal. rewrite <-(le_roundtrip n value Hv).
    f_equal. apply list_eq. intros i. rewrite list_lookup_fmap.
    destruct (decide (i < n)%nat).
    + rewrite lookup_seqZ_lt by lia. simpl.
      destruct (lookup_lt_is_Some_2 (le_encode n value) i) as [b Hb]; [by rewrite le_encode_length|].
      rewrite Hb. f_equal. by apply Hin.
    + rewrite lookup_seqZ_ge by lia. symmetry. apply lookup_ge_None. rewrite le_encode_length. lia.
  - by etransitivity.
Qed.

(** C30: Loading ACPI hands the interpreter the exact bytes of the DSDT and then of each
    SSDT, in order, up to the first table it rejects; that error is returned, tagged
    with its region, and no mapping is left behind. *)
Theorem load_acpi_parses_tables `{!X86Addr} {M} `{!Mapper M} {AcpiError AmlError C}
    (aml_parse : C → list Z → result AmlError unit * C) limit (k : Kmem M) m fa pm c dsdt ssdts
    (Hlaws : X86AddrLaws) (Hmlaws : MapperLaws M)
    (Hok : kmem_ok limit k m fa) (Hfits : tables_fit limit (PAGE_ALLOCATOR k) (frames_left k) (dsdt :: ssdts)) :
  ∃ k' m' fa', load_acpi (AcpiError := AcpiError) aml_parse k pm c (Ok dsdt) ssdts =
      Ret (parse_bytes aml_parse pm c (dsdt :: ssdts), k') ∧
    kmem_ok limit k' m' fa' ∧ same_space m m'.
Proof. by eapply (parse_tables_run aml_parse (dsdt :: ssdts)). Qed.

(** A PCI configuration read asked for by AML does not read the device: the value
    returned is the address that was just written, whatever is configured there. *)
Theorem aml_read_pci_returns_address {P} `{!Ports P} latched conf (p : P) (r : PciRequest)
    (Hhost : PciHost P latched conf)
    (Hwf : address_wf (mk_pci_address 0 (req_bus r) (req_device r) (req_function r)))
    (Ho : 0 ≤ req_offset r < 256) :
  (aml_read_pci p 32 r).1 =
    create_local_bus_address (mk_pci_address 0 (req_bus r) (req_device r) (req_function r))
      (req_offset r) true ∧
  ∀ q : P, (aml_read_pci q 32 r).1 = (aml_read_pci p 32 r).1.
Proof.
  assert (∀ q : P, (aml_read_pci q 32 r).1 = request_address r) as Hq.
  { intros q. unfold aml_read_pci. rewrite (host_address_read (latched := latched) (conf := conf)).
    apply (host_address (latched := latched) (conf := conf)).
    by destruct (config_address_run _ (req_offset r) true Hwf Ho) as (_ & _ & _ & _ & _ & H). }
  split; [by rewrite Hq|]. intros q. by rewrite !Hq.
Qed.

(** ** Witnesses *)

#[local] Existing Instances addr_model map_model addr_model_laws map_model_laws bridge_ports.

Definition sample_pm (a : Z) : Z := a `mod` 251.

Lemma aml_read_correct_witness :
  ∃ k' m' fa', aml_read sample_kmem sample_pm 0x1ffc 4 = Ret (sample_pm <$> seqZ 0x1ffc 4, k') ∧
    kmem_ok sample_top k' m' fa' ∧ same_space sample_map m' ∧
    PAGE_ALLOCATOR k' = 0x1000000000 + page_size * region_pages 0x1ffc 4.
Proof.
  refine (aml_read_correct sample_top sample_kmem _ _ sample_pm 0x1ffc 4 addr_model_laws map_model_laws
    sample_kmem_ok _ _ _); [by vm_compute|unfold access_width; lia|done].
Defined.

Lemma aml_memory_roundtrip_witness :
  ∃ pm1 k1 k2 m2 fa2, write_un 4 sample_kmem sample_pm 0x1ffc 0x12345678 = Ret (pm1, k1) ∧
    read_un 4 k1 pm1 0x1ffc = Ret (0x12345678, k2) ∧ kmem_ok sample_top k2 m2 fa2 ∧
    same_space sample_map m2 ∧
    ∀ a, ¬ (0x1ffc ≤ a < 0x1ffc + Z.of_nat 4) → pm1 a = sample_pm a.
Proof.
  refine (aml_memory_roundtrip sample_top sample_kmem _ _ sample_pm 0x1ffc 4 0x12345678 addr_model_laws
    map_model_laws sample_kmem_ok _ _ _ _);
    [unfold access_width; lia|done|by vm_compute|by vm_compute].
Defined.

(** An interpreter that rejects a table starting with a zero byte. *)
Definition sample_parse (c : list (list Z)) (data : list Z) : result string unit * list (list Z) :=
  match data with
  | 0 :: _ => (Err "unexpected byte", c)
  | _ => (Ok (), c ++ [data])
  end.

Lemma load_acpi_parses_tables_witness :
  ∃ k' m' fa', load_acpi (AcpiError := string) sample_parse sample_kmem sample_pm []
      (Ok (mk_aml_table 0x2001 3)) [mk_aml_table 0x3001 2; mk_aml_table (251 * 64) 8; mk_aml_table 1 1] =
      Ret (Err (mk_error (KindAml "unexpected byte") "parse_table"),
           [sample_pm <$> [0x2001; 0x2002; 0x2003]; sample_pm <$> [0x3001; 0x3002]], k') ∧
    kmem_ok sample_top k' m' fa' ∧ same_space sample_map m'.
Proof.
  refine (load_acpi_parses_tables sample_parse sample_top sample_kmem _ _ sample_pm [] (mk_aml_table 0x2001 3) _
    addr_model_laws map_model_laws sample_kmem_ok _). by vm_compute.
Defined.

Lemma aml_read_pci_returns_address_witness :
  (aml_read_pci sample_bridge 32 (mk_request 0 0 3 0 0)).1 = 0x80001800 ∧
  ∀ q : bridge, (aml_read_pci q 32 (mk_request 0 0 3 0 0)).1 =
    (aml_read_pci sample_bridge 32 (mk_request 0 0 3 0 0)).1.
Proof.
  refine (aml_read_pci_returns_address b_latched bridge_conf sample_bridge (mk_request 0 0 3 0 0)
    bridge_host _ _); by vm_compute.
Defined.

End Acpi.
