(* ===== verification/System.v ===== *)
(** * Shutdown: kernel/src/meta/system.rs and the sleep methods of kernel/src/device/acpi/mod.rs

    Choosing a way to power off, and the ACPI way: prepare to sleep, write the sleep
    type to the power-management control blocks, and wake up again if that fails.
    The AML interpreter of the crate aml is a parameter, a class [Aml]; so are the I/O
    ports and the processor's brand string. *)

From S2P Require Import Prelude X86 Acpi.
Import Acpi.

(** ** The crates aml and acpi *)

(** The values the code tells apart. *)
#[warnings="-register-all"]
Inductive AmlValue := Integer (v : Z) | Package (values : list AmlValue) | OtherValue.

(** [aml_missing] is the name inside [AmlError::ValueDoesNotExist].  A method may use
    the ports, so the interpreter is handed them. *)
Class Aml (C P N E : Type) := {
  aml_name : string → result E N;
  name_string : N → string;
  aml_missing : E → option N;
  aml_invoke : C → P → N → list (option AmlValue) → result E AmlValue * C * P;
  aml_lookup : C → N → result E AmlValue;
}.
#[global] Hint Mode Aml ! - - - : typeclass_instances.

Inductive AddressSpace := SystemIo | OtherSpace (id : Z).
Record GenericAddress := mk_address { address_space : AddressSpace; address : Z }.

(** What the shutdown reads of the FADT. *)
Record Fadt (A : Type) := mk_fadt {
  pm1a_control_block : result A GenericAddress;
  pm1b_control_block : result A (option GenericAddress);
}.
Arguments mk_fadt {A} _ _.
Arguments pm1a_control_block {A} _.
Arguments pm1b_control_block {A} _.

Module System.

Definition ACPI_SLP_EN : Z := Z.shiftl 1 13.

Inductive SystemState := S0 | S1 | S2 | S3 | S4 | S5.
Definition state_u32 (s : SystemState) : Z :=
  match s with S0 => 0 | S1 => 1 | S2 => 2 | S3 => 3 | S4 => 4 | S5 => 5 end.

Inductive HypervisorKind := Bochs | QemuOld | QemuNew | VMWare | VirtualBox.

Section Shutdown.
Context {C P N E A Madt : Type} `{!Aml C P N E} `{!Ports P}.

Inductive AcpiShutdownErrorKind :=
| ErrAcpi (e : A) | ErrAml (e : E) | NoAml | NoFadt
| PmControlAddressNotInIoPortRange (address : Z)
| PmControlBlockNotInSystemIoSpace (space : AddressSpace)
| S5PathNotPackage | S5ValueNotInteger | S5ValueOutsideWordSize (value : Z).

(** [ACPI_DATA], whether its lock is held, and the ports. *)
Record Machine := mk_machine {
  ACPI_DATA : AcpiData C Madt (Fadt A); locked : bool; ports : P;
}.

Definition set_aml (s : Machine) (c : C) (p : P) : Machine :=
  mk_machine (mk_acpi_data (madt (ACPI_DATA s)) (fadt (ACPI_DATA s)) (Some c)) (locked s) p.

(** *** Methods of [NoccioloAmlContext] *)

Definition invoke_method1 (c : C) (p : P) (name : N) (arg : AmlValue) : result E AmlValue * C * P :=
  aml_invoke c p name (Some arg :: replicate 6 None).

Definition invoke_discarding (c : C) (p : P) (name : string) (arg : AmlValue) : result E unit * C * P :=
  match aml_name (C := C) (P := P) name with
  | Err e => (Err e, c, p)
  | Ok method_name =>
      let '(r, c, p) := invoke_method1 c p method_name arg in
      (match r with Err e => Err e | Ok _ => Ok () end, c, p)
  end.

Definition invoke_prepare_to_sleep (c : C) (p : P) (sleeping_state : SystemState) : result E unit * C * P :=
  invoke_discarding c p "\_PTS" (Integer (state_u32 sleeping_state)).

Definition invoke_system_wake (c : C) (p : P) (sleeping_state : SystemState) : result E unit * C * P :=
  invoke_discarding c p "\_WAK" (Integer (state_u32 sleeping_state)).

(** *** kernel/src/meta/system.rs *)

Definition detect_hypervisor (brand : option string) : option HypervisorKind :=
  cpu ← brand;
  if String.eqb cpu "TCGTCGTCGTCG" then Some QemuOld
  else if String.eqb cpu "QEMU Virtual CPU version 2.5+" then Some QemuNew
  else if String.eqb cpu "VMwareVMware" then Some VMWare
  else if String.eqb cpu "VBoxVBoxVBox" then Some VMWare
  else None.

(** Locking a mutex that is held waits for ever on the only processor. *)
Definition lock (s : Machine) : outcome unit :=
  if locked s then Undef "the lock is never released" else mret ().

Definition before_acpi_shutdown (s : Machine) :
    outcome (result AcpiShutdownErrorKind unit * Machine) :=
  lock s;;
  match aml (ACPI_DATA s) with
  | None => mret (Ok (), s)
  | Some c =>
      let '(r, c, p) := invoke_prepare_to_sleep c (ports s) S5 in
      let s := set_aml s c p in
      match r with
      | Ok _ => mret (Ok (), s)
      | Err e =>
          match aml_missing (C := C) (P := P) e with
          | Some name =>
              if negb (String.eqb (name_string (C := C) (P := P) (E := E) name) "\_PTS")
              then mret (Err (ErrAml e), s) else mret (Ok (), s)
          | None => mret (Err (ErrAml e), s)
          end
      end
  end.

Definition recover_acpi_shutdown (s : Machine) : Machine :=
  if locked s then s else
  match aml (ACPI_DATA s) with
  | None => s
  | Some c => let '(_, c, p) := invoke_system_wake c (ports s) S5 in set_aml s c p
  end.

Definition perform_acpi_sleep (p : P) (s5_value : AmlValue) (control_block : GenericAddress) :
    result AcpiShutdownErrorKind unit * P :=
  match s5_value with
  | Integer sleep_type =>
      if 0xFFFF <? sleep_type then (Err (S5ValueOutsideWordSize sleep_type), p) else
      match address_space control_block with
      | SystemIo =>
          if 0xFFFF <? address control_block
          then (Err (PmControlAddressNotInIoPortRange (address control_block)), p)
          else (Ok (), port_write p 16 (address control_block) (Z.lor ACPI_SLP_EN sleep_type))
      | space => (Err (PmControlBlockNotInSystemIoSpace space), p)
      end
  | _ => (Err S5ValueNotInteger, p)
  end.

(** [s5_pkg[i]] panics out of range. *)
Definition package_index (pkg : list AmlValue) (i : nat) : outcome AmlValue :=
  match pkg !! i with Some v => mret v | None => Panic "index out of bounds" end.

Definition do_shutdown_using_acpi (s : Machine) :
    outcome (result AcpiShutdownErrorKind unit * Machine) :=
  lock s;;
  match aml (ACPI_DATA s), fadt (ACPI_DATA s) with
  | None, _ => mret (Err NoAml, s)
  | Some _, None => mret (Err NoFadt, s)
  | Some c, Some f =>
      match aml_name (C := C) (P := P) "\_S5_" with
      | Err e => mret (Err (ErrAml e), s)
      | Ok s5_path =>
          match aml_lookup (P := P) c s5_path with
          | Err e => mret (Err (ErrAml e), s)
          | Ok (Package s5_pkg) =>
              match pm1a_control_block f with
              | Err e => mret (Err (ErrAcpi e), s)
              | Ok pm1a =>
                  v ← package_index s5_pkg 0;
                  let '(r, p) := perform_acpi_sleep (ports s) v pm1a in
                  let s := mk_machine (ACPI_DATA s) (locked s) p in
                  match r with
                  | Err e => mret (Err e, s)
                  | Ok _ =>
                      match pm1b_control_block f with
                      | Err e => mret (Err (ErrAcpi e), s)
                      | Ok None => mret (Ok (), s)
                      | Ok (Some pm1b) =>
                          v ← package_index s5_pkg 1;
                          let '(r, p) := perform_acpi_sleep (ports s) v pm1b in
                          mret (r, mk_machine (ACPI_DATA s) (locked s) p)
                      end
                  end
              end
          | Ok _ => mret (Err S5PathNotPackage, s)
          end
      end
  end.

Definition shutdown_using_acpi (s : Machine) :
    outcome (result AcpiShutdownErrorKind unit * Machine) :=
  '(r, s) ← before_acpi_shutdown s;
  match r with
  | Err err => mret (Err err, recover_acpi_shutdown s)
  | Ok _ =>
      '(r, s) ← do_shutdown_using_acpi s;
      match r with
      | Err err => mret (Err err, recover_acpi_shutdown s)
      | Ok _ => mret (Ok (), s)
      end
  end.

Definition write_port (s : Machine) (port value : Z) : Machine :=
  mk_machine (ACPI_DATA s) (locked s) (port_write (ports s) 16 port value).

Definition request_shutdown (brand : option string) (s : Machine) : outcome Machine :=
  match detect_hypervisor brand with
  | Some Bochs => mret (write_port s 0xB004 0x2000)
  | Some QemuOld => mret (write_port s 0x604 0x2000)
  | Some VirtualBox => mret (write_port s 0x4004 0x3400)
  | _ =>
      '(r, s) ← shutdown_using_acpi s;
      match r with
      | Err _ => Panic "Failed to shutdown using ACPI"
      | Ok _ => mret s
      end
  end.
End Shutdown.
Arguments AcpiShutdownErrorKind : clear implicits.
Arguments Machine : clear implicits.

(** ** Proofs *)

Section ShutdownProofs.
Context {C P N E A Madt : Type} `{!Aml C P N E} `{!Ports P}.
Local Abbreviation World := (Machine C P A Madt).

Lemma before_run (s : World) c :
  locked s = false → aml (ACPI_DATA s) = Some c →
  ∃ r c' p', invoke_prepare_to_sleep c (ports s) S5 = (r, c', p') ∧
    ∃ r', before_acpi_shutdown (A := A) s = Ret (r', set_aml s c' p') ∧
    (∀ err, r' = Err err → ∃ e, r = Err e ∧ err = ErrAml e).
Proof.
  intros Hl Hc. unfold before_acpi_shutdown, lock. rewrite Hl, Hc.
  cbn [mbind outcome_bind mret outcome_ret].
  destruct (invoke_prepare_to_sleep c (ports s) S5) as [[[e|u] c'] p'].
  - eexists _, c', p'. split; [done|]. destruct (aml_missing e) as [n|]; [|by naive_solver].
    destruct (negb _); naive_solver.
  - eexists _, c', p'. split; [done|]. eexists. split; [done|]. done.
Qed.

(** The ACPI data is only read. *)
Lemma do_shutdown_keeps (s s' : World) r :
  do_shutdown_using_acpi s = Ret (r, s') → locked s' = locked s ∧ ACPI_DATA s' = ACPI_DATA s.
Proof.
  unfold do_shutdown_using_acpi, lock, package_index. intros H.
  repeat (case_match || (progress inv_outcome) || (progress (simplify_eq; simpl in *))); done.
Qed.

Lemma do_shutdown_run (s : World) c f s5 pkg a pm1a :
  locked s = false → aml (ACPI_DATA s) = Some c → fadt (ACPI_DATA s) = Some f →
  aml_name (C := C) (P := P) "\_S5_" = Ok s5 → aml_lookup (P := P) c s5 = Ok (Package pkg) →
  pkg !! 0%nat = Some (Integer a) → a ≤ 0xFFFF →
  pm1a_control_block f = Ok (mk_address SystemIo pm1a) → pm1a ≤ 0xFFFF →
  let p := port_write (ports s) 16 pm1a (Z.lor ACPI_SLP_EN a) in
  (pm1b_control_block f = Ok None →
   do_shutdown_using_acpi s = Ret (Ok (), mk_machine (ACPI_DATA s) false p)) ∧
  (∀ b pm1b, pm1b_control_block f = Ok (Some (mk_address SystemIo pm1b)) → pm1b ≤ 0xFFFF →
   pkg !! 1%nat = Some (Integer b) → b ≤ 0xFFFF →
   do_shutdown_using_acpi s =
     Ret (Ok (), mk_machine (ACPI_DATA s) false (port_write p 16 pm1b (Z.lor ACPI_SLP_EN b)))).
Proof.
  intros Hl Hc Hf Hn Hlk Ha Ha' H1a H1a' p.
  unfold do_shutdown_using_acpi, lock, package_index, perform_acpi_sleep.
  rewrite Hl, Hc, Hf, Hn. cbn [mbind outcome_bind mret outcome_ret].
  rewrite Hlk, H1a, Ha. cbn [mbind outcome_bind mret outcome_ret address_space address].
  rewrite !(proj2 (Z.ltb_ge _ _)) by done. split.
  - intros ->. done.
  - intros b pm1b -> Hp Hb Hb'. rewrite Hb. cbn [mbind outcome_bind mret outcome_ret].
    by rewrite !(proj2 (Z.ltb_ge _ _)) by done.
Qed.
End ShutdownProofs.

(** ** Properties *)

(** A shutdown that is aborted tells the platform so: whenever the ACPI shutdown
    returns an error on a machine with AML, its last action is to run _WAK for S5; with
    no AML it is NoAml and nothing has changed. *)
Theorem aborted_shutdown_wakes {C P N E A Madt} `{!Aml C P N E} `{!Ports P}
    (s s' : Machine C P A Madt) err (Hl : locked s = false)
    (Hrun : shutdown_using_acpi s = Ret (Err err, s')) :
  match aml (ACPI_DATA s) with
  | None => err = NoAml ∧ s' = s
  | Some _ => ∃ c p r c' p', invoke_system_wake c p S5 = (r, c', p') ∧
      aml (ACPI_DATA s') = Some c' ∧ ports s' = p'
  end.
Proof.
  assert (∀ (s1 : Machine C P A Madt) c, locked s1 = false → aml (ACPI_DATA s1) = Some c →
    ∃ c p r c' p', invoke_system_wake c p S5 = (r, c', p') ∧
      aml (ACPI_DATA (recover_acpi_shutdown s1)) = Some c' ∧
      ports (recover_acpi_shutdown s1) = p') as Hwake.
  { intros s1 c Hl1 Hc1. unfold recover_acpi_shutdown. rewrite Hl1, Hc1.
    destruct (invoke_system_wake c (ports s1) S5) as [[r c'] p'] eqn:Hw. by eauto 10. }
  unfold shutdown_using_acpi in Hrun. destruct (aml (ACPI_DATA s)) as [c|] eqn:Hc.
  - destruct (before_run s c Hl Hc) as (r & c1 & p1 & _ & r' & Hb & _).
    rewrite Hb in Hrun. run_bind in Hrun. destruct r' as [e|[]].
    + injection Hrun as <- <-. by eapply Hwake.
    + apply bind_Ret in Hrun as ([[e|[]] s1] & Hdo & Hrun); [|done].
      injection Hrun as <- <-.
      destruct (do_shutdown_keeps _ _ _ Hdo) as [Hl1 Hd1]. eapply Hwake; by rewrite ?Hl1, ?Hd1.
  - unfold before_acpi_shutdown, do_shutdown_using_acpi, lock in Hrun. rewrite Hl, Hc in Hrun.
    cbn [mbind outcome_bind mret outcome_ret] in Hrun. rewrite Hl, Hc in Hrun.
    cbn [mbind outcome_bind mret outcome_ret] in Hrun. injection Hrun as <- <-.
    split; [done|]. unfold recover_acpi_shutdown. by rewrite Hl, Hc.
Qed.

(** C31: With working ACPI tables the shutdown runs _PTS for S5, then writes the sleep
    enable bit with the first value of _S5_ to the PM1a control port and, when there is
    a PM1b block, with the second value to its port, in this order; it then returns. *)
Theorem shutdown_writes_control_blocks {C P N E A Madt} `{!Aml C P N E} `{!Ports P}
    (s : Machine C P A Madt) c f pts c1 p1 s5 pkg a pm1a
    (Hl : locked s = false) (Hc : aml (ACPI_DATA s) = Some c) (Hf : fadt (ACPI_DATA s) = Some f)
    (Hpts : aml_name (C := C) (P := P) "\_PTS" = Ok pts)
    (Hinv : ∃ v, aml_invoke c (ports s) pts (Some (Integer 5) :: replicate 6 None) = (Ok v, c1, p1))
    (Hs5 : aml_name (C := C) (P := P) "\_S5_" = Ok s5)
    (Hpkg : aml_lookup (P := P) c1 s5 = Ok (Package pkg))
    (Ha : pkg !! 0%nat = Some (Integer a)) (Ha' : a ≤ 0xFFFF)
    (H1a : pm1a_control_block f = Ok (mk_address SystemIo pm1a)) (H1a' : pm1a ≤ 0xFFFF) :
  let p2 := port_write p1 16 pm1a (Z.lor ACPI_SLP_EN a) in
  (pm1b_control_block f = Ok None →
   ∃ s', shutdown_using_acpi s = Ret (Ok (), s') ∧ ports s' = p2) ∧
  (∀ b pm1b, pm1b_control_block f = Ok (Some (mk_address SystemIo pm1b)) → pm1b ≤ 0xFFFF →
   pkg !! 1%nat = Some (Integer b) → b ≤ 0xFFFF →
   ∃ s', shutdown_using_acpi s = Ret (Ok (), s') ∧
     ports s' = port_write p2 16 pm1b (Z.lor ACPI_SLP_EN b)).
Proof.
  destruct Hinv as [v Hinv].
  assert (before_acpi_shutdown s = Ret (Ok (), set_aml s c1 p1)) as Hb.
  { unfold before_acpi_shutdown, lock, invoke_prepare_to_sleep, invoke_discarding, invoke_method1.
    rewrite Hl, Hc, Hpts. run_bind. simpl state_u32. by rewrite Hinv. }
  destruct (do_shutdown_run (set_aml s c1 p1) c1 f s5 pkg a pm1a) as [Hnone Hsome]; try done.
  intros p2. unfold shutdown_using_acpi. rewrite Hb. run_bind. split.
  - intros H1b. rewrite (Hnone H1b). by eexists.
  - intros b pm1b H1b Hp Hb' Hb''. rewrite (Hsome b pm1b H1b Hp Hb' Hb''). by eexists.
Qed.

(** The fields of the PM1 control register. *)
Definition slp_typ (w : Z) : Z := Z.land (Z.shiftr w 10) 7.
Definition slp_en (w : Z) : bool := Z.testbit w 13.

(** The sleep type is not moved to its field: for every 3-bit sleep type of _S5_,
    the word written asks for the transition with the type 0, so the platform enters
    the soft-off state only where that type is 0. *)
Theorem sleep_type_not_shifted {P E A} `{!Ports P} (p : P) (a pm1 : Z)
    (Ha : 0 ≤ a < 8) (Hp : pm1 ≤ 0xFFFF) :
  ∃ w, perform_acpi_sleep (E := E) (A := A) p (Integer a) (mk_address SystemIo pm1) =
      (Ok (), port_write p 16 pm1 w) ∧
    slp_en w = true ∧ slp_typ w = 0.
Proof.
  exists (Z.lor ACPI_SLP_EN a). unfold perform_acpi_sleep. simpl address_space. simpl address.
  rewrite !(proj2 (Z.ltb_ge _ _)) by lia. split; [done|].
  assert (a = 0 ∨ a = 1 ∨ a = 2 ∨ a = 3 ∨ a = 4 ∨ a = 5 ∨ a = 6 ∨ a = 7) as Hcases by lia.
  by destruct_or! Hcases; subst.
Qed.

(** Of the ports that turn a hypervisor off only QEMU's old one is ever written:
    VirtualBox is taken for VMware and Bochs is not recognised, so every other machine
    goes through ACPI. *)
Theorem request_shutdown_by_brand {C P N E A Madt} `{!Aml C P N E} `{!Ports P}
    (s : Machine C P A Madt) (brand : option string) :
  request_shutdown brand s =
    if decide (brand = Some "TCGTCGTCGTCG"%string) then mret (write_port s 0x604 0x2000)
    else '(r, s') ← shutdown_using_acpi s;
         match r with Err _ => Panic "Failed to shutdown using ACPI" | Ok _ => mret s' end.
Proof.
  unfold request_shutdown, detect_hypervisor. destruct brand as [b|]; [|done]. cbn [mbind option_bind].
  destruct (String.eqb_spec b "TCGTCGTCGTCG") as [->|Hne].
  - by rewrite decide_True by done.
  - rewrite decide_False by congruence. by repeat case_match.
Qed.

(** ** Witnesses *)

(** An interpreter that logs the methods run, and ports that log the writes. *)
Definition log_aml : Type := list (string * option AmlValue).
Definition log_ports : Type := list (Z * Z).

#[local] Instance sample_aml (s5 : AmlValue) : Aml log_aml log_ports string string := {|
  aml_name s := Ok s;
  name_string n := n;
  aml_missing e := None;
  aml_invoke c p n args := (Ok OtherValue, c ++ [(n, default None (args !! 0%nat))], p);
  aml_lookup c n := if String.eqb n "\_S5_" then Ok s5 else Err "missing"%string;
|}.
#[local] Instance sample_log_ports : Ports log_ports := {|
  port_read p w port := (0, p);
  port_write p w port v := p ++ [(port, v)];
|}.

Definition sample_machine (pm1b : option GenericAddress) : Machine log_aml log_ports string unit :=
  mk_machine (mk_acpi_data None
    (Some (mk_fadt (Ok (mk_address SystemIo 0x604)) (Ok pm1b))) (Some [])) false [].

Lemma aborted_shutdown_wakes_witness :
  ∃ c p r c' p', invoke_system_wake (Aml0 := sample_aml OtherValue) c p S5 = (r, c', p') ∧
    Some [("\_PTS"%string, Some (Integer 5)); ("\_WAK"%string, Some (Integer 5))] = Some c' ∧
    [] = p'.
Proof.
  refine (aborted_shutdown_wakes (Aml0 := sample_aml OtherValue) (sample_machine None)
    (mk_machine (mk_acpi_data None (fadt (ACPI_DATA (sample_machine None)))
      (Some [("\_PTS"%string, Some (Integer 5)); ("\_WAK"%string, Some (Integer 5))])) false [])
    S5PathNotPackage _ _); by vm_compute.
Defined.

Lemma shutdown_writes_control_blocks_witness :
  let s := sample_machine (Some (mk_address SystemIo 0x608)) in
  ∃ s', shutdown_using_acpi (Aml0 := sample_aml (Package [Integer 5; Integer 6])) s = Ret (Ok (), s') ∧
    ports s' = [(0x604, 0x2005); (0x608, 0x2006)].
Proof.
  intros s. refine (proj2 (shutdown_writes_control_blocks
    (Aml0 := sample_aml (Package [Integer 5; Integer 6])) s [] _ "\_PTS"
    [("\_PTS"%string, Some (Integer 5))] [] "\_S5_" [Integer 5; Integer 6] 5 0x604
    eq_refl eq_refl eq_refl eq_refl _ eq_refl eq_refl eq_refl _ eq_refl _)
    6 0x608 eq_refl _ eq_refl _); (done || by eexists).
Defined.

Lemma sleep_type_not_shifted_witness :
  ∃ w, perform_acpi_sleep (E := string) (A := string) ([] : log_ports) (Integer 5)
      (mk_address SystemIo 0x604) = (Ok (), [(0x604, w)]) ∧
    slp_en w = true ∧ slp_typ w = 0.
Proof. refine (sleep_type_not_shifted ([] : log_ports) 5 0x604 _ _); lia. Defined.

End System.
