(* ===== verification/Build.v ===== *)
(** * The build scripts: os/build.rs and build.rs

    Each makes the two disk images from the kernel and passes their paths on; the first
    is the launcher's, the second an older one that no package of the workspace uses.  Making an image is the work of crate bootloader, the class
    [Bootloader]; printing is the way a build script hands variables to cargo. *)

From S2P Require Import Prelude.

Inductive boot_kind := UefiBoot | BiosBoot.
#[global] Instance boot_kind_eq_dec : EqDecision boot_kind.
Proof. solve_decision. Defined.

Class Bootloader (H : Type) := {
  create_disk_image : H → boot_kind → string → string → bool * H;  (* kernel, path; whether it worked *)
}.
#[global] Hint Mode Bootloader ! : typeclass_instances.

(** [image h p] is the kind of the image at [p] and the kernel in it. *)
Class BootloaderLaws (H : Type) `{!Bootloader H} (image : H → string → option (boot_kind * string)) : Prop := {
  image_created h k kernel p : (create_disk_image h k kernel p).1 = true →
    image (create_disk_image h k kernel p).2 p = Some (k, kernel);
  image_other h k kernel p q : q ≠ p → image (create_disk_image h k kernel p).2 q = image h q;
}.

Module Build.

(** [PathBuf::join] with a file name: one separator between the parts. *)
Definition ends_in_slash (s : string) : bool :=
  bool_decide (String.substring (String.length s - 1) 1 s = "/").
Definition join (dir file : string) : string :=
  if bool_decide (dir = EmptyString) || ends_in_slash dir then dir +:+ file
  else dir +:+ "/" +:+ file.

(** The variables of the environment are [var_os]; the result is what was printed. *)
Definition main {H} `{!Bootloader H} (var_os : string → option string) (h : H) :
    outcome (list string * H) :=
  out_dir ← unwrap (var_os "OUT_DIR");
  kernel ← unwrap (var_os "CARGO_BIN_FILE_NOCCIOLO_KERNEL_nocciolo-kernel");
  let uefi_path := join out_dir "uefi.img" in
  let '(ok, h) := create_disk_image h UefiBoot kernel uefi_path in
  assert_that ok "called Result::unwrap() on an Err value";;
  let bios_path := join out_dir "bios.img" in
  let '(ok, h) := create_disk_image h BiosBoot kernel bios_path in
  assert_that ok "called Result::unwrap() on an Err value";;
  mret (["cargo:rustc-env=KERNEL=" +:+ kernel; "cargo:rustc-env=UEFI_PATH=" +:+ uefi_path;
         "cargo:rustc-env=BIOS_PATH=" +:+ bios_path], h).

(** The script at the root of the workspace. *)
Definition root_main {H} `{!Bootloader H} (var_os : string → option string) (h : H) :
    outcome (list string * H) :=
  out_dir ← unwrap (var_os "OUT_DIR");
  kernel ← unwrap (var_os "CARGO_BIN_FILE_NOCCIOLO_KERNEL_nocciolo-kernel");
  let uefi_path := join out_dir "uefi.img" in
  let '(ok, h) := create_disk_image h UefiBoot kernel uefi_path in
  assert_that ok "called Result::unwrap() on an Err value";;
  let bios_path := join out_dir "bios.img" in
  let '(ok, h) := create_disk_image h BiosBoot kernel bios_path in
  assert_that ok "called Result::unwrap() on an Err value";;
  mret (["cargo:rustc-env=UEFI_PATH=" +:+ uefi_path; "cargo:rustc-env=BIOS_PATH=" +:+ bios_path], h).

(** What cargo documents: a line "cargo:rustc-env=VAR=VALUE" sets [VAR] for [env!]. *)
Fixpoint strip (p s : string) : option string :=
  match p, s with
  | EmptyString, s => Some s
  | String a p, String b s => if Ascii.eqb a b then strip p s else None
  | _, EmptyString => None
  end.
Definition rustc_env (lines : list string) (name : string) : option string :=
  head (omap (strip ("cargo:rustc-env=" +:+ name +:+ "=")) lines).

Lemma join_inj dir a b : join dir a = join dir b → a = b.
Proof.
  unfold join. destruct (_ || _); intros Heq.
  - by apply (inj (String.append dir)).
  - apply (inj (String.append dir)) in Heq. by apply (inj (String.append "/")).
Qed.

(** The variables that the launcher is compiled with name what the script made: the
    kernel it was given, and an image of each kind that holds this kernel; neither
    image overwrites the other. *)
Theorem build_passes_images {H} `{!Bootloader H} image var_os (h : H) lines h'
    (Hlaws : BootloaderLaws H image) (Hrun : main var_os h = Ret (lines, h')) :
  ∃ kernel uefi bios, rustc_env lines "KERNEL" = Some kernel ∧
    rustc_env lines "UEFI_PATH" = Some uefi ∧ rustc_env lines "BIOS_PATH" = Some bios ∧
    image h' uefi = Some (UefiBoot, kernel) ∧ image h' bios = Some (BiosBoot, kernel).
Proof.
  unfold main in Hrun. inv_outcome. rename v into out_dir, v0 into kernel.
  pose proof (image_created h UefiBoot kernel (join out_dir "uefi.img")) as Hu.
  destruct (create_disk_image h UefiBoot _ _) as [ok1 h1]. inv_outcome.
  pose proof (image_created h1 BiosBoot kernel (join out_dir "bios.img")) as Hb.
  pose proof (image_other h1 BiosBoot kernel (join out_dir "bios.img") (join out_dir "uefi.img")) as Ho.
  destruct (create_disk_image h1 BiosBoot _ _) as [ok2 h2]. inv_outcome.
  exists kernel, (join out_dir "uefi.img"), (join out_dir "bios.img").
  repeat split; [|by auto]. rewrite Ho; [by auto|]. by intros ?%join_inj.
Qed.

(** The script at the root makes the same images and fails for the same reasons as
    the launcher's, and passes on the same variables but [KERNEL], which the launcher
    reads with [env!]: with the root's script the launcher does not compile. *)
Theorem root_build_lacks_kernel {H} `{!Bootloader H} var_os (h : H) :
  match main var_os h, root_main var_os h with
  | Ret (lines, h1), Ret (lines', h2) => h1 = h2 ∧ rustc_env lines' "KERNEL" = None ∧
      rustc_env lines' "UEFI_PATH" = rustc_env lines "UEFI_PATH" ∧
      rustc_env lines' "BIOS_PATH" = rustc_env lines "BIOS_PATH"
  | Panic m, Panic m' => m = m'
  | _, _ => False
  end.
Proof.
  unfold main, root_main. destruct (var_os "OUT_DIR") as [out_dir|]; [|done].
  destruct (var_os _) as [kernel|]; [|done]. cbn [unwrap expect mbind outcome_bind mret outcome_ret].
  destruct (create_disk_image h UefiBoot kernel (join out_dir "uefi.img")) as [[] h1]; [|done].
  cbn [assert_that mbind outcome_bind].
  by destruct (create_disk_image h1 BiosBoot kernel (join out_dir "bios.img")) as [[] h2].
Qed.

(** ** Witness *)

#[local] Instance map_bootloader : Bootloader (gmap string (boot_kind * string)) := {|
  create_disk_image m k kernel p := (true, <[p := (k, kernel)]> m);
|}.
Lemma map_bootloader_laws : BootloaderLaws (gmap string (boot_kind * string)) (λ m p, m !! p).
Proof.
  split; intros; simpl.
  - apply lookup_insert_eq.
  - by apply lookup_insert_ne.
Qed.

Definition no_images : gmap string (boot_kind * string) := ∅.
Definition sample_vars (name : string) : option string :=
  if bool_decide (name = "OUT_DIR") then Some "/out" else Some "/kernel".

Lemma build_passes_images_witness :
  match main sample_vars no_images with
  | Ret (lines, m) => ∃ kernel uefi bios, rustc_env lines "KERNEL" = Some kernel ∧
      rustc_env lines "UEFI_PATH" = Some uefi ∧ rustc_env lines "BIOS_PATH" = Some bios ∧
      m !! uefi = Some (UefiBoot, kernel) ∧ m !! bios = Some (BiosBoot, kernel)
  | _ => False
  end.
Proof.
  assert (is_ret (main sample_vars no_images) = true) as Hret by by vm_compute.
  destruct (main sample_vars no_images) as [[lines m]|s|s] eqn:Hrun; [|discriminate Hret..].
  by apply (build_passes_images (λ m p, m !! p) sample_vars no_images lines m map_bootloader_laws).
Defined.

End Build.
