(* ===== verification/Launcher.v ===== *)
(** * The launcher and its build script: os/src/main.rs, os/build.rs

    The program that [cargo run] starts on the developer's machine: it prepares the
    disk image and starts an emulator, a debugger or the tool that makes a CD image.
    The operating system is the class [Os]: its state [H] with the calls the
    launcher makes, each of which may fail with an error of type [E].  The launcher
    runs in the monad [io], whose bind is the [?] operator. *)

From S2P Require Import Prelude.

(** [std::process::Command] before it is spawned. *)
Record Command := mk_command { program : string; cmd_args : list string; cmd_dir : option string }.
#[global] Instance Command_eq_dec : EqDecision Command.
Proof. solve_decision. Defined.

Class Os (H E : Type) := {
  os_exists : H → string → bool;
  os_print : H → string → option H;                        (* [None]: stdout is gone *)
  os_current_dir : H → string;                             (* as [{:?}] prints it *)
  os_symlink : H → string → string → result E () * H;
  os_create_dir : H → string → result E () * H;
  os_copy : H → string → string → result E () * H;
  os_file_create : H → string → result E () * H;
  os_file_write : H → string → string → result E () * H;   (* one line to an open file *)
  os_set_current_dir : H → string → result E () * H;
  os_spawn : H → Command → result E Z * H;                 (* the number of the child *)
  os_wait : H → Z → result E () * H;
}.
#[global] Hint Mode Os ! - : typeclass_instances.

(** What the launcher relies on: only a successful [spawn] starts a child, copying
    makes the contents equal, and a created file holds the lines written to it.
    [children] are the commands started so far, [contents] the lines of a file. *)
Class OsLaws (H E : Type) `{!Os H E} (children : H → list Command)
    (contents : H → string → option (list string)) : Prop := {
  print_children h s h' : os_print h s = Some h' → children h' = children h;
  symlink_children h a b : children (os_symlink h a b).2 = children h;
  create_dir_children h a : children (os_create_dir h a).2 = children h;
  copy_children h a b : children (os_copy h a b).2 = children h;
  file_create_children h a : children (os_file_create h a).2 = children h;
  file_write_children h a s : children (os_file_write h a s).2 = children h;
  set_current_dir_children h a : children (os_set_current_dir h a).2 = children h;
  wait_children h c : children (os_wait h c).2 = children h;
  spawn_children h c :
    children (os_spawn h c).2 = children h ++ match (os_spawn h c).1 with Ok _ => [c] | Err _ => [] end;
  copy_contents h a b : (os_copy h a b).1 = Ok () → contents (os_copy h a b).2 b = contents h a;
  file_create_contents h a : (os_file_create h a).1 = Ok () →
    contents (os_file_create h a).2 a = Some [];
  file_write_contents h a s ls : (os_file_write h a s).1 = Ok () → contents h a = Some ls →
    contents (os_file_write h a s).2 a = Some (ls ++ [s]);
}.

Module Launcher.

(** ** The monad of the launcher *)

Section Monad.
Context {H E : Type}.

Definition io (A : Type) : Type := H → outcome (result E A * H).

Definition io_ret {A} (a : A) : io A := λ h, Ret (Ok a, h).
Definition io_bind {A B} (m : io A) (f : A → io B) : io B := λ h,
  '(r, h) ← m h;
  match r with Ok a => f a h | Err e => Ret (Err e, h) end.
Definition io_panic {A} (msg : string) : io A := λ _, Panic msg.
(** A call of the system, and [let _ =] around it, which drops its error. *)
Definition io_call {A} (f : H → result E A * H) : io A := λ h, Ret (f h).
Definition io_ignore {A} (f : H → result E A * H) : io () := λ h, Ret (Ok (), (f h).2).
End Monad.
Arguments io : clear implicits.

Declare Scope io_scope.
Delimit Scope io_scope with io.
Notation "x <- m ; k" := (io_bind m (λ x, k))
  (at level 90, m at next level, k at level 200, right associativity) : io_scope.
Notation "m ;; k" := (io_bind m (λ _, k)) (at level 100, right associativity) : io_scope.

Definition newline : string := String (Ascii.ascii_of_nat 10) EmptyString.

Definition command_new (program : string) : Command := mk_command program [] None.
Definition args (cmd : Command) (l : list string) : Command :=
  mk_command (program cmd) (cmd_args cmd ++ l) (cmd_dir cmd).
Definition arg (cmd : Command) (a : string) : Command := args cmd [a].
Definition current_dir (cmd : Command) (d : string) : Command :=
  mk_command (program cmd) (cmd_args cmd) (Some d).

(** ** The program *)

Section Program.
Context {H E : Type} `{!Os H E}.
Local Abbreviation io := (io H E).
(** The variables the build script passes to the compiler ([env!]), the path of the
    firmware that crate ovmf_prebuilt holds, whether the target is macOS, and whether
    crate which finds a program. *)
Context (KERNEL UEFI_PATH BIOS_PATH CARGO_MANIFEST_DIR ovmf_pure_efi : string) (macos : bool)
  (which : string → bool).

Definition print (s : string) : io () := λ h,
  match os_print h s with
  | Some h => Ret (Ok (), h)
  | None => Panic "failed printing to stdout"
  end.
Fixpoint println_all (ls : list string) : io () :=
  match ls with
  | [] => io_ret ()
  | l :: ls => (print (l +:+ newline);; println_all ls)%io
  end.
Definition println (s : string) : io () := println_all [s].
Fixpoint writeln_all (path : string) (ls : list string) : io () :=
  match ls with
  | [] => io_ret ()
  | l :: ls => (io_call (λ h, os_file_write h path l);; writeln_all path ls)%io
  end.

Definition does_command_exist (name : string) : bool := which name.

Definition setup_env : io () := (λ h,
  if negb (os_exists h KERNEL) then Panic ("RIP file: " +:+ KERNEL)
  else
    (io_ignore (λ h, os_symlink h KERNEL "target/kernel-bin");;
     io_ignore (λ h, os_create_dir h "target/iso");;
     io_call (λ h, os_copy h BIOS_PATH ("target/iso" +:+ "/" +:+ "nocciolo.img")))%io h).

Definition create_bochs_cmd : Command := arg (command_new "bochs") "-q".

(** [argv] is [std::env::args()]. *)
Definition create_qemu_cmd (argv : list string) : Command :=
  let cmd := command_new "qemu-system-x86_64" in
  let cmd := arg cmd "-no-reboot" in
  let cmd := args cmd ["-d"; "int"] in
  let cmd := if bool_decide (argv !! 2%nat = Some "debug") then args cmd ["-s"; "-S"] else cmd in
  if bool_decide (argv !! 2%nat = Some "monitor") then args cmd ["-monitor"; "stdio"]
  else args cmd ["-serial"; "stdio"].

Definition lldb_script : list string :=
  ["target create " +:+ KERNEL;
   "target modules load --file " +:+ KERNEL +:+ " --slide 0x8000000000";
   "gdb-remote localhost:1234";
   "breakpoint set --name alloc_error_handler";
   "breakpoint set --name page_fault_handler";
   "breakpoint set --name double_fault_handler";
   "breakpoint set --name breakpoint_handler";
   "breakpoint set --name hlt_loop";
   "breakpoint set --name fallback_allocator_oom";
   "breakpoint set --name timer_interrupt_handler";
   "breakpoint set --name spurious_io_apic_interrupt_handler";
   "breakpoint set --name spurious_local_apic_interrupt_handler";
   "breakpoint set --name breakpoint"].

Definition create_lldb_command : io Command := (
  let cmd := command_new "lldb" in
  let path := "target/lldb-input" in
  (λ h, println ("Current dir: " +:+ os_current_dir h) h);;
  io_call (λ h, os_file_create h path);;
  writeln_all path lldb_script;;
  io_ret (args cmd ["-s"; path]))%io.

Definition gdb_script : list string :=
  ["file " +:+ KERNEL; "target remote localhost:1234"; "b kernel_main"; "continue"].

Definition create_gdb_command : io Command := (
  let name := if macos && which "ggdb" then "ggdb" else "gdb" in
  let cmd := command_new name in
  let path := "target/.gdbinit" in
  io_call (λ h, os_file_create h path);;
  writeln_all path gdb_script;;
  io_ret (current_dir cmd "target"))%io.

Definition mkisofs_help : list string :=
  ["OS> CLI tool `mkisofs` not found" +:+ newline;
   "URL: https://codeberg.org/schilytools/schilytools" +:+ newline;
   "Download Instructions:";
   "| OS      | Package Manager | Instructions";
   "|---------|-----------------|----------------------------";
   "| macOS   | macOS           | brew install cdrtools";
   "| macOS   | MacPorts        | sudo port install cdrtools";
   "| Linux   | apt             | sudo apt install cdrkit";
   "| Windows | Chocolately     | N/A";
   "| Windows | Scoop           | scoop install main/cdrtools";
   "| Windows | winget          | N/A"].

(** The arm of the "iso" command. *)
Definition create_iso_cmd : io (option Command) := (
  if negb (does_command_exist "mkisofs") then println_all mkisofs_help;; io_ret None
  else
    let dir := "target/iso" in
    let img := "nocciolo.img" in
    io_ignore (λ h, os_create_dir h dir);;
    io_call (λ h, os_copy h BIOS_PATH (dir +:+ "/" +:+ img));;
    let cmd := command_new "mkisofs" in
    let cmd := arg cmd "-U" in
    let cmd := arg cmd "-no-emul-boot" in
    let cmd := args cmd ["-b"; img] in
    let cmd := args cmd ["-hide"; img] in
    let cmd := args cmd ["-V"; "Nocciolo"] in
    let cmd := args cmd ["-iso-level"; "3"] in
    let cmd := args cmd ["-o"; dir +:+ "/nocciolo.iso"] in
    io_ret (Some (args cmd [dir])))%io.

(** The match of [main]; [None] where it returns early. *)
Definition command_for (argv : list string) : io (option Command) := (
  match argv !! 1%nat with
  | Some s =>
      if bool_decide (s = "lldb") then cmd <- create_lldb_command; io_ret (Some cmd)
      else if bool_decide (s = "gdb") then cmd <- create_gdb_command; io_ret (Some cmd)
      else if bool_decide (s = "bios") then
        let cmd := create_qemu_cmd argv in
        io_ret (Some (arg (arg cmd "-drive") ("format=raw,file=" +:+ BIOS_PATH)))
      else if bool_decide (s = "uefi") then
        let cmd := create_qemu_cmd argv in
        let cmd := arg (arg cmd "-bios") ovmf_pure_efi in
        io_ret (Some (arg (arg cmd "-drive") ("format=raw,file=" +:+ UEFI_PATH)))
      else if bool_decide (s = "info") then
        println_all ["OS> UEFI_PATH: " +:+ UEFI_PATH; "OS> BIOS_PATH: " +:+ BIOS_PATH;
                     "OS> KERNEL: " +:+ KERNEL];;
        io_ret None
      else if bool_decide (s = "iso") then create_iso_cmd
      else if bool_decide (s = "bochs") then
        let dir := CARGO_MANIFEST_DIR +:+ "/../tools/" in
        io_call (λ h, os_set_current_dir h dir);;
        io_ret (Some create_bochs_cmd)
      else println ("OS> Unknown command `" +:+ s +:+ "`");; io_ret None
  | None => print "OS> No command supplied! `uefi`, `bios`, `lldb`";; io_ret None
  end)%io.

Definition main (argv : list string) : io () := (
  setup_env;;
  cmd <- command_for argv;
  match cmd with
  | None => io_ret ()
  | Some cmd =>
      child <- io_call (λ h, os_spawn h cmd);
      io_call (λ h, os_wait h child)
  end)%io.

(** ** What each command line should start *)

Definition qemu_args (argv : list string) : list string :=
  ["-no-reboot"; "-d"; "int"] ++
  (if bool_decide (argv !! 2%nat = Some "debug") then ["-s"; "-S"] else []) ++
  [if bool_decide (argv !! 2%nat = Some "monitor") then "-monitor" else "-serial"; "stdio"].

Definition commands (argv : list string) : gmap string Command := list_to_map (
  [("lldb", mk_command "lldb" ["-s"; "target/lldb-input"] None);
   ("gdb", mk_command (if macos && which "ggdb" then "ggdb" else "gdb") [] (Some "target"));
   ("bios", mk_command "qemu-system-x86_64"
      (qemu_args argv ++ ["-drive"; "format=raw,file=" +:+ BIOS_PATH]) None);
   ("uefi", mk_command "qemu-system-x86_64"
      (qemu_args argv ++ ["-bios"; ovmf_pure_efi; "-drive"; "format=raw,file=" +:+ UEFI_PATH]) None);
   ("bochs", mk_command "bochs" ["-q"] None)] ++
  (if which "mkisofs" then
     [("iso", mk_command "mkisofs"
        ["-U"; "-no-emul-boot"; "-b"; "nocciolo.img"; "-hide"; "nocciolo.img"; "-V"; "Nocciolo";
         "-iso-level"; "3"; "-o"; "target/iso/nocciolo.iso"; "target/iso"] None)]
   else [])).

(** [None]: nothing is to be started. *)
Definition selected (argv : list string) : option Command :=
  name ← argv !! 1%nat; commands argv !! name.

(** ** Lemmas *)

Ltac look_up := unfold commands; simpl; simpl_map.

(** Every run of [m] that returns without an error returns [v]. *)
Definition yields {A} (m : io A) (v : A) : Prop :=
  ∀ h a h', m h = Ret (Ok a, h') → a = v.

Lemma bind_yields {A B} (m : io A) (f : A → io B) v :
  (∀ a, yields (f a) v) → yields (io_bind m f) v.
Proof.
  intros Hf h b h' Hrun. unfold io_bind in Hrun. inv_outcome. destruct v0 as [[e|a] h1]; [done|].
  by eapply Hf.
Qed.
Lemma bind_yields_with {A B} (m : io A) (f : A → io B) a v :
  yields m a → yields (f a) v → yields (io_bind m f) v.
Proof.
  intros Hm Hf h b h' Hrun. unfold io_bind in Hrun. inv_outcome. destruct v0 as [[e|a'] h1]; [done|].
  rewrite (Hm _ _ _ Hrun0) in Hrun. by eapply Hf.
Qed.
Lemma ret_yields {A} (a v : A) : a = v → yields (io_ret a) v.
Proof. intros -> h b h' Hrun. unfold io_ret in Hrun. by inv_outcome. Qed.

Lemma create_qemu_cmd_args argv :
  create_qemu_cmd argv = mk_command "qemu-system-x86_64" (qemu_args argv) None.
Proof. unfold create_qemu_cmd, qemu_args. by repeat case_bool_decide. Qed.

Lemma create_lldb_yields : yields create_lldb_command (mk_command "lldb" ["-s"; "target/lldb-input"] None).
Proof. repeat (apply bind_yields; intros ?). by apply ret_yields. Qed.

Lemma create_gdb_yields :
  yields create_gdb_command
    (mk_command (if macos && which "ggdb" then "ggdb" else "gdb") [] (Some "target")).
Proof. repeat (apply bind_yields; intros ?). by apply ret_yields. Qed.

Lemma create_iso_yields argv : yields create_iso_cmd (commands argv !! "iso").
Proof.
  unfold create_iso_cmd, does_command_exist, commands.
  destruct (which "mkisofs"); cbn [negb]; repeat (apply bind_yields; intros ?);
    apply ret_yields; by look_up.
Qed.

Lemma commands_other argv s :
  s ∉ ["lldb"; "gdb"; "bios"; "uefi"; "iso"; "bochs"] → commands argv !! s = None.
Proof.
  intros Hs. unfold commands. apply not_elem_of_list_to_map_1.
  destruct (which "mkisofs"); set_solver.
Qed.

Lemma command_for_yields argv : yields (command_for argv) (selected argv).
Proof.
  unfold command_for, selected. destruct (argv !! 1%nat) as [s|]; cbn [mbind option_bind].
  2: { apply bind_yields. intros. by apply ret_yields. }
  repeat case_bool_decide; subst.
  - eapply bind_yields_with; [apply create_lldb_yields|]. apply ret_yields. by look_up.
  - eapply bind_yields_with; [apply create_gdb_yields|]. apply ret_yields. by look_up.
  - rewrite create_qemu_cmd_args. apply ret_yields. look_up.
    unfold arg, args. simpl. by rewrite <-!app_assoc.
  - rewrite create_qemu_cmd_args. apply ret_yields. look_up.
    unfold arg, args. simpl. by rewrite <-!app_assoc.
  - apply bind_yields. intros. apply ret_yields. symmetry. apply commands_other. set_solver.
  - apply create_iso_yields.
  - apply bind_yields. intros. apply ret_yields. by look_up.
  - apply bind_yields. intros. apply ret_yields. symmetry. apply commands_other. set_solver.
Qed.

(** Every call that is not ignored succeeds, and printing works. *)
Definition os_works : Prop :=
  (∀ (h : H) s, is_Some (os_print h s)) ∧ (∀ (h : H) a b, (os_copy h a b).1 = Ok ()) ∧
  (∀ (h : H) a, (os_file_create h a).1 = Ok ()) ∧ (∀ (h : H) a s, (os_file_write h a s).1 = Ok ()) ∧
  (∀ (h : H) d, (os_set_current_dir h d).1 = Ok ()) ∧ (∀ (h : H) c, ∃ n, (os_spawn h c).1 = Ok n) ∧
  ∀ (h : H) n, (os_wait h n).1 = Ok ().

(** [m] returns without an error from every state. *)
Definition finishes {A} (m : io A) : Prop := ∀ h, ∃ a h', m h = Ret (Ok a, h').

Lemma bind_finishes {A B} (m : io A) (f : A → io B) :
  finishes m → (∀ a, finishes (f a)) → finishes (io_bind m f).
Proof.
  intros Hm Hf h. destruct (Hm h) as (a & h1 & Hrun). destruct (Hf a h1) as (b & h2 & Hrun2).
  exists b, h2. unfold io_bind. by rewrite Hrun.
Qed.
Lemma ret_finishes {A} (a : A) : finishes (io_ret a).
Proof. intros h. by exists a, h. Qed.
Lemma ignore_finishes {A} (f : H → result E A * H) : finishes (io_ignore f).
Proof. intros h. by exists (), (f h).2. Qed.
Lemma call_finishes {A} (f : H → result E A * H) :
  (∀ h, ∃ a, (f h).1 = Ok a) → finishes (io_call f).
Proof.
  intros Hf h. destruct (Hf h) as [a Ha]. exists a, (f h).2. unfold io_call.
  by rewrite (surjective_pairing (f h)), Ha.
Qed.
Lemma print_finishes s : (∀ (h : H) s, is_Some (os_print h s)) → finishes (print s).
Proof. intros Hp h. destruct (Hp h s) as [h' Hh]. exists (), h'. unfold print. by rewrite Hh. Qed.
Lemma println_all_finishes ls : (∀ (h : H) s, is_Some (os_print h s)) → finishes (println_all ls).
Proof.
  intros Hp. induction ls as [|l ls IH]; [apply ret_finishes|].
  apply bind_finishes; [by apply print_finishes|done].
Qed.
Lemma writeln_all_finishes path ls :
  (∀ (h : H) a s, (os_file_write h a s).1 = Ok ()) → finishes (writeln_all path ls).
Proof.
  intros Hw. induction ls as [|l ls IH]; [apply ret_finishes|].
  apply bind_finishes; [|done]. apply call_finishes. eauto.
Qed.

Lemma setup_env_finishes h : os_works → os_exists h KERNEL = true →
  ∃ h', setup_env h = Ret (Ok (), h').
Proof.
  intros (_ & Hc & _) Hk. unfold setup_env. rewrite Hk. cbn [negb].
  match goal with |- ∃ h', ?m h = _ => cut (finishes m) end.
  { intros Hf. destruct (Hf h) as ([] & h' & Hrun). by exists h'. }
  repeat (apply bind_finishes; [apply ignore_finishes|intros _]). apply call_finishes. eauto.
Qed.

Lemma command_for_finishes argv : os_works → finishes (command_for argv).
Proof.
  intros (Hp & Hc & Hf & Hw & Hd & _). unfold command_for, create_iso_cmd.
  repeat case_match; repeat (apply bind_finishes; [|intros ?]);
    try apply ret_finishes; try apply ignore_finishes;
    try (by apply println_all_finishes); try (by apply print_finishes);
    try (by apply writeln_all_finishes); try (apply call_finishes; by eauto).
  intros h. by apply print_finishes.
Qed.

(** *** Which children are started *)

Context {children : H → list Command} {contents : H → string → option (list string)}.
Context {laws : OsLaws H E children contents}.

(** [m] starts no child, whether it fails or not. *)
Definition quiet {A} (m : io A) : Prop :=
  ∀ h r h', m h = Ret (r, h') → children h' = children h.

Lemma bind_quiet {A B} (m : io A) (f : A → io B) :
  quiet m → (∀ a, quiet (f a)) → quiet (io_bind m f).
Proof.
  intros Hm Hf h r h' Hrun. unfold io_bind in Hrun. inv_outcome. destruct v as [[e|a] h1].
  - inv_outcome. by eapply Hm.
  - rewrite (Hf _ _ _ _ Hrun). by eapply Hm.
Qed.
Lemma ret_quiet {A} (a : A) : quiet (io_ret a).
Proof. intros h r h' Hrun. unfold io_ret in Hrun. by inv_outcome. Qed.
Lemma call_quiet {A} (f : H → result E A * H) :
  (∀ h, children (f h).2 = children h) → quiet (io_call f).
Proof. intros Hf h r h' Hrun. unfold io_call in Hrun. inv_outcome. specialize (Hf h). by rewrite Hrun in Hf. Qed.
Lemma ignore_quiet {A} (f : H → result E A * H) :
  (∀ h, children (f h).2 = children h) → quiet (io_ignore f).
Proof. intros Hf h r h' Hrun. unfold io_ignore in Hrun. by inv_outcome. Qed.
Lemma print_quiet s : quiet (print s).
Proof using laws.
  intros h r h' Hrun. unfold print in Hrun. destruct (os_print h s) eqn:Hp; inv_outcome.
  by eapply print_children.
Qed.
Lemma println_all_quiet ls : quiet (println_all ls).
Proof using laws.
  induction ls as [|l ls IH]; [apply ret_quiet|]. apply bind_quiet; [apply print_quiet|done].
Qed.
Lemma writeln_all_quiet path ls : quiet (writeln_all path ls).
Proof using laws.
  induction ls as [|l ls IH]; [apply ret_quiet|].
  apply bind_quiet; [|done]. apply call_quiet. intros. apply file_write_children.
Qed.

Lemma setup_env_quiet : quiet setup_env.
Proof using laws.
  intros h r h' Hrun. unfold setup_env in Hrun. case_match; [done|]. revert Hrun.
  apply bind_quiet; [apply ignore_quiet; intros; apply symlink_children|intros _].
  apply bind_quiet; [apply ignore_quiet; intros; apply create_dir_children|intros _].
  apply call_quiet. intros. apply copy_children.
Qed.

Lemma command_for_quiet argv : quiet (command_for argv).
Proof using laws.
  unfold command_for, create_iso_cmd, create_lldb_command, create_gdb_command.
  repeat case_match; repeat (apply bind_quiet; [|intros ?]);
    try apply ret_quiet; try apply print_quiet; try apply println_all_quiet;
    try apply writeln_all_quiet; try (apply call_quiet; intros ?); try (apply ignore_quiet; intros ?);
    try apply create_dir_children; try apply copy_children; try apply file_create_children;
    try apply file_write_children; try apply set_current_dir_children.
  intros h. apply print_quiet.
Qed.

Lemma main_children argv h r h' : main argv h = Ret (r, h') →
  match r with
  | Ok _ => children h' = children h ++ option_list (selected argv)
  | Err _ => children h' = children h ∨ children h' = children h ++ option_list (selected argv)
  end.
Proof using laws.
  intros Hrun. unfold main, io_bind at 1 in Hrun. inv_outcome. destruct v as [[e|[]] h1].
  { inv_outcome. left. by eapply setup_env_quiet. }
  rewrite <-(setup_env_quiet _ _ _ Hrun0). clear h Hrun0. unfold io_bind at 1 in Hrun.
  inv_outcome. destruct v as [[e|cmd] h2].
  { inv_outcome. left. by eapply command_for_quiet. }
  rewrite <-(command_for_yields _ _ _ _ Hrun0), <-(command_for_quiet _ _ _ _ Hrun0).
  destruct cmd as [cmd|]; unfold io_ret, io_bind, io_call in Hrun; inv_outcome.
  2: by rewrite app_nil_r.
  pose proof (spawn_children h2 cmd) as Hs. destruct (os_spawn h2 cmd) as [[e|n] h3]; inv_outcome.
  { left. by rewrite Hs, app_nil_r. }
  pose proof (wait_children h3 n) as Hw. rewrite Hrun in Hw. simpl in Hw.
  destruct r as [e|[]]; [right|]; congruence.
Qed.

(** *** What the debugger scripts hold *)

Lemma writeln_all_contents path ls : ∀ h ls0 h',
  contents h path = Some ls0 → writeln_all path ls h = Ret (Ok (), h') →
  contents h' path = Some (ls0 ++ ls).
Proof using laws.
  induction ls as [|l ls IH]; intros h ls0 h' Hc Hrun; simpl in Hrun.
  { unfold io_ret in Hrun. inv_outcome. by rewrite app_nil_r. }
  unfold io_bind, io_call in Hrun. inv_outcome.
  pose proof (file_write_contents h path l ls0) as Hw.
  destruct (os_file_write h path l) as [[e|[]] h1]; [done|].
  rewrite (IH h1 (ls0 ++ [l]) h') by auto. by rewrite <-app_assoc.
Qed.

Lemma script_contents path ls (cmd c : Command) h h' :
  (io_call (λ h, os_file_create h path);; writeln_all path ls;; io_ret cmd)%io h = Ret (Ok c, h') →
  contents h' path = Some ls.
Proof using laws.
  intros Hrun. unfold io_bind, io_call, io_ret in Hrun. inv_outcome.
  pose proof (file_create_contents h path) as Hc.
  destruct (os_file_create h path) as [[e|[]] h1]; [done|]. inv_outcome.
  destruct v as [[e|[]] h2]; inv_outcome. by apply (writeln_all_contents path ls h1 []); [apply Hc|].
Qed.
End Program.

(** ** Properties *)

(** C32: Whatever the command line and whichever calls of the system fail, the launcher
    starts nothing but the command that its first argument selects, and at most once;
    when it returns success it has started it, or there was none to start. When
    every call whose result is looked at succeeds, it does return success, even if
    making the symbolic link and the directory fails; without a kernel file it
    panics before any of this. *)
Theorem launcher_starts_selected {H E} `{!Os H E} children contents
    KERNEL UEFI_PATH BIOS_PATH CARGO_MANIFEST_DIR ovmf_pure_efi macos which (argv : list string) (h : H)
    (Hlaws : OsLaws H E children contents) :
  let run := main (E := E) KERNEL UEFI_PATH BIOS_PATH CARGO_MANIFEST_DIR ovmf_pure_efi macos which argv in
  let started := option_list (selected UEFI_PATH BIOS_PATH ovmf_pure_efi macos which argv) in
  (∀ h', run h = Ret (Ok (), h') → children h' = children h ++ started) ∧
  (∀ e h', run h = Ret (Err e, h') → children h' = children h ∨ children h' = children h ++ started) ∧
  (os_works (H := H) (E := E) → os_exists h KERNEL = true → ∃ h', run h = Ret (Ok (), h')) ∧
  (os_exists h KERNEL = false → run h = Panic ("RIP file: " +:+ KERNEL)).
Proof.
  intros run started. split; [|split; [|split]].
  - intros h' Hrun. by eapply main_children in Hrun.
  - intros e h' Hrun. by eapply main_children in Hrun.
  - intros Hworks Hk. unfold run, main, io_bind at 1.
    destruct (setup_env_finishes KERNEL BIOS_PATH h Hworks Hk) as [h1 ->]. run_bind.
    match goal with |- ∃ h', ?m h1 = _ => cut (finishes m) end.
    { intros Hf. destruct (Hf h1) as ([] & h' & Hrun). by exists h'. }
    pose proof Hworks as (_ & _ & _ & _ & _ & Hspawn & Hwait).
    apply bind_finishes; [by apply command_for_finishes|]. intros [cmd|]; [|apply ret_finishes].
    apply bind_finishes; [by apply call_finishes|]. intros n. apply call_finishes. eauto.
  - intros Hk. unfold run, main, io_bind at 1, setup_env. by rewrite Hk.
Qed.

(** A debugger that the launcher starts finds the script the launcher means it to
    have: when [create_lldb_command] and [create_gdb_command] return a command, the
    file it reads holds exactly the lines of the script. *)
Theorem debugger_scripts_written {H E} `{!Os H E} children contents KERNEL macos which (h : H) c h'
    (Hlaws : OsLaws H E children contents) :
  (create_lldb_command (E := E) KERNEL h = Ret (Ok c, h') →
     cmd_args c = ["-s"; "target/lldb-input"] ∧ contents h' "target/lldb-input" = Some (lldb_script KERNEL)) ∧
  (create_gdb_command (E := E) KERNEL macos which h = Ret (Ok c, h') →
     cmd_dir c = Some "target" ∧ contents h' "target/.gdbinit" = Some (gdb_script KERNEL)).
Proof.
  split; intros Hrun.
  - split; [by rewrite (create_lldb_yields _ _ _ _ Hrun)|].
    unfold create_lldb_command in Hrun. unfold io_bind at 1 in Hrun. inv_outcome.
    destruct v as [[e|[]] h1]; [done|]. by eapply script_contents.
  - split; [by rewrite (create_gdb_yields _ _ _ _ _ _ Hrun)|]. by eapply script_contents.
Qed.

(** ** Witnesses *)

(** A machine that records what was started and keeps a table of files; a link and a
    directory that exist cannot be made again. *)
Record machine := mk_machine { started : list Command; files : gmap string (list string) }.
Definition put_file (m : machine) (p : string) (ls : list string) : machine :=
  mk_machine (started m) (<[p := ls]> (files m)).

#[local] Instance machine_os : Os machine string := {|
  os_exists m p := bool_decide (is_Some (files m !! p));
  os_print m s := Some m;
  os_current_dir m := "Ok(/nocciolo)";
  os_symlink m a b := (Err "File exists", m);
  os_create_dir m a := (Err "File exists", m);
  os_copy m a b := (Ok (), put_file m b (default [] (files m !! a)));
  os_file_create m p := (Ok (), put_file m p []);
  os_file_write m p l := (Ok (), put_file m p (default [] (files m !! p) ++ [l]));
  os_set_current_dir m d := (Ok (), m);
  os_spawn m c := (Ok 1, mk_machine (started m ++ [c]) (files m));
  os_wait m n := (Ok (), m);
|}.

(** A file that is missing reads as one without lines. *)
Definition machine_contents (m : machine) (p : string) : option (list string) :=
  Some (default [] (files m !! p)).

Lemma machine_laws : OsLaws machine string started machine_contents.
Proof.
  split; intros; simpl in *; unfold machine_contents in *; simplify_eq; simpl;
    rewrite ?lookup_insert_eq; by simplify_eq/=.
Qed.

Definition sample_machine : machine := mk_machine [] {["/out/kernel" := []; "/out/bios.img" := ["boot"]]}.

Lemma launcher_starts_selected_witness :
  ∃ m, main "/out/kernel" "/out/uefi.img" "/out/bios.img" "/src/os" "/ovmf.fd" false (λ _, false)
         ["nocciolo"; "bios"; "debug"] sample_machine = Ret (Ok (), m) ∧
    started m = [mk_command "qemu-system-x86_64" ["-no-reboot"; "-d"; "int"; "-s"; "-S"; "-serial"; "stdio";
                   "-drive"; "format=raw,file=/out/bios.img"] None].
Proof.
  destruct (launcher_starts_selected started machine_contents "/out/kernel" "/out/uefi.img"
    "/out/bios.img" "/src/os" "/ovmf.fd" false (λ _, false) ["nocciolo"; "bios"; "debug"] sample_machine
    machine_laws) as (Hok & _ & Hrun & _).
  destruct Hrun as [m Hm].
  - repeat split; intros; simpl; eauto.
  - by vm_compute.
  - exists m. split; [exact Hm|]. rewrite (Hok m Hm). by vm_compute.
Defined.

Lemma debugger_scripts_written_witness :
  match create_lldb_command "/out/kernel" sample_machine with
  | Ret (Ok c, m) => machine_contents m "target/lldb-input" = Some (lldb_script "/out/kernel")
  | _ => False
  end.
Proof.
  assert (match create_lldb_command "/out/kernel" sample_machine with
          | Ret (Ok _, _) => true | _ => false end = true) as Hok by by vm_compute.
  destruct (create_lldb_command "/out/kernel" sample_machine) as [[[e|c] m]|s|s] eqn:Hrun;
    [discriminate Hok| |discriminate Hok..].
  by apply (debugger_scripts_written started machine_contents "/out/kernel" false (λ _, false)
    sample_machine c m machine_laws).
Defined.

End Launcher.
