(* ===== verification/Boot.v ===== *)
(** * The boot sequence: kernel/src/main.rs

    [kernel_main], [init] and the panic handler, composed of the components in the
    order of the code.  The kernel's state is one record; a step either finishes,
    panics (which runs the panic handler), or spins for ever on the lock of the
    console, which a panic inside [_print] leaves held.  All records that go to the
    screen are logged, those of the components included, with two exceptions in
    meta/system.rs that print a structure just before a panic; of the traces, which
    go to the serial line only, those of main.rs, gdt.rs, interrupts.rs and
    device/pci/mod.rs. *)

From Stdlib Require Import Ascii.
From S2P Require Import Prelude GlobalAlloc LinkedListAllocator FixedSizeBlock X86 Memory Paging PageTables Vga Logging IoApic LocalApic Pit.
From S2P Require Import Interrupts Gdt PciTypes Format Pci Report Task Keyboard KeyboardTask Acpi System Symbols.

(** Crate pic8259's pair of interrupt controllers. *)
Class ChainedPics (P : Type) := { pics_initialize : P → P; pics_disable : P → P }.
#[global] Hint Mode ChainedPics ! : typeclass_instances.

(** [masked p i]: line [i] of the controllers is masked.  Only the controllers' own
    ports change the masks. *)
Definition pic_port (port : Z) : bool := existsb (Z.eqb port) [0x20; 0x21; 0xA0; 0xA1].
Class ChainedPicsLaws (P : Type) `{!Ports P} `{!ChainedPics P} (masked : P → Z → bool) : Prop := {
  disable_masks p i : 0 ≤ i < 16 → masked (pics_disable p) i = true;
  write_keeps_masks p w port v i : pic_port port = false → masked (port_write p w port v) i = masked p i;
  read_keeps_masks p w port i : pic_port port = false → masked (port_read p w port).2 i = masked p i;
}.

Module Boot.

(** What the bootloader hands over. *)
Record BootInfo := mk_boot_info {
  framebuffer : option (list Z * Vga.FrameBufferInfo);
  physical_memory_offset : option Z;
  memory_regions : list MemoryRegion;
  rsdp_addr : option Z;
  kernel_image_offset : Z;
  kernel_len : Z;
}.

Section Boot.
Context `{!X86Addr} {M : Type} `{!Mapper M} {FH : Type} `{!FallbackHeap FH}.
Context {P : Type} `{!Ports P} `{!ChainedPics P} {D : Type} `{!IoApicDevice D} {V : Type} `{!VolatileMem V}.
Context {G : Type} `{!DescriptorTable G} `{!Font}.
Context {C N AcpiError AmlError A Regions Elf ElfError : Type} `{!Aml C P N AmlError}.
Local Abbreviation Madt := (list MadtEntry).
Local Abbreviation AcpiTables := (Acpi.Tables AcpiError Madt (Fadt A)).

(** The statics of the kernel, the processor and the devices. *)
Record Kernel := mk_kernel {
  serial : list Z;                    (* sent over the serial line *)
  logger_set : bool;
  writer : Vga.Writer;
  writer_locked : bool;
  cpu : Gdt.Cpu G;
  ports : P;
  kmem : Kmem M;
  heap : FixedSizeBlock.FixedSizeBlockAllocator FH;
  acpi_data : Acpi.AcpiData C Madt (Fadt A);
  io_regs : D;
  local_mem : V;
  apic_msr : Z;
  io_apic : option IoApic.IOApic;
  local_apic : option LocalApic.LocalApic;
  elf : option (option Elf);
  uptime : Z;                         (* [TIMER] *)
}.

(** What main.rs and its components take from the crates and the machine: the texts of
    levels, panics, ELF errors and screens; the double fault stack; the vectors the general handler covers;
    the page tables at boot; physical memory; the ACPI and AML crates; the ELF
    parser. *)
Record Environment := mk_environment {
  level_fmt : Logging.Level → list Z;
  panic_info : string → list Z;
  stack_start : Z;
  filled : Z → bool;
  offset_page_table : Z → Z → M;
  cr3 : Z;
  pm : Z → Z;
  size_of_rsdp : Z;
  search_on_bios : Kmem M → outcome (result AcpiError PhysicalMapping * Kmem M);
  validate : PhysicalMapping → bool;
  from_validated_rsdp : Kmem M → PhysicalMapping → outcome (result AcpiError AcpiTables * Kmem M);
  pci_config_regions : AcpiTables → option Regions;
  aml_context_new : option Regions → C;
  aml_parse : C → list Z → result AmlError unit * C;
  aml_initialize : C → Kmem M → P → outcome (result AmlError unit * C * Kmem M * P);
  minimal_parse : Z → Z → result ElfError Elf;
  elf_error : ElfError → list Z;
  fb_fmt : Vga.FrameBufferInfo → list Z;
}.
Context (env : Environment).

(** How a piece of the boot ends. *)
Inductive verdict :=
| Done (k : Kernel)
| Panicked (msg : string) (k : Kernel)
| Spins (k : Kernel)                  (* on the lock of [WRITER] *)
| Undefined (msg : string).

Definition then_ (v : verdict) (f : Kernel → verdict) : verdict :=
  match v with Done k => f k | _ => v end.

(** Run a component and put its result into the state. *)
Definition call {R} (k : Kernel) (m : outcome R) (put : R → Kernel) : verdict :=
  match m with
  | Ret r => Done (put r)
  | Panic msg => Panicked msg k
  | Undef msg => Undefined msg
  end.

Definition set_serial (k : Kernel) x := mk_kernel x (logger_set k) (writer k) (writer_locked k) (cpu k)
  (ports k) (kmem k) (heap k) (acpi_data k) (io_regs k) (local_mem k) (apic_msr k) (io_apic k)
  (local_apic k) (elf k) (uptime k).
Definition set_logger (k : Kernel) := mk_kernel (serial k) true (writer k) (writer_locked k) (cpu k)
  (ports k) (kmem k) (heap k) (acpi_data k) (io_regs k) (local_mem k) (apic_msr k) (io_apic k)
  (local_apic k) (elf k) (uptime k).
Definition set_writer (k : Kernel) w locked := mk_kernel (serial k) (logger_set k) w locked (cpu k)
  (ports k) (kmem k) (heap k) (acpi_data k) (io_regs k) (local_mem k) (apic_msr k) (io_apic k)
  (local_apic k) (elf k) (uptime k).
Definition set_cpu (k : Kernel) x := mk_kernel (serial k) (logger_set k) (writer k) (writer_locked k) x
  (ports k) (kmem k) (heap k) (acpi_data k) (io_regs k) (local_mem k) (apic_msr k) (io_apic k)
  (local_apic k) (elf k) (uptime k).
Definition set_ports (k : Kernel) x := mk_kernel (serial k) (logger_set k) (writer k) (writer_locked k)
  (cpu k) x (kmem k) (heap k) (acpi_data k) (io_regs k) (local_mem k) (apic_msr k) (io_apic k)
  (local_apic k) (elf k) (uptime k).
Definition set_heap (k : Kernel) x m := mk_kernel (serial k) (logger_set k) (writer k) (writer_locked k)
  (cpu k) (ports k) m x (acpi_data k) (io_regs k) (local_mem k) (apic_msr k) (io_apic k)
  (local_apic k) (elf k) (uptime k).
Definition set_acpi (k : Kernel) x m p := mk_kernel (serial k) (logger_set k) (writer k) (writer_locked k)
  (cpu k) p m (heap k) x (io_regs k) (local_mem k) (apic_msr k) (io_apic k) (local_apic k) (elf k)
  (uptime k).
Definition set_apics (k : Kernel) io local m d v msr := mk_kernel (serial k) (logger_set k) (writer k)
  (writer_locked k) (cpu k) (ports k) m (heap k) (acpi_data k) d v msr io local (elf k) (uptime k).
Definition set_elf (k : Kernel) x := mk_kernel (serial k) (logger_set k) (writer k) (writer_locked k)
  (cpu k) (ports k) (kmem k) (heap k) (acpi_data k) (io_regs k) (local_mem k) (apic_msr k) (io_apic k)
  (local_apic k) x (uptime k).
Definition set_uptime (k : Kernel) x := mk_kernel (serial k) (logger_set k) (writer k) (writer_locked k)
  (cpu k) (ports k) (kmem k) (heap k) (acpi_data k) (io_regs k) (local_mem k) (apic_msr k) (io_apic k)
  (local_apic k) (elf k) x.

(** ** Logging *)


(** [logging::init]: a second logger is refused. *)
Definition logging_init (k : Kernel) : verdict :=
  if logger_set k then Panicked "Failed to set logger" k else Done (set_logger k).

(** The macros of crate log: without a logger a record is dropped.  The console is
    locked while it prints, and a panic leaves it so. *)
Definition klog (target : string) (level : Logging.Level) (msg : list Z) (k : Kernel) : verdict :=
  if negb (logger_set k) then Done k
  else
    let r := Logging.mk_record (Vga.chars target) level msg in
    let k := set_serial k (Logging.serial_println (serial k) (Logging.log_pieces (level_fmt env) r)) in
    if bool_decide (level = Logging.Trace) then Done k
    else if writer_locked k then Spins k
    else match Vga._print (writer k) (Logging.log_pieces (level_fmt env) r ++ [[Vga.ch "010"]]) with
         | Ret w => Done (set_writer k w false)
         | Panic e => Panicked e (set_writer k (writer k) true)
         | Undef e => Undefined e
         end.
Definition crate_name : string := "nocciolo_kernel".
Definition info (s : string) : Kernel → verdict := klog crate_name Logging.Info (Vga.chars s).
Definition trace_in (target s : string) : Kernel → verdict := klog target Logging.Trace (Vga.chars s).
Definition trace (s : string) : Kernel → verdict := trace_in crate_name s.

(** ** Initialisation *)

Definition set_framebuffer (boot_info : BootInfo) (k : Kernel) : verdict :=
  match framebuffer boot_info with
  | Some (buf, i) =>
      if writer_locked k then Spins k
      else Done (set_serial (set_writer k (Vga.set_fb (writer k) buf i) false)
             (Logging.serial_println (serial k) [Vga.chars "FB: "; fb_fmt env i]))
  | None => Done k
  end.

(** The tables are made at the first use, before "Loaded GDT"; the two lines that
    follow it change nothing else. *)
Definition gdt_init (k : Kernel) : verdict :=
  let trace := trace_in "nocciolo_kernel::gdt" in
  then_ (trace "Loading GDT" k) (λ k,
  then_ (call k (Gdt.init (cpu k) (stack_start env)) (set_cpu k)) (λ k,
  then_ (trace "Loaded GDT" k) (λ k,
  then_ (trace "Loading TSS" k) (trace "Loaded TSS")))).

Definition init_idt (k : Kernel) : verdict :=
  let trace := trace_in "nocciolo_kernel::interrupts" in
  then_ (trace "Loading IDT" k) (λ k,
  trace "Loaded IDT" (set_cpu k (Gdt.init_idt (cpu k) (filled env)))).

Definition init_heap (boot_info : BootInfo) (k : Kernel) : verdict :=
  call k (main_init_heap (offset_page_table env) (kmem k) (cr3 env) (physical_memory_offset boot_info)
            (memory_regions boot_info) (heap k))
    (λ '(a, m), set_heap k a m).

Definition acpi_init (boot_info : BootInfo) (k : Kernel) : verdict :=
  call k (Acpi.init (aml_parse env) (validate env) (from_validated_rsdp env) (pci_config_regions env) (aml_context_new env)
            (aml_initialize env) (kmem k) (pm env) (ports k) (acpi_data k) (rsdp_addr boot_info) (size_of_rsdp env)
            (search_on_bios env))
    (λ '(data, m, p), set_acpi k data m p).

(** [verify_in_correct_region] warns when the local APIC is in no memory region. *)
Definition verify_apic_region (boot_info : BootInfo) (k : Kernel) : verdict :=
  match LocalApic.find_local_apic_base (Acpi.madt (acpi_data k)) (apic_msr k) with
  | Ret addr =>
      if LocalApic.verify_in_correct_region addr (memory_regions boot_info) then Done k
      else klog "nocciolo_kernel::interrupts::apic::local" Logging.Warn
             (Vga.chars "APIC address " ++ Logging.fmt_colored Format.upper_hex (Logging.red addr) ++
              Vga.chars " was not found in any known MemoryRegion!") k
  | Panic msg => Panicked msg k
  | Undef msg => Undefined msg
  end.

(** [apic::init] returns a [Result] without possible errors. *)
Definition apic_init (boot_info : BootInfo) (k : Kernel) : verdict :=
  then_ (verify_apic_region boot_info k) (λ k,
  call k (LocalApic.apic_init (kmem k) (io_regs k) (local_mem k) (apic_msr k) (Acpi.madt (acpi_data k))
            (memory_regions boot_info))
    (λ '(io, local, m, d, v, msr), set_apics k io local m d v msr)).

Definition enable_interrupts (k : Kernel) : Kernel :=
  let c := cpu k in
  set_cpu k (Gdt.mk_cpu (Gdt.gdtr c) (Gdt.cs c) (Gdt.tr c) (Gdt.idtr c) true).

Definition meta_init (boot_info : BootInfo) (k : Kernel) : verdict :=
  let '(data, len) := Symbols.get_elf_slice (kernel_image_offset boot_info) (kernel_len boot_info) in
  match minimal_parse env data len with
  | Err e => klog "nocciolo_kernel::meta::symbols" Logging.Warn
               (Vga.chars "Failed to parse ELF: " ++ elf_error env e) k
  | Ok _ => Done (set_elf k (Symbols.init (elf k) (minimal_parse env) (kernel_image_offset boot_info)
                               (kernel_len boot_info)))
  end.

(** [device::init], which is [pci::init]: each device is logged as it is found. *)
Definition pci_info (msg : list Z) : Kernel → verdict := klog "nocciolo_kernel::device::pci" Logging.Info msg.

Definition report_device (addr : PciAddress) (vid did : Z) (k : Kernel) : verdict :=
  then_ (pci_info (Report.device_line addr vid did) k) (λ k,
  let '(i, p) := Pci.describe (ports k) addr vid did in
  then_ (pci_info (Report.class_line i) (set_ports k p)) (λ k,
  match Report.name_line i with Some line => pci_info line k | None => Done k end)).

Fixpoint device_loop (fuel : nat) (e : Pci.DeviceEnumerator) (devices : Z) (k : Kernel) : verdict :=
  match fuel with
  | O => Undefined "enumeration does not end"
  | S fuel =>
      match Pci.next (ports k) e with
      | Ret (None, _, p) => pci_info (Report.found_line devices) (set_ports k p)
      | Ret (Some (addr, vid, did), e, p) =>
          match add_u 31 devices 1 with
          | Ret devices => then_ (report_device addr vid did (set_ports k p)) (device_loop fuel e devices)
          | Panic msg => Panicked msg k
          | Undef msg => Undefined msg
          end
      | Panic msg => Panicked msg k
      | Undef msg => Undefined msg
      end
  end.

Definition device_init (k : Kernel) : verdict :=
  then_ (trace_in "nocciolo_kernel::device::pci" "Enumerating devices..." k) (device_loop 33 Pci.enumerate 0).

(** The first part of [init], up to the timer chip. *)
Definition init_processor (boot_info : BootInfo) (k : Kernel) : verdict :=
  then_ (logging_init k) (λ k,
  then_ (set_framebuffer boot_info k) (λ k,
  then_ (info "----<[ nocciolo ]>----" k) (λ k,
  then_ (gdt_init k) (λ k,
  then_ (init_idt k) (λ k,
  then_ (trace "Enabling Interrupts" k) (λ k,
  then_ (trace "Initializing the PIC" k) (λ k,
  let k := set_ports k (pics_initialize (ports k)) in
  then_ (trace "Initializing PIT" k) (λ k,
  call k (Pit.init (ports k)) (set_ports k))))))))).

(** The rest of it: the heap, ACPI and the interrupt controllers; then the parts
    that run with interrupts enabled. *)
Definition init_controllers (boot_info : BootInfo) (k : Kernel) : verdict :=
  then_ (trace "Initializing Heap" k) (λ k,
  then_ (init_heap boot_info k) (λ k,
  then_ (trace "Initializing ACPI" k) (λ k,
  then_ (acpi_init boot_info k) (λ k,
  then_ (apic_init boot_info k) (λ k,
  let k := set_ports k (pics_disable (ports k)) in
  Done (enable_interrupts k)))))).

Definition init_devices (boot_info : BootInfo) (k : Kernel) : verdict :=
  then_ (trace "Interrupts enabled" k) (λ k,
  then_ (trace "Initializing Kernel Runtime" k) (λ k,
  then_ (meta_init boot_info k) (λ k,
  then_ (trace "Initializing Devices" k) (λ k,
  then_ (device_init k) (info "Finished Initializing"))))).

Definition init (boot_info : BootInfo) (k : Kernel) : verdict :=
  then_ (init_processor boot_info k) (λ k,
  then_ (init_controllers boot_info k) (init_devices boot_info)).

(** ** [kernel_main] *)

(** The ten seconds before the shutdown.  [ticks i j] is how many ticks the [j]-th
    iteration of the [i]-th sleep lets pass; out of fuel, the sleep goes on. *)
Inductive countdown_end := Over (k : Kernel) | Asleep (i : Z) (k : Kernel) | Ended (v : verdict).
Fixpoint countdown (n : nat) (fuel : nat) (ticks : Z → nat → Z) (k : Kernel) : countdown_end :=
  match n with
  | O => Over k
  | S n =>
      let i := Z.of_nat n in
      match klog crate_name Logging.Info (Vga.chars "See you in " ++ Format.display i ++ Vga.chars " seconds!") k with
      | Done k =>
          match Pit.sleep fuel (ticks i) (uptime k) 1 0 with
          | Ret (Some t) => countdown n fuel ticks (set_uptime k t)
          | Ret None => Asleep i k
          | Panic msg => Ended (Panicked msg k)
          | Undef msg => Ended (Undefined msg)
          end
      | v => Ended v
      end
  end.

(** What follows the countdown: the request to shut down and the executor.  [Debug]
    of the hypervisor, and whether its shutdown goes through ACPI. *)
Definition debug_hypervisor (h : option System.HypervisorKind) : list Z :=
  match h with
  | None => Vga.chars "None"
  | Some System.Bochs => Vga.chars "Some(Bochs)"
  | Some System.QemuOld => Vga.chars "Some(QemuOld)"
  | Some System.QemuNew => Vga.chars "Some(QemuNew)"
  | Some System.VirtualBox => Vga.chars "Some(VirtualBox)"
  | Some System.VMWare => Vga.chars "Some(VMWare)"
  end.
Definition has_shutdown_port (h : option System.HypervisorKind) : bool :=
  match h with Some System.Bochs | Some System.QemuOld | Some System.VirtualBox => true | _ => false end.

Definition shutdown (brand : option string) (k : Kernel) : verdict :=
  let hypervisor := System.detect_hypervisor brand in
  let log := klog "nocciolo_kernel::meta::system" in
  then_ (log Logging.Info (Vga.chars "Requesting shutdown (hypervisor=" ++ debug_hypervisor hypervisor ++
                           Vga.chars ")") k) (λ k,
  then_ (call k (System.request_shutdown brand (System.mk_machine (acpi_data k) false (ports k)))
           (λ m, set_acpi k (System.ACPI_DATA m) (kmem k) (System.ports m))) (λ k,
  if has_shutdown_port hypervisor then Done k
  else log Logging.Error (Vga.chars "We failed to sleep since you can see this") k)).

Definition executor_start {Q W K} `{!ArrayQueue Q Z} (NEXT_ID : Z) (waker : W) (keyboard : K) (k : Kernel) :
    outcome (KeyboardTask.system Q W K) :=
  KeyboardTask.start NEXT_ID waker (keyboard, writer k).

Inductive main_end :=
| MainAsleep (i : Z) (k : Kernel)     (* in the sleep before second [i] *)
| MainRunning (k : Kernel)            (* about to start the executor *)
| MainEnded (v : verdict).

Definition kernel_main (boot_info : BootInfo) (brand : option string) (fuel : nat) (ticks : Z → nat → Z)
    (k : Kernel) : main_end :=
  let k := set_serial k (Logging.serial_println (serial k) [Vga.chars "----<[ nocciolo ]>----"]) in
  match init boot_info k with
  | Done k =>
      match countdown 10 fuel ticks k with
      | Over k => match shutdown brand k with Done k => MainRunning k | v => MainEnded v end
      | Asleep i k => MainAsleep i k
      | Ended v => MainEnded v
      end
  | v => MainEnded v
  end.

(** ** Panics *)

(** Where the panic handler ends: in [hlt_loop], or spinning on the console's lock.
    [panic_info] is the text of crate core's [PanicInfo]. *)
Inductive panic_end := HltLoop (k : Kernel) | SpinsForever (k : Kernel) | PanicsAgain (msg : string) (k : Kernel)
| PanicUndefined (msg : string).

Definition panic_handler (msg : string) (k : Kernel) : panic_end :=
  match klog crate_name Logging.Error (Vga.chars "[PANIC] " ++ panic_info env msg) k with
  | Done k => HltLoop k
  | Spins k => SpinsForever k
  | Panicked msg k => PanicsAgain msg k
  | Undefined msg => PanicUndefined msg
  end.

(** A panic inside the handler runs the handler again. *)
Fixpoint panics (fuel : nat) (msg : string) (k : Kernel) : panic_end :=
  match fuel with
  | O => PanicsAgain msg k
  | S fuel =>
      match panic_handler msg k with
      | PanicsAgain msg k => panics fuel msg k
      | e => e
      end
  end.

(** ** Testing under QEMU *)

Inductive QemuExitCode := Success | Failed.
Definition qemu_exit_value (code : QemuExitCode) : Z :=
  match code with Success => 0x10 | Failed => 0x11 end.

Definition exit_qemu (exit_code : QemuExitCode) (p : P) : P :=
  port_write p 32 0xF4 (qemu_exit_value exit_code).

(** [alloc_error_handler]. *)
Definition alloc_error (layout : string) (k : Kernel) : verdict :=
  Panicked ("allocation error: " +:+ layout) k.

(** ** Lemmas about logging and panics *)

(** Once a panic left the console locked, the next message reaches the serial line and
    then waits for ever. *)
Lemma klog_locked target level msg k : logger_set k = true → writer_locked k = true →
  level ≠ Logging.Trace →
  klog target level msg k = Spins (set_serial k (Logging.serial_println (serial k)
    (Logging.log_pieces (level_fmt env) (Logging.mk_record (Vga.chars target) level msg)))).
Proof.
  intros Hset Hlock Hlevel. unfold klog. rewrite Hset. simpl.
  by rewrite (bool_decide_eq_false_2 _ Hlevel), Hlock.
Qed.

(** The text the panic handler logs. *)
Definition panic_line (msg : string) : list (list Z) :=
  Logging.log_pieces (level_fmt env) (Logging.mk_record (Vga.chars crate_name) Logging.Error
    (Vga.chars "[PANIC] " ++ panic_info env msg)).

Lemma panic_handler_unlogged msg k : logger_set k = false → panic_handler msg k = HltLoop k.
Proof. intros Hset. unfold panic_handler, klog. by rewrite Hset. Qed.
Lemma panic_handler_locked msg k : logger_set k = true → writer_locked k = true →
  panic_handler msg k = SpinsForever (set_serial k (Logging.serial_println (serial k) (panic_line msg))).
Proof. intros Hset Hlock. unfold panic_handler. by rewrite klog_locked. Qed.
Lemma panic_handler_unlocked msg k : logger_set k = true → writer_locked k = false →
  let k1 := set_serial k (Logging.serial_println (serial k) (panic_line msg)) in
  (∃ w, Vga._print (writer k) (panic_line msg ++ [[Vga.ch "010"]]) = Ret w ∧
     panic_handler msg k = HltLoop (set_writer k1 w false)) ∨
  ∃ e, Vga._print (writer k) (panic_line msg ++ [[Vga.ch "010"]]) = Panic e ∧
     panic_handler msg k = PanicsAgain e (set_writer k1 (writer k) true).
Proof.
  intros Hset Hlock. pose proof (Vga.print_defined (panic_line msg ++ [[Vga.ch "010"]]) (writer k)) as Hdef.
  unfold panic_handler, klog. rewrite Hset. cbn [negb bool_decide writer_locked set_serial writer].
  rewrite Hlock. fold (panic_line msg). destruct (Vga._print _ _) as [w|e|e]; [left; by exists w|right; by exists e|done].
Qed.

(** ** What the enumeration logs *)

(** A record of the logger as it is sent, and the records about one device. *)
Definition sent (target : string) (level : Logging.Level) (msg : list Z) : list Z :=
  concat (Logging.log_pieces (level_fmt env) (Logging.mk_record (Vga.chars target) level msg)) ++ [Vga.ch "010"].
Definition pci_sent : list Z → list Z := sent "nocciolo_kernel::device::pci" Logging.Info.
Definition device_report (i : Pci.DeviceInfo) : list (list Z) :=
  Report.device_line (Pci.info_addr i) (Pci.info_vendor i) (Pci.info_device i) ::
  Report.class_line i :: option_list (Report.name_line i).

Lemma klog_sent target level msg (k k' : Kernel) : klog target level msg k = Done k' → logger_set k = true →
  serial k' = serial k ++ sent target level msg ∧ ports k' = ports k ∧ logger_set k' = true.
Proof.
  unfold klog. intros Hrun Hset. rewrite Hset in Hrun. cbn [negb] in Hrun.
  repeat case_match; simplify_eq; by split_and!.
Qed.

(** From [k] to [k'] the text [s] was printed, on the console as over the serial line,
    and what the boot knows of ACPI and of the local APIC is the same. *)
Record printed (s : list Z) (k k' : Kernel) : Prop := {
  pr_serial : serial k' = serial k ++ s;
  pr_screen : Vga.write_string (writer k) s = Ret (writer k');
  pr_logger : logger_set k = true ∧ logger_set k' = true;
  pr_acpi : acpi_data k' = acpi_data k;
  pr_msr : apic_msr k' = apic_msr k;
}.

Lemma printed_trans s1 s2 k k1 k2 : printed s1 k k1 → printed s2 k1 k2 → printed (s1 ++ s2) k k2.
Proof.
  intros [H1 H2 [H3 _] H4 H5] [H1' H2' [_ H3'] H4' H5']. split; try congruence.
  - by rewrite H1', H1, <-(assoc_L app).
  - rewrite Logging.write_string_app, H2. done.
  - done.
Qed.

Lemma printed_nil k : logger_set k = true → printed [] k k.
Proof. intros Hset. split; try done. by rewrite app_nil_r. Qed.

Lemma printed_ports s k p k' : printed s (set_ports k p) k' → printed s k k'.
Proof. by intros []; split. Qed.

Lemma klog_printed target level msg (k k' : Kernel) : klog target level msg k = Done k' → logger_set k = true →
  level ≠ Logging.Trace → printed (sent target level msg) k k' ∧ ports k' = ports k.
Proof.
  intros Hrun Hset Hlevel. destruct (klog_sent _ _ _ _ _ Hrun Hset) as (Hs & Hp & Hl). split; [|done].
  unfold klog in Hrun. rewrite Hset, (bool_decide_eq_false_2 _ Hlevel) in Hrun. cbn [negb] in Hrun.
  rewrite Logging.print_concat, concat_app in Hrun.
  repeat case_match; try done. injection Hrun as <-. by split.
Qed.

Lemma report_device_printed a vid did (k k' : Kernel) : report_device a vid did k = Done k' → logger_set k = true →
  ∃ i, Pci.describe (ports k) a vid did = (i, ports k') ∧ printed (concat (pci_sent <$> device_report i)) k k'.
Proof.
  unfold report_device. destruct (pci_info _ k) as [k1|? ?|?|?] eqn:H1; try done. cbn [then_]. intros Hrun Hset.
  destruct (klog_printed _ _ _ _ _ H1 Hset ltac:(done)) as [Hpr1 Hp1]. rewrite Hp1 in Hrun.
  destruct (Pci.describe (ports k) a vid did) as [i p] eqn:Hd. exists i.
  destruct (pci_info _ (set_ports k1 p)) as [k2|? ?|?|?] eqn:H2; try done. cbn [then_] in Hrun.
  destruct (klog_printed _ _ _ _ _ H2 (proj2 (pr_logger _ _ _ Hpr1)) ltac:(done)) as [Hpr2%printed_ports Hp2].
  pose proof (printed_trans _ _ _ _ _ Hpr1 Hpr2) as Hpr. cbn [ports set_ports] in Hp2.
  unfold device_report. assert (Pci.info_addr i = a ∧ Pci.info_vendor i = vid ∧ Pci.info_device i = did) as (-> & -> & ->).
  { unfold Pci.describe in Hd. destruct (Pci.class_code _ _), (Pci.subclass _ _). by simplify_eq. }
  destruct (Report.name_line i) as [line|].
  - destruct (klog_printed _ _ _ _ _ Hrun (proj2 (pr_logger _ _ _ Hpr)) ltac:(done)) as [Hpr3 Hp3].
    split; [congruence|]. change (concat _) with (pci_sent (Report.device_line a vid did) ++
      pci_sent (Report.class_line i) ++ pci_sent line ++ []). rewrite app_nil_r, (assoc_L app).
    by eapply printed_trans.
  - injection Hrun as <-. split; [congruence|]. change (concat _) with (pci_sent (Report.device_line a vid did) ++
      pci_sent (Report.class_line i) ++ []). by rewrite app_nil_r.
Qed.

(** The loop with its records is the enumeration of [Pci], and the records are those of
    its list. *)
Lemma device_loop_printed fuel : ∀ e devices (k k' : Kernel),
  device_loop fuel e devices k = Done k' → logger_set k = true →
  ∃ infos count, Pci.init_loop fuel (ports k) e devices = Ret (infos, count, ports k') ∧
    printed (concat (pci_sent <$> mjoin (device_report <$> infos)) ++ pci_sent (Report.found_line count)) k k'.
Proof.
  induction fuel as [|fuel IH]; intros e devices k k' Hrun Hset; cbn [device_loop] in Hrun; [done|].
  cbn [Pci.init_loop]. destruct (Pci.next (ports k) e) as [[[[[[a vid] did]|] e'] p]|?|?]; try done; cycle 1.
  { destruct (klog_printed _ _ _ _ _ Hrun Hset ltac:(done)) as [Hpr%printed_ports Hp]. exists [], devices. run_bind.
    cbn [set_ports ports] in Hp. by rewrite Hp. }
  destruct (add_u 31 devices 1) as [n|?|?]; try done. cbn [mbind outcome_bind].
  destruct (report_device a vid did (set_ports k p)) as [k1|? ?|?|?] eqn:H1; try done. cbn [then_] in Hrun.
  destruct (report_device_printed _ _ _ _ _ H1 Hset) as (i & Hd & Hpr%printed_ports).
  cbn [set_ports ports] in Hd. rewrite Hd.
  destruct (IH _ _ _ _ Hrun (proj2 (pr_logger _ _ _ Hpr))) as (infos & count & Hinit & Hpr'). rewrite Hinit. run_bind.
  exists (i :: infos), count. split; [done|]. cbn [fmap list_fmap mjoin list_join].
  rewrite fmap_app, concat_app, <-(assoc_L app). by eapply printed_trans.
Qed.

(** ** Properties *)

(** C21: The panic handler does not recurse for ever: whatever the state, with two runs it has
    ended. Before there is a logger it halts at once. If the console is locked, as it is when the panic
    came from printing, it sends the message over the serial line and waits for ever for
    the lock. Otherwise it sends the message over the serial line; if the console can print
    it, it halts with the message on the screen and the lock free; if not, the panic in
    the printing runs the handler a second time, which sends that panic's message after
    the first and waits for ever for the lock that the first run holds. *)
Theorem panics_end (fuel : nat) (msg : string) (k : Kernel) (Hfuel : (2 ≤ fuel)%nat) :
  let sent_to s m := Logging.serial_println s (panic_line m) in
  (logger_set k = false → panics fuel msg k = HltLoop k) ∧
  (logger_set k = true → writer_locked k = true →
     panics fuel msg k = SpinsForever (set_serial k (sent_to (serial k) msg))) ∧
  (logger_set k = true → writer_locked k = false →
     (∃ w, Vga._print (writer k) (panic_line msg ++ [[Vga.ch "010"]]) = Ret w ∧
        panics fuel msg k = HltLoop (set_writer (set_serial k (sent_to (serial k) msg)) w false)) ∨
     ∃ e, Vga._print (writer k) (panic_line msg ++ [[Vga.ch "010"]]) = Panic e ∧
        panics fuel msg k = SpinsForever (set_writer
          (set_serial k (sent_to (sent_to (serial k) msg) e)) (writer k) true)).
Proof.
  intros sent_to. destruct fuel as [|[|fuel]]; [lia..|]. cbn [panics]. split_and!.
  - intros Hset. by rewrite panic_handler_unlogged.
  - intros Hset Hlock. by rewrite panic_handler_locked.
  - intros Hset Hlock. destruct (panic_handler_unlocked msg k Hset Hlock) as [(w & Hw & ->)|(e & He & ->)].
    + left. by exists w.
    + right. exists e. split; [done|]. by rewrite panic_handler_locked.
Qed.

(** C26: The devices are reported as they are found: when [device::init] returns, it has run
    the enumeration of [Pci.init], and has sent, after its trace, the vendor, class and
    name records of each device listed, in order, and then their number. *)
Theorem device_init_reports (k k' : Kernel) (Hlog : logger_set k = true) (Hrun : device_init k = Done k') :
  ∃ infos count, Pci.init (ports k) = Ret (infos, count, ports k') ∧
    serial k' = serial k ++ sent "nocciolo_kernel::device::pci" Logging.Trace (Vga.chars "Enumerating devices...") ++
      concat (pci_sent <$> mjoin (device_report <$> infos)) ++ pci_sent (Report.found_line count).
Proof.
  unfold device_init in Hrun. destruct (trace_in _ _ k) as [k1|? ?|?|?] eqn:H1; try done. cbn [then_] in Hrun.
  destruct (klog_sent _ _ _ _ _ H1 Hlog) as (Hs1 & Hp1 & Hl1).
  destruct (device_loop_printed 33 _ _ _ _ Hrun Hl1) as (infos & count & Hinit & [Hs _ _ _ _]).
  exists infos, count. rewrite <-Hp1. split; [exact Hinit|]. rewrite Hs, Hs1. by rewrite <-!(assoc_L app).
Qed.

Lemma print_on_no_framebuffer level r : FontLaws →
  ∃ e, Vga._print Vga.WRITER (Logging.log_pieces level r ++ [[Vga.ch "010"]]) = Panic e.
Proof.
  intros Hf. destruct (Vga.print_without_framebuffer_panics (Vga.ch "[") Hf eq_refl) as [e He].
  exists e. unfold Logging.log_pieces. change (Vga.chars "[") with [Vga.ch "["].
  cbn [app Vga._print Vga.write_string]. by rewrite He.
Qed.

(** C25: Without a framebuffer the kernel never gets past its first message: printing it
    panics, and the panic handler waits for ever for the console's lock, which the
    interrupted printing still holds. What a user can see of this is on the serial
    line: the banner, the first message and the panic. *)
Theorem boot_without_framebuffer (boot_info : BootInfo) brand fuel ticks (k : Kernel)
    (Hfont : FontLaws) (Hfb : framebuffer boot_info = None) (Hlog : logger_set k = false)
    (Hw : writer k = Vga.WRITER) (Hlock : writer_locked k = false) :
  ∃ e k1 k2, kernel_main boot_info brand fuel ticks k = MainEnded (Panicked e k1) ∧
    (∀ n, panics (S n) e k1 = SpinsForever k2) ∧
    serial k2 = serial k ++ (Vga.chars "----<[ nocciolo ]>----" ++ [Vga.ch "010"]) ++
      (concat (Logging.log_pieces (level_fmt env) (Logging.mk_record (Vga.chars crate_name) Logging.Info
         (Vga.chars "----<[ nocciolo ]>----"))) ++ [Vga.ch "010"]) ++
      (concat (panic_line e) ++ [Vga.ch "010"]).
Proof.
  set (r := Logging.mk_record (Vga.chars crate_name) Logging.Info (Vga.chars "----<[ nocciolo ]>----")).
  destruct (print_on_no_framebuffer (level_fmt env) r Hfont) as [e He].
  subst r. eexists e, _, _. split; [|split].
  - unfold kernel_main, init, init_processor, logging_init. cbn [logger_set set_serial]. rewrite Hlog. cbn [then_].
    unfold set_framebuffer. rewrite Hfb. cbn [then_]. unfold info, klog. cbn [logger_set set_logger negb].
    rewrite bool_decide_eq_false_2 by done. cbn [writer_locked set_serial set_logger]. rewrite Hlock.
    cbn [writer set_serial set_logger].
    rewrite Hw, He. reflexivity.
  - intros n. cbn [panics]. unfold panic_handler. rewrite klog_locked by done. reflexivity.
  - cbn [serial set_serial set_writer set_logger]. unfold Logging.serial_println.
    by rewrite <-!app_assoc.
Qed.
End Boot.

(** ** Witnesses: a small machine *)

#[local] Existing Instances addr_model Tables.tables_mapper Pci.bridge_ports IoApic.chip_device LocalApic.trace_mem
  Gdt.list_gdt Vga.sample_font.

(** A host bridge beside a pair of interrupt controllers that are masked or not, and a
    keyboard controller with the bytes it has to send. *)
Record sample_ports := mk_sample_ports { s_bridge : Pci.bridge; s_masked : bool; s_keys : list Z }.
#[local] Instance sample_ports_ports : Ports sample_ports := {|
  port_read p w port :=
    if port =? 0x60 then (default 0 (head (s_keys p)), mk_sample_ports (s_bridge p) (s_masked p) (tail (s_keys p)))
    else let '(v, b) := port_read (s_bridge p) w port in (v, mk_sample_ports b (s_masked p) (s_keys p));
  port_write p w port v := mk_sample_ports (port_write (s_bridge p) w port v) (s_masked p) (s_keys p);
|}.
#[local] Instance sample_pics : ChainedPics sample_ports := {|
  pics_initialize p := mk_sample_ports (s_bridge p) false (s_keys p);
  pics_disable p := mk_sample_ports (s_bridge p) true (s_keys p);
|}.
(** An interpreter without methods. *)
#[local] Instance empty_aml : Aml () sample_ports string string := {|
  aml_name s := Ok s;
  name_string s := s;
  aml_missing e := Some e;
  aml_invoke c p n l := (Err n, c, p);
  aml_lookup c n := Err n;
|}.

Definition sample_entries : list MadtEntry := [MadtOther; MadtIoApic 0xFEC00000].
Definition sample_acpi_tables : Acpi.Tables string (list MadtEntry) (Fadt ()) :=
  Acpi.mk_tables None (Some sample_entries) (Ok (Acpi.mk_aml_table 0x7F000 64)) [].

Definition sample_environment :
    Environment (M := Tables.PageTables) (P := sample_ports) (C := ()) (AcpiError := string) (AmlError := string)
      (A := ()) (Regions := ()) (Elf := ()) (ElfError := ()) :=
  mk_environment Logging.sample_level_fmt Vga.chars 0x200000 (λ _, true) (λ _ _, boot_tables) 0x1000 (λ _, 0) 36
    (λ k, Ret (Err "no RSDP", k)) (λ _, true) (λ k _, Ret (Ok sample_acpi_tables, k)) (λ _, None) (λ _, ())
    (λ c _, (Ok (), c)) (λ c k p, Ret (Ok (), c, k, p)) (λ _ _, Ok ()) (λ _, Vga.chars "bad magic")
    (λ _, Vga.chars "FrameBufferInfo").

Definition sample_boot_info (fb : option (list Z * Vga.FrameBufferInfo)) : BootInfo :=
  mk_boot_info fb (Some 0x280000000000) heap_regions (Some 0xE0000) 0 0.

Definition three_line_chip : IoApic.chip :=
  IoApic.mk_chip 0 (λ r, if r =? 1 then 0x20011 else if Z.even r then 0x10000 else 0).

Definition sample_kernel : Kernel (M := Tables.PageTables) (FH := LinkedList.LinkedListAllocator)
    (P := sample_ports) (D := IoApic.chip) (V := list LocalApic.access) (G := nat * list Descriptor)
    (C := ()) (A := ()) (Elf := ()) :=
  mk_kernel [] false Vga.WRITER false Gdt.sample_cpu (mk_sample_ports Pci.sample_bridge false [0x1E; 0x9E])
    (mk_kmem None None page_allocator_new) FixedSizeBlock.new (Acpi.mk_acpi_data None None None)
    three_line_chip [] 0xFEE00900 None None None 0.

(** A kernel with a logger whose console cannot print. *)
Definition sample_panicking : Kernel (M := Tables.PageTables) (FH := LinkedList.LinkedListAllocator)
    (P := sample_ports) (D := IoApic.chip) (V := list LocalApic.access) (G := nat * list Descriptor)
    (C := ()) (A := ()) (Elf := ()) :=
  set_writer (set_logger sample_kernel) Vga.WRITER false.

Lemma panics_end_witness :
  ∃ e k', Vga._print Vga.WRITER (panic_line sample_environment "index out of range" ++ [[Vga.ch "010"]]) = Panic e ∧
    panics sample_environment 7 "index out of range" sample_panicking = SpinsForever k' ∧
    serial k' = Logging.serial_println
      (Logging.serial_println [] (panic_line sample_environment "index out of range"))
      (panic_line sample_environment e) ∧ writer_locked k' = true.
Proof.
  destruct (panics_end sample_environment 7 "index out of range" sample_panicking) as (_ & _ & H);
    [apply Nat.leb_le; done|].
  destruct (H eq_refl eq_refl) as [(w & Hw & _)|(e & He & Hrun)].
  - vm_compute in Hw. discriminate Hw.
  - eexists e, _. split; [exact He|]. split; [exact Hrun|]. by split.
Defined.

Lemma boot_without_framebuffer_witness :
  ∃ e k1 k2, kernel_main sample_environment (sample_boot_info None) None 5 (λ _ _, 1) sample_kernel =
      MainEnded (Panicked e k1) ∧
    (∀ n, panics sample_environment (S n) e k1 = SpinsForever k2) ∧
    serial k2 = (Vga.chars "----<[ nocciolo ]>----" ++ [Vga.ch "010"]) ++
      (concat (Logging.log_pieces Logging.sample_level_fmt (Logging.mk_record (Vga.chars crate_name) Logging.Info
         (Vga.chars "----<[ nocciolo ]>----"))) ++ [Vga.ch "010"]) ++
      (concat (panic_line sample_environment e) ++ [Vga.ch "010"]).
Proof.
  exact (boot_without_framebuffer sample_environment (sample_boot_info None) None 5 (λ _ _, 1) sample_kernel
    Vga.sample_font_laws eq_refl eq_refl eq_refl eq_refl).
Defined.

(** A kernel with a logger and a small screen. *)
Definition sample_logging := set_writer (set_logger sample_kernel)
  (Vga.set_fb Vga.WRITER (replicate 160 7) (Vga.mk_info 160 5 8 Vga.Bgr 4 5)) false.

Definition is_done {M FH P D V G C A Elf} (v : @verdict M FH P D V G C A Elf) : bool :=
  match v with Done _ => true | _ => false end.

Lemma device_init_reports_witness :
  ∃ k' infos, device_init sample_environment sample_logging = Done k' ∧
    Pci.init (ports sample_logging) = Ret (infos, 3, ports k') ∧
    serial k' = sent sample_environment "nocciolo_kernel::device::pci" Logging.Trace
        (Vga.chars "Enumerating devices...") ++
      concat (pci_sent sample_environment <$> mjoin (device_report <$> infos)) ++
      pci_sent sample_environment (Vga.chars "Found 3 PCI devices").
Proof.
  assert (is_done (device_init sample_environment sample_logging) = true) as Hdone by (vm_compute; reflexivity).
  destruct (device_init sample_environment sample_logging) as [k'|? ?|?|?] eqn:Hrun; try discriminate Hdone.
  destruct (device_init_reports sample_environment sample_logging k' eq_refl Hrun) as (infos & count & Hinit & Hs).
  assert (∃ l p, Pci.init (ports sample_logging) = Ret (l, 3, p)) as (l & p & H3)
    by (eexists _, _; vm_compute; reflexivity).
  assert (count = 3) as -> by congruence.
  exists k', infos. exact (conj eq_refl (conj Hinit Hs)).
Defined.

End Boot.
