(* ===== verification/BootRun.v ===== *)
(** * A boot that succeeds, and what follows it

    The components' theorems put together along [init] of kernel/src/main.rs: on a
    machine as the kernel expects it the boot finishes, with the heap, the descriptor
    tables and both interrupt controllers set up; and after it no interrupt advances
    the tick counter, so that [kernel_main] stays in its first sleep. *)

From Stdlib Require Import Ascii.
From S2P Require Import Prelude GlobalAlloc LinkedListAllocator FixedSizeBlock X86 Memory Paging PageTables Vga Logging IoApic LocalApic Pit.
From S2P Require Import Interrupts Gdt PciTypes Format Pci Report Task Keyboard KeyboardTask Acpi System Symbols Boot.

Module BootRun.

(** ** Kernel memory between mappings

    The page allocator has [room] bytes of its vacant window left, with frames for their page
    tables, and the pages from the heap on are [upper]; the frames of page tables are
    among [reach]. *)
Section Memory.
Context `{!X86Addr} {laws : X86AddrLaws} {M : Type} `{!Mapper M} {mlaws : MapperLaws M}.
Context {reach : Z → Prop}.

Definition table_frames_in (m : M) (fa : FrameAlloc.BootInfoFrameAllocator) : Prop :=
  ∀ f, table_frame m f ∨ f ∈ FrameAlloc.remaining fa → reach f.

Definition memory_ok (k : Kmem M) (room : Z) (upper : Z → option (Z * Z)) : Prop :=
  ∃ limit m fa, kmem_ok limit k m fa ∧ PAGE_ALLOCATOR k + room ≤ limit ∧ 2 ^ 36 ≤ PAGE_ALLOCATOR k ∧
    3 * room ≤ page_size * frames_left k ∧ (∀ q, HEAP_START ≤ q → mapping m q = upper q) ∧
    table_frames_in m fa.

Lemma table_frames_in_used m m' fa fa' n : table_frames_in m fa → frames_used m m' fa fa' n →
  table_frames_in m' fa'.
Proof.
  intros Hin [_ (j & _ & Hrem) Htab] f [Hf|Hf]; apply Hin; [by apply Htab|].
  right. rewrite Hrem in Hf. eapply sublist_subseteq; [apply sublist_drop|exact Hf].
Qed.

(** What mapping a region may take from the window. *)
Definition region_cost (size : Z) : Z := size + 2 * page_size.

Lemma region_cost_enough pa size : 0 ≤ pa → 0 < size →
  0 < region_pages pa size ∧ page_size * region_pages pa size ≤ region_cost size.
Proof.
  intros Hpa Hsz. destruct (region_pages_bounds pa size Hpa Hsz) as (Hn & Hub & _ & _).
  pose proof (Z.mod_pos_bound pa page_size ltac:(done)). unfold region_cost. lia.
Qed.

Definition in_physical (pa size : Z) : Prop := 0 ≤ pa ∧ 0 < size ∧ pa + size + page_size < 2 ^ 52.

Lemma memory_ok_fits k room upper pa size : 0 ≤ room →
  memory_ok k (room + region_cost size) upper → in_physical pa size →
  ∃ limit m fa, kmem_ok limit k m fa ∧ PAGE_ALLOCATOR k + (room + region_cost size) ≤ limit ∧
    2 ^ 36 ≤ PAGE_ALLOCATOR k ∧ 3 * (room + region_cost size) ≤ page_size * frames_left k ∧
    (∀ q, HEAP_START ≤ q → mapping m q = upper q) ∧ table_frames_in m fa ∧ request_fits limit k pa size.
Proof.
  intros Hroom (limit & m & fa & Hok & Hcur & Hlow & Hleft & Hup & Hin) (Hpa & Hsz & Hphys).
  exists limit, m, fa. split_and!; try done.
  pose proof (region_cost_enough pa size Hpa Hsz). unfold request_fits, page_size in *. lia.
Qed.

(** A step that leaves the upper half alone and takes the pages of a region. *)
Lemma memory_ok_step limit (k k' : Kmem M) (m m' : M) fa fa' room upper pa size :
  kmem_ok limit k m fa → PAGE_ALLOCATOR k + (room + region_cost size) ≤ limit → 2 ^ 36 ≤ PAGE_ALLOCATOR k →
  3 * (room + region_cost size) ≤ page_size * frames_left k → (∀ q, HEAP_START ≤ q → mapping m q = upper q) →
  table_frames_in m fa → in_physical pa size → kmem_ok limit k' m' fa' → (∀ q, HEAP_START ≤ q → mapping m' q = mapping m q) →
  PAGE_ALLOCATOR k' = PAGE_ALLOCATOR k + page_size * region_pages pa size →
  frames_used m m' fa fa' (Z.to_nat (3 * region_pages pa size)) → memory_ok k' room upper.
Proof.
  intros Hok Hcur Hlow Hfr Hup Hreach (Hpa & Hsz & _) Hok' Hsame Hpa' Hused.
  pose proof (region_cost_enough pa size Hpa Hsz) as [Hn Hcost].
  pose proof (frames_left_used limit k k' m m' fa fa' (3 * region_pages pa size) Hok Hok' ltac:(lia) Hused).
  exists limit, m', fa'. rewrite Hpa'. split; [done|]. unfold page_size in *.
  split_and!; [lia..| |by eapply table_frames_in_used]. intros q Hq. rewrite Hsame by done. by apply Hup.
Qed.

Lemma map_region_ok k room upper pa size : 0 ≤ room →
  memory_ok k (room + region_cost size) upper → in_physical pa size →
  ∃ k', map_physical_region k pa size =
      Ret (mk_mapping pa (PAGE_ALLOCATOR k + pa `mod` page_size) size (page_size * region_pages pa size), k') ∧
    memory_ok k' room upper.
Proof using laws mlaws.
  intros Hroom Hmem Hphys. destruct (memory_ok_fits k room upper pa size Hroom Hmem Hphys)
    as (limit & m & fa & Hok & Hcur & Hlow & Hfr & Hup & Hin & Hfits).
  destruct (map_physical_region_run limit k m fa pa size Hok Hfits)
    as (m' & fa' & k' & Hrun & Hk' & Hok' & Hused & Hmaps).
  exists k'. split; [done|]. eapply (memory_ok_step limit k k' m m'); try done; [|by rewrite Hk'].
  pose proof (ok_cursor _ _ _ _ Hok') as Hcu. rewrite Hk' in Hcu. simpl in Hcu.
  pose proof (ok_top _ _ _ _ Hok).
  intros q Hq. apply Hmaps. unfold page_size in *. lia.
Qed.

Lemma use_region_ok k room upper pa size : 0 ≤ room →
  memory_ok k (room + region_cost size) upper → in_physical pa size →
  ∃ region k1 k2, map_physical_region k pa size = Ret (region, k1) ∧
    unmap_physical_region k1 region = Ret k2 ∧ memory_ok k2 room upper.
Proof using laws mlaws.
  intros Hroom Hmem Hphys. destruct (memory_ok_fits k room upper pa size Hroom Hmem Hphys)
    as (limit & m & fa & Hok & Hcur & Hlow & Hfr & Hup & Hin & Hfits).
  destruct (Acpi.region_run limit k m fa pa size Hok Hfits)
    as (region & k1 & m1 & Hmap & _ & _ & _ & _ & k2 & m2 & fa2 & Hun & Hok2 & Hsame & Hpa2 & Hused).
  exists region, k1, k2. split_and!; [done..|]. eapply (memory_ok_step limit k k2 m m2); try done. intros q _. apply Hsame.
Qed.

Lemma memory_ok_weaken k room room' upper : room' ≤ room → memory_ok k room upper → memory_ok k room' upper.
Proof. intros Hle (limit & m & fa & Hok & Hcur & Hlow & Hfr & Hup & Hin). exists limit, m, fa. split_and!; try done; lia. Qed.

(** ** ACPI *)

Section Acpi.
Context {AcpiError AmlError C : Type} (aml_parse : C → list Z → result AmlError unit * C).

Definition tables_cost (tables : list Acpi.AmlTable) : Z :=
  foldr (λ t n, region_cost (Acpi.table_length t) + n) 0 tables.
Definition table_in_physical (t : Acpi.AmlTable) : Prop :=
  in_physical (Acpi.table_address t) (Acpi.table_length t).

Lemma tables_cost_nonneg tables : Forall table_in_physical tables → 0 ≤ tables_cost tables.
Proof.
  induction 1 as [|t tables (_ & Ht & _) _ IH]; simpl; [done|]. unfold region_cost, page_size in *. lia.
Qed.

Lemma parse_tables_ok tables : ∀ k pm c room upper, 0 ≤ room →
  memory_ok k (room + tables_cost tables) upper → Forall table_in_physical tables →
  ∃ k', Acpi.parse_tables (AcpiError := AcpiError) aml_parse k pm c tables =
      Ret (Acpi.parse_bytes aml_parse pm c tables, k') ∧ memory_ok k' room upper.
Proof using laws mlaws.
  induction tables as [|t tables IH]; intros k pm c room upper Hroom Hmem Hphys.
  { exists k. split; [done|]. simpl in Hmem. by rewrite Z.add_0_r in Hmem. }
  apply Forall_cons in Hphys as [Ht Hphys]. pose proof (tables_cost_nonneg tables Hphys) as Hpos.
  simpl in Hmem. rewrite (Z.add_comm (region_cost _)), Z.add_assoc in Hmem.
  destruct (memory_ok_fits k (room + tables_cost tables) upper _ _ ltac:(lia) Hmem Ht)
    as (limit & m & fa & Hok & Hcur & Hlow & Hfr & Hup & Hin & Hfits).
  destruct (Acpi.parse_table_run (AcpiError := AcpiError) aml_parse limit k m fa pm c t Hok Hfits)
    as (k1 & m1 & fa1 & Hrun & Hok1 & Hsame & Hpa & Hused).
  assert (memory_ok k1 (room + tables_cost tables) upper) as Hmem1.
  { eapply (memory_ok_step limit k k1 m m1); try done. intros q _. apply Hsame. }
  cbn [Acpi.parse_tables]. rewrite Hrun. cbn [Acpi.parse_bytes mbind outcome_bind].
  destruct (aml_parse c _) as [[x|[]] c1]; run_bind.
  - exists k1. split; [done|]. eapply memory_ok_weaken; [|exact Hmem1]. lia.
  - by apply IH.
Qed.
End Acpi.
End Memory.
Arguments table_frames_in {M _} reach m fa.
Arguments memory_ok {M _} reach k room upper.

(** ** The interrupt controllers *)

Section Apics.
Context `{!X86Addr} {laws : X86AddrLaws} {M : Type} `{!Mapper M} {mlaws : MapperLaws M}.
Context {reach : Z → Prop} {V : Type} `{!VolatileMem V} {written : V → Z → Z} {vlaws : VolatileMemLaws V written}.
Context {D : Type} `{!IoApicDevice D} {sel : D → Z} {reg : D → Z → Z} {ilaws : IoApicLaws D sel reg}.

Lemma local_new_ok (k : Kmem M) madt regions base room upper : 0 ≤ room →
  memory_ok reach k (room + region_cost 0x800) upper → (entries ← madt; LocalApic.find_override entries) = None →
  in_physical (base + 0x900) 0x800 →
  ∃ self k', LocalApic.new k madt (base + 0x900) regions = Ret (self, k', base + 0x900) ∧
    memory_ok reach k' room upper ∧ 0x900 ≤ virtual_start (LocalApic.mapping self) < 2 ^ 63 ∧
    0x3E0 < mapped_length (LocalApic.mapping self) < 2 ^ 63.
Proof using laws mlaws.
  intros Hroom Hmem Hmadt Hphys. pose proof Hmem as (limit & m & fa & [_ _ _ _ Hcur Htop _] & Hend & Hlow & _).
  destruct (map_region_ok (reach := reach) k room upper (base + 0x900) 0x800 Hroom Hmem Hphys) as (k' & Hrun & Hmem').
  destruct Hphys as (Hp & _ & Hp52). destruct (region_pages_bounds (base + 0x900) 0x800 Hp ltac:(done)) as (Hn & Hub & _ & _).
  pose proof (Z.mod_pos_bound (base + 0x900) page_size ltac:(done)) as Hmod.
  eexists _, k'. unfold LocalApic.new, LocalApic.find_local_apic_base. rewrite Hmadt.
  rewrite phys_new_ok by (unfold in_u, page_size in *; lia). run_bind. unfold LocalApic.from_addr. rewrite Hrun. run_bind.
  unfold LocalApic.get_mapped_end, LocalApic.offset_to_addr.
  unfold HEAP_START, page_size, region_cost in *.
  cbn [LocalApic.mapping virtual_start mapped_length Z.leb Z.ltb Z.compare andb assert_that mbind outcome_bind].
  run_u. run_bind. run_u. split; [reflexivity|]. split; [done|].
  cbn [LocalApic.mapping virtual_start mapped_length]. lia.
Qed.

(** The lines of the chip, as its version register says. *)
Definition chip_entries (d : D) : Z := Z.land (Z.shiftr (reg d 1) 16) 0xFF + 1.

Lemma io_new_ok (k : Kmem M) (d : D) madt addr eoi room upper : 0 ≤ room →
  memory_ok reach k (room + region_cost 0x400) upper → IoApic.find_io_apic_base madt = Some addr →
  (page_size | addr) → in_physical addr 0x400 → 3 ≤ chip_entries d ≤ 120 →
  ∃ self k' d', IoApic.new k d madt eoi = Ret (self, k', d') ∧ memory_ok reach k' room upper ∧
    IoApic.redirection_entry_count self = chip_entries d ∧
    ∀ j, IoApic.entry_value (reg := reg) d' j = IoApic.entry_value (reg := reg) d j.
Proof using laws mlaws ilaws.
  intros Hroom Hmem Hmadt Hal Hphys Hent.
  destruct (map_region_ok (reach := reach) k room upper addr 0x400 Hroom Hmem Hphys) as (k' & Hrun & Hmem').
  unfold IoApic.new. rewrite Hmadt. cbn [expect mbind outcome_bind]. unfold IoApic.from_addr. rewrite Hrun. run_bind.
  apply Z.mod_divide in Hal; [|done]. unfold page_size in Hal. rewrite Hal. cbn [Z.eqb assert_that mbind outcome_bind].
  unfold IoApic.read_redirection_entry_count.
  destruct (IoApic.read_u32_run d IoApic.Version 1) as (d' & -> & Hreg); [done..|]. cbn [mbind outcome_bind mret outcome_ret].
  unfold chip_entries in Hent. run_u. run_bind.
  rewrite (proj2 (Z.eqb_neq _ 0)) by lia. cbn [negb assert_that mbind outcome_bind].
  eexists _, k', d'. split; [reflexivity|]. split; [done|]. split; [done|].
  intros j. by apply IoApic.entry_value_ext.
Qed.

(** The local APIC as [initialize] leaves it: the enable bit of the spurious vector register
    is clear, the timer's entry is on vector 32 and its counter is stopped. *)
Definition local_off (local : LocalApic.LocalApic) (v : V) : Prop :=
  LocalApic.register_value (written := written) local v LocalApic.SpuriousInterruptVector = 0xFF ∧
  LocalApic.register_value (written := written) local v LocalApic.LvtTimer = PIC_1_OFFSET ∧
  LocalApic.register_value (written := written) local v LocalApic.InitialCount = 0.

Lemma apic_init_ok (k : Kmem M) (d : D) (v : V) entries regions base addr room upper : 0 ≤ room →
  memory_ok reach k (room + region_cost 0x400 + region_cost 0x800) upper →
  LocalApic.find_override entries = None → in_physical (base + 0x900) 0x800 →
  IoApic.find_io_apic_entry entries = Some addr → (page_size | addr) → in_physical addr 0x400 →
  3 ≤ chip_entries d ≤ 120 →
  (∀ j, 0 ≤ j < chip_entries d → ∃ e, IoApic.entry_at (reg := reg) d j = Ret e) →
  ∃ io local k' d' v', LocalApic.apic_init k d v (base + 0x900) (Some entries) regions =
      Ret (Some io, Some local, k', d', v', base + 0x900) ∧
    memory_ok reach k' room upper ∧ IoApic.redirection_entry_count io = chip_entries d ∧
    (∀ j e, 0 ≤ j < chip_entries d → IoApic.entry_at (reg := reg) d j = Ret e →
      IoApic.entry_at (reg := reg) d' j = Ret (IoApic.route e SpuriousIoApic)) ∧
    local_off local v'.
Proof using laws mlaws ilaws vlaws.
  intros Hroom Hmem Hno Hbase Hio Hal Haddr Hent Hvalid.
  destruct (local_new_ok k (Some entries) regions base (room + region_cost 0x400) upper)
    as (local & k1 & Hnew & Hmem1 & Hv & Hm); [unfold region_cost, page_size; lia|done..|].
  unfold LocalApic.apic_init. rewrite Hnew. run_bind.
  destruct (LocalApic.setup_run (written := written) local v Hv Hm) as (v1 & x & y & Hsetup & Hoff).
  apply bind_Ret in Hsetup as (v2 & Hinit & Hsetup). apply bind_Ret in Hsetup as (v3 & Htest & Hsetup).
  apply bind_Ret in Hsetup as ([x1 v4] & Hid & Hsetup). apply bind_Ret in Hsetup as ([y1 v5] & Hver & Hsetup).
  rewrite Hinit. run_bind. rewrite Htest. run_bind. rewrite Hid. run_bind. rewrite Hver. run_bind.
  assert (LocalApic.offset_to_addr local 0xB0 = Ret (virtual_start (LocalApic.mapping local) + 0xB0 - 0x900)) as ->.
  { unfold LocalApic.offset_to_addr. cbn [Z.leb Z.ltb Z.compare andb assert_that mbind outcome_bind]. by run_u. }
  run_bind.
  destruct (io_new_ok k1 d (Some entries) addr (virtual_start (LocalApic.mapping local) + 0xB0 - 0x900) room upper)
    as (io & k2 & d1 & -> & Hmem2 & Hcount & Hsame); [done..|]. run_bind.
  assert (∀ j, IoApic.entry_at (reg := reg) d1 j = IoApic.entry_at (reg := reg) d j) as Hat
    by (intros j; unfold IoApic.entry_at; by rewrite Hsame).
  destruct (IoApic.initialize_run sel reg io d1 ilaws) as (d2 & -> & Hroute & _).
  { by rewrite Hcount. }
  { intros j Hj. rewrite Hat. apply Hvalid. by rewrite <-Hcount. }
  injection Hsetup as -> -> ->.
  eexists io, local, k2, d2, v1. split; [reflexivity|]. split; [done|]. split; [done|]. split; [|done].
  intros j e Hj He. apply Hroute; [by rewrite Hcount|by rewrite Hat].
Qed.
End Apics.

(** ** PCI enumeration keeps the interrupt masks *)

Section Masks.
Context {P : Type} `{!Ports P} `{!ChainedPics P} {masked : P → Z → bool}.
Context {plaws : ChainedPicsLaws P masked}.

Definition same_masks (p p' : P) : Prop := ∀ i, masked p' i = masked p i.

Lemma read_dword_masks p a o : same_masks p (read_dword p a o).2.
Proof using plaws.
  intros i. simpl. unfold Pci.local_read_dword.
  by rewrite read_keeps_masks, write_keeps_masks.
Qed.
Lemma read_word_masks p a o : same_masks p (read_word p a o).2.
Proof using plaws.
  intros i. simpl. unfold Pci.local_read_word. pose proof (read_dword_masks p a o i) as Hd. simpl in Hd.
  by destruct (Pci.local_read_dword p a o).
Qed.

#[local] Instance same_masks_preorder : PreOrder same_masks.
Proof. split; [by intros p i|]. intros p1 p2 p3 H1 H2 i. by rewrite H2, H1. Qed.

#[local] Opaque read_word read_dword.

Lemma next_device_masks fuel : ∀ p e r, Pci.next_device fuel p e = Ret r → same_masks p r.2.
Proof using plaws.
  induction fuel as [|fuel IH]; intros p e r Hrun; simpl in Hrun; [done|].
  destruct (Pci.device e <? 32); [|by inv_outcome].
  inv_outcome. unfold Pci.vendor_id, Pci.device_id in Hrun.
  match type of Hrun with context [read_word p ?a 0] =>
    pose proof (read_word_masks p a 0) as H1; destruct (read_word p a 0) as [vid p1] end.
  destruct (negb _).
  - match type of Hrun with context [read_word p1 ?a 2] =>
      pose proof (read_word_masks p1 a 2) as H2; destruct (read_word p1 a 2) as [did p2] end.
    inv_outcome. by etrans.
  - etrans; [exact H1|]. by eapply IH.
Qed.

Lemma next_bus_masks fuel : ∀ p e r, Pci.next_bus fuel p e = Ret r → same_masks p r.2.
Proof using plaws.
  induction fuel as [|fuel IH]; intros p e r Hrun; cbn [Pci.next_bus] in Hrun; [done|].
  destruct (Pci.bus e <? 256); [|by inv_outcome].
  apply bind_Ret in Hrun as ([[o e1] p1] & H1 & Hrun). apply next_device_masks in H1.
  destruct o; inv_outcome; [done|]. etrans; [exact H1|]. by eapply IH.
Qed.

Lemma describe_masks p a v d : same_masks p (Pci.describe p a v d).2.
Proof using plaws.
  unfold Pci.describe, Pci.class_code, Pci.subclass.
  pose proof (read_word_masks p a 0xA) as H1. destruct (read_word p a 0xA) as [x p1].
  pose proof (read_word_masks p1 a 0xA) as H2. destruct (read_word p1 a 0xA) as [y p2]. by etrans.
Qed.

End Masks.

(** ** The boot *)

Import Boot.

Section Run.
Context `{!X86Addr} {xlaws : X86AddrLaws} {M : Type} `{!Mapper M} {mlaws : MapperLaws M}.
Context {FH : Type} `{!FallbackHeap FH}.
Context {P : Type} `{!Ports P} `{!ChainedPics P} {masked : P → Z → bool} {plaws : ChainedPicsLaws P masked}.
Context {latched : P → Z} {conf : P → PciAddress → Z → Z} {host : Pci.PciHost P latched conf}.
Context {D : Type} `{!IoApicDevice D} {sel : D → Z} {reg : D → Z → Z} {ilaws : IoApicLaws D sel reg}.
Context {V : Type} `{!VolatileMem V} {written : V → Z → Z} {vlaws : VolatileMemLaws V written}.
Context {G : Type} `{!DescriptorTable G} {used : G → nat} {entry : G → Z → option Descriptor}.
Context {glaws : DescriptorTableLaws G used entry}.
Context `{!Font} {flaws : FontLaws}.
Context {C N AcpiError AmlError A Regions Elf ElfError : Type} `{!Aml C P N AmlError}.
Local Abbreviation Kernel := (@Kernel M FH P D V G C A Elf).
Local Abbreviation Environment := (@Environment M P C AcpiError AmlError A Regions Elf ElfError).
Local Abbreviation AcpiTables := (Acpi.Tables AcpiError (list MadtEntry) (Fadt A)).
Context (env : Environment) {reach : Z → Prop}.

(** *** Logging on a working screen *)

(** The logger is set, the console is free and at most [n] characters were printed. *)
Record screen_ok (k : Kernel) (n : Z) : Prop := {
  so_logger : logger_set k = true;
  so_free : writer_locked k = false;
  so_writer : Vga.writer_ok (writer k);
  so_y : Vga.y_pos (writer k) ≤ (n + 1) * Vga.line_height;
}.

Definition short_levels : Prop := ∀ l, (length (level_fmt env l) ≤ 100)%nat.

Lemma log_pieces_length target level msg :
  (length (concat (Logging.log_pieces (level_fmt env) (Logging.mk_record target level msg) ++ [[Vga.ch "010"]])) ≤
    length target + length (level_fmt env level) + length msg + 60)%nat.
Proof.
  unfold Logging.log_pieces. rewrite concat_app, length_app. cbn [concat].
  rewrite !length_app. destruct level; cbn; rewrite ?length_app; cbn; lia.
Qed.

Lemma klog_ok target level msg (k : Kernel) n : level ≠ Logging.Trace → short_levels → screen_ok k n →
  (length (Vga.chars target) ≤ 100)%nat → (length msg ≤ 400)%nat → 0 ≤ n ≤ 2 ^ 32 →
  ∃ w s, klog env target level msg k = Done (set_writer (set_serial k s) w false) ∧
    screen_ok (set_writer (set_serial k s) w false) (n + 1000).
Proof using flaws.
  intros Hlevel Hshort [Hset Hfree Hw Hy] Ht Hm Hn. pose proof (Hshort level) as Hl.
  pose proof font_height as Hh. unfold klog. rewrite Hset. cbn [negb].
  rewrite (bool_decide_eq_false_2 _ Hlevel). cbn [writer_locked set_serial writer]. rewrite Hfree.
  rewrite Logging.print_concat.
  pose proof (log_pieces_length (Vga.chars target) level msg) as Hlen.
  destruct (Vga.write_string_run_y (concat (Logging.log_pieces (level_fmt env)
    (Logging.mk_record (Vga.chars target) level msg) ++ [[Vga.ch "010"]])) (writer k) Hw)
    as (w & Hrun & Hok & _ & Hy').
  { unfold Vga.line_height, Vga.LINE_SPACING in *. unfold_u. norm_pow. nia. }
  rewrite Hrun. eexists w, _. split; [reflexivity|].
  split; cbn [logger_set set_writer set_serial writer_locked writer]; try done.
  unfold Vga.line_height, Vga.LINE_SPACING in *. nia.
Qed.

Lemma screen_weaken (k : Kernel) n n' : screen_ok k n → n ≤ n' → screen_ok k n'.
Proof.
  intros [Hset Hfree Hw Hy] Hle. split; try done. pose proof font_height. etrans; [exact Hy|].
  apply Z.mul_le_mono_nonneg_r; [unfold Vga.line_height, Vga.LINE_SPACING; lia|lia].
Qed.

Lemma screen_same (k k' : Kernel) n : logger_set k' = logger_set k → writer_locked k' = writer_locked k →
  writer k' = writer k → screen_ok k n → screen_ok k' n.
Proof. intros H1 H2 H3 []. split; congruence. Qed.

Lemma trace_ok target s (k : Kernel) n : screen_ok k n →
  ∃ s', trace_in env target s k = Done (set_serial k s') ∧ screen_ok (set_serial k s') n.
Proof. intros [Hset Hfree Hw Hy]. unfold trace_in, klog. rewrite Hset. cbn. eexists. by split. Qed.

(** *** The machine the kernel expects *)

(** What a crate may use of the window, and what the kernel's own mappings take. *)
Definition crate_room : Z := 2 ^ 22.
Definition apic_room : Z := region_cost 0x400 + region_cost 0x800.

(** The firmware's tables and the crates that read them: the RSDP is where the
    bootloader says and validates; the tables are found, parse and initialise. *)
Record acpi_machine (boot_info : BootInfo) (entries : list MadtEntry) : Prop := {
  am_rsdp : ∃ addr, rsdp_addr boot_info = Some addr ∧ in_physical addr (size_of_rsdp env) ∧
    size_of_rsdp env ≤ 2 ^ 20;
  am_valid region : validate env region = true;
  am_tables : ∃ (tables : AcpiTables) dsdt c, Acpi.tables_madt tables = Some entries ∧
    Acpi.tables_dsdt tables = Ok dsdt ∧
    Forall table_in_physical (dsdt :: Acpi.tables_ssdts tables) ∧
    tables_cost (dsdt :: Acpi.tables_ssdts tables) ≤ 2 ^ 22 ∧
    (∀ (k : Kmem M) region room upper, 0 ≤ room → memory_ok reach k (room + crate_room) upper →
       ∃ k', from_validated_rsdp env k region = Ret (Ok tables, k') ∧ memory_ok reach k' room upper) ∧
    Acpi.parse_bytes (AcpiError := AcpiError) (aml_parse env) (pm env)
      (aml_context_new env (pci_config_regions env tables)) (dsdt :: Acpi.tables_ssdts tables) = (Ok (), c) ∧
    ∀ (k : Kmem M) p room upper, 0 ≤ room → memory_ok reach k (room + crate_room) upper →
      ∃ c' k' p', aml_initialize env c k p = Ret (Ok (), c', k', p') ∧ memory_ok reach k' room upper;
}.

(** The controllers: the local APIC where the base register says, an I/O APIC in the
    MADT with the documented number of entries. *)
Record apic_machine (k : Kernel) (entries : list MadtEntry) : Prop := {
  pm_base : ∃ base, apic_msr k = base + 0x900 ∧ in_physical (base + 0x900) 0x800;
  pm_override : LocalApic.find_override entries = None;
  pm_io : ∃ addr, IoApic.find_io_apic_entry entries = Some addr ∧ (page_size | addr) ∧ in_physical addr 0x400;
  pm_entries : 3 ≤ chip_entries (reg := reg) (io_regs k) ≤ 120;
  pm_valid j : 0 ≤ j < chip_entries (reg := reg) (io_regs k) →
    ∃ e, IoApic.entry_at (reg := reg) (io_regs k) j = Ret e;
}.

(** What [init] takes from the page allocator's window, which begins at 0x1000000000: 4 MiB
    each for crate acpi, for the tables and for crate aml, the RSDP and the APICs. *)
Definition boot_window : Z := 2 ^ 24.

(** Memory: the page tables of the bootloader leave [boot_window] bytes of the window and
    the heap's pages free (the kernel itself, at 0x8000000000, lies between them, and
    what the bootloader maps dynamically is elsewhere), and
    64 MiB of usable frames, none of which holds a page table, for the heap and for more
    page tables. *)
Record memory_machine (boot_info : BootInfo) (k : Kernel)
    (a' : FixedSizeBlock.FixedSizeBlockAllocator FH) : Prop := {
  mm_kmem : kmem k = mk_kmem None None page_allocator_new;
  mm_offset : ∃ offset, physical_memory_offset boot_info = Some offset ∧ canonical offset ∧
    canonical (offset + cr3 env) ∧
    let m := offset_page_table env (offset + cr3 env) offset in
    frames_ok m (FrameAlloc.init (Boot.memory_regions boot_info)) ∧
    table_frames_in reach m (FrameAlloc.init (Boot.memory_regions boot_info)) ∧
    ∀ q, (page_size | q) → 0x1000000000 ≤ q < 0x1000000000 + boot_window ∨ HEAP_START ≤ q < HEAP_START + HEAP_SIZE →
      vacant m q = true;
  mm_frames : 16384 ≤ Z.of_nat (length (FrameAlloc.frame_addresses (Boot.memory_regions boot_info)));
  mm_heap : FixedSizeBlock.init (heap k) HEAP_START HEAP_SIZE = Ret a';
}.

(** A fresh kernel with a screen. *)
Record fresh_kernel (boot_info : BootInfo) (k : Kernel) : Prop := {
  fk_logger : logger_set k = false;
  fk_writer : writer k = Vga.WRITER ∧ writer_locked k = false;
  fk_levels : short_levels;
  fk_elf e : (length (elf_error env e) ≤ 100)%nat;
  fk_screen : ∃ buf i, framebuffer boot_info = Some (buf, i) ∧ Vga.writer_ok (Vga.set_fb Vga.WRITER buf i);
  fk_stack : canonical (stack_start env) ∧ canonical (stack_start env + Gdt.STACK_SIZE);
}.

(** *** The phases of [init] *)

Definition heap_mapped (upper : Z → option (Z * Z)) (regions : list MemoryRegion) : Prop :=
  ∃ fs, length fs = 256%nat ∧ NoDup fs ∧ (∀ f, f ∈ fs → f ∈ FrameAlloc.frame_addresses regions) ∧
    ∀ i f, fs !! i = Some f →
      upper (HEAP_START + page_size * Z.of_nat i) = Some (f, Z.lor PRESENT WRITABLE).

Lemma page_allocator_new_eq : page_allocator_new = 0x1000000000.
Proof using xlaws. unfold page_allocator_new. apply virt_new_truncate_ok. by left. Qed.

Lemma heap_phase boot_info (k0 k : Kernel) a' : memory_machine boot_info k0 a' →
  kmem k = kmem k0 → heap k = heap k0 →
  ∃ m upper, init_heap env boot_info k = Done (set_heap k a' m) ∧
    memory_ok reach m boot_window upper ∧ heap_mapped upper (Boot.memory_regions boot_info).
Proof using xlaws mlaws.
  intros [Hk (offset & Hoff & Hc & Hc3 & Hfrok & Hin0 & Hfree) Hfr Hheap] Hkm Hhp.
  unfold init_heap, main_init_heap. rewrite Hoff, Hkm, Hk, Hhp. cbn [expect mbind outcome_bind].
  rewrite virt_new_ok by done. run_bind. unfold init_mapper, Translate.active_level_4_table.
  rewrite virt_add_ok by done. cbn [mbind outcome_bind mret outcome_ret].
  destruct (init_heap_run (offset_page_table env (offset + cr3 env) offset)
    (Boot.memory_regions boot_info) (heap k0) a')
    as (m' & fa' & fs & Hrun & Hused & Hlen & Hnd & Hin & Hat & Hout); [done..|lia| |done|].
  { intros i Hi. apply Hfree; [|right; unfold HEAP_START, HEAP_SIZE, page_size; lia].
    apply Z.divide_add_r; [by exists (HEAP_START `div` page_size)|apply Z.divide_factor_l]. }
  pose proof (frames_used_length _ _ _ _ _ Hused) as Hleft. unfold FrameAlloc.remaining in Hleft at 1.
  cbn [FrameAlloc.init FrameAlloc.next FrameAlloc.memory_regions] in Hleft. rewrite drop_0 in Hleft.
  unfold init_frame_allocator, with_mapper. cbn [MAPPER FRAME_ALLOCATOR PAGE_ALLOCATOR unwrap expect mbind outcome_bind].
  unfold with_frame_allocator. cbn [MAPPER FRAME_ALLOCATOR PAGE_ALLOCATOR unwrap expect mbind outcome_bind].
  rewrite Hrun. cbn. eexists _, (mapping m'). split; [reflexivity|]. split; [|by exists fs].
  exists (0x1000000000 + boot_window), m', fa'. rewrite page_allocator_new_eq. cbn [PAGE_ALLOCATOR frames_left FRAME_ALLOCATOR].
  unfold boot_window in *.
  split_and!; [|unfold HEAP_START, page_size; norm_pow; lia..|done|by eapply table_frames_in_used].
  split; cbn [MAPPER FRAME_ALLOCATOR PAGE_ALLOCATOR]; [reflexivity..|apply Hused|by exists 0x1000000|norm_pow; lia|unfold HEAP_START; norm_pow; lia|].
  intros q Hq Hr. rewrite (proj2 (Hout q ltac:(unfold HEAP_START, page_size in *; norm_pow; lia))).
  apply Hfree; [done|by left].
Qed.

Lemma acpi_phase boot_info entries (k : Kernel) upper :
  acpi_machine boot_info entries → memory_ok reach (kmem k) boot_window upper →
  ∃ data m p, acpi_init env boot_info k = Done (set_acpi k data m p) ∧
    Acpi.madt data = Some entries ∧ memory_ok reach m (2 ^ 21) upper.
Proof using xlaws mlaws.
  intros [(addr & Haddr & Hphys & Hsize) Hvalid (tables & dsdt & c & Hmadt & Hdsdt & Hin & Hcost & Hfrom & Hparse & Hinit)] Hmem.
  pose proof (tables_cost_nonneg _ Hin) as Hpos. unfold crate_room, boot_window in *.
  unfold acpi_init, Acpi.init, Acpi.find_rsdp. rewrite Haddr.
  destruct (map_region_ok (reach := reach) (kmem k) (2 ^ 21 + 2 ^ 22 + tables_cost (dsdt :: Acpi.tables_ssdts tables) + 2 ^ 22) upper
    addr (size_of_rsdp env)) as (k1 & Hrun1 & Hmem1); [norm_pow; lia| |done|].
  { eapply memory_ok_weaken; [|exact Hmem]. unfold region_cost, page_size. norm_pow. lia. }
  rewrite Hrun1. cbn [mbind outcome_bind mret outcome_ret]. rewrite Hvalid. cbn [negb].
  match goal with |- context [from_validated_rsdp env k1 ?r] =>
    destruct (Hfrom k1 r (2 ^ 21 + 2 ^ 22 + tables_cost (dsdt :: Acpi.tables_ssdts tables)) upper)
      as (k2 & -> & Hmem2) end; [norm_pow; lia|exact Hmem1|]. run_bind.
  unfold Acpi.context_new, Acpi.load_acpi. rewrite Hdsdt.
  destruct (parse_tables_ok (reach := reach) (AcpiError := AcpiError) (aml_parse env) (dsdt :: Acpi.tables_ssdts tables) k2 (pm env)
    (aml_context_new env (pci_config_regions env tables)) (2 ^ 21 + 2 ^ 22) upper)
    as (k3 & Hrun3 & Hmem3); [norm_pow; lia|done..|].
  cbn [Acpi.parse_tables] in Hrun3. rewrite Hrun3, Hparse. cbn [mbind outcome_bind]. unfold Acpi.initialize_objects.
  destruct (Hinit k3 (ports k) (2 ^ 21) upper) as (c' & k4 & p' & -> & Hmem4); [norm_pow; lia|exact Hmem3|].
  cbn [mbind outcome_bind mret outcome_ret call]. eexists _, k4, p'. split; [reflexivity|]. split; [|done].
  rewrite Hmadt. by destruct (Acpi.tables_fadt tables).
Qed.

Lemma apic_phase boot_info entries (k0 k : Kernel) upper :
  apic_machine k0 entries → Acpi.madt (acpi_data k) = Some entries →
  io_regs k = io_regs k0 → apic_msr k = apic_msr k0 → memory_ok reach (kmem k) (2 ^ 21) upper →
  ∃ io local m d v, call k (LocalApic.apic_init (kmem k) (io_regs k) (local_mem k) (apic_msr k)
        (Acpi.madt (acpi_data k)) (Boot.memory_regions boot_info))
      (λ '(io, local, m, d, v, msr), set_apics k io local m d v msr) =
      Done (set_apics k (Some io) (Some local) m d v (apic_msr k)) ∧
    memory_ok reach m 0 upper ∧ IoApic.redirection_entry_count io = chip_entries (reg := reg) (io_regs k0) ∧
    (∀ j e, 0 ≤ j < chip_entries (reg := reg) (io_regs k0) →
      IoApic.entry_at (reg := reg) (io_regs k0) j = Ret e →
      IoApic.entry_at (reg := reg) d j = Ret (IoApic.route e SpuriousIoApic)) ∧
    local_off (written := written) local v.
Proof using xlaws mlaws ilaws vlaws.
  intros [(base & Hbase & Hb) Hno (addr & Hio & Hal & Ha) Hent Hvalid] Hmadt Hd Hmsr Hmem.
  rewrite Hmadt, Hmsr, Hbase, Hd.
  destruct (apic_init_ok (reach := reach) (sel := sel) (written := written) (kmem k) (io_regs k0) (local_mem k) entries (Boot.memory_regions boot_info) base addr 0
    upper) as (io & local & k' & d' & v' & -> & Hmem' & Hcount & Hroute & Hoff); [done| |done..|].
  { eapply memory_ok_weaken; [|exact Hmem]. unfold region_cost, page_size. norm_pow. lia. }
  by eexists io, local, k', d', v'.
Qed.

(** The warning about a region that is not in the memory map. *)
Lemma region_phase boot_info entries (k : Kernel) n : short_levels → screen_ok k n → 0 ≤ n ≤ 2 ^ 32 →
  (∃ base, apic_msr k = base + 0x900 ∧ in_physical (base + 0x900) 0x800) →
  Acpi.madt (acpi_data k) = Some entries → LocalApic.find_override entries = None →
  ∃ w s, verify_apic_region env boot_info k = Done (set_writer (set_serial k s) w false) ∧
    screen_ok (set_writer (set_serial k s) w false) (n + 1000).
Proof using xlaws flaws.
  intros Hshort Hsc Hn (base & Hmsr & Hb) Hmadt Hno. unfold verify_apic_region.
  rewrite Hmadt, Hmsr. unfold LocalApic.find_local_apic_base. cbn [mbind option_bind]. rewrite Hno.
  rewrite phys_new_ok by (unfold in_physical, in_u, page_size in *; lia).
  destruct (LocalApic.verify_in_correct_region _ _).
  - exists (writer k), (serial k). pose proof (so_free _ _ Hsc) as Hf. pose proof (screen_weaken k n (n + 1000) Hsc ltac:(lia)).
    destruct k. simpl in *. by subst.
  - apply klog_ok; try done; [apply Nat.leb_le; reflexivity|].
    unfold Logging.fmt_colored. rewrite !length_app.
    change (Logging.colored_inner (Logging.red (base + 0x900))) with (base + 0x900).
    change (length (Logging.fmt_color _)) with 5%nat. pose proof (Format.length_upper_hex (base + 0x900)).
    cbn [chars length]. lia.
Qed.

(** *** Enumerating the devices *)

(** The fields that the first and the last part of [init] leave alone. *)
Record untouched (k k' : Kernel) : Prop := {
  ut_kmem : kmem k' = kmem k;
  ut_heap : heap k' = heap k;
  ut_regs : io_regs k' = io_regs k;
  ut_msr : apic_msr k' = apic_msr k;
  ut_uptime : uptime k' = uptime k;
}.

Definition kept (k k' : Kernel) : Prop :=
  untouched k k' ∧ cpu k' = cpu k ∧ io_apic k' = io_apic k ∧
  local_apic k' = local_apic k ∧ local_mem k' = local_mem k ∧
  same_masks (masked := masked) (ports k) (ports k').

#[local] Instance kept_preorder : PreOrder kept.
Proof.
  split; [intros k; by split_and!|].
  intros k1 k2 k3 ([? ? ? ? ?] & Hc1 & Hi1 & Hl1 & Hv1 & Hm1) ([? ? ? ? ?] & Hc2 & Hi2 & Hl2 & Hv2 & Hm2).
  split_and!; [split; congruence|congruence..|]. intros i. by rewrite Hm2, Hm1.
Qed.

Lemma pci_info_ok msg (k : Kernel) n : short_levels → screen_ok k n → 0 ≤ n ≤ 2 ^ 32 → (length msg ≤ 300)%nat →
  ∃ k', pci_info env msg k = Done k' ∧ screen_ok k' (n + 1000) ∧ kept k k' ∧ ports k' = ports k.
Proof using flaws.
  intros Hshort Hsc Hn Hmsg.
  destruct (klog_ok "nocciolo_kernel::device::pci" Logging.Info msg k n ltac:(done) Hshort Hsc)
    as (w & s & Hrun & Hsc'); [apply Nat.leb_le; reflexivity|lia|done|].
  eexists. split; [exact Hrun|]. split; [done|]. by split_and!.
Qed.

Lemma report_device_ok addr vid did (k : Kernel) n : short_levels → screen_ok k n → 0 ≤ n ≤ 2 ^ 31 →
  ∃ k', report_device env addr vid did k = Done k' ∧ screen_ok k' (n + 3000) ∧ kept k k'.
Proof using flaws plaws.
  intros Hshort Hsc Hn. unfold report_device.
  destruct (pci_info_ok (Report.device_line addr vid did) k n Hshort Hsc) as (k1 & -> & Hsc1 & Hk1 & _);
    [lia|apply Report.length_device_line|]. cbn [then_].
  pose proof (Report.length_describe_lines (ports k1) addr vid did) as [Hclass Hname].
  pose proof (describe_masks (masked := masked) (ports k1) addr vid did) as Hm.
  destruct (Pci.describe (ports k1) addr vid did) as [i p]. cbn [fst snd] in *.
  destruct (pci_info_ok (Report.class_line i) (set_ports k1 p) (n + 1000) Hshort) as (k2 & -> & Hsc2 & Hk2 & _);
    [refine (screen_same _ _ _ _ _ _ Hsc1); reflexivity|lia|done|]. cbn [then_].
  assert (kept k k2) as Hk by (etrans; [exact Hk1|]; etrans; [|exact Hk2]; by split_and!).
  destruct (Report.name_line i) as [line|].
  - destruct (pci_info_ok line k2 (n + 1000 + 1000) Hshort Hsc2) as (k3 & -> & Hsc3 & Hk3 & _);
      [lia|by apply Hname|].
    exists k3. split; [done|]. split; [|by etrans]. by eapply screen_weaken; [exact Hsc3|lia].
  - exists k2. split; [done|]. split; [|done]. by eapply screen_weaken; [exact Hsc2|lia].
Qed.

Lemma device_loop_ok fuel : ∀ d devices (k : Kernel) n, short_levels → screen_ok k n → 0 ≤ n →
  n + 3000 * Z.of_nat fuel ≤ 2 ^ 31 → (Z.to_nat (32 - d) < fuel)%nat → 0 ≤ d ≤ 32 → 0 ≤ devices ≤ d →
  ∃ k', device_loop env fuel (Pci.mk_enum 0 d) devices k = Done k' ∧
    screen_ok k' (n + 3000 * Z.of_nat fuel) ∧ kept k k'.
Proof using flaws plaws host.
  pose proof (Pci.local_bus_config_reads (P := P) (latched := latched) (conf := conf)) as Hreads.
  induction fuel as [|fuel IH]; intros d devices k n Hshort Hsc Hn Hmax Hf Hd Hdev; [lia|]. cbn [device_loop].
  destruct (Pci.next_run (ports k) d Hd) as (p & d' & _ & Hd' & Hres).
  destruct (Pci.occupied (ports k) 0 _) as [|[[a vid] did] rest].
  - pose proof (next_bus_masks (masked := masked) _ _ _ _ Hres) as Hm. rewrite Hres.
    destruct (pci_info_ok (Report.found_line devices) (set_ports k p) n Hshort) as (k1 & -> & Hsc1 & Hk1 & _);
      [refine (screen_same _ _ _ _ _ _ Hsc); reflexivity|lia|apply Report.length_found_line|].
    exists k1. split; [done|]. split; [by eapply screen_weaken; [exact Hsc1|lia]|].
    etrans; [|exact Hk1]. by split_and!.
  - destruct Hres as (Hres & _ & Hlt).
    pose proof (next_bus_masks (masked := masked) _ _ _ _ Hres) as Hm. rewrite Hres.
    rewrite add_u_in by (unfold_u; norm_pow; lia).
    destruct (report_device_ok a vid did (set_ports k p) n Hshort) as (k1 & -> & Hsc1 & Hk1);
      [refine (screen_same _ _ _ _ _ _ Hsc); reflexivity|lia|]. cbn [then_].
    destruct (IH d' (devices + 1) k1 (n + 3000) Hshort Hsc1) as (k2 & -> & Hsc2 & Hk2); [lia..|].
    exists k2. split; [done|]. split; [by eapply screen_weaken; [exact Hsc2|lia]|].
    etrans; [|exact Hk2]. etrans; [|exact Hk1]. by split_and!.
Qed.

(** *** A whole boot *)

(** What a finished boot leaves: a free screen; the descriptor tables loaded and
    interrupts enabled; the allocator on a mapped heap; every line of the old
    controllers masked, every line of the I/O APIC routed to the spurious vector, the
    local APIC not enabled. *)
Record booted (boot_info : BootInfo) (k0 : Kernel) (a' : FixedSizeBlock.FixedSizeBlockAllocator FH)
    (k : Kernel) : Prop := {
  bt_screen : screen_ok k 200000;
  bt_cpu : Gdt.interrupt_flag (cpu k) = true ∧ Gdt.idtr (cpu k) = Some (Interrupts.IDT (filled env)) ∧
    ∃ gdt, Gdt.gdtr (cpu k) = Some gdt ∧ entry gdt (Gdt.cs (cpu k)) = Some kernel_code_segment;
  bt_heap : heap k = a' ∧ ∃ m upper, MAPPER (kmem k) = Some m ∧
    (∀ q, HEAP_START ≤ q → mapping m q = upper q) ∧ (∀ f, table_frame m f → reach f) ∧
    heap_mapped upper (Boot.memory_regions boot_info);
  bt_pics i : 0 ≤ i < 16 → masked (ports k) i = true;
  bt_io : ∃ io, io_apic k = Some io ∧
    IoApic.redirection_entry_count io = chip_entries (reg := reg) (io_regs k0) ∧
    ∀ j, 0 ≤ j < IoApic.redirection_entry_count io →
      ∃ e, IoApic.entry_at (reg := reg) (io_regs k) j = Ret (IoApic.route e SpuriousIoApic);
  bt_local : ∃ local, local_apic k = Some local ∧ local_off (written := written) local (local_mem k);
  bt_uptime : uptime k = uptime k0;
}.

(** One log line or one component at a time. *)
Ltac boot_trace H :=
  let s := fresh "s" in let H' := fresh "Hscreen" in
  match type of H with screen_ok ?k ?n =>
    match goal with |- context [trace_in env ?t ?m k] =>
      destruct (trace_ok t m k n H) as (s & -> & H'); clear H; rename H' into H; cbn [then_]
    end
  end.

(** A step that does not touch the screen. *)
Ltac keep_screen H k' :=
  let H' := fresh "Hscreen" in
  match type of H with screen_ok _ ?n =>
    assert (screen_ok k' n) as H' by (refine (screen_same _ _ _ _ _ _ H); reflexivity);
    clear H; rename H' into H
  end.

Lemma set_fb_screen (k : Kernel) buf i : logger_set k = true → writer_locked k = false →
  writer k = Vga.set_fb Vga.WRITER buf i → Vga.writer_ok (writer k) → screen_ok k 0.
Proof using flaws.
  intros Hset Hfree Hw Hok. split; try done. rewrite Hw. cbn. pose proof font_height.
  unfold Vga.line_height, Vga.LINE_SPACING, Vga.BORDER_PADDING. lia.
Qed.

Lemma gdt_phase (k : Kernel) n : canonical (stack_start env) → canonical (stack_start env + Gdt.STACK_SIZE) →
  screen_ok k n →
  ∃ gdt cs tr s, let k' := set_serial (set_cpu k (Gdt.mk_cpu (Some gdt) cs tr (Gdt.idtr (cpu k))
      (Gdt.interrupt_flag (cpu k)))) s in
    gdt_init env k = Done k' ∧ screen_ok k' n ∧ entry gdt cs = Some kernel_code_segment.
Proof using xlaws glaws.
  intros H1 H2 Hsc. unfold gdt_init. boot_trace Hsc.
  destruct (Gdt.gdt_init_run used entry (cpu k) (stack_start env) H1 H2) as (gdt & sl & Hrun & Hcs & _).
  cbn [cpu set_serial]. rewrite Hrun. cbn [call then_].
  eassert (screen_ok (set_cpu (set_serial k s) (Gdt.mk_cpu (Some gdt) (Gdt.code_selector sl)
    (Gdt.tss_selector sl) (Gdt.idtr (cpu k)) (Gdt.interrupt_flag (cpu k)))) n) as Hsc'
    by by eapply screen_same; [..|exact Hsc].
  clear Hsc. do 3 boot_trace Hsc'. by eexists gdt, _, _, _.
Qed.

Lemma idt_phase (k : Kernel) n : screen_ok k n →
  ∃ s, let k' := set_serial (set_cpu k (Gdt.init_idt (cpu k) (filled env))) s in
    init_idt env k = Done k' ∧ screen_ok k' n.
Proof.
  intros Hsc. unfold init_idt. boot_trace Hsc.
  assert (screen_ok (set_cpu (set_serial k s) (Gdt.init_idt (cpu (set_serial k s)) (filled env))) n) as Hsc'
    by by eapply screen_same; [..|exact Hsc].
  destruct (trace_ok "nocciolo_kernel::interrupts" "Loaded IDT" _ n Hsc') as (s' & Hrun & Hsc2).
  exists s'. by split.
Qed.

(** The descriptor tables are loaded. *)
Definition tables_loaded (k : Kernel) : Prop :=
  Gdt.idtr (cpu k) = Some (Interrupts.IDT (filled env)) ∧
  ∃ gdt, Gdt.gdtr (cpu k) = Some gdt ∧ entry gdt (Gdt.cs (cpu k)) = Some kernel_code_segment.

Lemma pit_init_run (p : P) : ∃ p', Pit.init p = Ret p'.
Proof. by eexists. Qed.

#[local] Opaque Pit.init Interrupts.IDT.

Lemma processor_phase boot_info (k : Kernel) : fresh_kernel boot_info k →
  ∃ k', init_processor env boot_info k = Done k' ∧ screen_ok k' 1000 ∧ untouched k k' ∧ tables_loaded k'.
Proof using xlaws glaws flaws.
  intros [Hlog [Hw Hfree] Hshort _ (buf & i & Hfb & Hwok) [Hst1 Hst2]].
  unfold init_processor, logging_init. rewrite Hlog. cbn [then_].
  unfold set_framebuffer. rewrite Hfb. cbn [writer_locked set_logger writer]. rewrite Hfree, Hw. cbn [then_].
  set (k1 := set_serial (set_writer (set_logger k) (Vga.set_fb Vga.WRITER buf i) false) _).
  assert (screen_ok k1 0) as Hsc by by eapply set_fb_screen.
  destruct (klog_ok crate_name Logging.Info (Vga.chars "----<[ nocciolo ]>----") k1 0)
    as (w & s1 & Hrun & Hsc1); [done..|vm_compute; lia|vm_compute; lia|lia|].
  unfold info. rewrite Hrun. cbn [then_]. clear Hrun Hsc.
  destruct (gdt_phase _ _ Hst1 Hst2 Hsc1) as (gdt & cs & tr & s2 & -> & Hsc & Hcs). clear Hsc1. cbn [then_].
  destruct (idt_phase _ _ Hsc) as (s3 & -> & Hsc2). clear Hsc. cbn [then_]. unfold trace.
  do 2 boot_trace Hsc2.
  match goal with |- context [trace_in env _ _ ?x] => keep_screen Hsc2 x end.
  boot_trace Hsc2. match goal with |- context [Pit.init ?p] => destruct (pit_init_run p) as [p' ->] end.
  cbn [call]. eexists. split; [reflexivity|]. split; [|split; [by split|]].
  - by eapply screen_same; [..|exact Hsc2].
  - split; [reflexivity|]. by exists gdt.
Qed.

Lemma controllers_phase boot_info entries (k0 k : Kernel) a' n : memory_machine boot_info k0 a' →
  acpi_machine boot_info entries → apic_machine k0 entries → untouched k0 k → screen_ok k n → tables_loaded k →
  short_levels → 0 ≤ n ≤ 2 ^ 32 →
  ∃ k' m upper io, init_controllers env boot_info k = Done k' ∧ screen_ok k' (n + 1000) ∧
    tables_loaded k' ∧ Gdt.interrupt_flag (cpu k') = true ∧
    heap k' = a' ∧ MAPPER (kmem k') = Some m ∧ (∀ q, HEAP_START ≤ q → mapping m q = upper q) ∧
    (∀ f, table_frame m f → reach f) ∧
    heap_mapped upper (Boot.memory_regions boot_info) ∧
    (∀ i, 0 ≤ i < 16 → masked (ports k') i = true) ∧
    io_apic k' = Some io ∧ IoApic.redirection_entry_count io = chip_entries (reg := reg) (io_regs k0) ∧
    (∀ j, 0 ≤ j < chip_entries (reg := reg) (io_regs k0) →
       ∃ e, IoApic.entry_at (reg := reg) (io_regs k') j = Ret (IoApic.route e SpuriousIoApic)) ∧
    (∃ local, local_apic k' = Some local ∧ local_off (written := written) local (local_mem k')) ∧
    uptime k' = uptime k0.
Proof using xlaws mlaws plaws ilaws vlaws flaws.
  intros Hmm Ham Hpm [Hk Hh Hr Hmsr Hup] Hsc Htab Hshort Hn.
  pose proof (pm_valid _ _ Hpm) as Hvalid.
  unfold init_controllers, trace. boot_trace Hsc.
  destruct (heap_phase boot_info k0 (set_serial k s) a' Hmm Hk Hh) as (m1 & upper & -> & Hmem & Hheap). cbn [then_].
  match goal with |- context [trace_in env _ _ ?x] => keep_screen Hsc x end. boot_trace Hsc.
  match goal with |- context [acpi_init env boot_info ?x] =>
    destruct (acpi_phase boot_info entries x upper Ham Hmem) as (data & m2 & p2 & -> & Hmadt & Hmem2) end.
  cbn [then_].
  unfold apic_init. match goal with |- context [verify_apic_region env boot_info ?x] =>
    keep_screen Hsc x;
    destruct (region_phase boot_info entries x n Hshort Hsc Hn) as (w & s3 & -> & Hsc3) end.
  { destruct (pm_base _ _ Hpm) as (base & Hbase & Hb). exists base. split; [|done]. by transitivity (apic_msr k0). }
  { exact Hmadt. }
  { apply (pm_override _ _ Hpm). }
  cbn [then_]. match goal with |- context [call ?x (LocalApic.apic_init _ _ _ _ _ _) _] =>
    destruct (apic_phase boot_info entries k0 x upper Hpm Hmadt Hr Hmsr Hmem2)
      as (io & local & m3 & d & v & -> & Hmem3 & Hcount & Hroute & Hoff) end.
  destruct Hmem3 as (limit & m & fa & Hok & _ & _ & _ & Hupper & Hreach). cbn [then_].
  eexists _, m, upper, io. split; [reflexivity|]. split; [by eapply screen_same; [..|exact Hsc3]|].
  split_and!; try done.
  - apply Hok.
  - intros f Hf. apply Hreach. by left.
  - intros i Hi. by apply disable_masks.
  - intros j Hj. destruct (Hvalid j Hj) as [e He]. exists e. by apply Hroute.
  - by exists local.
Qed.

(** The file the symbols come from may be unreadable. *)
Lemma meta_phase boot_info (k : Kernel) n : screen_ok k n → short_levels →
  (∀ e, (length (elf_error env e) ≤ 100)%nat) → 0 ≤ n ≤ 2 ^ 32 →
  ∃ k', meta_init env boot_info k = Done k' ∧ screen_ok k' (n + 1000) ∧ kept k k'.
Proof using flaws.
  intros Hsc Hshort Helf Hn. unfold meta_init. destruct (Symbols.get_elf_slice _ _) as [data len].
  destruct (minimal_parse env data len) as [e|x].
  - destruct (klog_ok "nocciolo_kernel::meta::symbols" Logging.Warn (Vga.chars "Failed to parse ELF: " ++ elf_error env e)
      k n ltac:(done) Hshort Hsc) as (w & s & -> & Hsc'); [apply Nat.leb_le; reflexivity| |done|].
    { rewrite length_app. pose proof (Helf e). change (length (Vga.chars "Failed to parse ELF: ")) with 21%nat. lia. }
    eexists. split; [reflexivity|]. split; [done|]. by split_and!.
  - eexists. split; [reflexivity|]. split; [|by split_and!]. eapply screen_weaken; [|].
    + refine (screen_same _ _ _ _ _ _ Hsc); reflexivity.
    + lia.
Qed.

Lemma devices_phase boot_info (k : Kernel) n : screen_ok k n → short_levels →
  (∀ e, (length (elf_error env e) ≤ 100)%nat) → 0 ≤ n ≤ 2 ^ 20 →
  ∃ k', init_devices env boot_info k = Done k' ∧ screen_ok k' (n + 101000) ∧ kept k k'.
Proof using plaws host flaws.
  intros Hsc Hshort Helf Hn. unfold init_devices, trace. do 2 boot_trace Hsc.
  match goal with |- context [meta_init env _ ?x] =>
    destruct (meta_phase boot_info x n Hsc Hshort Helf ltac:(lia)) as (k1 & -> & Hsc1 & Hk1) end. cbn [then_].
  boot_trace Hsc1. unfold device_init. boot_trace Hsc1.
  match goal with |- context [device_loop env 33 _ 0 ?x] =>
    destruct (device_loop_ok 33 0 0 x (n + 1000) Hshort Hsc1) as (k2 & Hloop & Hsc2 & Hk2); [lia..|] end.
  unfold Pci.enumerate. rewrite Hloop. cbn [then_].
  destruct (klog_ok crate_name Logging.Info (Vga.chars "Finished Initializing") k2 _ ltac:(done) Hshort Hsc2)
    as (w & s' & Hrun & Hsc'); [vm_compute; lia|vm_compute; lia|lia|].
  unfold info. rewrite Hrun. eexists. split; [reflexivity|].
  split; [by eapply screen_weaken; [exact Hsc'|lia]|].
  etrans; [|etrans; [exact Hk2|by split_and!]]. etrans; [|etrans; [exact Hk1|by split_and!]]. by split_and!.
Qed.

Lemma init_run boot_info entries (k : Kernel) a' : fresh_kernel boot_info k → memory_machine boot_info k a' →
  acpi_machine boot_info entries → apic_machine k entries →
  ∃ k', init env boot_info k = Done k' ∧ booted boot_info k a' k'.
Proof using xlaws mlaws plaws host ilaws vlaws glaws flaws.
  intros Hfresh Hmm Ham Hpm. pose proof (fk_levels _ _ Hfresh) as Hshort. unfold init.
  destruct (processor_phase boot_info k Hfresh) as (k1 & -> & Hsc1 & Hun1 & Htab1). cbn [then_].
  destruct (controllers_phase boot_info entries k k1 a' 1000 Hmm Ham Hpm Hun1 Hsc1 Htab1 Hshort ltac:(lia))
    as (k2 & m & upper & io & -> & Hsc2 & Htab2 & Hif & Hheap & Hm & Hupper & Hreach & Hmapped & Hpics & Hio & Hcount & Hroute & Hlocal & Hup).
  cbn [then_].
  destruct (devices_phase boot_info k2 2000 Hsc2 Hshort (fk_elf _ _ Hfresh) ltac:(lia))
    as (k3 & -> & Hsc3 & [Hk Hh Hr Hmsr Hut] & Hcpu & Hioa & Hloc & Hlm & Hmasks).
  apply (screen_weaken _ _ 200000) in Hsc3; [|lia].
  exists k3. split; [done|]. destruct Htab2 as [Hidt Hgdt]. split; rewrite ?Hcpu, ?Hk, ?Hh, ?Hr, ?Hioa, ?Hloc, ?Hlm; try done.
  - split; [done|]. exists m, upper. done.
  - intros i Hi. rewrite (Hmasks i). by apply Hpics.
  - exists io. rewrite Hcount. done.
  - congruence.
Qed.

(** *** Interrupts after the boot *)

(** A vector that can arrive: an unmasked line of the old controllers; an unmasked entry
    of the I/O APIC; an unmasked entry of the local APIC's own table, its timer's for
    one, or its spurious vector; an exception of the processor. *)
Definition can_arrive (k : Kernel) (v : Z) : Prop :=
  (∃ i, 0 ≤ i < 16 ∧ masked (ports k) i = false ∧ v = PIC_1_OFFSET + i) ∨
  (∃ io j e, io_apic k = Some io ∧ 0 ≤ j < IoApic.redirection_entry_count io ∧
     IoApic.entry_at (reg := reg) (io_regs k) j = Ret e ∧ IoApic.mask e = IoApic.Unmasked ∧ v = IoApic.vector e) ∨
  (∃ local, local_apic k = Some local ∧
     (LocalApic.raises (written := written) local (local_mem k) v ∨
      v = Z.land (LocalApic.register_value (written := written) local (local_mem k)
                    LocalApic.SpuriousInterruptVector) 0xFF)) ∨
  0 ≤ v < 32.

(** The ticks that handling such vectors gives, whatever the keyboard task does. *)
Definition ticks_from (k : Kernel) (t : Z) : Prop :=
  ∃ (KT : Type) (sink : Interrupts.ScancodeSink KT) vs (w w' : Interrupts.World P D V KT),
    Forall (can_arrive k) vs.*1 ∧
    Interrupts.deliver_all (filled env) vs w = Ret (Interrupts.Returns w') ∧
    t = Interrupts.TIMER w' - Interrupts.TIMER w.

(** The timer's vector cannot arrive. *)
Lemma booted_no_timer boot_info k0 a' k v : booted boot_info k0 a' k → can_arrive k v → v ≠ 32.
Proof.
  intros [_ _ _ Hpics (io & Hio & _ & Hroute) (local & Hlocal & Hoff) _].
  intros [(i & Hi & Hm & _)|[(io' & j & e & Hio' & Hj & He & _ & ->)|[(l & Hl & Hv)|Hv]]]; [..|lia].
  - by rewrite Hpics in Hm.
  - rewrite Hio in Hio'. injection Hio' as <-. destruct (Hroute j Hj) as [e' He'].
    rewrite He' in He. by injection He as <-.
  - rewrite Hlocal in Hl. injection Hl as <-. destruct Hoff as [Hs _].
    destruct Hv as [Hr|Hv]; [by apply LocalApic.disabled_raises_nothing in Hr|]. rewrite Hs in Hv. by subst v.
Qed.

Lemma booted_no_ticks boot_info k0 a' k t : booted boot_info k0 a' k → ticks_from k t → t = 0.
Proof.
  intros Hb (KT & sink & vs & w & w' & Hvs & Hrun & ->).
  rewrite (Interrupts.deliver_all_timer (filled env) vs w w'); [lia| |done].
  eapply Forall_impl; [exact Hvs|]. intros v. by eapply booted_no_timer.
Qed.

Lemma countdown_stuck (k : Kernel) n fuel ticks m : screen_ok k n → short_levels → 0 ≤ n ≤ 2 ^ 32 →
  0 ≤ uptime k < 2 ^ 63 → (∀ i j, ticks i j = 0) →
  ∃ k', countdown env (S m) fuel ticks k = Asleep (Z.of_nat m) k'.
Proof using flaws.
  intros Hsc Hshort Hn Hup Ht. cbn [countdown].
  destruct (klog_ok crate_name Logging.Info
    (Vga.chars "See you in " ++ Format.display (Z.of_nat m) ++ Vga.chars " seconds!") k n ltac:(done) Hshort Hsc)
    as (w & s & -> & _); [vm_compute; lia| |done|].
  { rewrite !length_app. pose proof (Format.length_display (Z.of_nat m)). cbn [chars length]. lia. }
  cbn [uptime set_writer set_serial]. rewrite Pit.sleep_second_stuck by done. by eexists.
Qed.

(** ** Properties *)

(** C4: On a machine as the kernel expects it, the whole of [init] finishes without a
    panic: interrupts are enabled with the kernel's tables loaded, the allocator
    works on 256 mapped pages with frames of their own, every line of the old
    interrupt controllers is masked, every line of the I/O APIC leads to the spurious
    vector, and the local APIC has its timer on vector 32, stopped, with its enable bit
    still clear. *)
Theorem boot_succeeds boot_info entries (k : Kernel) a'
    (Hfresh : fresh_kernel boot_info k) (Hmem : memory_machine boot_info k a')
    (Hacpi : acpi_machine boot_info entries) (Hapic : apic_machine k entries) :
  ∃ k', init env boot_info k = Done k' ∧ booted boot_info k a' k'.
Proof using xlaws mlaws plaws host ilaws vlaws glaws flaws. by eapply init_run. Qed.

(** C20: On a machine as the kernel expects it, [kernel_main] never leaves the first second of
    the countdown: whichever
    interrupts arrive, from the lines of the old controllers and of the I/O APIC and from the
    entries of the local APIC (the timer's is one) as they are programmed after the boot,
    spurious ones and exceptions included, as long as their handlers return, the tick
    counter does not advance and [kernel_main] is still in its first sleep after any
    number of iterations. It never shuts down nor starts the executor. *)
Theorem kernel_main_stays_asleep boot_info entries (k : Kernel) a'
    (Hfresh : fresh_kernel boot_info k) (Hmem : memory_machine boot_info k a')
    (Hacpi : acpi_machine boot_info entries) (Hapic : apic_machine k entries)
    (Hup : 0 ≤ uptime k < 2 ^ 63) :
  ∃ k1, init env boot_info (set_serial k (Logging.serial_println (serial k)
          [Vga.chars "----<[ nocciolo ]>----"])) = Done k1 ∧
    ∀ brand fuel ticks, (∀ i j, ticks_from k1 (ticks i j)) →
      ∃ k2, kernel_main env boot_info brand fuel ticks k = MainAsleep 9 k2.
Proof using xlaws mlaws plaws host ilaws vlaws glaws flaws.
  set (k0 := set_serial k _).
  destruct (init_run boot_info entries k0 a') as (k1 & Hrun & Hb);
    [by destruct Hfresh; split|by destruct Hmem; split|done|by destruct Hapic; split|].
  exists k1. split; [done|]. intros brand fuel ticks Ht.
  destruct (countdown_stuck k1 200000 fuel ticks 9) as (k2 & Hcd).
  - apply Hb.
  - apply Hfresh.
  - lia.
  - by rewrite (bt_uptime _ _ _ _ Hb).
  - intros i j. by eapply booted_no_ticks.
  - exists k2. unfold kernel_main. fold k0. rewrite Hrun. change 10%nat with (S 9). by rewrite Hcd.
Qed.
End Run.

(** ** Witnesses: the small machine, with a screen *)

#[local] Existing Instances addr_model Tables.tables_mapper addr_model_laws Tables.tables_laws Pci.bridge_ports
  IoApic.chip_device LocalApic.trace_mem Gdt.list_gdt Vga.sample_font sample_ports_ports sample_pics empty_aml.

Definition sample_masked (p : sample_ports) (i : Z) : bool := s_masked p.
Lemma sample_pics_laws : ChainedPicsLaws sample_ports sample_masked.
Proof.
  split; [done|done|]. intros [b m l] w port i _. simpl. destruct (port =? 0x60); [done|].
  by destruct (port_read b w port).
Qed.

Definition sample_latched (p : sample_ports) : Z := Pci.b_latched (s_bridge p).
Definition sample_conf (p : sample_ports) : PciAddress → Z → Z := Pci.bridge_conf (s_bridge p).
Lemma sample_host : Pci.PciHost sample_ports sample_latched sample_conf.
Proof.
  pose proof Pci.bridge_host as []. split; unfold sample_latched, sample_conf; intros [b m l]; simpl; intros; auto.
  all: by match goal with H : config_enable _ = _ |- _ => rewrite H end.
Qed.

Definition sample_screen : option (list Z * Vga.FrameBufferInfo) :=
  Some (replicate 160 7, Vga.mk_info 160 5 8 Vga.Bgr 4 5).

Lemma sample_fresh : fresh_kernel sample_environment (sample_boot_info sample_screen) sample_kernel.
Proof.
  split; try done.
  - intros l. apply Nat.leb_le. by destruct l.
  - intros e. apply Nat.leb_le. reflexivity.
  - eexists _, _. split; [done|]. exact Vga.sample_writer_ok.
  - split; by left.
Qed.

(** The frames that can be reached where the bootloader mapped physical memory. *)
Definition sample_reach (f : Z) : Prop := canonical (0x280000000000 + f).

Lemma sample_memory : memory_machine (reach := sample_reach) sample_environment (sample_boot_info sample_screen) sample_kernel heap_fsb.
Proof.
  split.
  - done.
  - exists 0x280000000000. split; [done|]. split; [by left|]. split; [by left|].
    destruct (boot_frames_ok 0x4100000) as [Hfr [Ht Hr]]; [by exists 0x4100|done|].
    split; [exact Hfr|]. split; [intros f [Hf|Hf]; [by apply Ht|by apply Hr]|].
    intros q Hq [Hin|Hin]; [apply low_vacant; [done|unfold boot_window in Hin; norm_pow; lia]|].
    by apply heap_page_vacant.
  - change (Boot.memory_regions _) with heap_regions. rewrite heap_frames. lia.
  - by vm_compute.
Qed.

Lemma sample_acpi : acpi_machine (reach := sample_reach) sample_environment (sample_boot_info sample_screen) sample_entries.
Proof.
  split.
  - exists 0xE0000. split; [done|]. split; [|done]. by vm_compute.
  - done.
  - exists sample_acpi_tables, (Acpi.mk_aml_table 0x7F000 64), (). split_and!; try done.
    + apply Forall_singleton. by vm_compute.
    + intros k region room upper Hroom Hmem. exists k. split; [done|].
      eapply memory_ok_weaken; [|exact Hmem]. unfold crate_room. norm_pow. lia.
    + intros k p room upper Hroom Hmem. exists (), k, p. split; [done|].
      eapply memory_ok_weaken; [|exact Hmem]. unfold crate_room. norm_pow. lia.
Qed.

Lemma sample_apic : apic_machine (reg := IoApic.chip_reg) sample_kernel sample_entries.
Proof.
  split; try done.
  - exists 0xFEE00000. split; [done|]. by vm_compute.
  - exists 0xFEC00000. split; [done|]. split; [by exists 0xFEC00|]. by vm_compute.
  - simpl. change (chip_entries _) with 3. intros j Hj.
    assert (j = 0 ∨ j = 1 ∨ j = 2) as [-> | [-> | ->]] by lia; eexists; by vm_compute.
Qed.

Lemma boot_succeeds_witness :
  ∃ k', init sample_environment (sample_boot_info sample_screen) sample_kernel = Done k' ∧
    booted (masked := sample_masked) (reg := IoApic.chip_reg) (written := LocalApic.trace_written) (entry := Gdt.list_gdt_entry) (reach := sample_reach)
      sample_environment
      (sample_boot_info sample_screen) sample_kernel heap_fsb k'.
Proof.
  exact (boot_succeeds (xlaws := addr_model_laws) (mlaws := Tables.tables_laws) (plaws := sample_pics_laws)
    (host := sample_host) (ilaws := IoApic.chip_laws) (vlaws := LocalApic.trace_mem_laws) (glaws := Gdt.list_gdt_laws) (flaws := Vga.sample_font_laws)
    sample_environment (sample_boot_info sample_screen) sample_entries sample_kernel heap_fsb
    sample_fresh sample_memory sample_acpi sample_apic).
Defined.

Lemma kernel_main_stays_asleep_witness :
  ∃ k1, init sample_environment (sample_boot_info sample_screen) (set_serial sample_kernel
          (Logging.serial_println [] [Vga.chars "----<[ nocciolo ]>----"])) = Done k1 ∧
    ∀ brand fuel ticks, (∀ i j, ticks_from (masked := sample_masked) (reg := IoApic.chip_reg)
        (written := LocalApic.trace_written) sample_environment k1 (ticks i j)) →
      ∃ k2, kernel_main sample_environment (sample_boot_info sample_screen) brand fuel ticks sample_kernel =
        MainAsleep 9 k2.
Proof.
  refine (kernel_main_stays_asleep (xlaws := addr_model_laws) (mlaws := Tables.tables_laws)
    (plaws := sample_pics_laws) (host := sample_host) (ilaws := IoApic.chip_laws) (vlaws := LocalApic.trace_mem_laws) (glaws := Gdt.list_gdt_laws)
    (flaws := Vga.sample_font_laws) sample_environment (sample_boot_info sample_screen) sample_entries
    sample_kernel heap_fsb sample_fresh sample_memory sample_acpi sample_apic _).
  done.
Defined.

End BootRun.
