(* ===== verification/KernelHeap.v ===== *)
(** * The kernel heap after the boot

    What the rest of the kernel gets from [#[global_allocator]] (kernel/src/allocator.rs)
    once [init] of kernel/src/main.rs has run: the boot, the page tables and the allocator
    put together.  Blocks are physical memory of their own, and a request that cannot be
    served ends in [alloc_error_handler]. *)

From Stdlib Require Import Ascii.
From S2P Require Import Prelude GlobalAlloc LinkedListAllocator FixedSizeBlock X86 Memory Paging PageTables Vga Logging IoApic.
From S2P Require Import LocalApic Pit Interrupts Gdt PciTypes Pci Report Acpi System Symbols Boot BootRun.

Module KernelHeap.
Import Boot BootRun.

Section Heap.
Context `{!X86Addr} {xlaws : X86AddrLaws} {M : Type} `{!Mapper M} {mlaws : MapperLaws M}.
Context `{!PageWalk M} {wlaws : PageWalkLaws M}.
Context {FH : Type} `{!FallbackHeap FH}.
Context {P : Type} `{!Ports P} `{!ChainedPics P} {masked : P → Z → bool} {plaws : ChainedPicsLaws P masked}.
Context {latched : P → Z} {conf : P → PciAddress → Z → Z} {host : Pci.PciHost P latched conf}.
Context {D : Type} `{!IoApicDevice D} {sel : D → Z} {reg : D → Z → Z} {ilaws : IoApicLaws D sel reg}.
Context {V : Type} `{!VolatileMem V} {written : V → Z → Z} {vlaws : VolatileMemLaws V written}.
Context {G : Type} `{!DescriptorTable G} {used : G → nat} {entry : G → Z → option Descriptor}.
Context {glaws : DescriptorTableLaws G used entry}.
Context `{!Font} {flaws : FontLaws}.
Context {C N AcpiError AmlError A Regions Elf ElfError : Type} `{!Aml C P N AmlError}.
Local Abbreviation Kernel := (@Kernel M FH P D V G C A Elf).
Local Abbreviation Environment := (@Environment M P C AcpiError AmlError A Regions Elf ElfError).
Context (env : Environment).

(** ** Requests of the kernel *)

(** The lines of [fallback_allocator_oom] on the serial line. *)
Definition send_reports (k : Kernel) (a : FixedSizeBlock.FixedSizeBlockAllocator FH) : Kernel :=
  set_serial
    (set_heap k (FixedSizeBlock.mk_fsb (FixedSizeBlock.list_heads a) (FixedSizeBlock.nodes a)
                   (FixedSizeBlock.fallback_allocator a) []) (kmem k))
    (foldl (λ s r, Logging.serial_println s [Vga.chars r]) (serial k) (FixedSizeBlock.reports a)).

(** A request through crate alloc: a null pointer is an allocation error. [layout_fmt] is the
    text of a [Layout]. *)
Inductive request := Allocated (p : Z) (k : Kernel) | Ended (v : @verdict M FH P D V G C A Elf).
Definition allocate (layout_fmt : Layout → string) (l : Layout) (k : Kernel) : request :=
  match FixedSizeBlock.alloc (heap k) l with
  | Ret (p, a) =>
      let k := send_reports k a in
      if p =? 0 then Ended (alloc_error (layout_fmt l) k) else Allocated p k
  | Panic e => Ended (Panicked e k)
  | Undef e => Ended (Undefined e)
  end.

(** ** The blocks in physical memory *)

Definition kernel_heap : range := Range HEAP_START HEAP_SIZE.

Lemma booted_heap_pages {reach} boot_info k0 a' (k : Kernel) :
  FrameAlloc.regions_ok (Boot.memory_regions boot_info) →
  booted (masked := masked) (reg := reg) (written := written) (entry := entry) (reach := reach) env boot_info k0 a' k →
  ∃ m fs, MAPPER (kmem k) = Some m ∧ heap_pages m fs ∧ ∀ f, table_frame m f → reach f.
Proof using xlaws.
  intros Hreg [_ _ [_ (m & upper & Hm & Hup & Hreach & fs & Hlen & Hnd & Hin & Hat)] _ _ _ _].
  exists m, fs. split; [done|]. split; [|done]. split; [done|]. split; [done|]. split.
  - apply Forall_forall. intros f Hf. destruct (FrameAlloc.frame_address_ok _ _ Hreg (Hin f Hf)). by split.
  - intros i f Hf. rewrite Hup; [by apply Hat|]. unfold page_size. lia.
Qed.

Lemma heap_offset v : in_range kernel_heap v → 0 ≤ v - HEAP_START < HEAP_SIZE.
Proof. unfold in_range, kernel_heap, r_end. simpl. lia. Qed.

(** The physical address behind an address of the heap. *)
Definition heap_physical (fs : list Z) (v : Z) : Z := heap_byte fs (v - HEAP_START).

Section Allocator.
Context (freq : Layout → Prop) (finv : FH → list block → Prop).
Context {fspec : FallbackSpec freq kernel_heap finv}.
Context (Hfreq : ∀ i, (i < length FixedSizeBlock.BLOCK_SIZES)%nat → freq (FixedSizeBlock.class_layout i)).

(** In a heap whose pages are mapped, live blocks are mapped, and share no byte of memory. *)
Lemma live_blocks_mapped (m : M) fs st live :
  heap_pages m fs → FixedSizeBlock.inv finv st live →
  (∀ b v, b ∈ live → in_range (b_range b) v →
     byte_maps m v (heap_physical fs v) heap_flags ∧ in_u 52 (heap_physical fs v)) ∧
  ∀ i j b b' v v', i ≠ j → live !! i = Some b → live !! j = Some b' →
    in_range (b_range b) v → in_range (b_range b') v' → heap_physical fs v ≠ heap_physical fs v'.
Proof using fspec Hfreq.
  intros Hh Hinv. pose proof (FixedSizeBlock.fsb_heap_spec freq kernel_heap finv Hfreq) as Hspec.
  assert (∀ b v, b ∈ live → in_range (b_range b) v → 0 ≤ v - HEAP_START < HEAP_SIZE) as Hin.
  { intros b v Hb Hv. apply heap_offset. by apply (hs_block _ _ _ Hinv Hb). }
  split.
  - intros b v Hb Hv. destruct (heap_byte_maps m fs _ Hh (Hin b v Hb Hv)) as [Hm Hp].
    by rewrite (Zplus_minus HEAP_START v) in Hm.
  - intros i j b b' v v' Hij Hb Hb' Hv Hv' Heq.
    assert (v = v') as <-.
    { enough (v - HEAP_START = v' - HEAP_START) by lia.
      apply (heap_byte_inj m fs); [done|..|done];
        [apply (Hin b)|apply (Hin b')]; by eauto using list_elem_of_lookup_2. }
    pose proof (hs_disjoint _ _ Hinv) as Hd. eapply (Hd i j); [done|..]; rewrite ?list_lookup_fmap, ?Hb, ?Hb'; done.
Qed.

(** After a boot, the state of the allocator in any later run of legal calls. *)
Lemma exec_inv a' tr st live : FixedSizeBlock.init FixedSizeBlock.new HEAP_START HEAP_SIZE = Ret a' →
  impl_exec (FixedSizeBlock.req freq) a' [] tr st live → FixedSizeBlock.inv finv st live.
Proof using fspec Hfreq.
  intros Hinit Hex. destruct (FixedSizeBlock.fsb_init_inv freq kernel_heap finv) as (b & Hb & Hinv).
  change (FixedSizeBlock.init FixedSizeBlock.new HEAP_START HEAP_SIZE = Ret b) in Hb.
  rewrite Hb in Hinit. injection Hinit as <-.
  pose proof (FixedSizeBlock.fsb_heap_spec freq kernel_heap finv Hfreq).
  by destruct (impl_refines (FixedSizeBlock.req freq) kernel_heap (FixedSizeBlock.inv finv) b [] tr st live Hinv Hex).
Qed.

(** ** Properties *)

(** C2: On a machine as the kernel expects it, whatever the kernel allocates after the boot is
    memory of its own: through the page tables as the boot left them, every byte of every
    live block translates, by the kernel's own [translate_addr], to a physical address that is
    present and writable, and the bytes of two live blocks are never at the same physical
    address. *)
Theorem allocations_own_memory boot_info entries (k : Kernel) a'
    (Hfresh : fresh_kernel env boot_info k) (Hnew : heap k = FixedSizeBlock.new)
    (Hmem : memory_machine env (reach := λ f, canonical (default 0 (physical_memory_offset boot_info) + f))
              boot_info k a')
    (Hacpi : acpi_machine env (reach := λ f, canonical (default 0 (physical_memory_offset boot_info) + f))
               boot_info entries)
    (Hapic : apic_machine (reg := reg) k entries) :
  let offset := default 0 (physical_memory_offset boot_info) in
  ∃ k' m pa, init env boot_info k = Done k' ∧ MAPPER (kmem k') = Some m ∧
    ∀ tr st live, impl_exec (FixedSizeBlock.req freq) (heap k') [] tr st live →
      (∀ b v, b ∈ live → in_range (b_range b) v → translate m offset v = Ret (Some (pa v)) ∧
         byte_maps m v (pa v) (Z.lor PRESENT WRITABLE)) ∧
      ∀ i j b b' v v', i ≠ j → live !! i = Some b → live !! j = Some b' →
        in_range (b_range b) v → in_range (b_range b') v' → pa v ≠ pa v'.
Proof using xlaws mlaws wlaws plaws host ilaws vlaws glaws flaws fspec Hfreq.
  intros offset. destruct (init_run (vlaws := vlaws) env boot_info entries k a' Hfresh Hmem Hacpi Hapic) as (k' & Hrun & Hb).
  assert (FrameAlloc.regions_ok (Boot.memory_regions boot_info)) as Hreg.
  { destruct Hmem as [_ (o & _ & _ & _ & (_ & (Hr & _) & _) & _) _ _]. exact Hr. }
  destruct (booted_heap_pages boot_info k a' k' Hreg Hb) as (m & fs & Hm & Hh & Hreach).
  exists k', m, (heap_physical fs). split; [done|]. split; [done|]. intros tr st live Hex.
  assert (FixedSizeBlock.inv finv st live) as Hinv.
  { rewrite (proj1 (bt_heap _ _ _ _ _ Hb)) in Hex. eapply exec_inv; [|exact Hex].
    rewrite <-Hnew. apply (mm_heap _ _ _ _ Hmem). }
  destruct (live_blocks_mapped m fs st live Hh Hinv) as [Hmaps Hdis]. split; [|done].
  intros b v Hbl Hv. destruct (Hmaps b v Hbl Hv) as [Hbm Hp]. split; [|done].
  by eapply translate_byte.
Qed.

(** C22: A request that the heap cannot serve ends the kernel: the allocator's line goes to the
    serial port, and [alloc_error_handler] panics. Every other request returns a block of the
    heap that overlaps no live block, and sends nothing. *)
Theorem failed_allocation_panics layout_fmt (l : Layout) (k : Kernel) live
    (Hinv : FixedSizeBlock.inv finv (heap k) live) (Hl : FixedSizeBlock.req freq l)
    (Hreports : FixedSizeBlock.reports (heap k) = []) :
  match allocate layout_fmt l k with
  | Allocated p k' =>
      block_ok kernel_heap (Block p l) ∧ (∀ b, b ∈ live → disjoint_range (Range p (l_size l)) (b_range b)) ∧
      FixedSizeBlock.inv finv (heap k') (Block p l :: live) ∧ serial k' = serial k
  | Ended v => ∃ k', v = Panicked ("allocation error: " +:+ layout_fmt l) k' ∧
      FixedSizeBlock.inv finv (heap k') live ∧
      serial k' = serial k ++ Vga.chars "[CRITICAL] [alloc] Out of memory!" ++ [Vga.ch "010"]
  end.
Proof using fspec Hfreq.
  pose proof (FixedSizeBlock.fsb_heap_spec freq kernel_heap finv Hfreq) as Hspec.
  destruct (hs_alloc _ _ l Hinv Hl) as (p & a & Hrun & Hinv'). simpl in Hrun.
  pose proof (FixedSizeBlock.alloc_reports freq kernel_heap finv Hfreq _ _ _ _ _ Hinv Hrun) as Hrep.
  rewrite Hreports in Hrep. unfold allocate. rewrite Hrun. unfold send_reports. rewrite Hrep.
  destruct (p =? 0) eqn:Hp.
  - eexists. split; [reflexivity|]. split; [exact Hinv'|]. cbn [serial set_serial foldl app].
    unfold Logging.serial_println. cbn [concat]. by rewrite app_nil_r.
  - pose proof (hs_disjoint _ _ Hinv') as Hd. rewrite fmap_cons, pairwise_cons in Hd by apply _.
    split; [by eapply (hs_block _ _ _ Hinv'); left|]. split; [|done].
    intros b Hb. apply (proj1 Hd). by apply list_elem_of_fmap_2.
Qed.
End Allocator.
End Heap.

(** ** Witnesses: the small machine *)

#[local] Existing Instances addr_model Tables.tables_mapper Tables.tables_walk addr_model_laws Tables.tables_laws
  Tables.tables_walk_laws Pci.bridge_ports IoApic.chip_device LocalApic.trace_mem Gdt.list_gdt Vga.sample_font
  sample_ports_ports sample_pics empty_aml.

Lemma kernel_heap_spec : FallbackSpec LinkedList.req kernel_heap (LinkedList.inv kernel_heap).
Proof.
  apply FixedSizeBlock.linked_list_fallback_spec; [by vm_compute|by exists (HEAP_START `div` 8)|by vm_compute].
Qed.

Lemma allocations_own_memory_witness :
  ∃ k' m pa, init sample_environment (sample_boot_info sample_screen) sample_kernel = Done k' ∧
    MAPPER (kmem k') = Some m ∧
    ∀ tr st live, impl_exec (FixedSizeBlock.req LinkedList.req) (heap k') [] tr st live →
      (∀ b v, b ∈ live → in_range (b_range b) v → translate m 0x280000000000 v = Ret (Some (pa v)) ∧
         byte_maps m v (pa v) (Z.lor PRESENT WRITABLE)) ∧
      ∀ i j b b' v v', i ≠ j → live !! i = Some b → live !! j = Some b' →
        in_range (b_range b) v → in_range (b_range b') v' → pa v ≠ pa v'.
Proof.
  exact (allocations_own_memory (plaws := sample_pics_laws) (host := sample_host) (ilaws := IoApic.chip_laws)
    (vlaws := LocalApic.trace_mem_laws)    (glaws := Gdt.list_gdt_laws) (flaws := Vga.sample_font_laws) sample_environment LinkedList.req
    (LinkedList.inv kernel_heap) (fspec := kernel_heap_spec) FixedSizeBlock.linked_list_freq
    (sample_boot_info sample_screen) sample_entries sample_kernel heap_fsb
    sample_fresh eq_refl sample_memory sample_acpi sample_apic).
Defined.

(** A kernel with its heap, asked for two megabytes. *)
Definition sample_heap_kernel := set_heap sample_kernel heap_fsb (kmem sample_kernel).
Definition is_ended {M FH P D V G C A Elf} (r : @request M FH P D V G C A Elf) : bool :=
  match r with Ended _ => true | _ => false end.

Lemma failed_allocation_panics_witness :
  ∃ k', allocate (λ _, "Layout") (mk_layout 0x200000 8) sample_heap_kernel =
      Ended (Panicked "allocation error: Layout" k') ∧
    serial k' = Vga.chars "[CRITICAL] [alloc] Out of memory!" ++ [Vga.ch "010"].
Proof.
  assert (is_ended (allocate (λ _, "Layout") (mk_layout 0x200000 8) sample_heap_kernel) = true) as He
    by (vm_compute; reflexivity).
  pose proof (failed_allocation_panics (P := sample_ports) (D := IoApic.chip) (V := list LocalApic.access)
    (G := nat * list Descriptor) (C := ()) (A := ()) (Elf := ()) LinkedList.req (LinkedList.inv kernel_heap)
    (fspec := kernel_heap_spec) FixedSizeBlock.linked_list_freq (λ _, "Layout") (mk_layout 0x200000 8)
    sample_heap_kernel []) as Hpanic.
  destruct (allocate (λ _, "Layout") (mk_layout 0x200000 8) sample_heap_kernel) as [p k|v]; [discriminate He|].
  destruct Hpanic as (k' & -> & _ & Hs); [|split; [by vm_compute|by intros _; vm_compute]|reflexivity|].
  - destruct (FixedSizeBlock.fsb_init_inv LinkedList.req kernel_heap (LinkedList.inv kernel_heap)
      (FallbackSpec0 := kernel_heap_spec)) as (b & Hb & Hinv).
    assert (Ret heap_fsb = Ret b) as Heq by (rewrite <-Hb; vm_compute; reflexivity).
    injection Heq as <-. exact Hinv.
  - by exists k'.
Defined.
End KernelHeap.
