(* ===== verification/BootLog.v ===== *)
(** * What the screen shows of a boot

    The boot of [BootRun] and the terminal of [Terminal] together: the lines that [init]
    and [kernel_main] of kernel/src/main.rs log, as the picture on the framebuffer.
    The interrupts that the controllers let through during the boot print over the
    serial line only; lines that crates log themselves are left out. *)

From Stdlib Require Import Ascii.
From S2P Require Import Prelude GlobalAlloc LinkedListAllocator FixedSizeBlock X86 Memory Paging PageTables Vga Terminal.
From S2P Require Import Logging IoApic LocalApic Pit Interrupts Gdt PciTypes Format Pci Report Task Keyboard.
From S2P Require Import KeyboardTask KeyboardPath TypedText Acpi System Symbols Boot BootRun.

Module BootLog.
#[local] Opaque Pit.init Interrupts.IDT.
Import Boot BootRun.

Section Log.
Context `{!X86Addr} {M : Type} `{!Mapper M} {FH : Type} `{!FallbackHeap FH}.
Context {P : Type} `{!Ports P} `{!ChainedPics P} {D : Type} `{!IoApicDevice D} {V : Type} `{!VolatileMem V}.
Context {G : Type} `{!DescriptorTable G} `{!Font}.
Context {C N AcpiError AmlError A Regions Elf ElfError : Type} `{!Aml C P N AmlError}.
Local Abbreviation Kernel := (@Kernel M FH P D V G C A Elf).
Local Abbreviation Environment := (@Environment M P C AcpiError AmlError A Regions Elf ElfError).
Context (env : Environment).

(** ** The text of a boot *)

Definition info_sent (s : string) : list Z := sent env crate_name Logging.Info (Vga.chars s).

(** The warnings: a local APIC outside the memory map, a kernel image that does not parse. *)
Definition apic_warning (boot_info : BootInfo) (madt : option (list MadtEntry)) (msr : Z) : list Z :=
  match LocalApic.find_local_apic_base madt msr with
  | Ret addr =>
      if LocalApic.verify_in_correct_region addr (memory_regions boot_info) then []
      else sent env "nocciolo_kernel::interrupts::apic::local" Logging.Warn
             (Vga.chars "APIC address " ++ Logging.fmt_colored Format.upper_hex (Logging.red addr) ++
              Vga.chars " was not found in any known MemoryRegion!")
  | _ => []
  end.
Definition elf_warning (boot_info : BootInfo) : list Z :=
  let '(data, len) := Symbols.get_elf_slice (kernel_image_offset boot_info) (kernel_len boot_info) in
  match minimal_parse env data len with
  | Err e => sent env "nocciolo_kernel::meta::symbols" Logging.Warn
               (Vga.chars "Failed to parse ELF: " ++ elf_error env e)
  | Ok _ => []
  end.
Definition pci_text (infos : list Pci.DeviceInfo) (count : Z) : list Z :=
  concat (pci_sent env <$> mjoin (device_report <$> infos)) ++ pci_sent env (Report.found_line count).

(** Everything [init] prints on the console. *)
Definition boot_text (boot_info : BootInfo) (madt : option (list MadtEntry)) (msr : Z)
    (infos : list Pci.DeviceInfo) (count : Z) : list Z :=
  info_sent "----<[ nocciolo ]>----" ++ apic_warning boot_info madt msr ++ elf_warning boot_info ++
  pci_text infos count ++ info_sent "Finished Initializing".

(** The lines of the countdown, from [n - 1] down, and that of the shutdown. *)
Definition second_text (i : Z) : list Z :=
  sent env crate_name Logging.Info (Vga.chars "See you in " ++ Format.display i ++ Vga.chars " seconds!").
Fixpoint countdown_text (n : nat) : list Z :=
  match n with O => [] | S n => second_text (Z.of_nat n) ++ countdown_text n end.
Definition shutdown_text (h : option System.HypervisorKind) : list Z :=
  sent env "nocciolo_kernel::meta::system" Logging.Info
    (Vga.chars "Requesting shutdown (hypervisor=" ++ debug_hypervisor h ++ Vga.chars ")").

(** ** The boot, one step at a time *)

Lemma then_Done (v : verdict) (f : Kernel → verdict) k' : then_ v f = Done k' → ∃ k, v = Done k ∧ f k = Done k'.
Proof. destruct v; simpl; intros; try done. eauto. Qed.
Lemma call_Done {R} (k : Kernel) (m : outcome R) put k' : call k m put = Done k' → ∃ r, m = Ret r ∧ k' = put r.
Proof. destruct m; simpl; intros; simplify_eq. eauto. Qed.

(** From [k] to [k'] the text [s] was printed on the console. *)
Record shown (s : list Z) (k k' : Kernel) : Prop := {
  sh_screen : Vga.write_string (writer k) s = Ret (writer k');
  sh_logger : logger_set k' = true;
  sh_msr : apic_msr k' = apic_msr k;
  sh_acpi : acpi_data k' = acpi_data k;
}.

Lemma shown_nil (k : Kernel) : logger_set k = true → shown [] k k.
Proof. by intros; split. Qed.
Lemma shown_trans s1 s2 (k k1 k2 : Kernel) : shown s1 k k1 → shown s2 k1 k2 → shown (s1 ++ s2) k k2.
Proof.
  intros [H1 _ Hm Ha] [H2 Hl Hm' Ha']. split; [|done|congruence..]. by rewrite Logging.write_string_app, H1.
Qed.
Lemma shown_keep s (k k1 k2 : Kernel) : shown s k k1 → writer k2 = writer k1 → logger_set k2 = logger_set k1 →
  apic_msr k2 = apic_msr k1 → acpi_data k2 = acpi_data k1 → shown s k k2.
Proof. intros [H1 H2 H3 H4] Hw Hl Hm Ha. split; congruence. Qed.
Lemma shown_trace target m s (k k1 k2 : Kernel) : shown s k k1 → trace_in env target m k1 = Done k2 → shown s k k2.
Proof.
  intros Hs Hrun. unfold trace_in, klog in Hrun. rewrite (sh_logger _ _ _ Hs) in Hrun. simpl in Hrun.
  injection Hrun as <-. by eapply shown_keep.
Qed.
Lemma shown_printed s s' (k k1 k2 : Kernel) : shown s k k1 → printed s' k1 k2 → shown (s ++ s') k k2.
Proof. intros Hs [_ Hp [_ Hl] Ha Hm]. by eapply shown_trans; [exact Hs|split]. Qed.
Lemma shown_klog target level m s (k k1 k2 : Kernel) : shown s k k1 → klog env target level m k1 = Done k2 →
  level ≠ Logging.Trace → shown (s ++ sent env target level m) k k2.
Proof.
  intros Hs Hrun Hlevel. eapply shown_printed; [exact Hs|].
  by apply (klog_printed _ _ _ _ _ _ Hrun (sh_logger _ _ _ Hs)).
Qed.

(** Take the next call of [H] apart, and extend [Hs] by it. *)
Ltac next_step H :=
  let k := fresh "k" in let H' := fresh "Hstep" in apply then_Done in H as (k & H' & H); cbv beta zeta in H.
Ltac next_trace H Hs :=
  let k := fresh "k" in let H' := fresh "Hstep" in
  apply then_Done in H as (k & H' & H); cbv beta zeta in H; apply (shown_trace _ _ _ _ _ _ Hs) in H';
  clear Hs; rename H' into Hs.
Ltac keep Hs k2 :=
  let H' := fresh "Hkeep" in
  match type of Hs with shown ?s ?k _ => assert (shown s k k2) as H' by (eapply (shown_keep _ _ _ k2); [exact Hs|reflexivity..]) end;
  clear Hs; rename H' into Hs.

Lemma gdt_logs s (k0 k k' : Kernel) : shown s k0 k → gdt_init env k = Done k' → shown s k0 k'.
Proof.
  intros Hs Hrun. unfold gdt_init in Hrun. cbv zeta in Hrun. next_trace Hrun Hs. next_step Hrun.
  apply call_Done in Hstep as (c & _ & ->). keep Hs (set_cpu k1 c). do 2 next_trace Hrun Hs.
  by eapply shown_trace.
Qed.

Lemma idt_logs s (k0 k k' : Kernel) : shown s k0 k → init_idt env k = Done k' → shown s k0 k'.
Proof.
  intros Hs Hrun. unfold init_idt in Hrun. cbv zeta in Hrun. next_trace Hrun Hs.
  eapply shown_trace; [|exact Hrun]. by eapply shown_keep; [exact Hs|reflexivity..].
Qed.

Lemma processor_logs boot_info (k k' : Kernel) buf i : init_processor env boot_info k = Done k' →
  writer k = Vga.WRITER → framebuffer boot_info = Some (buf, i) →
  Vga.write_string (Vga.set_fb Vga.WRITER buf i) (info_sent "----<[ nocciolo ]>----") = Ret (writer k') ∧
  logger_set k' = true ∧ apic_msr k' = apic_msr k.
Proof.
  intros Hrun Hw Hfb. unfold init_processor, logging_init, info, trace in Hrun.
  destruct (logger_set k); [discriminate Hrun|]. cbn [then_] in Hrun.
  unfold set_framebuffer in Hrun. rewrite Hfb in Hrun. cbn [writer_locked set_logger writer] in Hrun.
  destruct (writer_locked k); [discriminate Hrun|]. cbn [then_] in Hrun. rewrite Hw in Hrun. next_step Hrun.
  apply klog_printed in Hstep as [[_ H1 [_ H2] _ H3] _]; [|reflexivity|discriminate].
  assert (shown [] k0 k0) as Hs by by apply shown_nil.
  next_step Hrun. apply (gdt_logs _ _ _ _ Hs) in Hstep. clear Hs. rename Hstep into Hs.
  next_step Hrun. apply (idt_logs _ _ _ _ Hs) in Hstep. clear Hs. rename Hstep into Hs.
  do 2 next_trace Hrun Hs. match type of Hrun with context [set_ports ?x ?p] => keep Hs (set_ports x p) end.
  next_trace Hrun Hs. apply call_Done in Hrun as (p & _ & ->).
  destruct Hs as [Hs Hl Hm _]. injection Hs as Hs. split; [|split].
  - cbn [writer set_ports]. rewrite <-Hs. exact H1.
  - exact Hl.
  - cbn [apic_msr set_ports]. rewrite Hm. exact H3.
Qed.

Lemma region_logs boot_info (k k' : Kernel) : verify_apic_region env boot_info k = Done k' → logger_set k = true →
  printed (apic_warning boot_info (Acpi.madt (acpi_data k)) (apic_msr k)) k k'.
Proof.
  intros Hrun Hset. unfold verify_apic_region in Hrun. unfold apic_warning.
  destruct (LocalApic.find_local_apic_base _ _) as [addr|?|?]; [|discriminate Hrun..].
  destruct (LocalApic.verify_in_correct_region _ _).
  - injection Hrun as <-. by apply printed_nil.
  - by apply (klog_printed _ _ _ _ _ _ Hrun Hset).
Qed.

Lemma controllers_logs boot_info (k k' : Kernel) : init_controllers env boot_info k = Done k' →
  logger_set k = true →
  Vga.write_string (writer k) (apic_warning boot_info (Acpi.madt (acpi_data k')) (apic_msr k)) = Ret (writer k') ∧
  logger_set k' = true.
Proof.
  intros Hrun Hset. assert (shown [] k k) as Hs by by apply shown_nil. unfold init_controllers, trace in Hrun.
  next_trace Hrun Hs. next_step Hrun. unfold init_heap in Hstep. apply call_Done in Hstep as ([a m] & _ & ->).
  keep Hs (set_heap k0 a m). next_trace Hrun Hs.
  next_step Hrun. unfold acpi_init in Hstep. apply call_Done in Hstep as ([[data m2] p] & _ & ->).
  next_step Hrun. injection Hrun as <-. unfold apic_init in Hstep.
  next_step Hstep. apply call_Done in Hstep as ([[[[[io local] m3] d] v] msr] & _ & ->).
  destruct Hs as [Hw Hl Hm _]. injection Hw as Hw.
  apply region_logs in Hstep0 as [_ Hp [_ Hl'] Hacpi _]; [|exact Hl].
  cbn [acpi_data enable_interrupts set_cpu set_ports set_apics writer logger_set]. rewrite Hacpi, <-Hm, Hw.
  split; [exact Hp|exact Hl'].
Qed.

Lemma meta_logs s boot_info (k0 k k' : Kernel) : shown s k0 k → meta_init env boot_info k = Done k' →
  shown (s ++ elf_warning boot_info) k0 k'.
Proof.
  intros Hs Hrun. unfold meta_init in Hrun. unfold elf_warning. destruct (Symbols.get_elf_slice _ _) as [data len].
  destruct (minimal_parse env data len) as [e|x].
  - by eapply shown_klog.
  - injection Hrun as <-. rewrite app_nil_r. by eapply shown_keep.
Qed.

Lemma devices_logs boot_info (k k' : Kernel) : init_devices env boot_info k = Done k' → logger_set k = true →
  ∃ infos count p, Pci.init p = Ret (infos, count, ports k') ∧
    shown (elf_warning boot_info ++ pci_text infos count ++ info_sent "Finished Initializing") k k'.
Proof.
  intros Hrun Hset. assert (shown [] k k) as Hs by by apply shown_nil.
  unfold init_devices, trace, info in Hrun. do 2 next_trace Hrun Hs. next_step Hrun.
  apply (meta_logs _ _ _ _ _ Hs) in Hstep. clear Hs. rename Hstep into Hs. next_trace Hrun Hs. next_step Hrun.
  unfold device_init in Hstep. next_trace Hstep Hs.
  apply device_loop_printed in Hstep as (infos & count & Hinit & Hpr); [|apply Hs].
  pose proof (shown_printed _ _ _ _ _ Hs Hpr) as Hs'. clear Hs Hpr. exists infos, count, (ports k5). split.
  - destruct (klog_sent _ _ _ _ _ _ Hrun (sh_logger _ _ _ Hs')) as (_ & -> & _). exact Hinit.
  - rewrite (assoc_L app). unfold info_sent, pci_text. eapply shown_klog; [exact Hs'|exact Hrun|discriminate].
Qed.

(** The console after [init]. *)
Lemma init_logs boot_info (k k' : Kernel) buf i : init env boot_info k = Done k' → writer k = Vga.WRITER →
  framebuffer boot_info = Some (buf, i) →
  ∃ infos count p, Pci.init p = Ret (infos, count, ports k') ∧ logger_set k' = true ∧
    Vga.write_string (Vga.set_fb Vga.WRITER buf i)
      (boot_text boot_info (Acpi.madt (acpi_data k')) (apic_msr k) infos count) = Ret (writer k').
Proof.
  intros Hrun Hw Hfb. unfold init in Hrun. next_step Hrun. next_step Hrun.
  destruct (processor_logs _ _ _ _ _ Hstep Hw Hfb) as (H1 & Hl1 & <-).
  destruct (controllers_logs _ _ _ Hstep0 Hl1) as (H2 & Hl2).
  destruct (devices_logs _ _ _ Hrun Hl2) as (infos & count & p & Hinit & [H3 Hl3 _ Ha]).
  exists infos, count, p. split; [done|]. split; [done|]. unfold boot_text.
  rewrite Logging.write_string_app, H1. cbn [mbind outcome_bind].
  rewrite Logging.write_string_app, Ha, H2. exact H3.
Qed.

(** ** The countdown and the shutdown *)

Context {flaws : FontLaws}.

Lemma countdown_runs fuel ticks m : ∀ (k : Kernel) n, screen_ok k n → short_levels env →
  0 ≤ n → n + 1000 * Z.of_nat m ≤ 2 ^ 32 → 0 ≤ uptime k → uptime k + 1000 * Z.of_nat m < 2 ^ 63 →
  (∀ i j, ticks i j = 1) → (1000 < fuel)%nat →
  ∃ k', countdown env m fuel ticks k = Over k' ∧ screen_ok k' (n + 1000 * Z.of_nat m) ∧
    Vga.write_string (writer k) (countdown_text m) = Ret (writer k') ∧
    uptime k' = uptime k + 1000 * Z.of_nat m ∧ ports k' = ports k ∧ acpi_data k' = acpi_data k.
Proof using flaws.
  induction m as [|m IH]; intros k n Hsc Hshort Hn0 Hn Hup0 Hup Ht Hf.
  { exists k. rewrite !Z.add_0_r. done. }
  cbn [countdown countdown_text].
  destruct (klog_ok env crate_name Logging.Info
    (Vga.chars "See you in " ++ Format.display (Z.of_nat m) ++ Vga.chars " seconds!") k n ltac:(done) Hshort Hsc)
    as (w & s & Hrun & Hsc'); [vm_compute; lia| |lia|].
  { rewrite !length_app. pose proof (Format.length_display (Z.of_nat m)). cbn [Vga.chars length]. lia. }
  destruct (klog_printed _ _ _ _ _ _ Hrun (so_logger _ _ Hsc) ltac:(done)) as [[_ Hw _ _ _] _].
  rewrite Hrun. cbn [uptime set_writer set_serial writer] in *.
  rewrite Pit.sleep_second_exact by (done || lia).
  destruct (IH (set_uptime (set_writer (set_serial k s) w false) (uptime k + 1000)) (n + 1000))
    as (k' & Hcd & Hsc2 & Hw2 & Hup2 & Hrest); [|done|cbn [uptime set_uptime]; lia..|done|done|].
  { refine (screen_same _ _ _ _ _ _ Hsc'); reflexivity. }
  exists k'. split; [exact Hcd|]. split; [by replace (n + 1000 * Z.of_nat (S m)) with (n + 1000 + 1000 * Z.of_nat m) by lia|].
  split; [|split; [cbn [uptime set_uptime] in Hup2; lia|exact Hrest]].
  unfold second_text. rewrite Logging.write_string_app, Hw. exact Hw2.
Qed.

Lemma shutdown_runs (k : Kernel) n : screen_ok k n → short_levels env → 0 ≤ n ≤ 2 ^ 32 →
  ∃ k', shutdown env (Some "TCGTCGTCGTCG") k = Done k' ∧ Vga.writer_ok (writer k') ∧ uptime k' = uptime k ∧
    Vga.write_string (writer k) (shutdown_text (Some System.QemuOld)) = Ret (writer k') ∧
    ports k' = port_write (ports k) 16 0x604 0x2000.
Proof using flaws.
  intros Hsc Hshort Hn. unfold shutdown.
  change (System.detect_hypervisor (Some "TCGTCGTCGTCG")) with (Some System.QemuOld). cbv zeta.
  destruct (klog_ok env "nocciolo_kernel::meta::system" Logging.Info
    (Vga.chars "Requesting shutdown (hypervisor=" ++ debug_hypervisor (Some System.QemuOld) ++ Vga.chars ")")
    k n ltac:(done) Hshort Hsc) as (w & s & Hrun & Hsc'); [apply Nat.leb_le; reflexivity..|done|].
  destruct (klog_printed _ _ _ _ _ _ Hrun (so_logger _ _ Hsc) ltac:(done)) as [[_ Hw _ _ _] _].
  rewrite Hrun. cbn [then_]. eexists. split; [reflexivity|]. split; [exact (so_writer _ _ Hsc')|].
  split; [reflexivity|]. split; [exact Hw|reflexivity].
Qed.

(** A framebuffer that the writer accepts, and a text on it. *)
Lemma first_screen_shows buf i s w' : Vga.writer_ok (Vga.set_fb Vga.WRITER buf i) →
  Vga.write_string (Vga.set_fb Vga.WRITER buf i) s = Ret w' →
  Terminal.shows w' (Terminal.term_string (Terminal.term_new (Vga.fb_width i) (Vga.fb_height i)) s).
Proof using flaws.
  intros Hok Hrun. eapply Terminal.write_string_shows; [exact Hok| |exact Hrun]. apply Terminal.set_fb_shows.
  eapply Vga.geometry_length; [|exact (Vga.wo_geometry _ Hok)]. simpl. by rewrite length_replicate.
Qed.
End Log.

(** ** Properties *)

Section Machine.
Context `{!X86Addr} {xlaws : X86AddrLaws} {M : Type} `{!Mapper M} {mlaws : MapperLaws M}.
Context {FH : Type} `{!FallbackHeap FH}.
Context {P : Type} `{!Ports P} `{!ChainedPics P} {masked : P → Z → bool} {plaws : ChainedPicsLaws P masked}.
Context {latched : P → Z} {conf : P → PciAddress → Z → Z} {host : Pci.PciHost P latched conf}.
Context {D : Type} `{!IoApicDevice D} {sel : D → Z} {reg : D → Z → Z} {ilaws : IoApicLaws D sel reg}.
Context {V : Type} `{!VolatileMem V} {written : V → Z → Z} {vlaws : VolatileMemLaws V written}.
Context {G : Type} `{!DescriptorTable G} {used : G → nat} {entry : G → Z → option Descriptor}.
Context {glaws : DescriptorTableLaws G used entry}.
Context `{!Font} {flaws : FontLaws}.
Context {C N AcpiError AmlError A Regions Elf ElfError : Type} `{!Aml C P N AmlError}.
Local Abbreviation Kernel := (@Kernel M FH P D V G C A Elf).
Local Abbreviation Environment := (@Environment M P C AcpiError AmlError A Regions Elf ElfError).
Context (env : Environment) {reach : Z → Prop}.

(** The boot, with what it printed. *)
Lemma boot_text_run boot_info entries (k : Kernel) a' : fresh_kernel env boot_info k →
  memory_machine (reach := reach) env boot_info k a' → acpi_machine (reach := reach) env boot_info entries →
  apic_machine (reg := reg) k entries →
  ∃ k' buf i infos count p, init env boot_info k = Done k' ∧ screen_ok k' 200000 ∧ uptime k' = uptime k ∧
    framebuffer boot_info = Some (buf, i) ∧ Vga.writer_ok (Vga.set_fb Vga.WRITER buf i) ∧
    Pci.init p = Ret (infos, count, ports k') ∧
    Vga.write_string (Vga.set_fb Vga.WRITER buf i)
      (boot_text env boot_info (Acpi.madt (acpi_data k')) (apic_msr k) infos count) = Ret (writer k').
Proof using xlaws mlaws plaws host ilaws vlaws glaws flaws.
  intros Hfresh Hmem Hacpi Hapic.
  destruct (init_run (masked := masked) (entry := entry) env boot_info entries k a' Hfresh Hmem Hacpi Hapic) as (k' & Hrun & Hb).
  destruct Hfresh as [_ [Hw _] _ _ (buf & i & Hfb & Hok) _].
  destruct (init_logs env boot_info k k' buf i Hrun Hw Hfb) as (infos & count & p & Hinit & _ & Htext).
  exists k', buf, i, infos, count, p. split_and!; try done; apply Hb.
Qed.

(** What [kernel_main] has done when the executor starts. *)
Lemma kernel_main_run boot_info entries (k : Kernel) a' (fuel : nat) (ticks : Z → nat → Z) :
  fresh_kernel env boot_info k → memory_machine (reach := reach) env boot_info k a' →
  acpi_machine (reach := reach) env boot_info entries → apic_machine (reg := reg) k entries →
  0 ≤ uptime k < 2 ^ 62 → (∀ i j, ticks i j = 1) → (1000 < fuel)%nat →
  ∃ k' buf i madt infos count (p p' : P), framebuffer boot_info = Some (buf, i) ∧
    Pci.init p = Ret (infos, count, p') ∧
    kernel_main env boot_info (Some "TCGTCGTCGTCG") fuel ticks k = MainRunning k' ∧
    uptime k' = uptime k + 10000 ∧ ports k' = port_write p' 16 0x604 0x2000 ∧ Vga.writer_ok (writer k') ∧
    Terminal.shows (writer k') (Terminal.term_string (Terminal.term_new (Vga.fb_width i) (Vga.fb_height i))
      (boot_text env boot_info madt (apic_msr k) infos count ++ countdown_text env 10 ++
       shutdown_text env (Some System.QemuOld))).
Proof using xlaws mlaws plaws host ilaws vlaws glaws flaws.
  intros Hfresh Hmem Hacpi Hapic Hup Hticks Hfuel.
  set (k0 := set_serial k (Logging.serial_println (serial k) [Vga.chars "----<[ nocciolo ]>----"])).
  destruct (boot_text_run boot_info entries k0 a')
    as (k1 & buf & i & infos & count & p & Hrun & Hsc & Hut & Hfb & Hok & Hinit & Htext);
    [by destruct Hfresh; split|by destruct Hmem; split|done|by destruct Hapic; split|].
  pose proof (fk_levels _ _ _ Hfresh) as Hshort. change (uptime k0) with (uptime k) in Hut.
  destruct (countdown_runs env fuel ticks 10 k1 200000 Hsc Hshort) as (k2 & Hcd & Hsc2 & Hw2 & Hut2 & Hp2 & _);
    [lia..|done|done|].
  destruct (shutdown_runs env k2 _ Hsc2 Hshort) as (k3 & Hsd & Hok3 & Hut3 & Hw3 & Hp3); [lia|].
  exists k3, buf, i, (Acpi.madt (acpi_data k1)), infos, count, p, (ports k1). split; [done|]. split; [done|].
  split; [unfold kernel_main; fold k0; by rewrite Hrun, Hcd, Hsd|]. split; [lia|]. split; [by rewrite Hp3, Hp2|].
  split; [done|]. apply first_screen_shows with (buf := buf); [done|].
  rewrite Logging.write_string_app. change (apic_msr k) with (apic_msr k0). rewrite Htext. cbn [mbind outcome_bind].
  by rewrite Logging.write_string_app, Hw2.
Qed.

(** C12: After a boot on a machine as the kernel expects it the screen can be read: every
    pixel is the picture of a terminal of that size with the banner, the warnings about
    the local APIC and the kernel image if there are any, two or three lines for each
    device that the enumeration of the bus found, their number, and "Finished
    Initializing", in this order. *)
Theorem boot_log_on_screen boot_info entries (k : Kernel) a'
    (Hfresh : fresh_kernel env boot_info k) (Hmem : memory_machine (reach := reach) env boot_info k a')
    (Hacpi : acpi_machine (reach := reach) env boot_info entries) (Hapic : apic_machine (reg := reg) k entries) :
  ∃ k' buf i infos count p, init env boot_info k = Done k' ∧ framebuffer boot_info = Some (buf, i) ∧
    Pci.init p = Ret (infos, count, ports k') ∧
    Terminal.shows (writer k') (Terminal.term_string (Terminal.term_new (Vga.fb_width i) (Vga.fb_height i))
      (boot_text env boot_info (Acpi.madt (acpi_data k')) (apic_msr k) infos count)).
Proof using xlaws mlaws plaws host ilaws vlaws glaws flaws.
  destruct (boot_text_run boot_info entries k a' Hfresh Hmem Hacpi Hapic)
    as (k' & buf & i & infos & count & p & Hrun & _ & _ & Hfb & Hok & Hinit & Htext).
  exists k', buf, i, infos, count, p. split_and!; try done. by apply first_screen_shows with (buf := buf).
Qed.

(** C19: Were the timer to tick once for every halt of the processor, and no other
    interrupt to come, [kernel_main] would do what it says: ten lines count down from 9 to 0 at a thousand ticks each, the
    shutdown is announced and, under QEMU, requested with 0x2000 at port 0x604.  If the
    machine does not turn off, the executor starts on a screen that shows all of this
    below the log of the boot. *)
Theorem kernel_main_counts_down boot_info entries (k : Kernel) a' (fuel : nat) (ticks : Z → nat → Z)
    (Hfresh : fresh_kernel env boot_info k) (Hmem : memory_machine (reach := reach) env boot_info k a')
    (Hacpi : acpi_machine (reach := reach) env boot_info entries) (Hapic : apic_machine (reg := reg) k entries)
    (Hup : 0 ≤ uptime k < 2 ^ 62) (Hticks : ∀ i j, ticks i j = 1) (Hfuel : (1000 < fuel)%nat) :
  ∃ k' buf i madt infos count (p p' : P), framebuffer boot_info = Some (buf, i) ∧
    Pci.init p = Ret (infos, count, p') ∧
    kernel_main env boot_info (Some "TCGTCGTCGTCG") fuel ticks k = MainRunning k' ∧
    uptime k' = uptime k + 10000 ∧ ports k' = port_write p' 16 0x604 0x2000 ∧ Vga.writer_ok (writer k') ∧
    Terminal.shows (writer k') (Terminal.term_string (Terminal.term_new (Vga.fb_width i) (Vga.fb_height i))
      (boot_text env boot_info madt (apic_msr k) infos count ++ countdown_text env 10 ++
       shutdown_text env (Some System.QemuOld))).
Proof using xlaws mlaws plaws host ilaws vlaws glaws flaws. by eapply kernel_main_run. Qed.

End Machine.

(** ** Witnesses: the small machine of [BootRun] *)

#[local] Existing Instances addr_model Tables.tables_mapper addr_model_laws Tables.tables_laws Pci.bridge_ports
  IoApic.chip_device LocalApic.trace_mem Gdt.list_gdt Vga.sample_font sample_ports_ports sample_pics empty_aml.

Lemma boot_log_on_screen_witness :
  ∃ k' buf i infos count p, init sample_environment (sample_boot_info sample_screen) sample_kernel = Done k' ∧
    sample_screen = Some (buf, i) ∧ Pci.init p = Ret (infos, count, ports k') ∧
    Terminal.shows (writer k') (Terminal.term_string (Terminal.term_new (Vga.fb_width i) (Vga.fb_height i))
      (boot_text sample_environment (sample_boot_info sample_screen) (Acpi.madt (acpi_data k')) 0xFEE00900 infos count)).
Proof.
  exact (boot_log_on_screen (xlaws := addr_model_laws) (mlaws := Tables.tables_laws) (plaws := sample_pics_laws)
    (host := sample_host) (ilaws := IoApic.chip_laws) (vlaws := LocalApic.trace_mem_laws) (glaws := Gdt.list_gdt_laws) (flaws := Vga.sample_font_laws)
    sample_environment (sample_boot_info sample_screen) sample_entries sample_kernel heap_fsb
    sample_fresh sample_memory sample_acpi sample_apic).
Defined.

Lemma kernel_main_counts_down_witness :
  ∃ k' buf i madt infos count p p', sample_screen = Some (buf, i) ∧ Pci.init p = Ret (infos, count, p') ∧
    kernel_main sample_environment (sample_boot_info sample_screen) (Some "TCGTCGTCGTCG") 1001 (λ _ _, 1)
      sample_kernel = MainRunning k' ∧
    uptime k' = 10000 ∧ ports k' = port_write p' 16 0x604 0x2000 ∧ Vga.writer_ok (writer k') ∧
    Terminal.shows (writer k') (Terminal.term_string (Terminal.term_new (Vga.fb_width i) (Vga.fb_height i))
      (boot_text sample_environment (sample_boot_info sample_screen) madt 0xFEE00900 infos count ++
       countdown_text sample_environment 10 ++ shutdown_text sample_environment (Some System.QemuOld))).
Proof.
  refine (kernel_main_counts_down (xlaws := addr_model_laws) (mlaws := Tables.tables_laws) (plaws := sample_pics_laws)
    (host := sample_host) (ilaws := IoApic.chip_laws) (vlaws := LocalApic.trace_mem_laws) (glaws := Gdt.list_gdt_laws) (flaws := Vga.sample_font_laws)
    sample_environment (sample_boot_info sample_screen) sample_entries sample_kernel heap_fsb 1001 (λ _ _, 1)
    sample_fresh sample_memory sample_acpi sample_apic _ _ _).
  - split; [discriminate|reflexivity].
  - reflexivity.
  - apply Nat.ltb_lt. reflexivity.
Defined.

#[local] Existing Instances list_queue Keyboard.bool_waker.

End BootLog.
